(* ===== verification/_CoqProject ===== *)
-Q . S2P
Prelude.v
CLib.v
Posix.v
Db.v
DbLayout.v
DbOps.v
DbChain.v
DbSpec.v
DbScan.v
DbOpen.v
DbFault.v
DbThms.v
Stream.v
Dll.v
Rwlock.v
Wire.v
PrintStatus.v
Printd.v
PrintQueue.v
PrintThread.v
PrintWire.v
PrintTurn.v
PrintClient.v
PrintCmd.v
Errlog.v
Ttymodes.v
Calendar.v
Refcount.v
RefcountInv.v
RefcountSafe.v
RefcountThms.v
Bufargs.v
OpenSys.v
Unixconn.v
Fdpass.v
Opend.v
OpendFrame.v
OpendLoop.v
OpendSelect.v
Tsearch.v
Memstream.v
Qsort.v
QsortHeap.v
QsortMem.v
QsortBits.v
QsortSift.v
QsortThms.v
Random.v
Barrier.v
BarrierMerge.v
BarrierThms.v
Ftw.v
Pbarrier.v
PbarrierInv.v
PbarrierThms.v
