(* ===== verification/Prelude.v ===== *)
(** * A verification of the programs of "Advanced Programming in the UNIX
      Environment" and of parts of the C library that goes with them

    The repository (src/) holds the example programs of the book in
    src/apue.3e and, in src/musl, the C library they are built with.  Most
    programs show one system call.  The development models the ones that keep
    state, follow a protocol or compute something, and the library functions
    these are built from.

    ** The parts and the files

    Foundations:
    - [Prelude] (this file): outcomes of a C function, the state monad with its
      rules [wp] (total correctness) and [safely] (behaviour on every outcome),
      lemmas on lists, tactics and rewrite databases.
    - [CLib]: strings in memory, [strcmp], [atol], decimal output, [snprintf].
    - [Posix]: files, descriptors, record locks and failing system calls, with
      the lock wrappers of lib/lockreg.c and locktest.c in [Module Lockreg].
    - [Stream]: lib/readn.c and writen.c, and [tread] and [treadn] of
      printer/util.c, on descriptors that deliver and accept data in pieces.
    - [Wire]: integers in memory and on the wire.
    - [Dll]: doubly linked lists in a memory of cells.

    The database library, db/db.c and its program db/t4.c: [Db] translates every
    function onto the kernel's state and the handle.  [DbLayout] gives the bytes
    of the two files, [DbOps] what the internal functions do to a layout,
    [DbChain] the invariant of hash chains and free list, [DbSpec] the
    specification as a finite map, [DbScan] sequential access, [DbOpen] opening,
    [DbFault] failing calls, and [DbThms] the theorems.

    The print spooler, printer/printd.c, print.c and util.c: [Printd] (queue,
    worker threads, job numbers, the client thread), [PrintThread] (the printer
    thread, and sockets/clconn2.c), [PrintStatus] (the parser of the printer's
    answer), [PrintQueue], [PrintWire], [PrintTurn] and [PrintClient] (their
    theorems), [PrintCmd] (the print command, and a job's way from the command to
    the spool).

    The open server, ipc2/opend, ipc2/opend.fe and ipc2/open: [OpenSys] is the
    system it runs on; [Unixconn] is lib/cliconn.c, servlisten.c and
    servaccept.c; [Fdpass] is lib/sendfd.c, senderr.c and recvfd.c; [Bufargs] is
    lib/bufargs.c with musl's [strtok]; [Opend] is the handling of a request and
    the client's [csopen]; [OpendFrame] what a request cannot change;
    [OpendLoop] client.c and loop.poll.c; [OpendSelect] loop.select.c.

    Threads: [Rwlock] is the job queue of threads/rwlock.c; [Refcount] is
    threads/mutex2.c, one step per statement, for any number of threads in any
    interleaving, with the invariant in [RefcountInv], its preservation and the
    progress measure in [RefcountSafe], and the theorems in [RefcountThms];
    [Barrier] is threads/barrier.c, a sort by several threads, with what its
    calls do to the arrays in [BarrierMerge] and the theorems about the threads
    in [BarrierThms]; [Pbarrier] is musl's [pthread_barrier_wait], one step per
    access to shared memory, with its invariant in [PbarrierInv] and the theorems in
    [PbarrierThms].

    Library routines: [Errlog] is lib/error.c and errorlog.c; [Ttymodes] is
    lib/ttymodes.c; [Memstream] is exercises/fmemopen.c; [Ftw] is
    filedir/ftw8.c and lib/pathalloc.c; [Calendar] is musl's src/time; [Tsearch] is musl's src/search (the AVL trees); [Random] is musl's
    src/prng/random.c; [Qsort] is musl's src/stdlib/qsort.c on the bytes of an
    array, with the heaps it works on as trees in [QsortHeap], copies in
    [QsortMem], the bit string that describes the heaps in [QsortBits], [sift] and
    [trinkle] in [QsortSift], and the two loops and the theorem in [QsortThms].

    ** How code is modelled

    A function of the source is a definition of the same name where possible.
    Code that acts on state is a function [S -> outcome A * S]: it returns, or
    stops the process in one of the ways of [fatal].  The fixed-size and allocated
    buffers the code writes to keep their sizes, and an access outside is
    [Crash]; a loop that is not structural has a fuel, and running out of it is
    [Hang].  Integers are [Z], with the conversions of C
    written where a value is stored in a narrower type.  What the environment
    does (which calls fail, in which pieces data arrives, what [poll] reports, in
    which order threads run) is part of the state and arbitrary.  The messages
    for [errno], the resolver, the terminal driver, what [open] finds for the
    open server, the names of a file hierarchy, and comparison functions are
    parameters.

    ** What the theorems show

    - The database: on an intact database and without failing calls, every
      operation refines the finite-map specification and leaves the locks free;
      so do sessions of up to 9661 operations (the bound that keeps file offsets
      within the width of a pointer field), scans and reopening.  An operation
      that returns has made no failing call; an operation waits for another
      process's lock before it writes; a key with a colon makes the library
      abort.
    - The spooler: a turn of the printer thread loses no job, when its own calls
      succeed and the printer answers in one piece or not at all; a client's job
      is queued with its files or the queue is unchanged, whatever fails; a job
      travels unchanged from the command to the spool and onto the wire; the job
      list is a queue; job numbers cycle; the IPP header overruns its buffer
      exactly when it is too long.  Two theorems exhibit defects: the parser of
      the answer can loop for ever, and the list of workers loses its second
      entry.
    - The open server: [csopen] gives the client the descriptor the server
      opened, however messages are merged; both loops keep their tables
      consistent whatever clients do and whatever fails, and leave the bounds of
      an object only where [select] is given a descriptor of 1024 or more;
      [serv_accept] and [cli_conn] leave nothing behind when they fail.
    - Threads: in every interleaving threads/mutex2.c uses no freed memory, its
      counts are right, there is no deadlock and every call returns; the queue
      of threads/rwlock.c is a list; in every interleaving threads/barrier.c comes
      to an end and prints its random numbers in ascending order; musl's barrier
      refines the one that program is modelled with, uses no instance that is gone
      and loses no wake.
    - Library routines: [readn] and [writen] deliver exactly the data however it
      is cut; the error line never overruns its buffer; the terminal is in the
      mode the library believes and is restored at exit; arguments are the words
      of the request; the calendar conversions agree with a calendar that
      advances second by second; the trees are balanced dictionaries; a memory
      stream is a file of bounded size; the walk over a file hierarchy meets every
      file once and stays in its buffer; [qsort] sorts, for every order and every
      width, without an access outside the array or an undefined shift; [random]
      is an additive generator whose states can be exchanged.

    ** Fuel and bounds

    Nearly every fuel is computed from the state: the size of a file, the bytes
    or events to come, the length of a chain.  Theorems stated with [wp], or as
    an equation with the result, are total, so they include that the fuel is
    enough.  [printer_status] takes its fuels as arguments, because it may not
    terminate; the theorems ask for at least the length of the answer (the size
    of the read buffer in a turn), or hold for every fuel where they show that
    it never ends.  The loops of the daemons have no end in the source: their
    fuel is the number of events to come, and [Hang] after the last one is the
    daemon waiting.  What is stated with [safely] holds of every return and
    names the ways to stop that are possible.  The search trees have fewer than
    2^64 nodes, which is why the arrays of 96 and 97 slots are large enough.
    [qsort] is shown to sort fewer than 55555780070575 elements (the 65th Leonardo
    number, from which on the code shifts a word by its width) in fewer than 2^62
    bytes; its fuels are the number of elements and the 96 slots of [lp].

    ** Not modelled

    - [main] of printer/printd.c, printer/print.c, ipc2/opend and ipc2/open:
      options, becoming a daemon, address lists and copying to the standard
      output.  The resolver is a parameter.
    - The other files of src/apue.3e/lib: wrappers that set a flag, a signal
      action or a timer, and routines made of [fork], [exec], [wait],
      pseudo-terminal devices or System V semaphores ([popen], [pty_fork],
      [daemonize], semaph.c), for which there is no model of processes here.
    - The other example programs (advio, daemons, datafiles, environ, exercises,
      filedir, fileio, intro, ipc1, the rest of ipc2, proc, pty, relation,
      signals, the rest of sockets, standards, stdio, termios, threadctl and the
      rest of threads).  Most demonstrate what one system call does, which is
      the kernel's behaviour.  Some have logic of their own (threadctl/timeout.c,
      ipc2/open.fe) but rest on timed threads or on [fork], which are not
      modelled.
    - The rest of musl (stdio, malloc, math, regex, locale, network, the other
      parts of threads, the dynamic linker, ...): of it, only what the modelled
      programs call, the calendar, the search trees, the sort, the random numbers
      and the barriers private to a process are modelled.
    - Overflow of a number that [atol] parses; time; memory consumption; and,
      except in [Refcount], [Barrier], [Pbarrier] and [Posix]'s locks of other
      processes, threads and processes that run at the same time. *)

From Stdlib Require Export ZArith Lia.
From stdpp Require Export base gmap list strings numbers.

#[global] Open Scope Z_scope.

(** ** Notation and automation *)

Declare Scope prog_scope.
Delimit Scope prog_scope with prog.
#[global] Open Scope prog_scope.

(** A byte of memory or of a file is an integer in [0, 255]; a [char *] or a
    file's contents is a list of them. *)
Abbreviation bytes := (list Z).

(** [lens] normalises the lengths of list expressions; [arith] holds the
    arithmetic facts that close side conditions. *)
Create Rewrite HintDb lens.
Create HintDb arith.
#[export] Hint Rewrite @length_app @length_take @length_drop @length_replicate
  @length_fmap @length_cons @length_nil @length_insert : lens.

Ltac len := autorewrite with lens in *; cbn [length String.length] in *; lia.
(** Re-associate appends to the right, as lists of pieces. *)
Ltac apps := repeat first [rewrite <- app_assoc | progress cbn [app]].
Ltac destruct_if :=
  match goal with
  | |- context [if ?b then _ else _] => destruct b eqn:?
  | H : context [if ?b then _ else _] |- _ => destruct b eqn:?
  end.

(** ** Outcomes of a C function

    The library of the repository reports fatal errors by calling
    [err_dump] (abort), [err_sys] and [err_quit] (exit 1), so a function
    either returns, or terminates the process in one of these ways; [Exit] and
    [Abort] are the calls themselves.  [Hang] is a call that blocks for ever or
    a loop that does not terminate, [Killed] a signal that terminates the
    process, [Crash] an access outside an allocated object, and [Undefined] other
    undefined behaviour. *)
Inductive fatal :=
| Err_dump (msg : string)
| Err_sys (msg : string)
| Err_quit (msg : string)
| Exit (code : Z)
| Abort
| Hang
| Killed (sig : Z)
| Undefined (what : string)
| Crash.

Inductive outcome (A : Type) :=
| Ret (a : A)
| Stop (e : fatal).
Arguments Ret {A} a.
Arguments Stop {A} e.

(** Imperative code over a state [S]: state passing with fatal outcomes.  The
    state survives a fatal outcome, because files do. *)
Definition M (S A : Type) : Type := S -> outcome A * S.

Section monad.
Context {S : Type}.

Definition ret {A} (a : A) : M S A := fun s => (Ret a, s).
Definition stop {A} (e : fatal) : M S A := fun s => (Stop e, s).
Definition bind {A B} (m : M S A) (f : A -> M S B) : M S B :=
  fun s => match m s with
           | (Ret a, s') => f a s'
           | (Stop e, s') => (Stop e, s')
           end.
Definition get : M S S := fun s => (Ret s, s).
Definition modify (f : S -> S) : M S unit := fun s => (Ret tt, f s).
End monad.

Notation "'let*' x := m 'in' k" := (bind m (fun x => k))
  (at level 10, x name, m at level 100, k at level 200) : prog_scope.
Notation "'let*' ' p := m 'in' k" := (bind m (fun p => k))
  (at level 10, p strict pattern, m at level 100, k at level 200) : prog_scope.
Notation "m ;;; k" := (bind m (fun _ => k))
  (at level 100, k at level 200, right associativity) : prog_scope.

(** Run a computation on a part of the state. *)
Definition zoom {S T A} (g : S -> T) (p : T -> S -> S) (m : M T A) : M S A :=
  fun s => let '(r, t) := m (g s) in (r, p t s).

(** [wp m Q s]: started in [s], [m] returns (it neither stops nor diverges)
    and the result and final state satisfy [Q]. *)
Definition wp {S A} (m : M S A) (Q : A -> S -> Prop) (s : S) : Prop :=
  match m s with
  | (Ret a, s') => Q a s'
  | (Stop _, _) => False
  end.

Lemma wp_ret {S A} (a : A) (Q : A -> S -> Prop) s : Q a s -> wp (ret a) Q s.
Proof. exact id. Qed.

Lemma wp_bind {S A B} (m : M S A) (f : A -> M S B) Q s :
  wp m (fun a s' => wp (f a) Q s') s -> wp (bind m f) Q s.
Proof. unfold wp, bind. destruct (m s) as [[a|e] s']; auto. Qed.

Lemma wp_mono {S A} (m : M S A) (Q Q' : A -> S -> Prop) s :
  wp m Q s -> (forall a s', Q a s' -> Q' a s') -> wp m Q' s.
Proof. unfold wp. destruct (m s) as [[a|e] s']; auto. Qed.

Lemma wp_seq {S A B} (m : M S A) (f : A -> M S B) Q R s :
  wp m Q s -> (forall a s', Q a s' -> wp (f a) R s') -> wp (bind m f) R s.
Proof. intros Hm Hf. apply wp_bind. eapply wp_mono; eauto. Qed.

Lemma wp_get {S} (Q : S -> S -> Prop) (s : S) : Q s s -> wp get Q s.
Proof. exact id. Qed.

Lemma wp_modify {S} f (Q : unit -> S -> Prop) (s : S) :
  Q tt (f s) -> wp (modify f) Q s.
Proof. exact id. Qed.

Lemma wp_zoom {S T A} (g : S -> T) (p : T -> S -> S) (m : M T A) Q s :
  wp m (fun a t => Q a (p t s)) (g s) -> wp (zoom g p m) Q s.
Proof. unfold wp, zoom. destruct (m (g s)) as [[a|e] t]; auto. Qed.

(** [safely ok m Q s]: if [m] returns, the result and the final state satisfy [Q];
    if it stops, the way and the state it stops in satisfy [ok]. *)
Definition safely {S A} (ok : fatal -> S -> Prop) (m : M S A) (Q : A -> S -> Prop) (s : S) : Prop :=
  match m s with
  | (Ret a, s') => Q a s'
  | (Stop e, s') => ok e s'
  end.

Lemma safely_ret {S A} ok (a : A) (Q : A -> S -> Prop) s : Q a s -> safely ok (ret a) Q s.
Proof. exact id. Qed.

Lemma safely_bind {S A B} ok (m : M S A) (f : A -> M S B) Q s :
  safely ok m (fun a s' => safely ok (f a) Q s') s -> safely ok (bind m f) Q s.
Proof. unfold safely, bind. destruct (m s) as [[a|e] s']; auto. Qed.

Lemma safely_seq {S A B} ok (m : M S A) (f : A -> M S B) Q R s :
  safely ok m Q s -> (forall a s', Q a s' -> safely ok (f a) R s') -> safely ok (bind m f) R s.
Proof. intros Hm Hf. apply safely_bind. unfold safely in *. destruct (m s) as [[a|e] s']; [by apply Hf|done]. Qed.

Lemma safely_mono {S A} (ok ok' : fatal -> S -> Prop) (m : M S A) (Q Q' : A -> S -> Prop) s :
  safely ok m Q s -> (forall e s', ok e s' -> ok' e s') -> (forall a s', Q a s' -> Q' a s') -> safely ok' m Q' s.
Proof. unfold safely. destruct (m s) as [[a|e] s']; auto. Qed.

Lemma safely_wp {S A} ok (m : M S A) (Q : A -> S -> Prop) s : wp m Q s -> safely ok m Q s.
Proof. unfold safely, wp. destruct (m s) as [[a|e] s']; [auto|tauto]. Qed.

Lemma safely_zoom {S T A} (g : S -> T) (p : T -> S -> S) ok (m : M T A) Q s :
  safely (fun e t => ok e (p t s)) m (fun a t => Q a (p t s)) (g s) -> safely ok (zoom g p m) Q s.
Proof. unfold safely, zoom. destruct (m (g s)) as [[a|e] t]; auto. Qed.

Lemma wp_run {S A} (m : M S A) Q s :
  wp m Q s -> exists a s', m s = (Ret a, s') /\ Q a s'.
Proof. unfold wp. destruct (m s) as [[a|e] s']; [eauto | tauto]. Qed.

Lemma wp_of_run {S A} (m : M S A) (Q : A -> S -> Prop) s a s' :
  m s = (Ret a, s') -> Q a s' -> wp m Q s.
Proof. unfold wp. intros -> ?; auto. Qed.

(** The outcome of a sequence whose first part returns. *)
Lemma bind_fst {S A B} (m : M S A) (f : A -> M S B) s r :
  wp m (fun a s' => (f a s').1 = r) s -> (bind m f s).1 = r.
Proof. unfold wp, bind. destruct (m s) as [[a|e] s']; [auto | tauto]. Qed.

Lemma bind_stop {S A B} (m : M S A) (f : A -> M S B) s e :
  (m s).1 = Stop e -> (bind m f s).1 = Stop e.
Proof. unfold bind. destruct (m s) as [[a|e'] s']; cbn; congruence. Qed.

Lemma bind_bind {S A B C} (m : M S A) (f : A -> M S B) (g : B -> M S C) s :
  bind (bind m f) g s = bind m (fun a => bind (f a) g) s.
Proof. unfold bind. by destruct (m s) as [[a|e] s']. Qed.

(** ** Lists of variable-sized records laid end to end *)

Section segments.
Context {A : Type} (sz : A -> Z).
Hypothesis sz_pos : forall a, 0 < sz a.

Fixpoint total (l : list A) : Z :=
  match l with
  | [] => 0
  | a :: l' => sz a + total l'
  end.

(** The record that starts at offset [off], the list starting at [base]. *)
Fixpoint seek (base : Z) (l : list A) (off : Z) : option A :=
  match l with
  | [] => None
  | a :: l' => if off =? base then Some a else seek (base + sz a) l' off
  end.

(** Replace the record that starts at [off]. *)
Fixpoint reseek (base : Z) (l : list A) (off : Z) (x : A) : list A :=
  match l with
  | [] => []
  | a :: l' => if off =? base then x :: l'
               else a :: reseek (base + sz a) l' off x
  end.

Lemma total_app l1 l2 : total (l1 ++ l2) = total l1 + total l2.
Proof. induction l1 as [|a l1 IH]; cbn; [lia | rewrite IH; lia]. Qed.

Lemma total_nonneg l : 0 <= total l.
Proof.
  induction l as [|a l IH]; cbn; [lia | pose proof (sz_pos a); lia].
Qed.

Lemma seek_range base l off a :
  seek base l off = Some a -> base <= off /\ off + sz a <= base + total l.
Proof.
  revert base; induction l as [|b l IH]; intros base H; [done|].
  cbn in *. destruct (Z.eqb_spec off base) as [->|Hne].
  - inv H. pose proof (total_nonneg l). lia.
  - apply IH in H. pose proof (sz_pos b). lia.
Qed.

Lemma seek_split base l off a :
  seek base l off = Some a ->
  exists pre post, l = pre ++ a :: post /\ off = base + total pre.
Proof.
  revert base; induction l as [|b l IH]; intros base H; [done|].
  cbn in H. destruct (Z.eqb_spec off base) as [->|Hne].
  - inv H. exists [], l. cbn. split; [done | lia].
  - apply IH in H as (pre & post & -> & ->).
    exists (b :: pre), post. cbn. split; [done | lia].
Qed.

Lemma seek_mid base pre a post :
  seek base (pre ++ a :: post) (base + total pre) = Some a.
Proof.
  revert base; induction pre as [|b pre IH]; intros base; cbn.
  - rewrite Z.add_0_r, Z.eqb_refl. done.
  - pose proof (total_nonneg pre). pose proof (sz_pos b).
    destruct (Z.eqb_spec (base + (sz b + total pre)) base); [lia|].
    rewrite Z.add_assoc. apply IH.
Qed.

Lemma reseek_mid base pre a post x :
  reseek base (pre ++ a :: post) (base + total pre) x = pre ++ x :: post.
Proof.
  revert base; induction pre as [|b pre IH]; intros base; cbn.
  - rewrite Z.add_0_r, Z.eqb_refl. done.
  - pose proof (total_nonneg pre). pose proof (sz_pos b).
    destruct (Z.eqb_spec (base + (sz b + total pre)) base); [lia|].
    rewrite Z.add_assoc, IH. done.
Qed.

Lemma seek_app_last base l a : seek base (l ++ [a]) (base + total l) = Some a.
Proof. apply seek_mid. Qed.

Lemma seek_app_other base l a off :
  off <> base + total l -> seek base (l ++ [a]) off = seek base l off.
Proof.
  revert base; induction l as [|b l IH]; intros base Hne; cbn in *.
  - destruct (Z.eqb_spec off base); [lia | done].
  - destruct (off =? base); [done | apply IH; lia].
Qed.

Lemma seek_reseek base l off off' a x :
  seek base l off = Some a -> sz x = sz a ->
  seek base (reseek base l off x) off' =
    if off =? off' then Some x else seek base l off'.
Proof.
  revert base; induction l as [|b l IH]; intros base H Hsz; [done|].
  cbn in H |- *. destruct (Z.eqb_spec off base) as [->|Hne].
  - inv H. cbn. rewrite Hsz, (Z.eqb_sym off' base).
    destruct (base =? off'); done.
  - cbn. destruct (Z.eqb_spec off' base) as [->|Hne'].
    + destruct (Z.eqb_spec off base); done.
    + apply IH; auto.
Qed.

Lemma seek_reseek_sz base l off a x :
  seek base l off = Some a -> sz x = sz a ->
  total (reseek base l off x) = total l.
Proof.
  intros (pre & post & -> & ->)%seek_split Hsz.
  rewrite reseek_mid, !total_app. cbn. lia.
Qed.
End segments.

Arguments total {A} sz l.
Arguments seek {A} sz base l off.
Arguments reseek {A} sz base l off x.

Lemma total_snoc {A} (sz : A -> Z) l a : total sz (l ++ [a]) = total sz l + sz a.
Proof. induction l as [|b l IH]; cbn; lia. Qed.

Lemma total_insert {A} (sz : A -> Z) l i a a' : l !! i = Some a -> total sz (<[i := a']> l) = total sz l - sz a + sz a'.
Proof.
  revert i. induction l as [|b l IH]; intros [|i] H; [done|done|injection H as ->; cbn; lia|].
  change (sz b + total sz (<[i := a']> l) = sz b + total sz l - sz a + sz a'). rewrite (IH i H). lia.
Qed.

(** ** Overwriting a region of a list *)

Lemma drop_eq {A} (pre l b : list A) i : b = pre ++ l -> i = length pre -> drop i b = l.
Proof. intros -> ->. apply drop_app_length. Qed.

(** [overwrite n s l]: the contents of a file [l] after the bytes [s] are
    written at offset [n]; a gap past the end is filled with zero bytes. *)
Definition overwrite (n : nat) (s l : bytes) : bytes :=
  take n (l ++ replicate (n - length l)%nat 0) ++ s ++ drop (n + length s)%nat l.

Lemma overwrite_mid (p s0 s q : bytes) :
  length s = length s0 ->
  overwrite (length p) s (p ++ s0 ++ q) = p ++ s ++ q.
Proof.
  intros H. unfold overwrite.
  replace (length p - length (p ++ s0 ++ q))%nat with 0%nat by len.
  cbn. rewrite app_nil_r, take_app_length. f_equal. f_equal.
  rewrite H, <- length_app, (assoc_L (++)), drop_app_length. done.
Qed.

Lemma overwrite_eq n (p s0 s q b : bytes) :
  b = p ++ s0 ++ q -> n = length p -> length s = length s0 -> overwrite n s b = p ++ s ++ q.
Proof. intros -> ->. apply overwrite_mid. Qed.

Lemma overwrite_length n d l :
  (n + length d <= length l)%nat -> length (overwrite n d l) = length l.
Proof.
  intros. unfold overwrite. replace (n - length l)%nat with 0%nat by lia.
  cbn. rewrite app_nil_r. len.
Qed.

Lemma overwrite_end (p s : bytes) : overwrite (length p) s p = p ++ s.
Proof.
  unfold overwrite. replace (length p - length p)%nat with 0%nat by lia.
  cbn. rewrite app_nil_r, firstn_all, drop_ge by lia. by rewrite app_nil_r.
Qed.

(** A sub-list of [l]: [n] bytes from offset [off]. *)
Definition sub (off n : nat) (l : bytes) : bytes := take n (drop off l).

Lemma sub_mid (p s q : bytes) n :
  n = length s -> sub (length p) n (p ++ s ++ q) = s.
Proof.
  intros ->. unfold sub. rewrite drop_app_length, take_app_length. done.
Qed.

(** ** Strings as byte lists *)

(** The bytes of a string literal of the source. *)
Definition str (s : string) : bytes :=
  map (fun a => Z.of_N (Ascii.N_of_ascii a)) (String.list_ascii_of_string s).

Lemma length_str s : length (str s) = String.length s.
Proof. unfold str. rewrite length_fmap. induction s as [|c s IH]; cbn; [done|]. by rewrite IH. Qed.
#[export] Hint Rewrite length_str : lens.
