(* ===== verification/CLib.v ===== *)
(** * The C library routines the programs call

    Pure models of the string and conversion functions of the C library, on
    byte lists: the contents of a [char] array up to its end, the string being
    the part before the first null byte.  [atol] and [atoi] follow
    src/musl/src/stdlib; the others are what the programs use of the
    formatted-output and string functions. *)

From S2P Require Import Prelude.

(** ** Character constants and classes *)

Definition NUL : Z := 0.
Definition isdigit (c : Z) : bool := (48 <=? c) && (c <=? 57).
Definition isspace (c : Z) : bool := (c =? 32) || ((9 <=? c) && (c <=? 13)).

(** [char] is signed on the platforms of the build. *)
Definition schar (c : Z) : Z := if c <? 128 then c else c - 256.

(** Conversions to the fixed-width integer types. *)
Definition to_u64 (z : Z) : Z := z mod 2 ^ 64.
Definition to_u32 (z : Z) : Z := z mod 2 ^ 32.
Definition to_i32 (z : Z) : Z := (z + 2 ^ 31) mod 2 ^ 32 - 2 ^ 31.

Lemma to_i32_small n : - 2 ^ 31 <= n < 2 ^ 31 -> to_i32 n = n.
Proof. intros H. unfold to_i32. rewrite Z.mod_small; lia. Qed.

Lemma to_i32_u64 z : to_i32 (to_u64 z) = to_i32 z.
Proof.
  unfold to_i32, to_u64. f_equal. rewrite <- Z.add_mod_idemp_l, Z.mod_mod_divide, Z.add_mod_idemp_l; try done. by exists (2 ^ 32).
Qed.

(** ** Strings in memory *)

(** The string that starts at the head of a buffer. *)
Fixpoint cstr (l : bytes) : bytes :=
  match l with
  | [] => []
  | c :: l' => if c =? NUL then [] else c :: cstr l'
  end.

Definition strlen (l : bytes) : Z := Z.of_nat (length (cstr l)).

(** [strchr] for a non-null character: the index of its first occurrence. *)
Fixpoint strchr (l : bytes) (c : Z) : option nat :=
  match l with
  | [] => None
  | x :: l' => if x =? c then Some 0%nat
               else if x =? NUL then None
               else S <$> strchr l' c
  end.

(** [strcmp]: the difference of the first bytes that differ; the end of the
    list is the terminating null byte. *)
Fixpoint strcmp (l r : bytes) : Z :=
  match l, r with
  | [], [] => 0
  | [], y :: _ => - y
  | x :: _, [] => x
  | x :: l', y :: r' => if (x =? y) && negb (x =? 0) then strcmp l' r' else x - y
  end.

(** [strncmp] and [strncasecmp]: at most [n] characters. *)
Definition tolower (c : Z) : Z := if (65 <=? c) && (c <=? 90) then c + 32 else c.

Fixpoint strncmp_by (f : Z -> Z) (n : nat) (l r : bytes) : Z :=
  match n with
  | O => 0
  | S n' =>
      let x := hd 0 l in
      let y := hd 0 r in
      if negb (f x =? f y) || (x =? NUL) then f x - f y
      else strncmp_by f n' (tl l) (tl r)
  end.
Definition strncmp := strncmp_by (fun c => c).
Definition strncasecmp := strncmp_by tolower.

(** ** Conversions between numbers and decimal text *)

Fixpoint skipspace (s : bytes) : bytes :=
  match s with
  | c :: s' => if isspace c then skipspace s' else s
  | [] => []
  end.

(** The digit loop: [n] accumulates the negated value. *)
Fixpoint atol_digits (s : bytes) (n : Z) : Z :=
  match s with
  | c :: s' => if isdigit c then atol_digits s' (10 * n - (c - 48)) else n
  | [] => n
  end.

Definition atol (s : bytes) : Z :=
  match skipspace s with
  | 45 :: s' => atol_digits s' 0
  | 43 :: s' => - atol_digits s' 0
  | s' => - atol_digits s' 0
  end.

Definition atoi (s : bytes) : Z := atol s.

(** The decimal digits of a non-negative number ([%d], [%ld], [%lld]). *)
Fixpoint digits (fuel : nat) (n : Z) (acc : bytes) : bytes :=
  match fuel with
  | O => acc
  | S f => let acc' := (48 + n mod 10) :: acc in
           if n / 10 =? 0 then acc' else digits f (n / 10) acc'
  end.

Definition udec (n : Z) : bytes := digits (S (Z.to_nat (Z.log2 n))) n [].
Definition dec (n : Z) : bytes := if n <? 0 then 45 :: udec (- n) else udec n.

(** [%*s], [%*d]: pad with blanks on the left. *)
Definition padl (w : nat) (s : bytes) : bytes := replicate (w - length s) 32 ++ s.

(** [snprintf(buf, size, ...)]: what is left in the buffer, of the text [s]. *)
Definition snprintf (size : nat) (s : bytes) : bytes :=
  match size with
  | O => []
  | S k => take k s ++ [NUL]
  end.

(** ** Facts about strings *)

(** A C string: no null byte inside. *)
Definition nonul (s : bytes) : Prop := Forall (fun c => c <> 0) s.

Lemma nonul_app s t : nonul (s ++ t) <-> nonul s /\ nonul t.
Proof. apply Forall_app. Qed.

Lemma nonul_app_2 s t : nonul s -> nonul t -> nonul (s ++ t).
Proof. apply Forall_app_2. Qed.

Lemma cstr_nonul s : nonul (cstr s).
Proof.
  induction s as [|c s IH]; cbn; [constructor|].
  unfold NUL. destruct (Z.eqb_spec c 0); [constructor | by constructor].
Qed.

Lemma cstr_end s t : nonul s -> cstr (s ++ 0 :: t) = s.
Proof.
  induction 1 as [|c s Hc _ IH]; cbn; [done|].
  unfold NUL. destruct (Z.eqb_spec c 0); [done|]. by rewrite IH.
Qed.

Lemma cstr_id s : nonul s -> cstr s = s.
Proof.
  induction 1 as [|c s Hc _ IH]; cbn; [done|].
  unfold NUL. destruct (Z.eqb_spec c 0); [done|]. by rewrite IH.
Qed.

Lemma strcmp_0 l r : strcmp l r = 0 <-> cstr l = cstr r.
Proof.
  revert r; induction l as [|x l IH]; intros [|y r]; cbn; unfold NUL.
  - done.
  - destruct (Z.eqb_spec y 0); split; intros; simplify_eq; done || lia.
  - destruct (Z.eqb_spec x 0); split; intros; simplify_eq; done || lia.
  - destruct (Z.eqb_spec x y) as [->|Hxy]; cbn.
    + destruct (Z.eqb_spec y 0) as [->|Hy]; cbn; [split; auto; lia|].
      rewrite IH. split; [by intros -> | by intros [=]].
    + destruct (Z.eqb_spec x 0), (Z.eqb_spec y 0); subst; split;
        intros; simplify_eq; done || lia.
Qed.

Lemma strchr_first s t c :
  nonul s -> Forall (fun x => x <> c) s -> strchr (s ++ c :: t) c = Some (length s).
Proof.
  induction 1 as [|x s Hx _ IH]; intros Hc; cbn.
  - by rewrite Z.eqb_refl.
  - inv Hc. unfold NUL. destruct (Z.eqb_spec x c); [done|].
    destruct (Z.eqb_spec x 0); [done|]. rewrite IH; done.
Qed.

Lemma strchr_none s t c :
  nonul s -> Forall (fun x => x <> c) s -> c <> 0 -> strchr (s ++ 0 :: t) c = None.
Proof.
  intros Hs Hc H0. induction Hs as [|x s Hx _ IH]; cbn [app strchr]; unfold NUL.
  - destruct (Z.eqb_spec 0 c); [lia | done].
  - inv Hc. destruct (Z.eqb_spec x c); [done|].
    destruct (Z.eqb_spec x 0); [done|]. rewrite IH; done.
Qed.

(** ** Facts about decimal text *)

Definition digit (c : Z) : Prop := 48 <= c <= 57.

Lemma isdigit_spec c : isdigit c = true <-> digit c.
Proof. unfold isdigit, digit. lia. Qed.

Lemma digits_spec f n acc :
  0 <= n < 10 ^ Z.of_nat f -> (0 < f)%nat ->
  exists ds, digits f n acc = ds ++ acc /\ Forall digit ds /\
    (forall t m, atol_digits (ds ++ t) m =
                 atol_digits t (10 ^ Z.of_nat (length ds) * m - n)) /\
    (forall k, (0 < k)%nat -> n < 10 ^ Z.of_nat k -> (length ds <= k)%nat) /\
    (0 < length ds)%nat.
Proof.
  revert n acc; induction f as [|f IH]; intros n acc Hn Hf; [lia|]. cbn [digits].
  assert (Hd : digit (48 + n mod 10)).
  { unfold digit. pose proof (Z.mod_pos_bound n 10). lia. }
  pose proof (Z.div_mod n 10 ltac:(lia)) as Hdm.
  destruct (Z.eqb_spec (n / 10) 0) as [Hz|Hz].
  - exists [48 + n mod 10]. split; [done|]. split; [by apply Forall_singleton|].
    split; [|split; [cbn; lia | cbn; lia]].
    intros t m. cbn [app atol_digits length].
    apply isdigit_spec in Hd. rewrite Hd. f_equal. change (10 ^ Z.of_nat 1) with 10. lia.
  - assert (0 < f)%nat. { destruct f; [|lia]. exfalso. apply Hz. apply Z.div_small. cbn in Hn. lia. }
    rewrite Nat2Z.inj_succ, Z.pow_succ_r in Hn by lia.
    destruct (IH (n / 10) ((48 + n mod 10) :: acc)) as (ds & E & Hds & Hv & Hl & Hp);
      [split; [apply Z.div_pos; lia | apply Z.div_lt_upper_bound; lia] | done |].
    exists (ds ++ [48 + n mod 10]). rewrite E, <- app_assoc. split; [done|].
    split; [by apply Forall_app; rewrite Forall_singleton|]. split; [|split].
    + intros t m. rewrite <- app_assoc. rewrite Hv. cbn [app atol_digits].
      apply isdigit_spec in Hd. rewrite Hd. f_equal.
      rewrite length_app. cbn [length]. rewrite Nat2Z.inj_add, Z.pow_add_r by lia.
      change (10 ^ Z.of_nat 1) with 10. lia.
    + intros [|[|k]] Hk Hnk; [lia| |].
      * exfalso. apply Hz, Z.div_small. cbn in Hnk. lia.
      * rewrite length_app. cbn [length].
        enough (length ds <= S k)%nat by lia. apply Hl; [lia|].
        rewrite Nat2Z.inj_succ, Z.pow_succ_r in Hnk by lia.
        apply Z.div_lt_upper_bound; lia.
    + len.
Qed.

Lemma udec_spec n :
  0 <= n ->
  Forall digit (udec n) /\
  (forall t m, atol_digits (udec n ++ t) m =
               atol_digits t (10 ^ Z.of_nat (length (udec n)) * m - n)) /\
  (forall k, (0 < k)%nat -> n < 10 ^ Z.of_nat k -> (length (udec n) <= k)%nat) /\
  (0 < length (udec n))%nat.
Proof.
  intros Hn. unfold udec.
  destruct (digits_spec (S (Z.to_nat (Z.log2 n))) n []) as (ds & E & H); [|lia|].
  - split; [done|]. rewrite Nat2Z.inj_succ, Z2Nat.id by apply Z.log2_nonneg.
    destruct (Z.eq_dec n 0) as [->|]; [reflexivity|].
    pose proof (Z.log2_spec n ltac:(lia)). pose proof (Z.log2_nonneg n).
    apply Z.lt_le_trans with (2 ^ Z.succ (Z.log2 n)); [lia|].
    apply Z.pow_le_mono_l. lia.
  - rewrite app_nil_r in E. rewrite E. tauto.
Qed.

Lemma dec_nonneg n : 0 <= n -> dec n = udec n.
Proof. intros. unfold dec. destruct (Z.ltb_spec n 0); [lia | done]. Qed.

Lemma dec_digits n : 0 <= n -> Forall digit (dec n).
Proof. intros. rewrite dec_nonneg by done. by apply udec_spec. Qed.

Lemma dec_length n k :
  (0 < k)%nat -> 0 <= n < 10 ^ Z.of_nat k -> (0 < length (dec n) <= k)%nat.
Proof.
  intros. rewrite dec_nonneg by lia.
  destruct (udec_spec n) as (_ & _ & Hl & Hp); [lia|].
  split; [lia|]. apply Hl; lia.
Qed.

Lemma skipspace_pad n s : skipspace (replicate n 32 ++ s) = skipspace s.
Proof. induction n as [|n IH]; [done|]. cbn. apply IH. Qed.

Lemma atol_nosign c s :
  c <> 45 -> c <> 43 -> isspace c = false -> atol (c :: s) = - atol_digits (c :: s) 0.
Proof.
  intros H1 H2 Hs. unfold atol. cbn [skipspace]. rewrite Hs.
  destruct c as [|p|p]; [done| |done].
  do 6 (destruct p as [p|p|]; try done).
Qed.

(** What [atol] reads back from [%*d] of a non-negative number, followed by
    anything that does not continue the number. *)
Lemma atol_dec_pad w n t :
  0 <= n -> atol_digits t (- n) = - n -> atol (padl w (dec n) ++ t) = n.
Proof.
  intros Hn Ht. unfold padl. rewrite <- app_assoc, dec_nonneg by done.
  destruct (udec_spec n Hn) as (Hd & Hv & _ & Hp).
  specialize (Hv t 0). replace (10 ^ _ * 0 - n) with (- n) in Hv by lia.
  rewrite Ht in Hv.
  replace (atol (replicate _ 32 ++ udec n ++ t)) with (atol (udec n ++ t)).
  2:{ unfold atol. by rewrite skipspace_pad. }
  destruct (udec n) as [|c ds]; [cbn in Hp; lia|]. inv Hd. unfold digit in *.
  cbn [app] in *. rewrite atol_nosign, Hv; [lia|lia|lia|].
  unfold isspace. lia.
Qed.

Lemma atol_dec n t :
  0 <= n -> atol_digits t (- n) = - n -> atol (dec n ++ t) = n.
Proof. apply (atol_dec_pad 0). Qed.

Lemma padl_length w s : (length s <= w)%nat -> length (padl w s) = w.
Proof. unfold padl. intros. len. Qed.

Lemma digit_nonul s : Forall digit s -> nonul s.
Proof. intros H. eapply Forall_impl; [|exact H]. unfold digit. lia. Qed.

Lemma digit_no c s : ~ digit c -> Forall digit s -> Forall (fun x => x <> c) s.
Proof. intros Hc H. eapply Forall_impl; [|exact H]. intros x Hx ->. auto. Qed.

Lemma snprintf_fits k s : (length s < k)%nat -> snprintf k s = s ++ [0].
Proof. destruct k as [|k]; cbn; intros; [lia|]. by rewrite take_ge by lia. Qed.

Lemma dec_nonul n : nonul (dec n).
Proof.
  unfold dec. destruct (Z.ltb_spec n 0).
  - constructor; [done|]. rewrite <- dec_nonneg by lia. apply digit_nonul, dec_digits. lia.
  - rewrite <- dec_nonneg by lia. by apply digit_nonul, dec_digits.
Qed.

Lemma padl_nonul n t : nonul t -> nonul (padl n t).
Proof. intros Ht. unfold padl. apply nonul_app_2; [|done]. by apply Forall_replicate. Qed.

(** Texts put together from strings. *)
Ltac nonuls := repeat first
  [ simple apply padl_nonul | simple apply nonul_app_2 | apply dec_nonul | apply cstr_nonul | assumption
  | match goal with H : forall e, nonul (?f e) |- nonul (?f _) => apply H end
  | by repeat (apply Forall_cons; [done|]); apply Forall_nil ].

(** ** Comparison functions

    What a function that is passed to [qsort] or [tsearch] has to satisfy. *)
Class Order {K} (cmp : K -> K -> Z) : Prop := {
  cmp_refl x : cmp x x = 0;
  cmp_opp x y : cmp x y < 0 <-> 0 < cmp y x;
  cmp_trans x y z : cmp x y < 0 -> cmp y z < 0 -> cmp x z < 0;
  cmp_same x y z : cmp x y = 0 -> cmp y z < 0 -> cmp x z < 0 }.

Section order.
Context {K} {cmp : K -> K -> Z} `{!Order cmp}.

Lemma cmp_total x y : cmp x y <= 0 \/ cmp y x <= 0.
Proof. pose proof (cmp_opp y x). lia. Qed.

Lemma cmp_le x y : 0 <= cmp x y <-> cmp y x <= 0.
Proof. pose proof (cmp_opp x y). pose proof (cmp_opp y x). lia. Qed.

Lemma cmp_gt x y : 0 < cmp x y -> cmp y x <= 0.
Proof. pose proof (cmp_opp y x). lia. Qed.

Lemma cmp_le_trans x y z : cmp x y <= 0 -> cmp y z <= 0 -> cmp x z <= 0.
Proof.
  intros H1 H2. destruct (Z.le_gt_cases (cmp x z) 0) as [|H3]; [done|]. apply cmp_opp in H3.
  destruct (Z.eq_dec (cmp y z) 0) as [E|].
  - pose proof (cmp_same _ _ _ E H3). pose proof (proj1 (cmp_opp y x)). lia.
  - assert (Hl : cmp y z < 0) by lia. pose proof (cmp_trans _ _ _ Hl H3). pose proof (proj1 (cmp_opp y x)). lia.
Qed.
End order.

(** ** Fields of a word: bits that do not overlap *)

Lemma land_disjoint a b k : 0 <= k -> 0 <= a < 2 ^ k -> Z.land a (b * 2 ^ k) = 0.
Proof.
  intros Hk Ha. apply Z.bits_inj'. intros i Hi. rewrite Z.land_spec, Z.bits_0. destruct (Z.lt_ge_cases i k).
  - by rewrite Z.mul_pow2_bits_low, andb_false_r.
  - rewrite <- (Z.mod_small a (2 ^ k)) by done. by rewrite Z.mod_pow2_bits_high.
Qed.

Lemma lor_add a b k : 0 <= k -> 0 <= a < 2 ^ k -> Z.lor a (b * 2 ^ k) = a + b * 2 ^ k.
Proof. intros. rewrite <- Z.add_lor_land, land_disjoint by done. lia. Qed.
