(* ===== verification/Posix.v ===== *)
(** * The operating-system interface

    The part of the kernel's state the programs act on: regular files by
    pathname, the process's descriptor table with file offsets, record locks
    (fcntl byte-range locks of this and of other processes), [errno], and a
    stream of failures that says which of the coming system calls fail.  Each
    system call is a function on that state.  [Module Lockreg] holds the
    record-locking wrappers of src/apue.3e/lib/lockreg.c and locktest.c and the
    macros of src/apue.3e/include/apue.h. *)

From S2P Require Import Prelude CLib.

Inductive ltype := F_RDLCK | F_WRLCK | F_UNLCK.
Inductive lcmd := F_SETLK | F_SETLKW.
Inductive whence := SEEK_SET | SEEK_CUR | SEEK_END.

#[export] Instance ltype_eq_dec : EqDecision ltype.
Proof. solve_decision. Defined.
#[export] Instance whence_eq_dec : EqDecision whence.
Proof. solve_decision. Defined.

(** Error numbers and [open] flags (Linux values). *)
Definition ENOENT : Z := 2.
Definition EINTR : Z := 4.
Definition EIO : Z := 5.
Definition EBADF : Z := 9.
Definition EAGAIN : Z := 11.
Definition EEXIST : Z := 17.
Definition EINVAL : Z := 22.
Definition EMFILE : Z := 24.
Definition O_RDWR : Z := 2.
Definition O_CREAT : Z := 64.
Definition O_EXCL : Z := 128.
Definition O_TRUNC : Z := 512.

(** A record lock as [struct flock] describes it: [l_len] 0 means to EOF and
    beyond. *)
Record flock := Flock {
  l_pid : Z; l_path : bytes; l_type : ltype; l_start : Z; l_len : Z }.

Record world := World {
  w_fs : gmap bytes bytes;
  w_fds : gmap Z (bytes * Z);
  w_locks : bytes -> Z -> ltype;
  w_other : list flock;
  w_faults : list (option Z);
  w_errno : Z }.

Definition set_fs x w := World x (w_fds w) (w_locks w) (w_other w) (w_faults w) (w_errno w).
Definition set_fds x w := World (w_fs w) x (w_locks w) (w_other w) (w_faults w) (w_errno w).
Definition set_locks x w := World (w_fs w) (w_fds w) x (w_other w) (w_faults w) (w_errno w).
Definition set_faults x w := World (w_fs w) (w_fds w) (w_locks w) (w_other w) x (w_errno w).
Definition set_errno x w := World (w_fs w) (w_fds w) (w_locks w) (w_other w) (w_faults w) x.

(** A system call that may fail: when the next entry of the failure stream is
    [Some e] it returns [bad] with [errno] set to [e] and has no effect. *)
Definition attempt {A} (bad : A) (m : M world A) : M world A :=
  fun w => match w_faults w with
           | Some e :: fs => (Ret bad, set_errno e (set_faults fs w))
           | None :: fs => m (set_faults fs w)
           | [] => m w
           end.

Definition fail_with {A} (bad : A) (e : Z) : M world A :=
  fun w => (Ret bad, set_errno e w).

(** ** Files *)

Definition file_size (p : bytes) (w : world) : Z :=
  Z.of_nat (length (default [] (w_fs w !! p))).

Definition seek_base (p : bytes) (pos : Z) (wh : whence) (w : world) : Z :=
  match wh with
  | SEEK_SET => 0
  | SEEK_CUR => pos
  | SEEK_END => file_size p w
  end.

Definition lseek (fd off : Z) (wh : whence) : M world Z :=
  attempt (-1) (fun w =>
    match w_fds w !! fd with
    | None => fail_with (-1) EBADF w
    | Some (p, pos) =>
        let new := seek_base p pos wh w + off in
        if new <? 0 then fail_with (-1) EINVAL w
        else (Ret new, set_fds (<[fd := (p, new)]> (w_fds w)) w)
    end).

(** [read] returns the count and the bytes it put in the buffer. *)
Definition read (fd : Z) (n : nat) : M world (Z * bytes) :=
  attempt (-1, []) (fun w =>
    match w_fds w !! fd with
    | None => fail_with (-1, []) EBADF w
    | Some (p, pos) =>
        let d := sub (Z.to_nat pos) n (default [] (w_fs w !! p)) in
        (Ret (Z.of_nat (length d), d),
         set_fds (<[fd := (p, pos + Z.of_nat (length d))]> (w_fds w)) w)
    end).

(** [readv] into consecutive buffers: the bytes of all of them. *)
Definition readv (fd : Z) (ns : list nat) : M world (Z * bytes) :=
  read fd (foldr Nat.add 0%nat ns).

Definition write (fd : Z) (d : bytes) : M world Z :=
  attempt (-1) (fun w =>
    match w_fds w !! fd with
    | None => fail_with (-1) EBADF w
    | Some (p, pos) =>
        let old := default [] (w_fs w !! p) in
        (Ret (Z.of_nat (length d)),
         set_fds (<[fd := (p, pos + Z.of_nat (length d))]> (w_fds w))
           (set_fs (<[p := overwrite (Z.to_nat pos) d old]> (w_fs w)) w))
    end).

(** [writev] of consecutive buffers. *)
Definition writev (fd : Z) (ds : list bytes) : M world Z := write fd (concat ds).

(** The lowest descriptor not in use: none of the first [length + 1] numbers
    can all be taken. *)
Fixpoint lowest_free {A} (fuel : nat) (fd : Z) (fds : gmap Z A) : Z :=
  match fuel with
  | O => fd
  | S f => match fds !! fd with
           | None => fd
           | Some _ => lowest_free f (fd + 1) fds
           end
  end.

Definition has_flag (x f : Z) : bool := negb (Z.land x f =? 0).

Definition open (p : bytes) (oflag : Z) : M world Z :=
  attempt (-1) (fun w =>
    let fd := lowest_free (S (size (w_fds w))) 0 (w_fds w) in
    let opened c := (Ret fd, set_fds (<[fd := (p, 0)]> (w_fds w))
                               (set_fs (<[p := c]> (w_fs w)) w)) in
    match w_fs w !! p with
    | None => if has_flag oflag O_CREAT then opened []
              else fail_with (-1) ENOENT w
    | Some c => if has_flag oflag O_CREAT && has_flag oflag O_EXCL
                then fail_with (-1) EEXIST w
                else opened (if has_flag oflag O_TRUNC then [] else c)
    end).

Definition O_WRONLY : Z := 1.

Definition creat (p : bytes) : M world Z := open p (Z.lor O_WRONLY (Z.lor O_CREAT O_TRUNC)).

Definition unlink (p : bytes) : M world Z :=
  attempt (-1) (fun w =>
    match w_fs w !! p with
    | None => fail_with (-1) ENOENT w
    | Some _ => (Ret 0, set_fs (delete p (w_fs w)) w)
    end).

(** Closing any descriptor of a file drops all of the process's record locks
    on it. *)
Definition close (fd : Z) : M world Z :=
  attempt (-1) (fun w =>
    match w_fds w !! fd with
    | None => fail_with (-1) EBADF w
    | Some (p, _) =>
        (Ret 0, set_fds (delete fd (w_fds w))
                  (set_locks (fun q b => if decide (q = p) then F_UNLCK else w_locks w q b) w))
    end).

(** [fstat]: the result and [st_size]. *)
Definition fstat (fd : Z) : M world (Z * Z) :=
  attempt (-1, 0) (fun w =>
    match w_fds w !! fd with
    | None => fail_with (-1, 0) EBADF w
    | Some (p, _) => (Ret (0, file_size p w), w)
    end).

(** ** Record locks *)

Definition in_range (start len b : Z) : bool :=
  (start <=? b) && ((len =? 0) || (b <? start + len)).

Definition overlap (s1 l1 s2 l2 : Z) : bool :=
  ((l2 =? 0) || (s1 <? s2 + l2)) && ((l1 =? 0) || (s2 <? s1 + l1)).

Definition excludes (t1 t2 : ltype) : bool :=
  match t1, t2 with
  | F_UNLCK, _ | _, F_UNLCK => false
  | F_RDLCK, F_RDLCK => false
  | _, _ => true
  end.

(** The first lock of another process that stands in the way of a request. *)
Definition blocking (p : bytes) (t : ltype) (start len : Z) (fl : list flock) : option flock :=
  list_find (fun f => bool_decide (l_path f = p) && excludes t (l_type f)
                      && overlap start len (l_start f) (l_len f)) fl ≫= fun x => Some x.2.

Definition set_range (p : bytes) (t : ltype) (start len : Z)
    (lk : bytes -> Z -> ltype) : bytes -> Z -> ltype :=
  fun q b => if decide (q = p) then (if in_range start len b then t else lk q b)
             else lk q b.

(** [fcntl] with [F_SETLK] or [F_SETLKW]; a blocking request that cannot be
    granted waits for ever when no other process moves. *)
Definition fcntl_lock (fd : Z) (cmd : lcmd) (t : ltype) (off : Z) (wh : whence) (len : Z)
    : M world Z :=
  attempt (-1) (fun w =>
    match w_fds w !! fd with
    | None => fail_with (-1) EBADF w
    | Some (p, pos) =>
        let start := seek_base p pos wh w + off in
        match blocking p t start len (w_other w) with
        | None => (Ret 0, set_locks (set_range p t start len (w_locks w)) w)
        | Some _ => match cmd with
                    | F_SETLK => fail_with (-1) EAGAIN w
                    | F_SETLKW => (Stop Hang, w)
                    end
        end
    end).

(** [fcntl] with [F_GETLK]: the result and the lock it would wait for. *)
Definition fcntl_getlk (fd : Z) (t : ltype) (off : Z) (wh : whence) (len : Z)
    : M world (Z * option flock) :=
  attempt (-1, None) (fun w =>
    match w_fds w !! fd with
    | None => fail_with (-1, None) EBADF w
    | Some (p, pos) =>
        (Ret (0, blocking p t (seek_base p pos wh w + off) len (w_other w)), w)
    end).

Module Lockreg.

Definition lock_reg (fd : Z) (cmd : lcmd) (type : ltype) (offset : Z) (wh : whence) (len : Z)
    : M world Z :=
  fcntl_lock fd cmd type offset wh len.

Definition read_lock fd offset wh len := lock_reg fd F_SETLK F_RDLCK offset wh len.
Definition readw_lock fd offset wh len := lock_reg fd F_SETLKW F_RDLCK offset wh len.
Definition write_lock fd offset wh len := lock_reg fd F_SETLK F_WRLCK offset wh len.
Definition writew_lock fd offset wh len := lock_reg fd F_SETLKW F_WRLCK offset wh len.
Definition un_lock fd offset wh len := lock_reg fd F_SETLK F_UNLCK offset wh len.

(** The pid of a process whose lock stands in the way, 0 when there is none. *)
Definition lock_test (fd : Z) (type : ltype) (offset : Z) (wh : whence) (len : Z)
    : M world Z :=
  let* rl := fcntl_getlk fd type offset wh len in
  if rl.1 <? 0 then stop (Err_sys "fcntl error") else
  match rl.2 with
  | None => ret 0
  | Some f => ret (l_pid f)
  end.

Definition is_read_lockable fd offset wh len : M world bool :=
  let* p := lock_test fd F_RDLCK offset wh len in ret (p =? 0).
Definition is_write_lockable fd offset wh len : M world bool :=
  let* p := lock_test fd F_WRLCK offset wh len in ret (p =? 0).

End Lockreg.

(** ** What the system calls do when none of them fails *)

Lemma attempt_ok {A} (bad : A) m w : w_faults w = [] -> attempt bad m w = m w.
Proof. unfold attempt. by intros ->. Qed.

Lemma lseek_run w fd p pos o :
  w_faults w = [] -> w_fds w !! fd = Some (p, pos) -> 0 <= o ->
  lseek fd o SEEK_SET w = (Ret o, set_fds (<[fd := (p, o)]> (w_fds w)) w).
Proof.
  intros Hf Hfd Ho. unfold lseek. rewrite attempt_ok, Hfd by done.
  cbv zeta. cbn [seek_base]. rewrite Z.add_0_l. by destruct (Z.ltb_spec o 0); [lia|].
Qed.

Lemma lseek_cur_run w fd p pos :
  w_faults w = [] -> w_fds w !! fd = Some (p, pos) -> 0 <= pos ->
  lseek fd 0 SEEK_CUR w = (Ret pos, set_fds (<[fd := (p, pos)]> (w_fds w)) w).
Proof.
  intros Hf Hfd Ho. unfold lseek. rewrite attempt_ok, Hfd by done.
  cbv zeta. cbn [seek_base]. rewrite Z.add_0_r. by destruct (Z.ltb_spec pos 0); [lia|].
Qed.

Lemma lseek_end_run w fd p pos c :
  w_faults w = [] -> w_fds w !! fd = Some (p, pos) -> w_fs w !! p = Some c ->
  lseek fd 0 SEEK_END w =
    (Ret (Z.of_nat (length c)), set_fds (<[fd := (p, Z.of_nat (length c))]> (w_fds w)) w).
Proof.
  intros Hf Hfd Hc. unfold lseek. rewrite attempt_ok, Hfd by done.
  unfold seek_base, file_size. rewrite Hc. cbv zeta. cbn [default from_option id]. rewrite Z.add_0_r.
  by destruct (Z.ltb_spec (Z.of_nat (length c)) 0); [lia|].
Qed.

Lemma read_run w fd p pos n pre s post :
  w_faults w = [] -> w_fds w !! fd = Some (p, pos) ->
  w_fs w !! p = Some (pre ++ s ++ post) -> pos = Z.of_nat (length pre) -> n = length s ->
  read fd n w = (Ret (Z.of_nat n, s),
                 set_fds (<[fd := (p, pos + Z.of_nat n)]> (w_fds w)) w).
Proof.
  intros Hf Hfd Hc -> ->. unfold read. rewrite attempt_ok, Hfd by done.
  rewrite Hc. cbn. rewrite Nat2Z.id, sub_mid by done. done.
Qed.

Lemma read_all_run w fd p n c :
  w_faults w = [] -> w_fds w !! fd = Some (p, 0) -> w_fs w !! p = Some c -> (length c <= n)%nat ->
  read fd n w = (Ret (Z.of_nat (length c), c), set_fds (<[fd := (p, Z.of_nat (length c))]> (w_fds w)) w).
Proof.
  intros Hf Hfd Hc Hn. unfold read. rewrite attempt_ok, Hfd by done.
  rewrite Hc. cbn. unfold sub. cbn. by rewrite take_ge.
Qed.

Lemma read_eof_run w fd p pos n c :
  w_faults w = [] -> w_fds w !! fd = Some (p, pos) -> w_fs w !! p = Some c ->
  pos = Z.of_nat (length c) ->
  read fd n w = (Ret (0, []), set_fds (<[fd := (p, pos)]> (w_fds w)) w).
Proof.
  intros Hf Hfd Hc ->. unfold read. rewrite attempt_ok, Hfd by done.
  rewrite Hc. cbn. unfold sub. rewrite Nat2Z.id, drop_ge by lia.
  rewrite take_nil. cbn. by rewrite Z.add_0_r.
Qed.

Lemma write_run w fd p pos pre s0 s post :
  w_faults w = [] -> w_fds w !! fd = Some (p, pos) ->
  w_fs w !! p = Some (pre ++ s0 ++ post) -> pos = Z.of_nat (length pre) ->
  length s = length s0 ->
  write fd s w = (Ret (Z.of_nat (length s)),
    set_fds (<[fd := (p, pos + Z.of_nat (length s))]> (w_fds w))
      (set_fs (<[p := pre ++ s ++ post]> (w_fs w)) w)).
Proof.
  intros Hf Hfd Hc -> Hl. unfold write. rewrite attempt_ok, Hfd by done.
  rewrite Hc. cbn. rewrite Nat2Z.id, overwrite_mid by done. done.
Qed.

Lemma write_end_run w fd p pos c s :
  w_faults w = [] -> w_fds w !! fd = Some (p, pos) -> w_fs w !! p = Some c ->
  pos = Z.of_nat (length c) ->
  write fd s w = (Ret (Z.of_nat (length s)),
    set_fds (<[fd := (p, pos + Z.of_nat (length s))]> (w_fds w))
      (set_fs (<[p := c ++ s]> (w_fs w)) w)).
Proof.
  intros Hf Hfd Hc ->. unfold write. rewrite attempt_ok, Hfd by done.
  rewrite Hc. cbn. rewrite Nat2Z.id, overwrite_end. done.
Qed.

Lemma lock_run w fd cmd t o len p pos :
  w_faults w = [] -> w_other w = [] -> w_fds w !! fd = Some (p, pos) ->
  Lockreg.lock_reg fd cmd t o SEEK_SET len w =
    (Ret 0, set_locks (set_range p t o len (w_locks w)) w).
Proof.
  intros Hf Ho Hfd. unfold Lockreg.lock_reg, fcntl_lock.
  rewrite attempt_ok, Hfd by done. rewrite Ho. done.
Qed.

(** ** Descriptors *)

Lemma lowest_free_spec {A} fuel fd (fds : gmap Z A) :
  fds !! lowest_free fuel fd fds = None \/
  forall x, fd <= x < fd + Z.of_nat fuel -> is_Some (fds !! x).
Proof.
  revert fd; induction fuel as [|f IH]; intros fd; cbn [lowest_free]; [right; lia|].
  destruct (fds !! fd) as [v|] eqn:E; [|by left].
  destruct (IH (fd + 1)) as [H|H]; [by left|right]. intros x Hx.
  destruct (decide (x = fd)) as [->|]; [by rewrite E|]. apply H. lia.
Qed.

Lemma lowest_free_ge {A} fuel fd (fds : gmap Z A) : fd <= lowest_free fuel fd fds.
Proof.
  revert fd; induction fuel as [|f IH]; intros fd; cbn [lowest_free]; [done|].
  destruct (fds !! fd); [|done]. specialize (IH (fd + 1)). lia.
Qed.

(** The descriptor [open] picks is not in use. *)
Lemma new_fd {A} (fds : gmap Z A) :
  0 <= lowest_free (S (size fds)) 0 fds /\ fds !! lowest_free (S (size fds)) 0 fds = None.
Proof.
  split; [apply lowest_free_ge|]. destruct (lowest_free_spec (S (size fds)) 0 fds) as [H|H]; [done|].
  exfalso. assert (Hs : list_to_set (seqZ 0 (Z.of_nat (S (size fds)))) ⊆ dom fds).
  { intros x. rewrite elem_of_list_to_set, elem_of_seqZ. intros Hx. apply elem_of_dom, H. lia. }
  apply subseteq_size in Hs. rewrite size_list_to_set in Hs by apply NoDup_seqZ.
  rewrite length_seqZ, size_dom in Hs. lia.
Qed.

Lemma open_run w p oflag c :
  w_faults w = [] ->
  match w_fs w !! p with
  | None => has_flag oflag O_CREAT = true /\ c = []
  | Some c0 => has_flag oflag O_CREAT && has_flag oflag O_EXCL = false /\
               c = if has_flag oflag O_TRUNC then [] else c0
  end ->
  let fd := lowest_free (S (size (w_fds w))) 0 (w_fds w) in
  open p oflag w = (Ret fd, set_fds (<[fd := (p, 0)]> (w_fds w)) (set_fs (<[p := c]> (w_fs w)) w)).
Proof.
  intros Hf Hc fd. unfold open. rewrite attempt_ok by done. fold fd.
  destruct (w_fs w !! p); destruct Hc as [-> ->]; done.
Qed.
