(* ===== verification/Db.v ===== *)
(** * The database library: src/apue.3e/db/db.c

    The library keeps two files.  The index file starts with the free-list
    pointer and a table of hash-chain pointers, all in fixed-width ASCII, and
    then holds one variable-length record per key; the data file holds the
    values.  [DB] is the library's private handle; every function of db.c is
    a definition on a state made of the kernel's state and the handle, under
    the name it has in the source.  The two malloc'ed buffers are byte lists
    of their allocated size, and a store outside them is a [Crash]. *)

From S2P Require Import Prelude CLib Posix.
Import Lockreg.

(** ** Constants: apue_db.h and the head of db.c *)

Definition DB_INSERT : Z := 1.
Definition DB_REPLACE : Z := 2.
Definition DB_STORE : Z := 3.

Definition IDXLEN_MIN : Z := 6.
Definition IDXLEN_MAX : Z := 1024.
Definition DATLEN_MIN : Z := 2.
Definition DATLEN_MAX : Z := 1024.

Definition IDXLEN_SZ : Z := 4.
Definition SEP : Z := 58.
Definition SPACE : Z := 32.
Definition NEWLINE : Z := 10.

Definition PTR_SZ : Z := 7.
Definition PTR_MAX : Z := 9999999.
Definition NHASH_DEF : Z := 137.
Definition FREE_OFF : Z := 0.
Definition HASH_OFF : Z := PTR_SZ.

(** ** The handle *)

Record DB := mkDB {
  idxfd : Z;
  datfd : Z;
  idxbuf : bytes;
  datbuf : bytes;
  name : bytes;
  idxoff : Z;
  idxlen : Z;
  datoff : Z;
  datlen : Z;
  ptrval : Z;
  ptroff : Z;
  chainoff : Z;
  hashoff : Z;
  nhash : Z;
  cnt_delok : Z;
  cnt_delerr : Z;
  cnt_fetchok : Z;
  cnt_fetcherr : Z;
  cnt_nextrec : Z;
  cnt_stor1 : Z;
  cnt_stor2 : Z;
  cnt_stor3 : Z;
  cnt_stor4 : Z;
  cnt_storerr : Z }.

(** Field assignment. *)
Definition set_idxfd x d := mkDB x (datfd d) (idxbuf d) (datbuf d) (name d) (idxoff d)
  (idxlen d) (datoff d) (datlen d) (ptrval d) (ptroff d) (chainoff d) (hashoff d) (nhash d)
  (cnt_delok d) (cnt_delerr d) (cnt_fetchok d) (cnt_fetcherr d) (cnt_nextrec d) (cnt_stor1 d)
  (cnt_stor2 d) (cnt_stor3 d) (cnt_stor4 d) (cnt_storerr d).
Definition set_datfd x d := mkDB (idxfd d) x (idxbuf d) (datbuf d) (name d) (idxoff d)
  (idxlen d) (datoff d) (datlen d) (ptrval d) (ptroff d) (chainoff d) (hashoff d) (nhash d)
  (cnt_delok d) (cnt_delerr d) (cnt_fetchok d) (cnt_fetcherr d) (cnt_nextrec d) (cnt_stor1 d)
  (cnt_stor2 d) (cnt_stor3 d) (cnt_stor4 d) (cnt_storerr d).
Definition set_idxbuf x d := mkDB (idxfd d) (datfd d) x (datbuf d) (name d) (idxoff d)
  (idxlen d) (datoff d) (datlen d) (ptrval d) (ptroff d) (chainoff d) (hashoff d) (nhash d)
  (cnt_delok d) (cnt_delerr d) (cnt_fetchok d) (cnt_fetcherr d) (cnt_nextrec d) (cnt_stor1 d)
  (cnt_stor2 d) (cnt_stor3 d) (cnt_stor4 d) (cnt_storerr d).
Definition set_datbuf x d := mkDB (idxfd d) (datfd d) (idxbuf d) x (name d) (idxoff d)
  (idxlen d) (datoff d) (datlen d) (ptrval d) (ptroff d) (chainoff d) (hashoff d) (nhash d)
  (cnt_delok d) (cnt_delerr d) (cnt_fetchok d) (cnt_fetcherr d) (cnt_nextrec d) (cnt_stor1 d)
  (cnt_stor2 d) (cnt_stor3 d) (cnt_stor4 d) (cnt_storerr d).
Definition set_name x d := mkDB (idxfd d) (datfd d) (idxbuf d) (datbuf d) x (idxoff d)
  (idxlen d) (datoff d) (datlen d) (ptrval d) (ptroff d) (chainoff d) (hashoff d) (nhash d)
  (cnt_delok d) (cnt_delerr d) (cnt_fetchok d) (cnt_fetcherr d) (cnt_nextrec d) (cnt_stor1 d)
  (cnt_stor2 d) (cnt_stor3 d) (cnt_stor4 d) (cnt_storerr d).
Definition set_idxoff x d := mkDB (idxfd d) (datfd d) (idxbuf d) (datbuf d) (name d) x
  (idxlen d) (datoff d) (datlen d) (ptrval d) (ptroff d) (chainoff d) (hashoff d) (nhash d)
  (cnt_delok d) (cnt_delerr d) (cnt_fetchok d) (cnt_fetcherr d) (cnt_nextrec d) (cnt_stor1 d)
  (cnt_stor2 d) (cnt_stor3 d) (cnt_stor4 d) (cnt_storerr d).
Definition set_idxlen x d := mkDB (idxfd d) (datfd d) (idxbuf d) (datbuf d) (name d) (idxoff
  d) x (datoff d) (datlen d) (ptrval d) (ptroff d) (chainoff d) (hashoff d) (nhash d)
  (cnt_delok d) (cnt_delerr d) (cnt_fetchok d) (cnt_fetcherr d) (cnt_nextrec d) (cnt_stor1 d)
  (cnt_stor2 d) (cnt_stor3 d) (cnt_stor4 d) (cnt_storerr d).
Definition set_datoff x d := mkDB (idxfd d) (datfd d) (idxbuf d) (datbuf d) (name d) (idxoff
  d) (idxlen d) x (datlen d) (ptrval d) (ptroff d) (chainoff d) (hashoff d) (nhash d)
  (cnt_delok d) (cnt_delerr d) (cnt_fetchok d) (cnt_fetcherr d) (cnt_nextrec d) (cnt_stor1 d)
  (cnt_stor2 d) (cnt_stor3 d) (cnt_stor4 d) (cnt_storerr d).
Definition set_datlen x d := mkDB (idxfd d) (datfd d) (idxbuf d) (datbuf d) (name d) (idxoff
  d) (idxlen d) (datoff d) x (ptrval d) (ptroff d) (chainoff d) (hashoff d) (nhash d)
  (cnt_delok d) (cnt_delerr d) (cnt_fetchok d) (cnt_fetcherr d) (cnt_nextrec d) (cnt_stor1 d)
  (cnt_stor2 d) (cnt_stor3 d) (cnt_stor4 d) (cnt_storerr d).
Definition set_ptrval x d := mkDB (idxfd d) (datfd d) (idxbuf d) (datbuf d) (name d) (idxoff
  d) (idxlen d) (datoff d) (datlen d) x (ptroff d) (chainoff d) (hashoff d) (nhash d)
  (cnt_delok d) (cnt_delerr d) (cnt_fetchok d) (cnt_fetcherr d) (cnt_nextrec d) (cnt_stor1 d)
  (cnt_stor2 d) (cnt_stor3 d) (cnt_stor4 d) (cnt_storerr d).
Definition set_ptroff x d := mkDB (idxfd d) (datfd d) (idxbuf d) (datbuf d) (name d) (idxoff
  d) (idxlen d) (datoff d) (datlen d) (ptrval d) x (chainoff d) (hashoff d) (nhash d)
  (cnt_delok d) (cnt_delerr d) (cnt_fetchok d) (cnt_fetcherr d) (cnt_nextrec d) (cnt_stor1 d)
  (cnt_stor2 d) (cnt_stor3 d) (cnt_stor4 d) (cnt_storerr d).
Definition set_chainoff x d := mkDB (idxfd d) (datfd d) (idxbuf d) (datbuf d) (name d)
  (idxoff d) (idxlen d) (datoff d) (datlen d) (ptrval d) (ptroff d) x (hashoff d) (nhash d)
  (cnt_delok d) (cnt_delerr d) (cnt_fetchok d) (cnt_fetcherr d) (cnt_nextrec d) (cnt_stor1 d)
  (cnt_stor2 d) (cnt_stor3 d) (cnt_stor4 d) (cnt_storerr d).
Definition set_hashoff x d := mkDB (idxfd d) (datfd d) (idxbuf d) (datbuf d) (name d)
  (idxoff d) (idxlen d) (datoff d) (datlen d) (ptrval d) (ptroff d) (chainoff d) x (nhash d)
  (cnt_delok d) (cnt_delerr d) (cnt_fetchok d) (cnt_fetcherr d) (cnt_nextrec d) (cnt_stor1 d)
  (cnt_stor2 d) (cnt_stor3 d) (cnt_stor4 d) (cnt_storerr d).
Definition set_nhash x d := mkDB (idxfd d) (datfd d) (idxbuf d) (datbuf d) (name d) (idxoff
  d) (idxlen d) (datoff d) (datlen d) (ptrval d) (ptroff d) (chainoff d) (hashoff d) x
  (cnt_delok d) (cnt_delerr d) (cnt_fetchok d) (cnt_fetcherr d) (cnt_nextrec d) (cnt_stor1 d)
  (cnt_stor2 d) (cnt_stor3 d) (cnt_stor4 d) (cnt_storerr d).
Definition set_cnt_delok x d := mkDB (idxfd d) (datfd d) (idxbuf d) (datbuf d) (name d)
  (idxoff d) (idxlen d) (datoff d) (datlen d) (ptrval d) (ptroff d) (chainoff d) (hashoff d)
  (nhash d) x (cnt_delerr d) (cnt_fetchok d) (cnt_fetcherr d) (cnt_nextrec d) (cnt_stor1 d)
  (cnt_stor2 d) (cnt_stor3 d) (cnt_stor4 d) (cnt_storerr d).
Definition set_cnt_delerr x d := mkDB (idxfd d) (datfd d) (idxbuf d) (datbuf d) (name d)
  (idxoff d) (idxlen d) (datoff d) (datlen d) (ptrval d) (ptroff d) (chainoff d) (hashoff d)
  (nhash d) (cnt_delok d) x (cnt_fetchok d) (cnt_fetcherr d) (cnt_nextrec d) (cnt_stor1 d)
  (cnt_stor2 d) (cnt_stor3 d) (cnt_stor4 d) (cnt_storerr d).
Definition set_cnt_fetchok x d := mkDB (idxfd d) (datfd d) (idxbuf d) (datbuf d) (name d)
  (idxoff d) (idxlen d) (datoff d) (datlen d) (ptrval d) (ptroff d) (chainoff d) (hashoff d)
  (nhash d) (cnt_delok d) (cnt_delerr d) x (cnt_fetcherr d) (cnt_nextrec d) (cnt_stor1 d)
  (cnt_stor2 d) (cnt_stor3 d) (cnt_stor4 d) (cnt_storerr d).
Definition set_cnt_fetcherr x d := mkDB (idxfd d) (datfd d) (idxbuf d) (datbuf d) (name d)
  (idxoff d) (idxlen d) (datoff d) (datlen d) (ptrval d) (ptroff d) (chainoff d) (hashoff d)
  (nhash d) (cnt_delok d) (cnt_delerr d) (cnt_fetchok d) x (cnt_nextrec d) (cnt_stor1 d)
  (cnt_stor2 d) (cnt_stor3 d) (cnt_stor4 d) (cnt_storerr d).
Definition set_cnt_nextrec x d := mkDB (idxfd d) (datfd d) (idxbuf d) (datbuf d) (name d)
  (idxoff d) (idxlen d) (datoff d) (datlen d) (ptrval d) (ptroff d) (chainoff d) (hashoff d)
  (nhash d) (cnt_delok d) (cnt_delerr d) (cnt_fetchok d) (cnt_fetcherr d) x (cnt_stor1 d)
  (cnt_stor2 d) (cnt_stor3 d) (cnt_stor4 d) (cnt_storerr d).
Definition set_cnt_stor1 x d := mkDB (idxfd d) (datfd d) (idxbuf d) (datbuf d) (name d)
  (idxoff d) (idxlen d) (datoff d) (datlen d) (ptrval d) (ptroff d) (chainoff d) (hashoff d)
  (nhash d) (cnt_delok d) (cnt_delerr d) (cnt_fetchok d) (cnt_fetcherr d) (cnt_nextrec d) x
  (cnt_stor2 d) (cnt_stor3 d) (cnt_stor4 d) (cnt_storerr d).
Definition set_cnt_stor2 x d := mkDB (idxfd d) (datfd d) (idxbuf d) (datbuf d) (name d)
  (idxoff d) (idxlen d) (datoff d) (datlen d) (ptrval d) (ptroff d) (chainoff d) (hashoff d)
  (nhash d) (cnt_delok d) (cnt_delerr d) (cnt_fetchok d) (cnt_fetcherr d) (cnt_nextrec d)
  (cnt_stor1 d) x (cnt_stor3 d) (cnt_stor4 d) (cnt_storerr d).
Definition set_cnt_stor3 x d := mkDB (idxfd d) (datfd d) (idxbuf d) (datbuf d) (name d)
  (idxoff d) (idxlen d) (datoff d) (datlen d) (ptrval d) (ptroff d) (chainoff d) (hashoff d)
  (nhash d) (cnt_delok d) (cnt_delerr d) (cnt_fetchok d) (cnt_fetcherr d) (cnt_nextrec d)
  (cnt_stor1 d) (cnt_stor2 d) x (cnt_stor4 d) (cnt_storerr d).
Definition set_cnt_stor4 x d := mkDB (idxfd d) (datfd d) (idxbuf d) (datbuf d) (name d)
  (idxoff d) (idxlen d) (datoff d) (datlen d) (ptrval d) (ptroff d) (chainoff d) (hashoff d)
  (nhash d) (cnt_delok d) (cnt_delerr d) (cnt_fetchok d) (cnt_fetcherr d) (cnt_nextrec d)
  (cnt_stor1 d) (cnt_stor2 d) (cnt_stor3 d) x (cnt_storerr d).
Definition set_cnt_storerr x d := mkDB (idxfd d) (datfd d) (idxbuf d) (datbuf d) (name d)
  (idxoff d) (idxlen d) (datoff d) (datlen d) (ptrval d) (ptroff d) (chainoff d) (hashoff d)
  (nhash d) (cnt_delok d) (cnt_delerr d) (cnt_fetchok d) (cnt_fetcherr d) (cnt_nextrec d)
  (cnt_stor1 d) (cnt_stor2 d) (cnt_stor3 d) (cnt_stor4 d) x.

(** The state of a call: the kernel and the handle passed to it. *)
Record st := St { W : world; D : DB }.

Definition sys {A} (m : M world A) : M st A := zoom W (fun w s => St w (D s)) m.
Definition handle : M st DB := fun s => (Ret (D s), s).
Definition upd (f : DB -> DB) : M st unit := modify (fun s => St (W s) (f (D s))).

Definition err_dump {S A} (msg : string) : M S A := stop (Err_dump msg).
Definition err_quit {S A} (msg : string) : M S A := stop (Err_quit msg).
Definition err_sys {S A} (msg : string) : M S A := stop (Err_sys msg).

(** [if (cond) err_dump(msg)]. *)
Definition dump_if {S} (b : bool) (msg : string) : M S unit :=
  if b then err_dump msg else ret tt.

(** Stores into the two buffers. *)
Definition poke_idx (off : nat) (d : bytes) : M st unit :=
  let* db := handle in
  if (off + length d <=? length (idxbuf db))%nat
  then upd (set_idxbuf (overwrite off d (idxbuf db))) else stop Crash.

Definition poke_dat (off : nat) (d : bytes) : M st unit :=
  let* db := handle in
  if (off + length d <=? length (datbuf db))%nat
  then upd (set_datbuf (overwrite off d (datbuf db))) else stop Crash.

(** A bound on the number of index records: every record takes at least one
    byte of the index file. *)
Definition idx_fuel : M st nat := fun s =>
  (Ret (match w_fds (W s) !! idxfd (D s) with
        | Some (p, _) => S (length (default [] (w_fs (W s) !! p)))
        | None => 1%nat
        end), s).

(** ** Chain pointers *)

Definition _db_readptr (offset : Z) : M st Z :=
  let* db := handle in
  let* r := sys (lseek (idxfd db) offset SEEK_SET) in
  dump_if (r =? -1) "_db_readptr: lseek error to ptr field" ;;;
  let* nd := sys (read (idxfd db) (Z.to_nat PTR_SZ)) in
  dump_if (negb (nd.1 =? PTR_SZ)) "_db_readptr: read error of ptr field" ;;;
  ret (atol (nd.2 ++ [NUL])).

Definition _db_writeptr (offset ptrval : Z) : M st unit :=
  let* db := handle in
  if (ptrval <? 0) || (ptrval >? PTR_MAX) then err_quit "_db_writeptr: invalid ptr" else
  let asciiptr := snprintf (Z.to_nat PTR_SZ + 1) (padl (Z.to_nat PTR_SZ) (dec ptrval)) in
  let* r := sys (lseek (idxfd db) offset SEEK_SET) in
  dump_if (r =? -1) "_db_writeptr: lseek error to ptr field" ;;;
  let* n := sys (write (idxfd db) (take (Z.to_nat PTR_SZ) asciiptr)) in
  dump_if (negb (n =? PTR_SZ)) "_db_writeptr: write error of ptr field".

(** ** The hash function *)

(** The loop: [i] is the 1-based index of the next character; [DBHASH] is
    [unsigned long]. *)
Fixpoint _db_hash_loop (key : bytes) (i hval : Z) : Z :=
  match key with
  | [] => hval
  | c :: key' => if c =? NUL then hval
                 else _db_hash_loop key' (i + 1) (to_u64 (hval + schar c * i))
  end.

Definition _db_hash (db : DB) (key : bytes) : Z := _db_hash_loop key 1 0 mod nhash db.

(** ** Reading an index record and its data *)

(** The second half of [_db_readidx]: split the record at its separators and
    convert the data offset and length. *)
Definition _db_splitidx : M st Z :=
  let* db := handle in
  match strchr (idxbuf db) SEP with
  | None => err_dump "_db_readidx: missing first separator"
  | Some ptr1 =>
      poke_idx ptr1 [NUL] ;;;
      let* db := handle in
      match strchr (drop (S ptr1) (idxbuf db)) SEP with
      | None => err_dump "_db_readidx: missing second separator"
      | Some ptr2 =>
          poke_idx (S ptr1 + ptr2)%nat [NUL] ;;;
          let* db := handle in
          dump_if (bool_decide (is_Some (strchr (drop (S (S ptr1 + ptr2)) (idxbuf db)) SEP)))
            "_db_readidx: too many separators" ;;;
          let doff := atol (drop (S ptr1) (idxbuf db)) in
          upd (set_datoff doff) ;;;
          dump_if (doff <? 0) "_db_readidx: starting offset < 0" ;;;
          let dlen := to_u64 (atol (drop (S (S ptr1 + ptr2)) (idxbuf db))) in
          upd (set_datlen dlen) ;;;
          dump_if ((dlen <=? 0) || (dlen >? DATLEN_MAX)) "_db_readidx: invalid length" ;;;
          ret (ptrval db)
      end
  end.

Definition _db_readidx (offset : Z) : M st Z :=
  let* db := handle in
  let* off := sys (lseek (idxfd db) offset (if offset =? 0 then SEEK_CUR else SEEK_SET)) in
  upd (set_idxoff off) ;;;
  dump_if (off =? -1) "_db_readidx: lseek error" ;;;
  let* nd := sys (readv (idxfd db) [Z.to_nat PTR_SZ; Z.to_nat IDXLEN_SZ]) in
  if negb (nd.1 =? PTR_SZ + IDXLEN_SZ) then
    if (nd.1 =? 0) && (offset =? 0) then ret (-1)
    else err_dump "_db_readidx: readv error of index record"
  else
  let asciiptr := take (Z.to_nat PTR_SZ) nd.2 in
  let asciilen := drop (Z.to_nat PTR_SZ) nd.2 in
  upd (set_ptrval (atol (asciiptr ++ [NUL]))) ;;;
  let ilen := to_u64 (atoi (asciilen ++ [NUL])) in
  upd (set_idxlen ilen) ;;;
  dump_if ((ilen <? IDXLEN_MIN) || (ilen >? IDXLEN_MAX)) "_db_readidx: invalid length" ;;;
  let* rd := sys (read (idxfd db) (Z.to_nat ilen)) in
  poke_idx 0 rd.2 ;;;
  dump_if (negb (rd.1 =? ilen)) "_db_readidx: read error of index record" ;;;
  let* db := handle in
  dump_if (negb (nth (Z.to_nat ilen - 1) (idxbuf db) 0 =? NEWLINE))
    "_db_readidx: missing newline" ;;;
  poke_idx (Z.to_nat ilen - 1) [NUL] ;;;
  _db_splitidx.

Definition _db_readdat : M st bytes :=
  let* db := handle in
  let* r := sys (lseek (datfd db) (datoff db) SEEK_SET) in
  dump_if (r =? -1) "_db_readdat: lseek error" ;;;
  let* nd := sys (read (datfd db) (Z.to_nat (datlen db))) in
  poke_dat 0 nd.2 ;;;
  dump_if (negb (nd.1 =? datlen db)) "_db_readdat: read error" ;;;
  let* db := handle in
  dump_if (negb (nth (Z.to_nat (datlen db) - 1) (datbuf db) 0 =? NEWLINE))
    "_db_readdat: missing newline" ;;;
  poke_dat (Z.to_nat (datlen db) - 1) [NUL] ;;;
  let* db := handle in
  ret (cstr (datbuf db)).

(** ** Searching a hash chain *)

(** The [while (offset != 0)] loop of [_db_find_and_lock]. *)
Fixpoint _db_find_loop (fuel : nat) (key : bytes) (offset : Z) : M st Z :=
  match fuel with
  | O => stop Hang
  | S f =>
      if offset =? 0 then ret offset else
      let* nextoffset := _db_readidx offset in
      let* db := handle in
      if strcmp (idxbuf db) key =? 0 then ret offset else
      upd (set_ptroff offset) ;;;
      _db_find_loop f key nextoffset
  end.

Definition _db_find_and_lock (key : bytes) (writelock : bool) : M st Z :=
  let* db := handle in
  let chain := _db_hash db key * PTR_SZ + hashoff db in
  upd (set_chainoff chain) ;;;
  upd (set_ptroff chain) ;;;
  (if writelock then
     let* r := sys (writew_lock (idxfd db) chain SEEK_SET 1) in
     dump_if (r <? 0) "_db_find_and_lock: writew_lock error"
   else
     let* r := sys (readw_lock (idxfd db) chain SEEK_SET 1) in
     dump_if (r <? 0) "_db_find_and_lock: readw_lock error") ;;;
  let* offset := _db_readptr chain in
  let* fuel := idx_fuel in
  let* offset := _db_find_loop fuel key offset in
  ret (if offset =? 0 then -1 else 0).

(** [un_lock] of the chain locked by [_db_find_and_lock]. *)
Definition unlock_chain (msg : string) : M st unit :=
  let* db := handle in
  let* r := sys (un_lock (idxfd db) (chainoff db) SEEK_SET 1) in
  dump_if (r <? 0) msg.

Definition db_fetch (key : bytes) : M st (option bytes) :=
  let* r := _db_find_and_lock key false in
  let* ptr :=
    (if r <? 0 then
       upd (fun d => set_cnt_fetcherr (to_u64 (cnt_fetcherr d + 1)) d) ;;; ret None
     else
       let* p := _db_readdat in
       upd (fun d => set_cnt_fetchok (to_u64 (cnt_fetchok d + 1)) d) ;;; ret (Some p)) in
  unlock_chain "db_fetch: un_lock error" ;;;
  ret ptr.

(** ** Writing data and index records *)

Definition _db_writedat (data : bytes) (offset : Z) (wh : whence) : M st unit :=
  let* db := handle in
  (if decide (wh = SEEK_END) then
     let* r := sys (writew_lock (datfd db) 0 SEEK_SET 0) in
     dump_if (r <? 0) "_db_writedat: writew_lock error"
   else ret tt) ;;;
  let* off := sys (lseek (datfd db) offset wh) in
  upd (set_datoff off) ;;;
  dump_if (off =? -1) "_db_writedat: lseek error" ;;;
  let dlen := strlen data + 1 in
  upd (set_datlen dlen) ;;;
  let* n := sys (writev (datfd db) [cstr data; [NEWLINE]]) in
  dump_if (negb (n =? dlen)) "_db_writedat: writev error of data record" ;;;
  (if decide (wh = SEEK_END) then
     let* r := sys (un_lock (datfd db) 0 SEEK_SET 0) in
     dump_if (r <? 0) "_db_writedat: un_lock error"
   else ret tt).

Definition _db_writeidx (key : bytes) (offset : Z) (wh : whence) (ptr : Z) : M st unit :=
  upd (set_ptrval ptr) ;;;
  if (ptr <? 0) || (ptr >? PTR_MAX) then err_quit "_db_writeidx: invalid ptr" else
  let* db := handle in
  poke_idx 0 (snprintf (Z.to_nat (IDXLEN_MAX + 2))
    (cstr key ++ [SEP] ++ dec (datoff db) ++ [SEP] ++ dec (datlen db) ++ [NEWLINE])) ;;;
  let* db := handle in
  let len := strlen (idxbuf db) in
  dump_if ((len <? IDXLEN_MIN) || (len >? IDXLEN_MAX)) "_db_writeidx: invalid length" ;;;
  let asciiptrlen := snprintf (Z.to_nat (PTR_SZ + IDXLEN_SZ + 1))
    (padl (Z.to_nat PTR_SZ) (dec ptr) ++ padl (Z.to_nat IDXLEN_SZ) (dec len)) in
  (if decide (wh = SEEK_END) then
     let* r := sys (writew_lock (idxfd db) ((nhash db + 1) * PTR_SZ + 1) SEEK_SET 0) in
     dump_if (r <? 0) "_db_writeidx: writew_lock error"
   else ret tt) ;;;
  let* off := sys (lseek (idxfd db) offset wh) in
  upd (set_idxoff off) ;;;
  dump_if (off =? -1) "_db_writeidx: lseek error" ;;;
  let* n := sys (writev (idxfd db) [take (Z.to_nat (PTR_SZ + IDXLEN_SZ)) asciiptrlen;
                                    take (Z.to_nat len) (idxbuf db)]) in
  dump_if (negb (n =? PTR_SZ + IDXLEN_SZ + len)) "_db_writeidx: writev error of index record" ;;;
  (if decide (wh = SEEK_END) then
     let* r := sys (un_lock (idxfd db) ((nhash db + 1) * PTR_SZ + 1) SEEK_SET 0) in
     dump_if (r <? 0) "_db_writeidx: un_lock error"
   else ret tt).

(** ** Deleting *)

(** Replace every character before the terminating null byte by a blank. *)
Fixpoint blank (l : bytes) : bytes :=
  match l with
  | [] => []
  | c :: l' => if c =? NUL then l else SPACE :: blank l'
  end.

Definition _db_dodelete : M st unit :=
  let* db := handle in
  poke_dat 0 (replicate (Z.to_nat (datlen db) - 1) SPACE ++ [NUL]) ;;;
  upd (fun d => set_idxbuf (blank (idxbuf d)) d) ;;;
  let* r := sys (writew_lock (idxfd db) FREE_OFF SEEK_SET 1) in
  dump_if (r <? 0) "_db_dodelete: writew_lock error" ;;;
  let* db := handle in
  _db_writedat (datbuf db) (datoff db) SEEK_SET ;;;
  let* freeptr := _db_readptr FREE_OFF in
  let* db := handle in
  let saveptr := ptrval db in
  _db_writeidx (idxbuf db) (idxoff db) SEEK_SET freeptr ;;;
  let* db := handle in
  _db_writeptr FREE_OFF (idxoff db) ;;;
  _db_writeptr (ptroff db) saveptr ;;;
  let* r := sys (un_lock (idxfd db) FREE_OFF SEEK_SET 1) in
  dump_if (r <? 0) "_db_dodelete: un_lock error".

Definition db_delete (key : bytes) : M st Z :=
  let* r := _db_find_and_lock key true in
  let* rc :=
    (if r =? 0 then
       _db_dodelete ;;;
       upd (fun d => set_cnt_delok (to_u64 (cnt_delok d + 1)) d) ;;; ret 0
     else
       upd (fun d => set_cnt_delerr (to_u64 (cnt_delerr d + 1)) d) ;;; ret (-1)) in
  unlock_chain "db_delete: un_lock error" ;;;
  ret rc.

(** ** Storing *)

(** The [while (offset != 0)] loop of [_db_findfree]: the offset of the match
    (0 when there is none) and [saveoffset]. *)
Fixpoint _db_findfree_loop (fuel : nat) (keylen datalen saveoffset offset : Z)
    : M st (Z * Z) :=
  match fuel with
  | O => stop Hang
  | S f =>
      if offset =? 0 then ret (offset, saveoffset) else
      let* nextoffset := _db_readidx offset in
      let* db := handle in
      if (strlen (idxbuf db) =? keylen) && (datlen db =? datalen)
      then ret (offset, saveoffset)
      else _db_findfree_loop f keylen datalen offset nextoffset
  end.

Definition _db_findfree (keylen datalen : Z) : M st Z :=
  let* db := handle in
  let* r := sys (writew_lock (idxfd db) FREE_OFF SEEK_SET 1) in
  dump_if (r <? 0) "_db_findfree: writew_lock error" ;;;
  let* offset := _db_readptr FREE_OFF in
  let* fuel := idx_fuel in
  let* os := _db_findfree_loop fuel keylen datalen FREE_OFF offset in
  let* rc :=
    (if os.1 =? 0 then ret (-1)
     else let* db := handle in _db_writeptr os.2 (ptrval db) ;;; ret 0) in
  let* r := sys (un_lock (idxfd db) FREE_OFF SEEK_SET 1) in
  dump_if (r <? 0) "_db_findfree: un_lock error" ;;;
  ret rc.

Definition set_werrno (e : Z) : M st unit := sys (modify (set_errno e)).

(** The branch of [db_store] for a key that was not found. *)
Definition db_store_new (key data : bytes) (flag keylen dlen : Z) : M st Z :=
  if flag =? DB_REPLACE then
    upd (fun d => set_cnt_storerr (to_u64 (cnt_storerr d + 1)) d) ;;;
    set_werrno ENOENT ;;; ret (-1)
  else
    let* db := handle in
    let* ptrval := _db_readptr (chainoff db) in
    let* ff := _db_findfree keylen dlen in
    if ff <? 0 then
      _db_writedat data 0 SEEK_END ;;;
      _db_writeidx key 0 SEEK_END ptrval ;;;
      let* db := handle in
      _db_writeptr (chainoff db) (idxoff db) ;;;
      upd (fun d => set_cnt_stor1 (to_u64 (cnt_stor1 d + 1)) d) ;;; ret 0
    else
      let* db := handle in
      _db_writedat data (datoff db) SEEK_SET ;;;
      let* db := handle in
      _db_writeidx key (idxoff db) SEEK_SET ptrval ;;;
      let* db := handle in
      _db_writeptr (chainoff db) (idxoff db) ;;;
      upd (fun d => set_cnt_stor2 (to_u64 (cnt_stor2 d + 1)) d) ;;; ret 0.

(** The branch of [db_store] for a key that was found. *)
Definition db_store_old (key data : bytes) (flag dlen : Z) : M st Z :=
  if flag =? DB_INSERT then
    upd (fun d => set_cnt_storerr (to_u64 (cnt_storerr d + 1)) d) ;;; ret 1
  else
    let* db := handle in
    if negb (dlen =? datlen db) then
      _db_dodelete ;;;
      let* db := handle in
      let* ptrval := _db_readptr (chainoff db) in
      _db_writedat data 0 SEEK_END ;;;
      _db_writeidx key 0 SEEK_END ptrval ;;;
      let* db := handle in
      _db_writeptr (chainoff db) (idxoff db) ;;;
      upd (fun d => set_cnt_stor3 (to_u64 (cnt_stor3 d + 1)) d) ;;; ret 0
    else
      _db_writedat data (datoff db) SEEK_SET ;;;
      upd (fun d => set_cnt_stor4 (to_u64 (cnt_stor4 d + 1)) d) ;;; ret 0.

Definition db_store (key data : bytes) (flag : Z) : M st Z :=
  if negb (flag =? DB_INSERT) && negb (flag =? DB_REPLACE) && negb (flag =? DB_STORE) then
    set_werrno EINVAL ;;; ret (-1)
  else
  let keylen := strlen key in
  let dlen := strlen data + 1 in
  dump_if ((dlen <? DATLEN_MIN) || (dlen >? DATLEN_MAX)) "db_store: invalid data length" ;;;
  let* r := _db_find_and_lock key true in
  let* rc := (if r <? 0 then db_store_new key data flag keylen dlen
              else db_store_old key data flag dlen) in
  unlock_chain "db_store: un_lock error" ;;;
  ret rc.

(** ** Sequential access *)

Definition db_rewind : M st unit :=
  let* db := handle in
  let offset := (nhash db + 1) * PTR_SZ in
  let* off := sys (lseek (idxfd db) (offset + 1) SEEK_SET) in
  upd (set_idxoff off) ;;;
  dump_if (off =? -1) "db_rewind: lseek error".

(** Is the key in the index buffer all blanks? *)
Fixpoint blank_key (l : bytes) : bool :=
  match l with
  | [] => true
  | c :: l' => if c =? NUL then true else if c =? SPACE then blank_key l' else false
  end.

(** The [do ... while] loop: [false] at the end of the index file. *)
Fixpoint _db_next_loop (fuel : nat) : M st bool :=
  match fuel with
  | O => stop Hang
  | S f =>
      let* r := _db_readidx 0 in
      if r <? 0 then ret false else
      let* db := handle in
      if blank_key (idxbuf db) then _db_next_loop f else ret true
  end.

(** The key (copied out for the caller) and the data, [None] at EOF. *)
Definition db_nextrec : M st (option (bytes * bytes)) :=
  let* db := handle in
  let* r := sys (readw_lock (idxfd db) FREE_OFF SEEK_SET 1) in
  dump_if (r <? 0) "db_nextrec: readw_lock error" ;;;
  let* fuel := idx_fuel in
  let* more := _db_next_loop fuel in
  let* res :=
    (if more then
       let* db := handle in
       let key := cstr (idxbuf db) in
       let* ptr := _db_readdat in
       upd (fun d => set_cnt_nextrec (to_u64 (cnt_nextrec d + 1)) d) ;;;
       ret (Some (key, ptr))
     else ret None) in
  let* r := sys (un_lock (idxfd db) FREE_OFF SEEK_SET 1) in
  dump_if (r <? 0) "db_nextrec: un_lock error" ;;;
  ret res.

(** ** Opening and closing *)

(** [malloc]: the block's contents are whatever [fill] says. *)
Definition malloc (fill : nat -> Z) (n : nat) : M world (option bytes) :=
  attempt None (ret (Some (map fill (seq 0 n)))).

Definition _db_alloc (fill : nat -> Z) (namelen : Z) : M world DB :=
  let* z := attempt None (ret (Some tt)) in
  match z with
  | None => err_dump "_db_alloc: calloc error for DB"
  | Some _ =>
      let* nm := malloc fill (Z.to_nat (namelen + 5)) in
      match nm with
      | None => err_dump "_db_alloc: malloc error for name"
      | Some nm =>
          let* ib := malloc fill (Z.to_nat (IDXLEN_MAX + 2)) in
          match ib with
          | None => err_dump "_db_alloc: malloc error for index buffer"
          | Some ib =>
              let* dbuf := malloc fill (Z.to_nat (DATLEN_MAX + 2)) in
              match dbuf with
              | None => err_dump "_db_alloc: malloc error for data buffer"
              | Some dbuf =>
                  ret (mkDB (-1) (-1) ib dbuf nm 0 0 0 0 0 0 0 0 0 0 0 0 0 0 0 0 0 0 0)
              end
          end
      end
  end.

Definition _db_free : M st unit :=
  let* db := handle in
  (if idxfd db >=? 0 then sys (close (idxfd db)) ;;; ret tt else ret tt) ;;;
  (if datfd db >=? 0 then sys (close (datfd db)) ;;; ret tt else ret tt).

Definition db_close : M st unit := _db_free.

(** The initial index file: the free-list pointer and the hash table. *)
Definition init_table : bytes :=
  let asciiptr := snprintf (Z.to_nat PTR_SZ + 1) (padl (Z.to_nat PTR_SZ) (dec 0)) in
  concat (replicate (Z.to_nat (NHASH_DEF + 1)) (cstr asciiptr)) ++ [NEWLINE].

(** The body of [db_open] on the allocated handle; [false] is a null result. *)
Definition db_open_body (pathname : bytes) (oflag : Z) : M st bool :=
  upd (set_nhash NHASH_DEF) ;;;
  upd (set_hashoff HASH_OFF) ;;;
  upd (set_name (cstr pathname ++ str ".idx")) ;;;
  let* db := handle in
  let* ifd := sys (open (name db) oflag) in
  upd (set_idxfd ifd) ;;;
  upd (set_name (cstr pathname ++ str ".dat")) ;;;
  let* db := handle in
  let* dfd := sys (open (name db) oflag) in
  upd (set_datfd dfd) ;;;
  let* db := handle in
  if (idxfd db <? 0) || (datfd db <? 0) then _db_free ;;; ret false else
  (if Z.land oflag (Z.lor O_CREAT O_TRUNC) =? Z.lor O_CREAT O_TRUNC then
     let* r := sys (writew_lock (idxfd db) 0 SEEK_SET 0) in
     dump_if (r <? 0) "db_open: writew_lock error" ;;;
     let* rs := sys (fstat (idxfd db)) in
     (if rs.1 <? 0 then err_sys "db_open: fstat error" else ret tt) ;;;
     (if rs.2 =? 0 then
        let* n := sys (write (idxfd db) init_table) in
        dump_if (negb (n =? Z.of_nat (length init_table))) "db_open: index file init write error"
      else ret tt) ;;;
     let* r := sys (un_lock (idxfd db) 0 SEEK_SET 0) in
     dump_if (r <? 0) "db_open: un_lock error"
   else ret tt) ;;;
  db_rewind ;;;
  ret true.

(** Run a function of the library on a handle. *)
Definition with_db {A} (d : DB) (m : M st A) : M world (A * DB) :=
  fun w => match m (St w d) with
           | (Ret a, s) => (Ret (a, D s), W s)
           | (Stop e, s) => (Stop e, W s)
           end.

Definition db_open (fill : nat -> Z) (pathname : bytes) (oflag : Z) : M world (option DB) :=
  let* db := _db_alloc fill (strlen pathname) in
  let* rd := with_db db (db_open_body pathname oflag) in
  ret (if rd.1 then Some rd.2 else None).
