(* ===== verification/DbLayout.v ===== *)
(** * The on-disk layout of the database

    What the bytes of the index and the data file of src/apue.3e/db/db.c
    mean: a layout [lay] is the free-list pointer, the hash table and the list
    of index records in file order, each with the data it points at; the
    definitions [idx_bytes] and [dat_bytes] are the two files of a layout.  The lemmas say
    where in the files a chain pointer, an index record and a data record
    lie, and that replacing one of them in the layout is overwriting its bytes. *)

From S2P Require Import Prelude CLib Db.

Record irec := Irec { r_ptr : Z; r_key : bytes; r_off : Z; r_data : bytes }.
Record lay := Lay { l_free : Z; l_heads : list Z; l_recs : list irec }.

(** ** Encoding *)

Definition r_len (r : irec) : Z := Z.of_nat (length (r_data r)) + 1.
Definition enc_ptr (p : Z) : bytes := padl 7 (dec p).
Definition payload (r : irec) : bytes :=
  r_key r ++ [SEP] ++ dec (r_off r) ++ [SEP] ++ dec (r_len r) ++ [NEWLINE].
Definition p_len (r : irec) : Z := Z.of_nat (length (payload r)).
Definition enc_rec (r : irec) : bytes :=
  enc_ptr (r_ptr r) ++ padl 4 (dec (p_len r)) ++ payload r.
Definition dat_rec (r : irec) : bytes := r_data r ++ [NEWLINE].

Definition hdr_bytes (L : lay) : bytes :=
  enc_ptr (l_free L) ++ concat (enc_ptr <$> l_heads L) ++ [NEWLINE].
Definition idx_bytes (L : lay) : bytes := hdr_bytes L ++ concat (enc_rec <$> l_recs L).
Definition dat_bytes (L : lay) : bytes := concat (dat_rec <$> l_recs L).

(** ** Well-formedness *)

Definition ptr_ok (p : Z) : Prop := 0 <= p <= PTR_MAX.

(** A key the index format can hold: a C string without the separator. *)
Definition key_ok (k : bytes) : Prop := nonul k /\ Forall (fun c => c <> SEP) k.

Definition data_ok (d : bytes) : Prop := nonul d /\ (1 <= length d <= 1023)%nat.

Record rec_ok (r : irec) : Prop := {
  ro_ptr : ptr_ok (r_ptr r);
  ro_key : key_ok (r_key r);
  ro_data : data_ok (r_data r);
  ro_off : 0 <= r_off r;
  ro_plen : IDXLEN_MIN <= p_len r <= IDXLEN_MAX }.

(** The data records lie end to end, in the order of the index records. *)
Fixpoint offs_ok (base : Z) (l : list irec) : Prop :=
  match l with
  | [] => True
  | r :: l' => r_off r = base /\ offs_ok (base + r_len r) l'
  end.

Record lay_ok (L : lay) : Prop := {
  lo_free : ptr_ok (l_free L);
  lo_heads : Forall ptr_ok (l_heads L);
  lo_nheads : length (l_heads L) = 137%nat;
  lo_recs : Forall rec_ok (l_recs L);
  lo_offs : offs_ok 0 (l_recs L) }.

(** ** Addressing *)

(** Size of an index record, and the offset of the first one. *)
Definition rsz (r : irec) : Z := 11 + p_len r.
Definition rec_base : Z := 967.

Definition look (L : lay) (o : Z) : option irec := seek rsz rec_base (l_recs L) o.
Definition set_rec (L : lay) (o : Z) (r : irec) : lay :=
  Lay (l_free L) (l_heads L) (reseek rsz rec_base (l_recs L) o r).
Definition app_rec (L : lay) (r : irec) : lay :=
  Lay (l_free L) (l_heads L) (l_recs L ++ [r]).
Definition end_off (L : lay) : Z := rec_base + total rsz (l_recs L).
Definition dat_end (L : lay) : Z := total r_len (l_recs L).

Definition with_ptr (p : Z) (r : irec) : irec := Irec p (r_key r) (r_off r) (r_data r).
Definition with_data (d : bytes) (r : irec) : irec := Irec (r_ptr r) (r_key r) (r_off r) d.

(** The chain pointer stored at offset [o]: the free-list pointer, an entry of
    the hash table, or the first field of an index record. *)
Definition get_ptr (L : lay) (o : Z) : option Z :=
  if o =? 0 then Some (l_free L)
  else if o <? rec_base then
    if (0 <? o) && (o mod 7 =? 0) then l_heads L !! Z.to_nat (o / 7 - 1) else None
  else r_ptr <$> look L o.

Definition put_ptr (L : lay) (o v : Z) : lay :=
  if o =? 0 then Lay v (l_heads L) (l_recs L)
  else if o <? rec_base then Lay (l_free L) (<[Z.to_nat (o / 7 - 1) := v]> (l_heads L)) (l_recs L)
  else match look L o with
       | Some r => set_rec L o (with_ptr v r)
       | None => L
       end.

(** What a record holds besides its chain pointer. *)
Definition info (L : lay) (o : Z) : option (bytes * Z * bytes) :=
  (fun r => (r_key r, r_off r, r_data r)) <$> look L o.

(** ** Sizes *)

Lemma p_len_pos r : 0 < p_len r.
Proof. unfold p_len, payload. len. Qed.

Lemma rsz_pos r : 0 < rsz r.
Proof. pose proof (p_len_pos r). unfold rsz. lia. Qed.

Lemma r_len_pos r : 0 < r_len r.
Proof. unfold r_len. lia. Qed.

Lemma enc_ptr_length p : ptr_ok p -> length (enc_ptr p) = 7%nat.
Proof.
  intros Hp. unfold enc_ptr. apply padl_length.
  apply (dec_length p 7); [lia|]. unfold ptr_ok, PTR_MAX in Hp. change (10 ^ Z.of_nat 7) with 10000000. lia.
Qed.

Lemma lenfield_length n : 0 <= n <= IDXLEN_MAX -> length (padl 4 (dec n)) = 4%nat.
Proof.
  intros Hn. apply padl_length. apply (dec_length n 4); [lia|].
  unfold IDXLEN_MAX in Hn. change (10 ^ Z.of_nat 4) with 10000. lia.
Qed.

Lemma enc_rec_length r : rec_ok r -> Z.of_nat (length (enc_rec r)) = rsz r.
Proof.
  intros []. unfold enc_rec. rewrite !length_app, enc_ptr_length, lenfield_length by
    (unfold IDXLEN_MIN in *; done || lia). unfold rsz, p_len. lia.
Qed.

Lemma dat_rec_length r : Z.of_nat (length (dat_rec r)) = r_len r.
Proof. unfold dat_rec, r_len. len. Qed.

Lemma heads_length l : Forall ptr_ok l -> length (concat (enc_ptr <$> l)) = (7 * length l)%nat.
Proof.
  induction 1 as [|p l Hp _ IH]; [done|]. cbn. rewrite length_app, enc_ptr_length, IH by done. lia.
Qed.

Lemma hdr_length L : lay_ok L -> Z.of_nat (length (hdr_bytes L)) = rec_base.
Proof.
  intros []. unfold hdr_bytes. rewrite !length_app, enc_ptr_length, heads_length by done.
  rewrite lo_nheads0. reflexivity.
Qed.

Lemma recs_length l : Forall rec_ok l -> Z.of_nat (length (concat (enc_rec <$> l))) = total rsz l.
Proof.
  induction 1 as [|r l Hr _ IH]; [done|]. cbn.
  rewrite length_app, Nat2Z.inj_add, enc_rec_length, IH by done. done.
Qed.

Lemma idx_length L : lay_ok L -> Z.of_nat (length (idx_bytes L)) = end_off L.
Proof.
  intros HL. unfold idx_bytes, end_off.
  rewrite length_app, Nat2Z.inj_add, hdr_length, recs_length by apply HL || done. done.
Qed.

Lemma dat_recs_length l : Z.of_nat (length (concat (dat_rec <$> l))) = total r_len l.
Proof.
  induction l as [|r l IH]; [done|]. cbn. rewrite length_app, Nat2Z.inj_add, dat_rec_length. lia.
Qed.

Lemma dat_length L : Z.of_nat (length (dat_bytes L)) = dat_end L.
Proof. apply dat_recs_length. Qed.

Lemma offs_ok_app b l1 l2 :
  offs_ok b (l1 ++ l2) <-> offs_ok b l1 /\ offs_ok (b + total r_len l1) l2.
Proof.
  revert b; induction l1 as [|r l1 IH]; intros b; cbn.
  - rewrite Z.add_0_r. tauto.
  - rewrite IH. rewrite Z.add_assoc. tauto.
Qed.

(** ** Where things are *)

Lemma look_bounds L o r :
  look L o = Some r -> rec_base <= o /\ o + rsz r <= end_off L.
Proof. intros H. apply (seek_range rsz rsz_pos) in H. unfold end_off. lia. Qed.

Lemma look_set_rec L o o' r r' :
  look L o = Some r -> rsz r' = rsz r ->
  look (set_rec L o r') o' = if o =? o' then Some r' else look L o'.
Proof. apply seek_reseek. Qed.

Lemma look_app_rec L r : look (app_rec L r) (end_off L) = Some r.
Proof. apply (seek_app_last rsz rsz_pos). Qed.

Lemma look_app_rec_ne L r o : o <> end_off L -> look (app_rec L r) o = look L o.
Proof. apply seek_app_other. Qed.

Lemma rec_split L o r :
  lay_ok L -> look L o = Some r ->
  exists pre post, idx_bytes L = pre ++ enc_rec r ++ post /\ Z.of_nat (length pre) = o /\
    forall r', idx_bytes (set_rec L o r') = pre ++ enc_rec r' ++ post.
Proof.
  intros HL Hl. apply seek_split in Hl as (pre & post & E & ->).
  exists (hdr_bytes L ++ concat (enc_rec <$> pre)), (concat (enc_rec <$> post)).
  pose proof (lo_recs _ HL) as Hr. rewrite E in Hr. apply Forall_app in Hr as [Hpre _].
  split; [|split].
  - unfold idx_bytes. rewrite E, fmap_app, concat_app. cbn. by rewrite <- !app_assoc.
  - rewrite length_app, Nat2Z.inj_add, hdr_length, recs_length by done. done.
  - intros r'. unfold idx_bytes, set_rec. cbn [l_recs].
    rewrite E, (reseek_mid rsz rsz_pos), fmap_app, concat_app. cbn. by rewrite <- !app_assoc.
Qed.

Lemma dat_split L o r :
  lay_ok L -> look L o = Some r ->
  exists pre post, dat_bytes L = pre ++ dat_rec r ++ post /\
    Z.of_nat (length pre) = r_off r /\
    forall r', dat_bytes (set_rec L o r') = pre ++ dat_rec r' ++ post.
Proof.
  intros HL Hl. apply seek_split in Hl as (pre & post & E & ->).
  exists (concat (dat_rec <$> pre)), (concat (dat_rec <$> post)).
  pose proof (lo_offs _ HL) as Ho. rewrite E in Ho. apply offs_ok_app in Ho as [_ [Ho _]].
  split; [|split].
  - unfold dat_bytes. by rewrite E, fmap_app, concat_app.
  - rewrite dat_recs_length. lia.
  - intros r'. unfold dat_bytes, set_rec. cbn [l_recs].
    by rewrite E, (reseek_mid rsz rsz_pos), fmap_app, concat_app.
Qed.

Lemma head_split l i p :
  l !! i = Some p -> Forall ptr_ok l ->
  exists pre post, concat (enc_ptr <$> l) = pre ++ enc_ptr p ++ post /\
    length pre = (7 * i)%nat /\
    forall v, concat (enc_ptr <$> <[i := v]> l) = pre ++ enc_ptr v ++ post.
Proof.
  intros Hi Hl. exists (concat (enc_ptr <$> take i l)), (concat (enc_ptr <$> drop (S i) l)).
  pose proof (lookup_lt_Some _ _ _ Hi) as Hlt.
  split; [|split].
  - rewrite <- (take_drop_middle l i p Hi) at 1. by rewrite fmap_app, concat_app.
  - rewrite heads_length by by apply Forall_take. rewrite length_take. lia.
  - intros v. rewrite insert_take_drop by done. by rewrite fmap_app, concat_app.
Qed.

Lemma ptr_split L o p :
  lay_ok L -> get_ptr L o = Some p ->
  exists pre post, idx_bytes L = pre ++ enc_ptr p ++ post /\ Z.of_nat (length pre) = o /\
    forall v, idx_bytes (put_ptr L o v) = pre ++ enc_ptr v ++ post.
Proof.
  intros HL. unfold get_ptr, put_ptr, rec_base.
  destruct (Z.eqb_spec o 0) as [->|H0]; [|destruct (Z.ltb_spec o 967)].
  - intros [= <-]. exists [], (concat (enc_ptr <$> l_heads L) ++ [NEWLINE] ++ concat (enc_rec <$> l_recs L)).
    unfold idx_bytes, hdr_bytes. cbn. split; [by rewrite <- !app_assoc|].
    split; [done|]. intros v. by rewrite <- !app_assoc.
  - destruct (Z.ltb_spec 0 o), (Z.eqb_spec (o mod 7) 0) as [Hm|]; try done. cbn. intros Hh.
    destruct (head_split _ _ _ Hh (lo_heads _ HL)) as (pre & post & E & Hl & Hv).
    pose proof (lookup_lt_Some _ _ _ Hh) as Hlt. rewrite (lo_nheads _ HL) in Hlt.
    exists (enc_ptr (l_free L) ++ pre), (post ++ [NEWLINE] ++ concat (enc_rec <$> l_recs L)).
    unfold idx_bytes, hdr_bytes. cbn [l_free l_heads l_recs]. split; [|split].
    + rewrite E. by rewrite <- !app_assoc.
    + rewrite length_app, enc_ptr_length, Hl by apply HL.
      pose proof (Z.div_mod o 7). lia.
    + intros v. rewrite Hv. by rewrite <- !app_assoc.
  - destruct (look L o) as [r|] eqn:Hr; [|done]. cbn. intros [= <-].
    destruct (rec_split L o r HL Hr) as (pre & post & E & Hl & Hv).
    exists pre, (padl 4 (dec (p_len r)) ++ payload r ++ post).
    split; [|split; [done|]].
    + rewrite E. unfold enc_rec. by rewrite <- !app_assoc.
    + intros v. rewrite Hv. unfold enc_rec. rewrite <- !app_assoc. done.
Qed.

(** ** Reading a layout after an update *)

Lemma get_ptr_free L : get_ptr L 0 = Some (l_free L).
Proof. done. Qed.

Lemma get_ptr_head L i :
  0 <= i < 137 -> get_ptr L (7 * i + 7) = l_heads L !! Z.to_nat i.
Proof.
  intros Hi. unfold get_ptr, rec_base.
  destruct (Z.eqb_spec (7 * i + 7) 0); [lia|].
  destruct (Z.ltb_spec (7 * i + 7) 967); [|lia].
  destruct (Z.ltb_spec 0 (7 * i + 7)); [|lia].
  replace ((7 * i + 7) mod 7) with 0 by (symmetry; apply Z.mod_divide; [lia | exists (i + 1); lia]).
  cbn. f_equal. replace (7 * i + 7) with ((i + 1) * 7) by lia.
  rewrite Z.div_mul by lia. lia.
Qed.

Lemma get_ptr_rec L o : rec_base <= o -> get_ptr L o = r_ptr <$> look L o.
Proof.
  intros Ho. unfold get_ptr, rec_base in *.
  destruct (Z.eqb_spec o 0); [lia|]. destruct (Z.ltb_spec o 967); [lia | done].
Qed.

Lemma rsz_with_ptr v r : rsz (with_ptr v r) = rsz r.
Proof. done. Qed.

(** Two chain-pointer fields below the records do not share a table entry. *)
Lemma slot_inj o o' :
  0 < o < rec_base -> 0 < o' < rec_base -> o mod 7 = 0 -> o' mod 7 = 0 ->
  Z.to_nat (o / 7 - 1) = Z.to_nat (o' / 7 - 1) -> o = o'.
Proof.
  intros. pose proof (Z.div_mod o 7). pose proof (Z.div_mod o' 7). lia.
Qed.

Lemma get_put_ptr L x y p v :
  get_ptr L x = Some p ->
  get_ptr (put_ptr L x v) y = if x =? y then Some v else get_ptr L y.
Proof.
  unfold put_ptr.
  destruct (Z.eqb_spec x 0) as [->|Hx0]; [|destruct (Z.ltb_spec x rec_base) as [Hxb|Hxb]].
  - intros _. unfold get_ptr. cbn [l_free]. rewrite (Z.eqb_sym 0 y).
    destruct (y =? 0); done.
  - unfold get_ptr at 1. destruct (Z.eqb_spec x 0); [done|].
    destruct (Z.ltb_spec x rec_base); [|lia].
    destruct (Z.ltb_spec 0 x), (Z.eqb_spec (x mod 7) 0); try done. cbn. intros Hh.
    unfold get_ptr. cbn [l_free l_heads l_recs].
    destruct (Z.eqb_spec y 0) as [->|]; [destruct (Z.eqb_spec x 0); [lia | done]|].
    destruct (Z.ltb_spec y rec_base); [|destruct (Z.eqb_spec x y); [lia | done]].
    destruct (Z.ltb_spec 0 y), (Z.eqb_spec (y mod 7) 0); cbn;
      try (destruct (Z.eqb_spec x y); [subst; lia | done]).
    destruct (Z.eqb_spec x y) as [->|Hne].
    + apply list_lookup_insert_eq. by eapply lookup_lt_Some.
    + apply list_lookup_insert_ne. intros ?. apply Hne. by apply slot_inj.
  - rewrite get_ptr_rec by done. destruct (look L x) as [r|] eqn:Hr; [|done].
    intros _. destruct (Z.ltb_spec y rec_base).
    + destruct (Z.eqb_spec x y); [lia|]. unfold get_ptr. cbn [l_free l_heads set_rec].
      destruct (y =? 0); [done|]. destruct (Z.ltb_spec y rec_base); [done | lia].
    + rewrite !get_ptr_rec by done.
      rewrite (look_set_rec _ _ _ _ _ Hr) by done. by destruct (x =? y).
Qed.

Lemma info_put_ptr L x v o : info (put_ptr L x v) o = info L o.
Proof.
  unfold put_ptr, info. destruct (x =? 0); [done|]. destruct (x <? rec_base); [done|].
  destruct (look L x) as [r|] eqn:Hr; [|done].
  rewrite (look_set_rec _ _ _ _ _ Hr) by done.
  destruct (Z.eqb_spec x o) as [->|]; [by rewrite Hr | done].
Qed.

Lemma get_ptr_set_rec L x y r r' :
  look L x = Some r -> rsz r' = rsz r ->
  get_ptr (set_rec L x r') y = if x =? y then Some (r_ptr r') else get_ptr L y.
Proof.
  intros Hr Hsz. pose proof (look_bounds _ _ _ Hr) as [Hb _].
  destruct (Z.ltb_spec y rec_base).
  - destruct (Z.eqb_spec x y); [lia|]. unfold get_ptr. cbn [l_free l_heads set_rec].
    destruct (y =? 0); [done|]. destruct (Z.ltb_spec y rec_base); [done | lia].
  - rewrite !get_ptr_rec by done.
    rewrite (look_set_rec _ _ _ _ _ Hr) by done. by destruct (x =? y).
Qed.

Lemma end_off_ge L : rec_base <= end_off L.
Proof. unfold end_off. pose proof (total_nonneg rsz rsz_pos (l_recs L)). lia. Qed.

Lemma get_ptr_app_rec L r y :
  get_ptr (app_rec L r) y = if end_off L =? y then Some (r_ptr r) else get_ptr L y.
Proof.
  pose proof (end_off_ge L). destruct (Z.ltb_spec y rec_base).
  - destruct (Z.eqb_spec (end_off L) y); [lia|]. unfold get_ptr. cbn [l_free l_heads app_rec].
    destruct (y =? 0); [done|]. destruct (Z.ltb_spec y rec_base); [done | lia].
  - rewrite !get_ptr_rec by done.
    destruct (Z.eqb_spec (end_off L) y) as [<-|]; [by rewrite look_app_rec|].
    rewrite look_app_rec_ne by done. done.
Qed.

(** ** Updates keep a layout well formed *)

Lemma look_ok L o r : lay_ok L -> look L o = Some r -> rec_ok r.
Proof.
  intros HL (pre & post & E & _)%seek_split.
  pose proof (lo_recs _ HL) as H. rewrite E in H. by apply Forall_app in H as [_ [? _]%Forall_cons_1].
Qed.

Lemma get_ptr_ok L o p : lay_ok L -> get_ptr L o = Some p -> ptr_ok p.
Proof.
  intros HL. unfold get_ptr. destruct (o =? 0); [intros [= <-]; apply HL|].
  destruct (o <? rec_base).
  - destruct (_ && _); [|done]. intros H. eapply Forall_lookup_1; [apply HL | exact H].
  - destruct (look L o) as [r|] eqn:Hr; [|done]. intros [= <-]. by eapply look_ok.
Qed.

Lemma lay_ok_set_rec L o r r' :
  lay_ok L -> look L o = Some r -> rec_ok r' -> r_off r' = r_off r -> r_len r' = r_len r ->
  lay_ok (set_rec L o r').
Proof.
  intros [] (pre & post & E & ->)%seek_split Hr' Ho Hl.
  unfold set_rec. rewrite E, (reseek_mid rsz rsz_pos). split; cbn; try done.
  - rewrite E in lo_recs0. apply Forall_app in lo_recs0 as [? [? ?]%Forall_cons_1].
    apply Forall_app. split; [done|]. by constructor.
  - rewrite E in lo_offs0. apply offs_ok_app in lo_offs0 as [? [? ?]].
    apply offs_ok_app. split; [done|]. cbn. rewrite Ho, Hl. done.
Qed.

Lemma lay_ok_app_rec L r :
  lay_ok L -> rec_ok r -> r_off r = dat_end L -> lay_ok (app_rec L r).
Proof.
  intros [] Hr Ho. split; cbn; try done.
  - apply Forall_app. split; [done|]. by constructor.
  - apply offs_ok_app. split; [done|]. cbn. unfold dat_end in Ho. split; [lia | done].
Qed.

Lemma rec_ok_with_ptr r v : rec_ok r -> ptr_ok v -> rec_ok (with_ptr v r).
Proof. intros [] ?. by split. Qed.

Lemma lay_ok_put_ptr L o v p :
  lay_ok L -> get_ptr L o = Some p -> ptr_ok v -> lay_ok (put_ptr L o v).
Proof.
  intros HL Hg Hv. unfold put_ptr.
  destruct (Z.eqb_spec o 0); [by destruct HL; split|].
  destruct (Z.ltb_spec o rec_base).
  - destruct HL; split; cbn; try done; [by apply Forall_insert | by rewrite length_insert].
  - destruct (look L o) as [r|] eqn:Hr; [|done].
    eapply lay_ok_set_rec; eauto. apply rec_ok_with_ptr; [by eapply look_ok | done].
Qed.

Lemma put_ptr_dat L o v : dat_bytes (put_ptr L o v) = dat_bytes L.
Proof.
  unfold put_ptr. destruct (o =? 0); [done|]. destruct (o <? rec_base); [done|].
  destruct (look L o) as [r|] eqn:Hr; [|done].
  apply seek_split in Hr as (pre & post & E & ->). unfold dat_bytes, set_rec. cbn.
  rewrite E, (reseek_mid rsz rsz_pos), !fmap_app, !concat_app. done.
Qed.

Lemma put_ptr_end L o v : end_off (put_ptr L o v) = end_off L.
Proof.
  unfold put_ptr. destruct (o =? 0); [done|]. destruct (o <? rec_base); [done|].
  destruct (look L o) as [r|] eqn:Hr; [|done]. unfold end_off, set_rec. cbn.
  by rewrite (seek_reseek_sz rsz rsz_pos _ _ _ _ _ Hr).
Qed.

Lemma idx_app_rec L r : idx_bytes (app_rec L r) = idx_bytes L ++ enc_rec r.
Proof.
  unfold idx_bytes, hdr_bytes, app_rec. cbn. rewrite fmap_app, concat_app. cbn.
  by rewrite app_nil_r, <- !app_assoc.
Qed.

Lemma dat_app_rec L r : dat_bytes (app_rec L r) = dat_bytes L ++ dat_rec r.
Proof. unfold dat_bytes, app_rec. cbn. rewrite fmap_app, concat_app. cbn. by rewrite app_nil_r. Qed.

Lemma set_rec_size L o r r' :
  look L o = Some r -> rsz r' = rsz r -> r_len r' = r_len r ->
  end_off (set_rec L o r') = end_off L /\ dat_end (set_rec L o r') = dat_end L.
Proof.
  intros (pre & post & E & ->)%seek_split Hs Hl. unfold end_off, dat_end, set_rec. cbn [l_recs].
  rewrite E, (reseek_mid rsz rsz_pos), !total_app. cbn [total]. lia.
Qed.

Lemma put_ptr_size L o v :
  end_off (put_ptr L o v) = end_off L /\ dat_end (put_ptr L o v) = dat_end L.
Proof. split; [apply put_ptr_end | by rewrite <- !dat_length, put_ptr_dat]. Qed.

Lemma app_rec_size L r :
  end_off (app_rec L r) = end_off L + rsz r /\ dat_end (app_rec L r) = dat_end L + r_len r.
Proof. unfold end_off, dat_end, app_rec. cbn [l_recs]. rewrite !total_app. cbn [total]. lia. Qed.

Lemma look_put_ptr_ne L x v o : x <> o -> look (put_ptr L x v) o = look L o.
Proof.
  intros Hne. unfold put_ptr. destruct (x =? 0); [done|]. destruct (x <? rec_base); [done|].
  destruct (look L x) as [r|] eqn:Hr; [|done]. rewrite (look_set_rec _ _ _ _ _ Hr) by done.
  by destruct (Z.eqb_spec x o).
Qed.

Lemma look_end L : look L (end_off L) = None.
Proof.
  destruct (look L (end_off L)) as [r|] eqn:E; [|done].
  apply look_bounds in E as [_ ?]. pose proof (rsz_pos r). lia.
Qed.

(** Every record takes at least a byte of the index file. *)
Lemma recs_le L : lay_ok L -> (length (l_recs L) <= length (idx_bytes L))%nat.
Proof.
  intros HL. pose proof (idx_length _ HL) as Hi. unfold end_off, rec_base in Hi.
  assert (Z.of_nat (length (l_recs L)) <= total rsz (l_recs L)); [|lia].
  clear. induction (l_recs L) as [|r l IH]; cbn [length total]; [done|].
  pose proof (rsz_pos r). lia.
Qed.
