(* ===== verification/DbOps.v ===== *)
(** * What the primitives of db.c do to a layout

    Specifications of the internal functions of src/apue.3e/db/db.c in terms of
    the layout of DbLayout: on an open handle whose files hold the bytes of a
    layout, reading returns the fields of the layout and writing overwrites
    them.  Each is a total-correctness statement [wp]: the function returns,
    none of its checks aborts the process, and no buffer is overrun. *)

From S2P Require Import Prelude CLib Posix Db DbLayout.
Import Lockreg.

(** ** Rules for the state of a handle *)

Lemma wp_sys {A} (m : M world A) a w' (Q : A -> st -> Prop) s :
  m (W s) = (Ret a, w') -> Q a (St w' (D s)) -> wp (sys m) Q s.
Proof. intros E HQ. unfold sys. apply wp_zoom. by eapply wp_of_run. Qed.

Lemma wp_handle (Q : DB -> st -> Prop) s : Q (D s) s -> wp handle Q s.
Proof. exact id. Qed.

Lemma wp_upd f (Q : unit -> st -> Prop) s : Q tt (St (W s) (f (D s))) -> wp (upd f) Q s.
Proof. exact id. Qed.

Lemma wp_dump_if b msg (Q : unit -> st -> Prop) s :
  b = false -> Q tt s -> wp (dump_if b msg) Q s.
Proof. by intros ->. Qed.

Lemma wp_poke_idx off d (Q : unit -> st -> Prop) s :
  (off + length d <= length (idxbuf (D s)))%nat ->
  Q tt (St (W s) (set_idxbuf (overwrite off d (idxbuf (D s))) (D s))) ->
  wp (poke_idx off d) Q s.
Proof.
  intros Hl HQ. unfold poke_idx. apply wp_bind, wp_handle.
  destruct (Nat.leb_spec (off + length d) (length (idxbuf (D s)))); [done | lia].
Qed.

Lemma wp_poke_dat off d (Q : unit -> st -> Prop) s :
  (off + length d <= length (datbuf (D s)))%nat ->
  Q tt (St (W s) (set_datbuf (overwrite off d (datbuf (D s))) (D s))) ->
  wp (poke_dat off d) Q s.
Proof.
  intros Hl HQ. unfold poke_dat. apply wp_bind, wp_handle.
  destruct (Nat.leb_spec (off + length d) (length (datbuf (D s)))); [done | lia].
Qed.

(** One step of a function: take its first action. *)
Ltac step := apply wp_bind.
Ltac step_handle := apply wp_bind, wp_handle.
Ltac step_upd := apply wp_bind, wp_upd.
Ltac step_ok := apply wp_bind, wp_dump_if; [ | ].

(** ** An open handle on a pair of files *)

(** The fields no primitive changes behind the caller's back. *)
Definition counters (d : DB) : list Z :=
  [cnt_delok d; cnt_delerr d; cnt_fetchok d; cnt_fetcherr d; cnt_nextrec d;
   cnt_stor1 d; cnt_stor2 d; cnt_stor3 d; cnt_stor4 d; cnt_storerr d].

Record frame (d d' : DB) : Prop := {
  f_ptroff : ptroff d' = ptroff d;
  f_chainoff : chainoff d' = chainoff d;
  f_counters : counters d' = counters d }.

Lemma frame_refl d : frame d d.
Proof. by split. Qed.

Lemma frame_trans d d' d'' : frame d d' -> frame d' d'' -> frame d d''.
Proof. intros [] []. split; congruence. Qed.

(** The handle describes the record [r] read at offset [o]. *)
Record holds (d : DB) (o : Z) (r : irec) : Prop := {
  h_idxoff : idxoff d = o;
  h_ptrval : ptrval d = r_ptr r;
  h_idxlen : idxlen d = p_len r;
  h_datoff : datoff d = r_off r;
  h_datlen : datlen d = r_len r;
  h_idxbuf : exists t, idxbuf d = r_key r ++ 0 :: t }.

Section ops.
Context (ifd dfd : Z) (pi pd : bytes).
Context (Hfd : ifd <> dfd) (Hpath : pi <> pd).

(** [Open s L x]: no system call fails, the handle is open on the files of
    layout [L], and [x] has been appended to the data file. *)
Record Open (s : st) (L : lay) (x : bytes) : Prop := {
  o_faults : w_faults (W s) = [];
  o_other : w_other (W s) = [];
  o_ifd : idxfd (D s) = ifd;
  o_dfd : datfd (D s) = dfd;
  o_ip : exists ip, w_fds (W s) !! ifd = Some (pi, ip);
  o_dp : exists dp, w_fds (W s) !! dfd = Some (pd, dp);
  o_idx : w_fs (W s) !! pi = Some (idx_bytes L);
  o_dat : w_fs (W s) !! pd = Some (dat_bytes L ++ x);
  o_nhash : nhash (D s) = NHASH_DEF;
  o_hashoff : hashoff (D s) = HASH_OFF;
  o_ibuf : length (idxbuf (D s)) = 1026%nat;
  o_dbuf : length (datbuf (D s)) = 1026%nat;
  o_lay : lay_ok L }.

Lemma Open_db s L x d :
  Open s L x -> idxfd d = idxfd (D s) -> datfd d = datfd (D s) ->
  nhash d = nhash (D s) -> hashoff d = hashoff (D s) ->
  length (idxbuf d) = 1026%nat -> length (datbuf d) = 1026%nat ->
  Open (St (W s) d) L x.
Proof. intros []. split; cbn; congruence || done. Qed.

Lemma Open_ipos s L x o :
  Open s L x -> Open (St (set_fds (<[ifd := (pi, o)]> (w_fds (W s))) (W s)) (D s)) L x.
Proof.
  intros []. split; cbn; try done.
  - rewrite lookup_insert_eq. eauto.
  - by rewrite lookup_insert_ne.
Qed.

Lemma Open_dpos s L x o :
  Open s L x -> Open (St (set_fds (<[dfd := (pd, o)]> (w_fds (W s))) (W s)) (D s)) L x.
Proof.
  intros []. split; cbn; try done.
  - by rewrite lookup_insert_ne.
  - rewrite lookup_insert_eq. eauto.
Qed.

Lemma Open_idx s L x L' :
  Open s L x -> lay_ok L' -> dat_bytes L' = dat_bytes L ->
  Open (St (set_fs (<[pi := idx_bytes L']> (w_fs (W s))) (W s)) (D s)) L' x.
Proof.
  intros [] ? Hd. split; cbn; try done.
  - by rewrite lookup_insert_eq.
  - rewrite lookup_insert_ne, Hd by done. done.
Qed.

Lemma Open_dat s L x L' x' :
  Open s L x -> lay_ok L' -> idx_bytes L' = idx_bytes L ->
  Open (St (set_fs (<[pd := dat_bytes L' ++ x']> (w_fs (W s))) (W s)) (D s)) L' x'.
Proof.
  intros [] ? Hd. split; cbn; try done.
  - rewrite lookup_insert_ne, Hd by done. done.
  - by rewrite lookup_insert_eq.
Qed.

Lemma Open_locks s L x lk :
  Open s L x -> Open (St (set_locks lk (W s)) (D s)) L x.
Proof. intros []. by split. Qed.

(** The files' offsets. *)
Definition pos_of (fd : Z) (s : st) : Z :=
  match w_fds (W s) !! fd with Some (_, o) => o | None => 0 end.
Abbreviation ipos := (pos_of ifd).
Abbreviation dpos := (pos_of dfd).

(** Only the kernel's bookkeeping of offsets and files changed. *)
Definition quiet (s s' : st) : Prop :=
  D s' = D s /\ w_locks (W s') = w_locks (W s).

Lemma quiet_refl s : quiet s s.
Proof. done. Qed.

Lemma quiet_trans s s' s'' : quiet s s' -> quiet s' s'' -> quiet s s''.
Proof. unfold quiet. intros [] []. split; congruence. Qed.

(** ** System calls on the two files *)

Lemma seek_i s L x o :
  Open s L x -> 0 <= o ->
  wp (sys (lseek ifd o SEEK_SET))
    (fun r s' => r = o /\ Open s' L x /\ quiet s s' /\ ipos s' = o) s.
Proof.
  intros HO Ho. pose proof HO as [Hf _ _ _ [ip Hip] _ _ _ _ _ _ _ _].
  eapply wp_sys; [eapply lseek_run; eauto|]. split; [done|].
  split; [by apply Open_ipos|]. split; [done|]. unfold pos_of. cbn. by rewrite lookup_insert_eq.
Qed.

Lemma seek_cur_i s L x :
  Open s L x -> 0 <= ipos s ->
  wp (sys (lseek ifd 0 SEEK_CUR))
    (fun r s' => r = ipos s /\ Open s' L x /\ quiet s s' /\ ipos s' = ipos s) s.
Proof.
  intros HO. pose proof HO as [Hf _ _ _ [ip Hip] _ _ _ _ _ _ _ _].
  unfold pos_of. rewrite Hip. intros Ho.
  eapply wp_sys; [eapply lseek_cur_run; eauto|]. split; [done|].
  split; [by apply Open_ipos|]. split; [done|]. cbn. by rewrite lookup_insert_eq.
Qed.

Lemma seek_end_i s L x :
  Open s L x ->
  wp (sys (lseek ifd 0 SEEK_END))
    (fun r s' => r = end_off L /\ Open s' L x /\ quiet s s' /\ ipos s' = end_off L) s.
Proof.
  intros HO. pose proof HO as [Hf _ _ _ [ip Hip] _ Hc _ _ _ _ _ HL].
  eapply wp_sys; [eapply lseek_end_run; eauto|]. rewrite (idx_length _ HL). split; [done|].
  split; [by apply Open_ipos|]. split; [done|]. unfold pos_of. cbn. by rewrite lookup_insert_eq.
Qed.

Lemma seek_d s L x o :
  Open s L x -> 0 <= o ->
  wp (sys (lseek dfd o SEEK_SET))
    (fun r s' => r = o /\ Open s' L x /\ quiet s s' /\ dpos s' = o /\ ipos s' = ipos s) s.
Proof.
  intros HO Ho. pose proof HO as [Hf _ _ _ _ [dp Hdp] _ _ _ _ _ _ _].
  eapply wp_sys; [eapply lseek_run; eauto|]. split; [done|].
  split; [by apply Open_dpos|]. split; [done|]. unfold pos_of. cbn.
  by rewrite lookup_insert_eq, lookup_insert_ne.
Qed.

Lemma seek_end_d s L :
  Open s L [] ->
  wp (sys (lseek dfd 0 SEEK_END))
    (fun r s' => r = dat_end L /\ Open s' L [] /\ quiet s s' /\ dpos s' = dat_end L) s.
Proof.
  intros HO. pose proof HO as [Hf _ _ _ _ [dp Hdp] _ Hc _ _ _ _ _]. rewrite app_nil_r in Hc.
  eapply wp_sys; [eapply lseek_end_run; eauto|]. rewrite dat_length. split; [done|].
  split; [by apply Open_dpos|]. split; [done|]. unfold pos_of. cbn. by rewrite lookup_insert_eq.
Qed.

Lemma read_i s L x n pre b post :
  Open s L x -> idx_bytes L = pre ++ b ++ post -> ipos s = Z.of_nat (length pre) ->
  n = length b ->
  wp (sys (read ifd n))
    (fun nd s' => nd = (Z.of_nat n, b) /\ Open s' L x /\ quiet s s' /\
                  ipos s' = ipos s + Z.of_nat n) s.
Proof.
  intros HO E Hp Hn. pose proof HO as [Hf _ _ _ [ip Hip] _ Hc _ _ _ _ _ _]. rewrite E in Hc.
  unfold pos_of in *. rewrite Hip in Hp.
  eapply wp_sys; [eapply read_run; eauto|]. split; [done|].
  split; [by apply Open_ipos|]. split; [done|]. cbn. by rewrite Hip, lookup_insert_eq.
Qed.

Lemma read_d s L x n pre b post :
  Open s L x -> dat_bytes L ++ x = pre ++ b ++ post -> dpos s = Z.of_nat (length pre) ->
  n = length b ->
  wp (sys (read dfd n)) (fun nd s' => nd = (Z.of_nat n, b) /\ Open s' L x /\ quiet s s' /\
                                      ipos s' = ipos s) s.
Proof.
  intros HO E Hp Hn. pose proof HO as [Hf _ _ _ _ [dp Hdp] _ Hc _ _ _ _ _]. rewrite E in Hc.
  unfold pos_of in *. rewrite Hdp in Hp.
  eapply wp_sys; [eapply read_run; eauto|]. split; [done|].
  split; [by apply Open_dpos|]. split; [done|]. cbn. by rewrite lookup_insert_ne.
Qed.

Lemma write_i s L L' x pre b0 b post :
  Open s L x -> idx_bytes L = pre ++ b0 ++ post -> ipos s = Z.of_nat (length pre) ->
  length b = length b0 -> idx_bytes L' = pre ++ b ++ post ->
  lay_ok L' -> dat_bytes L' = dat_bytes L ->
  wp (sys (write ifd b))
    (fun n s' => n = Z.of_nat (length b) /\ Open s' L' x /\ quiet s s') s.
Proof.
  intros HO E Hp Hn E' HL' Hd. pose proof HO as [Hf _ _ _ [ip Hip] _ Hc _ _ _ _ _ _].
  rewrite E in Hc. unfold pos_of in *. rewrite Hip in Hp.
  eapply wp_sys; [eapply write_run; eauto|]. rewrite <- E'. split; [done|]. split; [|done].
  eapply (Open_ipos (St (set_fs _ (W s)) (D s))). by eapply Open_idx.
Qed.

Lemma append_i s L L' x x' b :
  Open s L x -> ipos s = end_off L -> idx_bytes L' = idx_bytes L ++ b ->
  lay_ok L' -> dat_bytes L' ++ x' = dat_bytes L ++ x ->
  wp (sys (write ifd b))
    (fun n s' => n = Z.of_nat (length b) /\ Open s' L' x' /\ quiet s s') s.
Proof.
  intros HO Hp E' HL' Hd. pose proof HO as [Hf ? ? ? [ip Hip] ? Hc Hdc ? ? ? ? HL].
  rewrite <- (idx_length _ HL) in Hp. unfold pos_of in *. rewrite Hip in Hp.
  eapply wp_sys; [eapply write_end_run; eauto|]. rewrite <- E'. split; [done|]. split; [|done].
  eapply (Open_ipos (St (set_fs _ (W s)) (D s))). split; cbn; try done.
  - eauto.
  - by rewrite lookup_insert_eq.
  - rewrite lookup_insert_ne, Hd by done. done.
Qed.

Lemma write_d s L L' x pre b0 b post :
  Open s L x -> dat_bytes L ++ x = pre ++ b0 ++ post -> dpos s = Z.of_nat (length pre) ->
  length b = length b0 -> dat_bytes L' ++ x = pre ++ b ++ post ->
  lay_ok L' -> idx_bytes L' = idx_bytes L ->
  wp (sys (write dfd b))
    (fun n s' => n = Z.of_nat (length b) /\ Open s' L' x /\ quiet s s') s.
Proof.
  intros HO E Hp Hn E' HL' Hd. pose proof HO as [Hf _ _ _ _ [dp Hdp] _ Hc _ _ _ _ _].
  rewrite E in Hc. unfold pos_of in *. rewrite Hdp in Hp.
  eapply wp_sys; [eapply write_run; eauto|]. rewrite <- E'. split; [done|]. split; [|done].
  eapply (Open_dpos (St (set_fs _ (W s)) (D s))). by eapply Open_dat.
Qed.

Lemma append_d s L b :
  Open s L [] -> dpos s = dat_end L ->
  wp (sys (write dfd b))
    (fun n s' => n = Z.of_nat (length b) /\ Open s' L b /\ quiet s s') s.
Proof.
  intros HO Hp. pose proof HO as [Hf _ _ _ _ [dp Hdp] _ Hc _ _ _ _ HL].
  rewrite app_nil_r in Hc. rewrite <- dat_length in Hp. unfold pos_of in *. rewrite Hdp in Hp.
  eapply wp_sys; [eapply write_end_run; eauto|]. split; [done|]. split; [|done].
  eapply (Open_dpos (St (set_fs _ (W s)) (D s))). by eapply Open_dat.
Qed.

(** ** Chain pointers *)

Lemma readptr_spec s L x o p :
  Open s L x -> get_ptr L o = Some p ->
  wp (_db_readptr o) (fun v s' => v = p /\ Open s' L x /\ quiet s s') s.
Proof.
  intros HO Hg. pose proof (o_lay _ _ _ HO) as HL.
  destruct (ptr_split L o p HL Hg) as (pre & post & E & Hl & _).
  pose proof (get_ptr_ok _ _ _ HL Hg) as Hp.
  unfold _db_readptr. step_handle. rewrite (o_ifd _ _ _ HO).
  eapply wp_seq; [apply (seek_i _ _ _ _ HO); lia|]. intros r s1 (-> & HO1 & Q1 & P1).
  step_ok; [lia|].
  eapply wp_seq; [eapply (read_i _ _ _ _ _ _ _ HO1 E); [lia | by rewrite enc_ptr_length]|].
  intros nd s2 (-> & HO2 & Q2 & _). step_ok; [done|]. apply wp_ret. cbn.
  split; [|split; [done | by eapply quiet_trans]].
  unfold enc_ptr. apply atol_dec_pad; [apply Hp | done].
Qed.

Lemma ptr_guard v : ptr_ok v -> (v <? 0) || (v >? PTR_MAX) = false.
Proof. unfold ptr_ok. lia. Qed.

Lemma writeptr_spec s L x o p v :
  Open s L x -> get_ptr L o = Some p -> ptr_ok v ->
  wp (_db_writeptr o v) (fun _ s' => Open s' (put_ptr L o v) x /\ quiet s s') s.
Proof.
  intros HO Hg Hv. pose proof (o_lay _ _ _ HO) as HL.
  destruct (ptr_split L o p HL Hg) as (pre & post & E & Hl & Hw).
  pose proof (get_ptr_ok _ _ _ HL Hg) as Hp.
  unfold _db_writeptr. step_handle. rewrite (ptr_guard v Hv), (o_ifd _ _ _ HO).
  eapply wp_seq; [apply (seek_i _ _ _ _ HO); lia|]. intros r s1 (-> & HO1 & Q1 & P1).
  step_ok; [lia|].
  change (padl (Z.to_nat PTR_SZ) (dec v)) with (enc_ptr v).
  rewrite snprintf_fits by (rewrite enc_ptr_length by done; unfold PTR_SZ; lia).
  replace (take (Z.to_nat PTR_SZ) (enc_ptr v ++ [0])) with (enc_ptr v).
  2:{ change (Z.to_nat PTR_SZ) with 7%nat. rewrite <- (enc_ptr_length v Hv). by rewrite take_app_length. }
  eapply wp_seq; [eapply (write_i _ _ (put_ptr L o v) _ _ _ _ _ HO1 E);
    [lia | by rewrite !enc_ptr_length | apply Hw | by eapply lay_ok_put_ptr | apply put_ptr_dat]|].
  intros n s2 (-> & HO2 & Q2). apply wp_dump_if; [by rewrite enc_ptr_length by done|].
  split; [done | by eapply quiet_trans].
Qed.

(** ** Index records *)

Lemma nth_mid (p q : bytes) c : nth (length p) (p ++ c :: q) 0 = c.
Proof. rewrite app_nth2, Nat.sub_diag by lia. done. Qed.

Lemma overwrite_one (p q : bytes) c c' :
  overwrite (length p) [c'] (p ++ c :: q) = p ++ c' :: q.
Proof. by apply (overwrite_mid p [c] [c'] q). Qed.

Lemma drop_mid (p q : bytes) c : drop (S (length p)) (p ++ c :: q) = q.
Proof. induction p as [|a p IH]; [by destruct q | exact IH]. Qed.

Lemma to_u64_small n : 0 <= n <= 1024 -> to_u64 n = n.
Proof. intros. unfold to_u64. apply Z.mod_small. lia. Qed.

(** Splitting a buffer that holds a record whose newline was replaced. *)
Lemma splitidx_spec s L x r t :
  Open s L x -> rec_ok r ->
  idxbuf (D s) = r_key r ++ SEP :: dec (r_off r) ++ SEP :: dec (r_len r) ++ 0 :: t ->
  wp _db_splitidx (fun v s' => v = ptrval (D s) /\ W s' = W s /\
    exists t', D s' = set_datlen (r_len r) (set_datoff (r_off r)
                 (set_idxbuf (r_key r ++ 0 :: t') (D s))) /\
               length (r_key r ++ 0 :: t') = 1026%nat) s.
Proof.
  intros HO [_ [Hk0 Hk] [_ Hd] Hoff _] Hbuf. pose proof (o_ibuf _ _ _ HO) as Hlen.
  set (k := r_key r) in *. set (a := dec (r_off r)) in *. set (b := dec (r_len r)) in *.
  assert (Ha : Forall digit a) by by apply dec_digits.
  assert (Hb : Forall digit b) by (apply dec_digits; unfold r_len; lia).
  assert (Hsep : ~ digit SEP) by (unfold digit, SEP; lia).
  rewrite Hbuf in Hlen. unfold _db_splitidx. step_handle. rewrite Hbuf, strchr_first by done.
  step. apply wp_poke_idx; [rewrite Hbuf; len|]. rewrite Hbuf, overwrite_one.
  step_handle. cbn [D idxbuf set_idxbuf]. rewrite drop_mid, strchr_first
    by (by apply digit_nonul || by apply digit_no).
  step. apply wp_poke_idx; [cbn; len|]. cbn [D W idxbuf set_idxbuf].
  replace (k ++ NUL :: a ++ SEP :: b ++ 0 :: t) with ((k ++ NUL :: a) ++ SEP :: b ++ 0 :: t)
    by by rewrite <- app_assoc.
  replace (S (length k) + length a)%nat with (length (k ++ NUL :: a)) by len.
  rewrite overwrite_one. step_handle. cbn [D W idxbuf set_idxbuf].
  rewrite drop_mid, strchr_none by (by apply digit_nonul || by apply digit_no || done).
  step_ok; [done|]. rewrite <- app_assoc. cbn [app]. rewrite drop_mid.
  rewrite (atol_dec (r_off r)), (atol_dec (r_len r)) by (unfold r_len; done || lia).
  step_upd. cbn [D W]. step_ok; [lia|].
  rewrite (to_u64_small (r_len r)) by (unfold r_len; lia).
  step_upd. step_ok; [unfold r_len, DATLEN_MAX; lia|]. apply wp_ret.
  split; [done|]. split; [done|]. exists (a ++ NUL :: b ++ 0 :: t). split; [done|]. len.
Qed.

(** The second part of [_db_readidx]: the payload of a record whose length is known. *)
Lemma readidx_payload s L x r pre post :
  Open s L x -> rec_ok r -> idx_bytes L = pre ++ payload r ++ post -> ipos s = Z.of_nat (length pre) ->
  wp (let* rd := sys (read ifd (Z.to_nat (p_len r))) in
      poke_idx 0 rd.2 ;;;
      dump_if (negb (rd.1 =? p_len r)) "_db_readidx: read error of index record" ;;;
      let* db := handle in
      dump_if (negb (nth (Z.to_nat (p_len r) - 1) (idxbuf db) 0 =? NEWLINE)) "_db_readidx: missing newline" ;;;
      poke_idx (Z.to_nat (p_len r) - 1) [NUL] ;;;
      _db_splitidx)
    (fun v s' => v = ptrval (D s) /\ Open s' L x /\ w_locks (W s') = w_locks (W s) /\ ipos s' = ipos s + p_len r /\
       exists t', D s' = set_datlen (r_len r) (set_datoff (r_off r) (set_idxbuf (r_key r ++ 0 :: t') (D s)))) s.
Proof.
  intros HO Hok E Hpos. pose proof (ro_plen _ Hok) as Hpl. unfold IDXLEN_MIN, IDXLEN_MAX in Hpl.
  eapply wp_seq; [eapply (read_i _ _ x _ _ _ _ HO E); [done|unfold p_len; lia]|].
  intros rd s4 (-> & HO4 & [Q4 K4] & P4). cbn [fst snd].
  pose proof (o_ibuf _ _ _ HO4) as Hbl.
  step. apply wp_poke_idx; [unfold p_len in Hpl; lia|].
  step_ok; [by rewrite Z2Nat.id, Z.eqb_refl by lia|]. step_handle. cbn [D W].
  set (p0 := r_key r ++ SEP :: dec (r_off r) ++ SEP :: dec (r_len r)).
  assert (Ep : payload r = p0 ++ [NEWLINE]).
  { unfold payload, p0. cbn. by rewrite <- app_assoc; cbn; rewrite <- app_assoc. }
  assert (Hp0 : (Z.to_nat (p_len r) - 1)%nat = length p0).
  { unfold p_len. rewrite Ep. len. }
  set (t := drop (length (payload r)) (idxbuf (D s4))).
  assert (Eb : overwrite 0 (payload r) (idxbuf (D s4)) = p0 ++ NEWLINE :: t).
  { unfold overwrite. cbn [take app]. rewrite Ep at 1. by rewrite <- app_assoc. }
  rewrite Hp0. cbn [idxbuf set_idxbuf]. rewrite Eb, nth_mid. step_ok; [done|].
  assert (Hlt : length (p0 ++ NEWLINE :: t) = 1026%nat).
  { rewrite <- Eb, overwrite_length; [done|]. unfold p_len in Hpl. lia. }
  step. apply wp_poke_idx; [cbn [D idxbuf set_idxbuf]; rewrite length_app in *; cbn in *; lia|].
  cbn [D W idxbuf set_idxbuf]. rewrite overwrite_one.
  set (d5 := set_idxbuf (p0 ++ NUL :: t) _).
  assert (HO5 : Open (St (W s4) d5) L x).
  { apply (Open_db s4); try done; cbn [d5 idxbuf set_idxbuf]; [|apply HO4].
    rewrite length_app in *. cbn in *. lia. }
  eapply wp_mono; [eapply (splitidx_spec _ _ _ r t HO5 Hok); cbn; unfold p0;
    rewrite <- app_assoc; cbn; by rewrite <- app_assoc|].
  cbn [D W]. intros v s6 (-> & EW & t' & ED & Hl6). split_and!.
  - unfold d5. by rewrite Q4.
  - destruct s6 as [w6 d6]. cbn in EW, ED. subst.
    apply (Open_db (St (W s4) d5) _ _ _ HO5); try done; apply HO4.
  - by rewrite EW, K4.
  - unfold pos_of in *. rewrite EW, P4. lia.
  - exists t'. rewrite ED. unfold d5. by rewrite Q4.
Qed.

(** Reading the record at [o], by offset or from the current position. *)
Lemma readidx_spec s L x arg o r :
  Open s L x -> look L o = Some r -> (arg = o \/ arg = 0 /\ ipos s = o) ->
  wp (_db_readidx arg) (fun v s' => v = r_ptr r /\ Open s' L x /\ holds (D s') o r /\
    frame (D s) (D s') /\ datbuf (D s') = datbuf (D s) /\
    w_locks (W s') = w_locks (W s) /\ ipos s' = o + rsz r) s.
Proof.
  intros HO Hr Harg. pose proof (o_lay _ _ _ HO) as HL. pose proof (look_ok _ _ _ HL Hr) as Hok.
  destruct (look_bounds _ _ _ Hr) as [Hb _]. unfold rec_base in Hb.
  destruct (rec_split L o r HL Hr) as (pre & post & E & Hl & _).
  pose proof (ro_plen _ Hok) as Hpl. unfold IDXLEN_MIN, IDXLEN_MAX in Hpl.
  set (hd := enc_ptr (r_ptr r) ++ padl 4 (dec (p_len r))).
  assert (Hhd : length hd = 11%nat).
  { unfold hd. rewrite length_app, enc_ptr_length, lenfield_length; [done| |apply Hok].
    unfold IDXLEN_MAX. lia. }
  assert (E1 : idx_bytes L = pre ++ hd ++ (payload r ++ post)).
  { rewrite E. unfold enc_rec, hd. by rewrite <- !app_assoc. }
  assert (E2 : idx_bytes L = (pre ++ hd) ++ payload r ++ post) by by rewrite E1, <- app_assoc.
  unfold _db_readidx. step_handle. rewrite (o_ifd _ _ _ HO).
  eapply (wp_seq _ _ (fun v s' => v = o /\ Open s' L x /\ quiet s s' /\ ipos s' = o)).
  { destruct Harg as [->|[-> Hcur]].
    - destruct (Z.eqb_spec o 0); [lia|]. apply (seek_i _ _ _ _ HO); lia.
    - cbn [Z.eqb]. eapply wp_mono; [apply (seek_cur_i _ _ _ HO); lia|].
      rewrite Hcur. tauto. }
  intros ? s1 (-> & HO1 & [Q1 K1] & P1). step_upd. step_ok; [lia|].
  unfold readv. cbn [foldr].
  eapply wp_seq; [eapply (read_i _ _ x _ _ _ _ (Open_db _ _ _ (set_idxoff o (D s1)) HO1 eq_refl eq_refl
    eq_refl eq_refl (o_ibuf _ _ _ HO1) (o_dbuf _ _ _ HO1)) E1); [exact (eq_trans P1 (eq_sym Hl)) | by rewrite Hhd]|].
  intros nd s2 (-> & HO2 & [Q2 K2] & P2). cbn [fst snd].
  replace (negb _) with false by done.
  replace (take (Z.to_nat PTR_SZ) hd) with (enc_ptr (r_ptr r)).
  2:{ unfold hd. change (Z.to_nat PTR_SZ) with 7%nat.
      rewrite <- (enc_ptr_length (r_ptr r)) at 1 by apply Hok. by rewrite take_app_length. }
  replace (drop (Z.to_nat PTR_SZ) hd) with (padl 4 (dec (p_len r))).
  2:{ unfold hd. change (Z.to_nat PTR_SZ) with 7%nat.
      rewrite <- (enc_ptr_length (r_ptr r)) by apply Hok. by rewrite drop_app_length. }
  unfold atoi, enc_ptr. rewrite !atol_dec_pad by (apply Hok || done || lia).
  step_upd. rewrite to_u64_small by lia. step_upd. cbn [D W].
  step_ok; [unfold IDXLEN_MIN, IDXLEN_MAX; lia|].
  set (d3 := set_idxlen _ _).
  assert (HO3 : Open (St (W s2) d3) L x).
  { apply (Open_db s2); try done; apply HO2. }
  assert (P3 : ipos (St (W s2) d3) = Z.of_nat (length (pre ++ hd))).
  { unfold pos_of in *. cbn [W] in *. rewrite P2, P1, length_app, Hhd. unfold PTR_SZ, IDXLEN_SZ. lia. }
  eapply wp_mono; [exact (readidx_payload _ _ _ _ _ _ HO3 Hok E2 P3)|].
  assert (D3 : d3 = set_idxlen (p_len r) (set_ptrval (r_ptr r) (set_idxoff o (D s)))).
  { unfold d3. rewrite Q2. cbn [D]. by rewrite Q1. }
  rewrite P3, length_app, Hhd. cbn [D W]. intros v s6 (-> & HO6 & K6 & P6 & t' & ED). rewrite ED, D3. split_and!; try done.
  - split; try done. by exists t'.
  - rewrite K6, K2. cbn [W]. by rewrite K1.
  - rewrite P6. unfold rsz, PTR_SZ, IDXLEN_SZ. lia.
Qed.

(** End of the index file: what ends a sequential scan. *)
Lemma readidx_eof s L x :
  Open s L x -> ipos s = end_off L ->
  wp (_db_readidx 0) (fun v s' => v = -1 /\ Open s' L x /\ frame (D s) (D s') /\
    w_locks (W s') = w_locks (W s) /\ ipos s' = end_off L) s.
Proof.
  intros HO Hp. pose proof (o_lay _ _ _ HO) as HL. pose proof (end_off_ge L) as Hge.
  unfold rec_base in Hge. unfold _db_readidx. step_handle. rewrite (o_ifd _ _ _ HO). cbn [Z.eqb].
  eapply wp_seq; [apply (seek_cur_i _ _ _ HO); lia|].
  intros ? s1 (-> & HO1 & [Q1 K1] & P1). step_upd. step_ok; [lia|].
  pose proof HO1 as [Hf _ _ _ [ip Hip] _ Hc _ _ _ _ _ _].
  assert (Hipos : ip = end_off L) by (unfold pos_of in P1, Hp; rewrite Hip in P1; congruence).
  unfold readv. step. eapply wp_sys; [eapply read_eof_run; cbn; eauto; by rewrite idx_length|].
  apply wp_ret. cbn [D W]. split; [done|]. split; [|split].
  - apply (Open_ipos (St (W s1) (set_idxoff (ipos s) (D s1)))).
    apply Open_db with (s := s1); try done; apply HO1.
  - by rewrite Q1.
  - split; [done|]. unfold pos_of. cbn. by rewrite lookup_insert_eq, Hipos.
Qed.

(** ** Data records *)

Lemma readdat_spec s L x o r :
  Open s L x -> look L o = Some r -> datoff (D s) = r_off r -> datlen (D s) = r_len r ->
  wp _db_readdat (fun v s' => v = r_data r /\ Open s' L x /\ frame (D s) (D s') /\
    w_locks (W s') = w_locks (W s) /\ idxbuf (D s') = idxbuf (D s) /\ ipos s' = ipos s) s.
Proof.
  intros HO Hr Hdo Hdl. pose proof (o_lay _ _ _ HO) as HL. pose proof (look_ok _ _ _ HL Hr) as Hok.
  destruct (ro_data _ Hok) as [Hnn Hlen]. pose proof (ro_off _ Hok) as Hoff.
  destruct (dat_split L o r HL Hr) as (pre & post & E & Hl & _).
  assert (E1 : dat_bytes L ++ x = pre ++ dat_rec r ++ (post ++ x)) by by rewrite E, <- !app_assoc.
  unfold _db_readdat. step_handle. rewrite (o_dfd _ _ _ HO), Hdo.
  eapply wp_seq; [apply (seek_d _ _ _ _ HO); lia|].
  intros ? s1 (-> & HO1 & [Q1 K1] & P1 & I1). step_ok; [lia|]. rewrite Hdl.
  eapply wp_seq; [eapply (read_d _ _ _ _ _ _ _ HO1 E1); [lia | rewrite <- (dat_rec_length r); lia]|].
  intros nd s2 (-> & HO2 & [Q2 K2] & I2). cbn [fst snd].
  pose proof (o_dbuf _ _ _ HO2) as Hbl. pose proof (dat_rec_length r) as Hdr.
  assert (Hrl : r_len r = Z.of_nat (length (r_data r)) + 1) by done.
  step. apply wp_poke_dat; [lia|]. step_ok; [by rewrite Z2Nat.id, Z.eqb_refl by lia|].
  step_handle. cbn [D W datlen set_datbuf]. rewrite Q2, Q1, Hdl.
  replace (Z.to_nat (r_len r) - 1)%nat with (length (r_data r)) by lia.
  set (t := drop (length (dat_rec r)) (datbuf (D s))).
  assert (Eb : overwrite 0 (dat_rec r) (datbuf (D s)) = r_data r ++ NEWLINE :: t).
  { unfold overwrite. cbn [take app]. unfold dat_rec at 1. by rewrite <- app_assoc. }
  cbn [datbuf set_datbuf]. rewrite Eb, nth_mid. step_ok; [done|].
  assert (Hlt : length (r_data r ++ NEWLINE :: t) = 1026%nat).
  { rewrite <- Eb, overwrite_length; rewrite Q2, Q1 in Hbl; [done | lia]. }
  step. apply wp_poke_dat; [cbn [D datbuf set_datbuf]; len|].
  cbn [D W datbuf set_datbuf]. rewrite overwrite_one. step_handle. cbn [D datbuf set_datbuf].
  apply wp_ret. cbn [D W]. split; [by apply cstr_end|]. split; [|split; [done|]].
  - apply (Open_db s2); try done; cbn; rewrite ?Q2, ?Q1; try done; [apply HO | len].
  - split; [congruence|]. split; [done|]. unfold pos_of in *. cbn [W]. congruence.
Qed.

Lemma enc_rec_with_data d r :
  length d = length (r_data r) -> enc_rec (with_data d r) = enc_rec r.
Proof.
  intros Hl. unfold enc_rec, p_len, payload, r_len, with_data. cbn. by rewrite Hl.
Qed.

Lemma set_rec_with_data L o r d :
  lay_ok L -> look L o = Some r -> data_ok d -> length d = length (r_data r) ->
  lay_ok (set_rec L o (with_data d r)) /\
  idx_bytes (set_rec L o (with_data d r)) = idx_bytes L.
Proof.
  intros HL Hr Hd Hl. pose proof (look_ok _ _ _ HL Hr) as [].
  split.
  - eapply lay_ok_set_rec; eauto; [|unfold r_len; cbn; lia]. split; try done.
    unfold p_len, payload, r_len, with_data in *. cbn. by rewrite Hl.
  - destruct (rec_split L o r HL Hr) as (pre & post & E & _ & Hw).
    by rewrite Hw, enc_rec_with_data, E.
Qed.

(** Overwriting a data record with data of the same length. *)
Lemma writedat_spec s L x o r buf d :
  Open s L x -> look L o = Some r -> cstr buf = d -> data_ok d ->
  length d = length (r_data r) ->
  wp (_db_writedat buf (r_off r) SEEK_SET) (fun _ s' =>
    Open s' (set_rec L o (with_data d r)) x /\
    D s' = set_datlen (r_len r) (set_datoff (r_off r) (D s)) /\
    w_locks (W s') = w_locks (W s)) s.
Proof.
  intros HO Hr Hd Hdok Hlen. pose proof (o_lay _ _ _ HO) as HL.
  pose proof (look_ok _ _ _ HL Hr) as Hok. pose proof (ro_off _ Hok) as Hoff.
  destruct (dat_split L o r HL Hr) as (pre & post & E & Hl & Hw).
  destruct (set_rec_with_data L o r d HL Hr Hdok Hlen) as [HL' Ei].
  assert (E1 : dat_bytes L ++ x = pre ++ dat_rec r ++ (post ++ x)) by by rewrite E, <- !app_assoc.
  unfold _db_writedat. step_handle. step. cbn [decide]. apply wp_ret.
  rewrite (o_dfd _ _ _ HO).
  eapply wp_seq; [apply (seek_d _ _ _ _ HO); lia|].
  intros ? s1 (-> & HO1 & [Q1 K1] & P1 & _). step_upd. step_ok; [lia|]. step_upd.
  unfold strlen, writev. rewrite Hd. cbn [concat app D W].
  set (d2 := set_datlen (Z.of_nat (length d) + 1) (set_datoff (r_off r) (D s1))).
  assert (HO2 : Open (St (W s1) d2) L x) by (apply (Open_db s1); try done; apply HO1).
  eapply wp_seq; [eapply (write_d _ _ _ _ _ _ (d ++ [NEWLINE]) _ HO2 E1); [unfold pos_of in *; cbn; lia | | | done | done]|].
  { unfold dat_rec. len. }
  { rewrite Hw. unfold dat_rec. cbn. by rewrite <- !app_assoc. }
  intros n s3 (-> & HO3 & [Q3 K3]). step_ok.
  { rewrite length_app. cbn. apply negb_false_iff, Z.eqb_eq. lia. }
  cbn [decide]. apply wp_ret. split; [done|]. split; [|by rewrite K3].
  rewrite Q3. unfold d2. cbn [D]. rewrite Q1. f_equal. unfold r_len. lia.
Qed.

(** ** Record locks *)

(** The process holds the locks [K] on bytes of the index file, and none on
    any other file. *)
Definition held (s : st) (K : Z -> ltype) : Prop :=
  forall p b, w_locks (W s) p b = if decide (p = pi) then K b else F_UNLCK.

Definition unlocked : Z -> ltype := fun _ => F_UNLCK.
Definition lock1 (o : Z) (t : ltype) (K : Z -> ltype) : Z -> ltype :=
  fun b => if b =? o then t else K b.

Lemma held_quiet s s' K : w_locks (W s') = w_locks (W s) -> held s K -> held s' K.
Proof. unfold held. by intros ->. Qed.

Lemma lock1_spec s L x K cmd t o (Q : Z -> st -> Prop) :
  Open s L x -> held s K ->
  (forall s', Open s' L x -> held s' (lock1 o t K) -> D s' = D s -> Q 0 s') ->
  wp (sys (lock_reg ifd cmd t o SEEK_SET 1)) Q s.
Proof.
  intros HO HK HQ. pose proof HO as [Hf Ho _ _ [ip Hip] _ _ _ _ _ _ _ _].
  eapply wp_sys; [by eapply lock_run|]. apply HQ; [by apply Open_locks| |done].
  intros p b. cbn. unfold set_range, lock1, in_range.
  destruct (decide (p = pi)) as [->|]; [|by rewrite HK, decide_False].
  rewrite HK, decide_True by done. cbn.
  destruct (Z.eqb_spec b o), (Z.leb_spec o b), (Z.ltb_spec b (o + 1)); cbn; done || lia.
Qed.

Lemma unlock1_spec s L x K o (Q : Z -> st -> Prop) :
  Open s L x -> held s K ->
  (forall s', Open s' L x -> held s' (lock1 o F_UNLCK K) -> D s' = D s -> Q 0 s') ->
  wp (sys (un_lock ifd o SEEK_SET 1)) Q s.
Proof. apply lock1_spec. Qed.

(** A lock and the unlock of a region in which nothing was held leave the
    locks as they were. *)
Lemma relock_i K lo p b :
  (forall b, lo <= b -> K b = F_UNLCK) ->
  set_range pi F_UNLCK lo 0 (set_range pi F_WRLCK lo 0
    (fun p b => if decide (p = pi) then K b else F_UNLCK)) p b =
  if decide (p = pi) then K b else F_UNLCK.
Proof.
  intros HK. unfold set_range, in_range. destruct (decide (p = pi)); [|done]. cbn.
  rewrite andb_true_r. destruct (Z.leb_spec lo b); [|done]. symmetry. by apply HK.
Qed.

(** Appending a data record, under a lock of the whole data file. *)
Lemma writedat_end_spec s L K buf d :
  Open s L [] -> held s K -> cstr buf = d ->
  wp (_db_writedat buf 0 SEEK_END) (fun _ s' =>
    Open s' L (d ++ [NEWLINE]) /\ held s' K /\
    D s' = set_datlen (Z.of_nat (length d) + 1) (set_datoff (dat_end L) (D s))) s.
Proof.
  intros HO HK Hd. pose proof HO as [Hf Ho Hi Hdf _ [dp Hdp] _ _ _ _ _ _ HL].
  assert (Hnn : 0 <= dat_end L) by (rewrite <- dat_length; lia).
  unfold _db_writedat. step_handle. rewrite decide_True by done. rewrite Hdf.
  step. step. eapply wp_sys; [by eapply lock_run|]. apply wp_dump_if; [done|].
  set (s0 := St _ (D s)). assert (HO0 : Open s0 L []) by by apply Open_locks.
  eapply wp_seq; [apply (seek_end_d _ _ HO0)|].
  intros ? s1 (-> & HO1 & [Q1 K1] & P1). step_upd. step_ok; [lia|]. step_upd.
  unfold strlen, writev. rewrite Hd. cbn [concat app D W].
  set (d2 := set_datlen (Z.of_nat (length d) + 1) (set_datoff (dat_end L) (D s1))).
  assert (HO2 : Open (St (W s1) d2) L []) by (apply (Open_db s1); try done; apply HO1).
  eapply wp_seq; [eapply (append_d _ _ (d ++ [NEWLINE]) HO2); exact P1|].
  intros n s3 (-> & HO3 & [Q3 K3]). step_ok.
  { rewrite length_app. cbn. apply negb_false_iff, Z.eqb_eq. lia. }
  rewrite decide_True by done.
  pose proof HO3 as [Hf3 Ho3 _ _ _ [dp3 Hdp3] _ _ _ _ _ _ _].
  step. eapply wp_sys; [by eapply lock_run|]. apply wp_dump_if; [done|].
  split; [by apply Open_locks|]. split.
  - intros p b. cbn. unfold set_range, in_range. rewrite K3. cbn. rewrite K1. cbn.
    unfold set_range, in_range. rewrite HK.
    destruct (decide (p = pd)) as [->|]; [|done]. rewrite decide_False by done.
    by destruct (_ && _).
  - cbn. rewrite Q3. unfold d2. cbn [D]. by rewrite Q1.
Qed.

(** ** Writing index records *)

Lemma payload_nonul r : rec_ok r -> nonul (payload r).
Proof.
  intros [_ [Hk _] _ Ho _]. unfold payload.
  assert (Hl : 0 <= r_len r) by (unfold r_len; lia).
  repeat (apply nonul_app; split); try done.
  - repeat constructor; done.
  - by apply digit_nonul, dec_digits.
  - repeat constructor; done.
  - by apply digit_nonul, dec_digits.
  - repeat constructor; done.
Qed.

(** The first part of [_db_writeidx]: the record's text in the buffer, and
    the bytes handed to [writev]. *)
Lemma writeidx_text s L x r kbuf :
  Open s L x -> rec_ok r -> cstr kbuf = r_key r ->
  datoff (D s) = r_off r -> datlen (D s) = r_len r ->
  exists t, overwrite 0 (snprintf (Z.to_nat (IDXLEN_MAX + 2))
      (cstr kbuf ++ [SEP] ++ dec (datoff (D s)) ++ [SEP] ++ dec (datlen (D s)) ++ [NEWLINE]))
      (idxbuf (D s)) = payload r ++ 0 :: t /\
    length (payload r ++ 0 :: t) = 1026%nat /\
    (length (snprintf (Z.to_nat (IDXLEN_MAX + 2))
      (cstr kbuf ++ [SEP] ++ dec (datoff (D s)) ++ [SEP] ++ dec (datlen (D s)) ++ [NEWLINE]))
     <= length (idxbuf (D s)))%nat /\
    take (Z.to_nat (PTR_SZ + IDXLEN_SZ)) (snprintf (Z.to_nat (PTR_SZ + IDXLEN_SZ + 1))
      (padl (Z.to_nat PTR_SZ) (dec (r_ptr r)) ++ padl (Z.to_nat IDXLEN_SZ) (dec (p_len r)))) ++
    take (Z.to_nat (p_len r)) (payload r ++ 0 :: t) = enc_rec r.
Proof.
  intros HO Hok Hk Hdo Hdl. pose proof (o_ibuf _ _ _ HO) as Hbl.
  pose proof (ro_plen _ Hok) as Hpl. unfold IDXLEN_MIN, IDXLEN_MAX in Hpl.
  rewrite Hk, Hdo, Hdl. fold (payload r).
  rewrite snprintf_fits by (unfold p_len, IDXLEN_MAX in *; lia).
  exists (drop (length (payload r ++ [0])) (idxbuf (D s))).
  assert (E : overwrite 0 (payload r ++ [0]) (idxbuf (D s)) =
              payload r ++ 0 :: drop (length (payload r ++ [0])) (idxbuf (D s))).
  { unfold overwrite. cbn [take app Nat.add]. by rewrite <- app_assoc. }
  assert (Hfit : (length (payload r ++ [0%Z]) <= length (idxbuf (D s)))%nat).
  { unfold p_len in Hpl. len. }
  split; [exact E|]. split; [by rewrite <- E, overwrite_length|]. split; [exact Hfit|].
  change (Z.to_nat PTR_SZ) with 7%nat. change (Z.to_nat IDXLEN_SZ) with 4%nat.
  assert (Hhd : length (padl 7 (dec (r_ptr r)) ++ padl 4 (dec (p_len r))) = 11%nat).
  { rewrite length_app. fold (enc_ptr (r_ptr r)).
    rewrite enc_ptr_length, lenfield_length; [done| |apply Hok]. unfold IDXLEN_MAX. lia. }
  rewrite snprintf_fits by (rewrite Hhd; unfold PTR_SZ, IDXLEN_SZ; lia).
  change (Z.to_nat (PTR_SZ + IDXLEN_SZ)) with 11%nat. rewrite <- Hhd, take_app_length.
  unfold p_len at 2. rewrite Nat2Z.id, take_app_length. unfold enc_rec, enc_ptr.
  by rewrite <- app_assoc.
Qed.

(** What [_db_writeidx] leaves in the handle. *)
Definition wrote (d : DB) (o : Z) (r : irec) (d' : DB) : Prop :=
  exists t, d' = set_idxoff o (set_idxbuf (payload r ++ 0 :: t) (set_ptrval (r_ptr r) d)) /\
            length (payload r ++ 0 :: t) = 1026%nat.

Lemma wrote_Open s L x o r d' :
  Open s L x -> wrote (D s) o r d' -> Open (St (W s) d') L x.
Proof.
  intros HO (t & -> & Hl). apply (Open_db s); try done. apply HO.
Qed.

(** Rewriting an index record in place: same key length, same data. *)
Lemma writeidx_spec s L x o r r' kbuf :
  Open s L x -> look L o = Some r -> rec_ok r' -> cstr kbuf = r_key r' ->
  length (r_key r') = length (r_key r) -> r_off r' = r_off r -> r_data r' = r_data r ->
  datoff (D s) = r_off r -> datlen (D s) = r_len r ->
  wp (_db_writeidx kbuf o SEEK_SET (r_ptr r')) (fun _ s' =>
    Open s' (set_rec L o r') x /\ wrote (D s) o r' (D s') /\
    w_locks (W s') = w_locks (W s)) s.
Proof.
  intros HO Hr Hok Hk Hkl Hoff Hdat Hdo Hdl. pose proof (o_lay _ _ _ HO) as HL.
  pose proof (look_ok _ _ _ HL Hr) as Hok0. destruct (look_bounds _ _ _ Hr) as [Hb _].
  assert (Hlen : r_len r' = r_len r) by (unfold r_len; by rewrite Hdat).
  assert (Hsz : rsz r' = rsz r).
  { unfold rsz, p_len, payload. rewrite Hoff, Hlen. len. }
  destruct (rec_split L o r HL Hr) as (pre & post & E & Hl & Hw).
  destruct (dat_split L o r HL Hr) as (dpre & dpost & Ed & _ & Hwd).
  unfold _db_writeidx. step_upd. rewrite ptr_guard by apply Hok.
  set (s0 := St (W s) (set_ptrval (r_ptr r') (D s))). step_handle.
  assert (HO0 : Open s0 L x) by (apply (Open_db s); try done; apply HO).
  destruct (writeidx_text s0 L x r' kbuf HO0 Hok Hk) as (t & Eb & Ht & Hfit & Ew); [cbn; congruence..|].
  step. apply wp_poke_idx; [exact Hfit|]. rewrite Eb. step_handle. cbn [D W idxbuf set_idxbuf].
  unfold strlen. rewrite cstr_end by by apply payload_nonul.
  fold (p_len r'). pose proof (ro_plen _ Hok) as Hpl. unfold IDXLEN_MIN, IDXLEN_MAX in *.
  step_ok; [lia|]. step. rewrite decide_False by done. apply wp_ret.
  rewrite (o_ifd _ _ _ HO0 : idxfd (set_idxbuf (payload r' ++ 0 :: t) (D s0)) = ifd).
  set (s1 := St (W s) (set_idxbuf (payload r' ++ 0 :: t) (D s0))).
  assert (HO1 : Open s1 L x) by (apply (Open_db s); try done; apply HO).
  eapply (wp_seq (sys (lseek ifd o SEEK_SET))); [apply (seek_i s1 _ _ _ HO1); unfold rec_base in Hb; lia|].
  intros ? s2 (-> & HO2 & [Q2 K2] & P2). step_upd. step_ok; [unfold rec_base in Hb; lia|].
  unfold writev. cbn [concat]. rewrite app_nil_r, Ew. cbn [D W].
  assert (HO3 : Open (St (W s2) (set_idxoff o (D s2))) L x)
    by (apply (Open_db s2); try done; apply HO2).
  eapply wp_seq; [eapply (write_i _ _ (set_rec L o r') _ _ _ _ _ HO3 E);
    [unfold pos_of in *; cbn; lia | | apply Hw | by eapply lay_ok_set_rec |]|].
  { apply enc_rec_length in Hok, Hok0. lia. }
  { rewrite Hwd, Ed. unfold dat_rec. by rewrite Hdat. }
  intros n s4 (-> & HO4 & [Q4 K4]). step_ok.
  { rewrite enc_rec_length by done. apply negb_false_iff, Z.eqb_eq. unfold rsz, PTR_SZ, IDXLEN_SZ. lia. }
  rewrite decide_False by done. apply wp_ret. split; [done|]. split.
  - exists t. split; [|done]. rewrite Q4. cbn [D]. by rewrite Q2.
  - rewrite K4. cbn. by rewrite K2.
Qed.

(** Appending an index record for the data record just appended. *)
Lemma writeidx_end_spec s L K r kbuf :
  Open s L (dat_rec r) -> held s K -> (forall b, rec_base <= b -> K b = F_UNLCK) ->
  rec_ok r -> cstr kbuf = r_key r -> r_off r = dat_end L ->
  datoff (D s) = r_off r -> datlen (D s) = r_len r ->
  wp (_db_writeidx kbuf 0 SEEK_END (r_ptr r)) (fun _ s' =>
    Open s' (app_rec L r) [] /\ wrote (D s) (end_off L) r (D s') /\ held s' K) s.
Proof.
  intros HO HK HK0 Hok Hk Hoff Hdo Hdl. pose proof (o_lay _ _ _ HO) as HL.
  pose proof (end_off_ge L) as Hge. unfold rec_base in Hge.
  unfold _db_writeidx. step_upd. rewrite ptr_guard by apply Hok.
  set (s0 := St (W s) (set_ptrval (r_ptr r) (D s))). step_handle.
  assert (HO0 : Open s0 L (dat_rec r)) by (apply (Open_db s); try done; apply HO).
  destruct (writeidx_text s0 L _ r kbuf HO0 Hok Hk Hdo Hdl) as (t & Eb & Ht & Hfit & Ew).
  step. apply wp_poke_idx; [exact Hfit|]. rewrite Eb. step_handle. cbn [D W idxbuf set_idxbuf].
  unfold strlen. rewrite cstr_end by by apply payload_nonul.
  fold (p_len r). pose proof (ro_plen _ Hok) as Hpl. unfold IDXLEN_MIN, IDXLEN_MAX in *.
  step_ok; [lia|]. rewrite decide_True by done.
  rewrite (o_ifd _ _ _ HO0 : idxfd (set_idxbuf (payload r ++ 0 :: t) (D s0)) = ifd).
  rewrite (o_nhash _ _ _ HO0 : nhash (set_idxbuf (payload r ++ 0 :: t) (D s0)) = NHASH_DEF).
  pose proof HO as [Hf Ho _ _ [ip Hip] _ _ _ _ _ _ _ _].
  step. step. eapply wp_sys; [by eapply lock_run|]. apply wp_dump_if; [done|]. cbn [D W].
  set (s1 := St (set_locks _ (W s0)) (set_idxbuf (payload r ++ 0 :: t) (D s0))).
  assert (HO1 : Open s1 L (dat_rec r)).
  { apply (Open_locks (St (W s) (set_idxbuf (payload r ++ 0 :: t) (D s0)))).
    apply (Open_db s); try done. apply HO. }
  eapply wp_seq; [apply (seek_end_i s1 _ _ HO1)|].
  intros ? s2 (-> & HO2 & [Q2 K2] & P2). step_upd. step_ok; [lia|].
  unfold writev. cbn [concat]. rewrite app_nil_r, Ew. cbn [D W].
  assert (HO3 : Open (St (W s2) (set_idxoff (end_off L) (D s2))) L (dat_rec r))
    by (apply (Open_db s2); try done; apply HO2).
  eapply wp_seq; [eapply (append_i _ _ (app_rec L r) _ [] _ HO3);
    [exact P2 | apply idx_app_rec | by apply lay_ok_app_rec | by rewrite dat_app_rec, app_nil_r]|].
  intros n s4 (-> & HO4 & [Q4 K4]). step_ok.
  { rewrite enc_rec_length by done. apply negb_false_iff, Z.eqb_eq. unfold rsz, PTR_SZ, IDXLEN_SZ. lia. }
  rewrite decide_True by done.
  pose proof HO4 as [Hf4 Ho4 _ _ [ip4 Hip4] _ _ _ _ _ _ _ _].
  step. eapply wp_sys; [by eapply lock_run|]. apply wp_dump_if; [done|].
  split; [by apply Open_locks|]. split.
  - exists t. split; [|done]. cbn. rewrite Q4. cbn [D]. by rewrite Q2.
  - intros p b. cbn. rewrite K4. cbn. rewrite K2. cbn.
    rewrite <- (relock_i K 967 p b) by exact HK0.
    unfold set_range, in_range. destruct (decide (p = pi)); [|by rewrite HK, decide_False].
    destruct (_ && _); [done|]. by rewrite HK, decide_True.
Qed.
End ops.
