(* ===== verification/DbChain.v ===== *)
(** * Hash chains and the free list as lists

    The invariant that the chain pointers of the index file keep: pointer
    fields and records are given by two functions (a layout supplies them as
    [get_ptr] and [info]), every record is on exactly one chain, chain [i]
    holds the records whose key hashes to [i], chain -1 is the free list, and
    the records on the hash chains are the finite map the database stands for.
    The lemmas are the abstract effect of unlinking a record, of pushing one
    on the front of a chain and of replacing its data. *)

From S2P Require Import Prelude CLib Db DbLayout.

(** ** Linked lists through a pointer function *)

(** [chain P slot l]: following the pointers from the field at [slot] visits
    the offsets [l] and ends with a zero pointer. *)
Fixpoint chain (P : Z -> option Z) (slot : Z) (l : list Z) : Prop :=
  match l with
  | [] => P slot = Some 0
  | o :: l' => P slot = Some o /\ o <> 0 /\ chain P o l'
  end.

(** The field that holds the pointer reached after visiting [pre]. *)
Fixpoint endslot (slot : Z) (pre : list Z) : Z :=
  match pre with
  | [] => slot
  | o :: pre' => endslot o pre'
  end.

Lemma chain_ext P P' slot l :
  (forall y, y ∈ slot :: l -> P' y = P y) -> chain P slot l -> chain P' slot l.
Proof.
  revert slot; induction l as [|o l IH]; intros slot He; cbn.
  - intros <-. apply He. set_solver.
  - intros (<- & ? & Hc). split; [apply He; set_solver|]. split; [done|].
    apply IH; [|done]. intros y Hy. apply He. set_solver.
Qed.

Lemma chain_split P slot pre o post :
  chain P slot (pre ++ o :: post) ->
  P (endslot slot pre) = Some o /\ o <> 0 /\ chain P o post.
Proof.
  revert slot; induction pre as [|a pre IH]; intros slot; cbn [app chain]; [tauto|].
  intros (_ & _ & Hc). by apply IH in Hc.
Qed.

Lemma chain_head P slot l : chain P slot l -> P slot = Some (hd 0 l).
Proof. destruct l; cbn; tauto. Qed.

Lemma chain_nonzero P slot l o : chain P slot l -> o ∈ l -> o <> 0.
Proof.
  revert slot; induction l as [|a l IH]; intros slot Hc Ho; [set_solver|].
  destruct Hc as (_ & ? & Hc). apply elem_of_cons in Ho as [->|Ho]; [done|]. by eapply IH.
Qed.

Lemma endslot_elem slot pre : endslot slot pre ∈ slot :: pre.
Proof.
  revert slot; induction pre as [|a pre IH]; intros slot; cbn; [set_solver|].
  specialize (IH a). set_solver.
Qed.

Lemma endslot_snoc slot pre o : endslot slot (pre ++ [o]) = o.
Proof. revert slot; induction pre as [|a pre IH]; intros slot; cbn; [done | apply IH]. Qed.

Lemma endslot_ne slot pre o post : NoDup (slot :: pre ++ o :: post) -> endslot slot pre <> o.
Proof.
  intros Hn E. rewrite app_comm_cons in Hn. apply list.NoDup_app in Hn as (_ & Hd & _).
  apply (Hd o); [|set_solver]. rewrite <- E. apply endslot_elem.
Qed.

Lemma chain_unlink P P' slot pre o post :
  chain P slot (pre ++ o :: post) -> NoDup (slot :: pre ++ o :: post) ->
  (forall y, P' y = if endslot slot pre =? y then P o else P y) ->
  chain P' slot (pre ++ post).
Proof.
  revert slot; induction pre as [|a pre IH]; intros slot Hc Hn HP; cbn [app endslot] in *.
  - destruct Hc as (_ & _ & Hc). apply list.NoDup_cons in Hn as [Hns Hn].
    destruct post as [|b post]; cbn in *.
    + by rewrite HP, Z.eqb_refl.
    + destruct Hc as (Hb & Hb0 & Hc). rewrite HP, Z.eqb_refl. split; [done|]. split; [done|].
      apply chain_ext with P; [|done]. intros y Hy. rewrite HP.
      destruct (Z.eqb_spec slot y); [set_solver | done].
  - destruct Hc as (Ha & Ha0 & Hc). apply list.NoDup_cons in Hn as [Hns Hn]. cbn [chain].
    split; [|split; [done | by apply IH]].
    rewrite HP. destruct (Z.eqb_spec (endslot a pre) slot) as [E|]; [|done].
    pose proof (endslot_elem a pre). set_solver.
Qed.

(** ** The invariant *)

Create HintDb db.

Definition slot (i : Z) : Z := 7 * i + 7.

(** The hash of a key in a table of the default size. *)
Definition hash (k : bytes) : Z := _db_hash_loop k 1 0 mod NHASH_DEF.

(** What a record holds: key, data offset, data. *)
Abbreviation rinfo := (bytes * Z * bytes)%type.

Definition chain_no (i : Z) : Prop := -1 <= i < 137.

(** [Links P R ch e]: the lists [ch] are the chains, and every record ([R]) is
    on exactly one of them, but the one at [e], which is on none. *)
Record Links (P : Z -> option Z) (R : Z -> Prop) (ch : Z -> list Z) (e : Z) : Prop := {
  v_chain : forall i, chain_no i -> chain P (slot i) (ch i);
  v_nodup : forall i, chain_no i -> NoDup (ch i);
  v_disj : forall i j o, chain_no i -> chain_no j -> o ∈ ch i -> o ∈ ch j -> i = j;
  v_in : forall i o, chain_no i -> o ∈ ch i -> R o;
  v_rec : forall o, R o -> rec_base <= o;
  v_all : forall o, R o -> o = e \/ exists i, chain_no i /\ o ∈ ch i;
  v_hole : forall i, chain_no i -> e ∉ ch i }.

(** [Inv P I m ch e]: besides, hash chain [i] holds the records whose key
    hashes to [i], at most one for a key, the free list holds records with
    blank keys, and [m] is the map the records on the hash chains stand for. *)
Record Inv (P : Z -> option Z) (I : Z -> option rinfo) (m : gmap bytes bytes)
    (ch : Z -> list Z) (e : Z) : Prop := {
  v_links : Links P (fun o => is_Some (I o)) ch e;
  v_hash : forall i o k a d, 0 <= i < 137 -> o ∈ ch i -> I o = Some (k, a, d) -> hash k = i;
  v_uniq : forall i o o' k a a' d d', 0 <= i < 137 -> o ∈ ch i -> o' ∈ ch i ->
    I o = Some (k, a, d) -> I o' = Some (k, a', d') -> o = o';
  v_blank : forall o, o ∈ ch (-1) -> exists n a d, I o = Some (replicate n SPACE, a, d);
  v_map : forall k d, m !! k = Some d <-> exists o a, o ∈ ch (hash k) /\ I o = Some (k, a, d) }.

Lemma hash_range k : 0 <= hash k < 137.
Proof. unfold hash, NHASH_DEF. apply Z.mod_pos_bound. lia. Qed.

Lemma hash_chain_no k : chain_no (hash k).
Proof. pose proof (hash_range k). unfold chain_no. lia. Qed.

Lemma live_chain_no i : 0 <= i < 137 -> chain_no i.
Proof. unfold chain_no. lia. Qed.

Lemma free_chain_no : chain_no (-1).
Proof. unfold chain_no. lia. Qed.

#[export] Hint Resolve hash_range hash_chain_no live_chain_no free_chain_no : db.

Lemma slot_below i : chain_no i -> 0 <= slot i < rec_base.
Proof. unfold chain_no, slot, rec_base. lia. Qed.

Definition upd_ch (i : Z) (l : list Z) (ch : Z -> list Z) : Z -> list Z :=
  fun j => if j =? i then l else ch j.

Lemma upd_ch_eq i l ch : upd_ch i l ch i = l.
Proof. unfold upd_ch. by rewrite Z.eqb_refl. Qed.

Lemma upd_ch_ne i j l ch : j <> i -> upd_ch i l ch j = ch j.
Proof. intros. unfold upd_ch. by destruct (Z.eqb_spec j i). Qed.

(** ** Effects on the links *)

Section links.
Context (P : Z -> option Z) (R : Z -> Prop) (ch : Z -> list Z) (e : Z).
Hypothesis HI : Links P R ch e.

Lemma in_bound i o : chain_no i -> o ∈ ch i -> rec_base <= o.
Proof. intros Hi Ho. by eapply HI, HI. Qed.

(** The fields of a chain are distinct. *)
Lemma fields_nodup i : chain_no i -> NoDup (slot i :: ch i).
Proof.
  intros Hi. apply list.NoDup_cons. split; [|by apply HI].
  intros Ho%(in_bound i); [|done]. pose proof (slot_below i Hi). lia.
Qed.

(** A field of one chain is no field of another. *)
Lemma fields_disj i j y :
  chain_no i -> chain_no j -> i <> j -> y ∈ slot i :: ch i -> y ∉ slot j :: ch j.
Proof.
  intros Hi Hj Hne Hy Hy'. pose proof (slot_below i Hi). pose proof (slot_below j Hj).
  apply elem_of_cons in Hy as [->|Hy], Hy' as [Hy'|Hy'].
  - unfold slot in Hy'. lia.
  - apply in_bound in Hy'; [lia | done].
  - subst. apply in_bound in Hy; [lia | done].
  - apply Hne. by eapply (v_disj _ _ _ _ HI).
Qed.

End links.

Section effects.
Context (P : Z -> option Z) (R : Z -> Prop) (ch : Z -> list Z).

(** A record not in the index yet can be named as the hole. *)
Lemma Links_fresh e' : Links P R ch 0 -> ~ R e' -> Links P R ch e'.
Proof.
  intros HI He. pose proof HI as []. split; try done.
  - intros o Ho. destruct (v_all0 o Ho) as [->|?]; [|by right].
    apply v_rec0 in Ho. unfold rec_base in Ho. lia.
  - intros i Hi Hin. apply He. by eapply v_in0.
Qed.

(** Unlinking the record after [pre] from its chain. *)
Lemma Links_unlink P' i pre o post :
  Links P R ch 0 -> chain_no i -> ch i = pre ++ o :: post ->
  (forall y, P' y = if endslot (slot i) pre =? y then P o else P y) ->
  Links P' R (upd_ch i (pre ++ post) ch) o.
Proof.
  intros HI Hi Hch HP. pose proof (fields_nodup _ _ _ _ HI i Hi) as Hn. rewrite Hch in Hn.
  pose proof (endslot_elem (slot i) pre) as He.
  assert (Hsub : forall j x, x ∈ upd_ch i (pre ++ post) ch j -> x ∈ ch j).
  { intros j x. unfold upd_ch. destruct (Z.eqb_spec j i) as [->|]; [|done].
    rewrite Hch. set_solver. }
  split.
  - intros j Hj. unfold upd_ch. destruct (Z.eqb_spec j i) as [->|Hne].
    + eapply chain_unlink; [|exact Hn|exact HP]. rewrite <- Hch. by apply HI.
    + apply chain_ext with P; [|by apply HI]. intros y Hy. rewrite HP.
      destruct (Z.eqb_spec (endslot (slot i) pre) y) as [<-|]; [|done].
      exfalso. eapply (fields_disj _ _ _ _ HI i j); [done|done|congruence| |exact Hy].
      rewrite Hch. set_solver.
  - intros j Hj. unfold upd_ch. destruct (Z.eqb_spec j i) as [->|]; [|by apply HI].
    apply list.NoDup_cons in Hn as [_ Hn]. apply list.NoDup_app in Hn as (? & Hd & Hn).
    apply list.NoDup_cons in Hn as [? ?]. apply list.NoDup_app. set_solver.
  - intros j j' x Hj Hj' Hx Hx'. eapply (v_disj _ _ _ _ HI); eauto.
  - intros j x Hj Hx. eapply (v_in _ _ _ _ HI); eauto.
  - apply HI.
  - intros x Hx. destruct (v_all _ _ _ _ HI x Hx) as [->|(j & Hj & Hin)].
    + apply (v_rec _ _ _ _ HI) in Hx. unfold rec_base in Hx. lia.
    + destruct (decide (x = o)); [by left|]. right. exists j. split; [done|].
      unfold upd_ch. destruct (Z.eqb_spec j i) as [->|]; [|done].
      rewrite Hch in Hin. set_solver.
  - intros j Hj Hx. destruct (decide (j = i)) as [->|Hne].
    + rewrite upd_ch_eq in Hx. apply list.NoDup_cons in Hn as [_ Hn].
      apply list.NoDup_app in Hn as (? & Hd & Hn). apply list.NoDup_cons in Hn as [? ?]. set_solver.
    + rewrite upd_ch_ne in Hx by done. apply Hne.
      eapply (v_disj _ _ _ _ HI j i o); eauto. rewrite Hch. set_solver.
Qed.

(** Pushing the record at the hole on the front of a chain. *)
Lemma Links_push P' (R' : Z -> Prop) e i :
  Links P R ch e -> chain_no i -> rec_base <= e -> (forall y, R' y <-> R y \/ y = e) ->
  (forall y, P' y = if slot i =? y then Some e else if e =? y then P (slot i) else P y) ->
  Links P' R' (upd_ch i (e :: ch i) ch) 0.
Proof.
  intros HI Hi He HR HP. pose proof (slot_below i Hi) as Hs. unfold rec_base in *.
  assert (Hin : forall j x, x ∈ upd_ch i (e :: ch i) ch j -> x ∈ ch j \/ x = e /\ j = i).
  { intros j x. unfold upd_ch. destruct (Z.eqb_spec j i) as [->|]; set_solver. }
  assert (Hkeep : forall j y, chain_no j -> y ∈ ch j -> P' y = P y).
  { intros j y Hj Hy. rewrite HP. pose proof (in_bound _ _ _ _ HI _ _ Hj Hy). unfold rec_base in *.
    destruct (Z.eqb_spec (slot i) y); [lia|]. destruct (Z.eqb_spec e y) as [<-|]; [|done].
    exfalso. by apply (v_hole _ _ _ _ HI j). }
  split.
  - intros j Hj. destruct (decide (j = i)) as [->|Hne].
    + rewrite upd_ch_eq. cbn. rewrite HP, Z.eqb_refl. split; [done|]. split; [lia|].
      pose proof (v_chain _ _ _ _ HI i Hi) as Hc.
      assert (He' : P' e = P (slot i)).
      { rewrite HP, Z.eqb_refl. destruct (Z.eqb_spec (slot i) e); [lia | done]. }
      destruct (ch i) as [|o l] eqn:Hch; cbn in *; [congruence|].
      destruct Hc as (Ho & Ho0 & Hc). split; [congruence|]. split; [done|].
      apply chain_ext with P; [|done]. intros y Hy. apply (Hkeep i); [done|]. by rewrite Hch.
    + rewrite upd_ch_ne by done. apply chain_ext with P; [|by apply HI].
      intros y [->|Hy]%elem_of_cons; [|by apply (Hkeep j)].
      pose proof (slot_below j Hj). unfold rec_base in *. rewrite HP.
      destruct (Z.eqb_spec (slot i) (slot j)) as [E|]; [unfold slot in E; lia|].
      destruct (Z.eqb_spec e (slot j)); [lia | done].
  - intros j Hj. unfold upd_ch. destruct (Z.eqb_spec j i) as [->|]; [|by apply HI].
    apply list.NoDup_cons. split; [by apply HI | by apply HI].
  - intros j j' x Hj Hj' [Hx|[Ex Ej]]%Hin [Hx'|[Ex' Ej']]%Hin; subst; try done.
    + eapply (v_disj _ _ _ _ HI); eauto.
    + exfalso. by apply (v_hole _ _ _ _ HI j).
    + exfalso. by apply (v_hole _ _ _ _ HI j').
  - intros j x Hj [Hx|[Ex _]]%Hin; apply HR; [left | by right]. by eapply (v_in _ _ _ _ HI).
  - intros x [Hx| ->]%HR; [by apply (v_rec _ _ _ _ HI) | done].
  - intros x [Hx| ->]%HR; right.
    + destruct (v_all _ _ _ _ HI x Hx) as [->|(j & Hj & Hxj)].
      * exists i. rewrite upd_ch_eq. set_solver.
      * exists j. split; [done|]. unfold upd_ch. destruct (Z.eqb_spec j i) as [->|]; set_solver.
    + exists i. rewrite upd_ch_eq. set_solver.
  - intros j Hj [Hx|[? ->]]%Hin; [|lia]. apply (in_bound _ _ _ _ HI) in Hx; [|done]. unfold rec_base in Hx. lia.
Qed.
End effects.


(** ** Effects on the map *)

Section inv_effects.
Context (P P' : Z -> option Z) (I : Z -> option rinfo) (m : gmap bytes bytes) (ch : Z -> list Z).

(** Unlinking a record from its hash chain removes its key from the map. *)
Lemma Inv_unlink_live i pre o post k a d :
  Inv P I m ch 0 -> 0 <= i < 137 -> ch i = pre ++ o :: post -> I o = Some (k, a, d) ->
  (forall y, P' y = if endslot (slot i) pre =? y then P o else P y) ->
  Inv P' I (delete k m) (upd_ch i (pre ++ post) ch) o.
Proof.
  intros HI Hi Hch Ho HP. pose proof (v_links _ _ _ _ _ HI) as HL.
  pose proof (Links_unlink _ _ _ _ _ _ _ _ HL (live_chain_no i Hi) Hch HP) as HL'.
  assert (Hoi : o ∈ ch i) by (rewrite Hch; set_solver).
  assert (Hsub : forall j x, x ∈ upd_ch i (pre ++ post) ch j <-> x ∈ ch j /\ ~ (j = i /\ x = o)).
  { intros j x. destruct (decide (j = i)) as [->|]; [|rewrite upd_ch_ne by done; tauto].
    pose proof (v_hole _ _ _ _ HL' i (live_chain_no i Hi)) as Hno.
    rewrite upd_ch_eq in *. rewrite Hch. set_solver. }
  split; [exact HL'| | | |].
  - intros j x k' a' d' Hj [Hx _]%Hsub. by eapply HI.
  - intros j x x' k' a1 a2 d1 d2 Hj [Hx _]%Hsub [Hx' _]%Hsub. by eapply HI.
  - intros x [Hx _]%Hsub. by apply HI.
  - intros k' d'. rewrite lookup_delete_Some, (v_map _ _ _ _ _ HI). split.
    + intros [Hne (x & a' & Hx & Hr)]. exists x, a'. rewrite Hsub. split; [|done]. split; [done|].
      intros [? ->]. congruence.
    + intros (x & a' & [Hx Hno]%Hsub & Hr). split; [|by exists x, a'].
      intros <-. apply Hno. pose proof (v_hash _ _ _ _ _ HI i o k a d Hi Hoi Ho) as Hh.
      rewrite Hh in *. split; [done|]. by eapply (v_uniq _ _ _ _ _ HI i).
Qed.

(** Unlinking a record from the free list leaves the map as it is. *)
Lemma Inv_unlink_free pre o post :
  Inv P I m ch 0 -> ch (-1) = pre ++ o :: post ->
  (forall y, P' y = if endslot (slot (-1)) pre =? y then P o else P y) ->
  Inv P' I m (upd_ch (-1) (pre ++ post) ch) o.
Proof.
  intros HI Hch HP. pose proof (v_links _ _ _ _ _ HI) as HL.
  split; [by eapply Links_unlink; eauto with db | | | |].
  - intros j x k a d Hj. rewrite upd_ch_ne by lia. by apply HI.
  - intros j x x' k a a' d d' Hj. rewrite upd_ch_ne by lia. by apply HI.
  - intros x Hx. apply HI. rewrite upd_ch_eq in Hx. rewrite Hch. set_solver.
  - intros k d. pose proof (hash_range k). rewrite upd_ch_ne by lia. apply HI.
Qed.

Context (I' : Z -> option rinfo).

Section push.
Context (e : Z) (r : rinfo).
Hypothesis HI : Inv P I m ch e.
Hypothesis He : rec_base <= e.
Hypothesis HI' : forall y, I' y = if e =? y then Some r else I y.

Lemma push_rec y : is_Some (I' y) <-> is_Some (I y) \/ y = e.
Proof.
  rewrite HI'. destruct (Z.eqb_spec e y) as [<-|Hne].
  - split; [by right | by eexists].
  - split; [by left | by intros [?| ->]].
Qed.

Lemma push_keep j x : chain_no j -> x ∈ ch j -> I' x = I x.
Proof.
  intros Hj Hx. rewrite HI'. destruct (Z.eqb_spec e x) as [<-|]; [|done].
  exfalso. by apply (v_hole _ _ _ _ (v_links _ _ _ _ _ HI) j).
Qed.

Lemma push_this : I' e = Some r.
Proof. by rewrite HI', Z.eqb_refl. Qed.
End push.

(** Pushing a record on the chain of its key adds its key to the map. *)
Lemma Inv_push_live e k a d :
  Inv P I m ch e -> rec_base <= e -> m !! k = None ->
  (forall y, P' y = if slot (hash k) =? y then Some e else if e =? y then P (slot (hash k)) else P y) ->
  (forall y, I' y = if e =? y then Some (k, a, d) else I y) ->
  Inv P' I' (<[k := d]> m) (upd_ch (hash k) (e :: ch (hash k)) ch) 0.
Proof.
  intros HI He Hm HP HI'. pose proof (hash_range k) as Hk.
  pose proof (push_keep _ _ HI HI') as Hkeep. pose proof (push_this _ _ HI') as Hthis.
  assert (Hin : forall j x, x ∈ upd_ch (hash k) (e :: ch (hash k)) ch j <-> x ∈ ch j \/ x = e /\ j = hash k).
  { intros j x. unfold upd_ch. destruct (Z.eqb_spec j (hash k)) as [->|]; set_solver. }
  assert (Hnew : forall j x a' d', 0 <= j < 137 -> x ∈ ch j -> I' x = Some (k, a', d') -> False).
  { intros j x a' d' Hj Hx Hr. rewrite (Hkeep j) in Hr by auto with db.
    pose proof (v_hash _ _ _ _ _ HI j x k a' d' Hj Hx Hr) as <-.
    assert (m !! k = Some d') by (apply HI; by exists x, a'). congruence. }
  split.
  - eapply Links_push; [by apply HI|auto with db|done| |exact HP]. by eapply push_rec.
  - intros j x k' a' d' Hj [Hx|[-> ->]]%Hin Hr; [|by simplify_eq].
    rewrite (Hkeep j) in Hr by auto with db. by eapply (v_hash _ _ _ _ _ HI).
  - intros j x x' k' a1 a2 d1 d2 Hj Hx Hx' Hr Hr'.
    apply Hin in Hx as [Hx|[E1 _]], Hx' as [Hx'|[E2 _]]; subst; try done; simplify_eq.
    + rewrite (Hkeep j) in Hr, Hr' by auto with db. by eapply (v_uniq _ _ _ _ _ HI j).
    + exfalso. by eapply Hnew.
    + exfalso. by eapply Hnew.
  - intros x. rewrite upd_ch_ne by lia. intros Hx. rewrite (Hkeep (-1)) by auto with db. by apply HI.
  - intros k' d'. rewrite lookup_insert_Some, (v_map _ _ _ _ _ HI). split.
    + intros [[-> ->]|[Hne (x & a' & Hx & Hr)]].
      * exists e, a. rewrite Hin. eauto.
      * exists x, a'. rewrite Hin, (Hkeep (hash k')) by auto with db. eauto.
    + intros (x & a' & [Hx|[-> Hh]]%Hin & Hr); [|left; by simplify_eq].
      right. split; [intros ->; by eapply (Hnew (hash k')); eauto with db|].
      exists x, a'. by rewrite (Hkeep (hash k')) in Hr by auto with db.
Qed.

(** Pushing a record with a blank key on the free list leaves the map. *)
Lemma Inv_push_free e n a d :
  Inv P I m ch e -> rec_base <= e ->
  (forall y, P' y = if slot (-1) =? y then Some e else if e =? y then P (slot (-1)) else P y) ->
  (forall y, I' y = if e =? y then Some (replicate n SPACE, a, d) else I y) ->
  Inv P' I' m (upd_ch (-1) (e :: ch (-1)) ch) 0.
Proof.
  intros HI He HP HI'.
  pose proof (push_keep _ _ HI HI') as Hkeep. pose proof (push_this _ _ HI') as Hthis.
  split.
  - eapply Links_push; [by apply HI|auto with db|done| |exact HP]. by eapply push_rec.
  - intros j x k' a' d' Hj. rewrite upd_ch_ne by lia. intros Hx.
    rewrite (Hkeep j) by auto with db. by apply HI.
  - intros j x x' k' a1 a2 d1 d2 Hj. rewrite upd_ch_ne by lia. intros Hx Hx'.
    rewrite !(Hkeep j) by auto with db. by apply (v_uniq _ _ _ _ _ HI j).
  - intros x. rewrite upd_ch_eq. intros [->|Hx]%elem_of_cons; [by exists n, a, d|].
    rewrite (Hkeep (-1)) by auto with db. by apply HI.
  - intros k' d'. pose proof (hash_range k'). rewrite upd_ch_ne, (v_map _ _ _ _ _ HI) by lia.
    split; intros (x & a' & Hx & Hr); exists x, a'; rewrite (Hkeep (hash k')) in * by auto with db; done.
Qed.

(** Replacing the data of a record on its chain. *)
Lemma Inv_setdata o k a a' d d' :
  Inv P I m ch 0 -> o ∈ ch (hash k) -> I o = Some (k, a, d) ->
  (forall y, P' y = P y) -> (forall y, I' y = if o =? y then Some (k, a', d') else I y) ->
  Inv P' I' (<[k := d']> m) ch 0.
Proof.
  intros HI Ho Hr HP HI'. pose proof (v_links _ _ _ _ _ HI) as HL.
  assert (Hrec : forall y, is_Some (I' y) <-> is_Some (I y)).
  { intros y. rewrite HI'. destruct (Z.eqb_spec o y) as [<-|]; [|done]. rewrite Hr. split; by eexists. }
  assert (Hkey : forall y k1 a1 d1, I' y = Some (k1, a1, d1) -> exists a2 d2, I y = Some (k1, a2, d2)).
  { intros y k1 a1 d1. rewrite HI'. destruct (Z.eqb_spec o y) as [<-|]; [|by eauto].
    intros [= <- <- <-]. by eauto. }
  split.
  - destruct HL as [HL1 HL2 HL3 HL4 HL5 HL6 HL7]. split; try done.
    + intros i Hi. eapply chain_ext; [|by apply HL1]. done.
    + intros i y Hi Hy. by eapply Hrec, HL4.
    + intros y Hy. by apply HL5, Hrec.
    + intros y Hy. by apply HL6, Hrec.
  - intros j x k1 a1 d1 Hj Hx Hx'. destruct (Hkey _ _ _ _ Hx') as (? & ? & ?). by eapply (v_hash _ _ _ _ _ HI).
  - intros j x x' k1 a1 a2 d1 d2 Hj Hx Hx' H1 H2.
    destruct (Hkey _ _ _ _ H1) as (? & ? & ?), (Hkey _ _ _ _ H2) as (? & ? & ?). by eapply (v_uniq _ _ _ _ _ HI j).
  - intros x Hx. rewrite HI'. destruct (Z.eqb_spec o x) as [<-|]; [|by apply HI].
    pose proof (v_disj _ _ _ _ HL (-1) (hash k) o ltac:(auto with db) ltac:(auto with db) Hx Ho).
    pose proof (hash_range k). lia.
  - intros k1 d1. rewrite lookup_insert_Some, (v_map _ _ _ _ _ HI). split.
    + intros [[-> ->]|[Hne (x & a1 & Hx & Hr1)]].
      * exists o, a'. by rewrite HI', Z.eqb_refl.
      * exists x, a1. rewrite HI'. destruct (Z.eqb_spec o x) as [<-|]; [congruence|done].
    + intros (x & a1 & Hx & Hr1). rewrite HI' in Hr1.
      destruct (Z.eqb_spec o x) as [<-|Hne]; [left; by simplify_eq|]. right. split; [|by exists x, a1].
      intros <-. apply Hne. eapply (v_uniq _ _ _ _ _ HI (hash k)); eauto with db.
Qed.

(** Naming an offset outside the index as the hole. *)
Lemma Inv_fresh e : Inv P I m ch 0 -> I e = None -> Inv P I m ch e.
Proof.
  intros [HL ? ? ? ?] He. split; try done. apply Links_fresh; [done|]. rewrite He. by intros [].
Qed.
End inv_effects.

Lemma Inv_ext_I P I I' m ch e : (forall y, I' y = I y) -> Inv P I m ch e -> Inv P I' m ch e.
Proof.
  intros HE [[] ? ? ? Hm]. split; [split|..]; try done.
  - intros i o ? ?. rewrite HE. by eapply v_in0.
  - intros o. rewrite HE. apply v_rec0.
  - intros o. rewrite HE. apply v_all0.
  - intros i o k a d. rewrite HE. by apply v_hash0.
  - intros i o o' k a a' d d'. rewrite !HE. by apply v_uniq0.
  - intros o. rewrite HE. by apply v_blank0.
  - intros k d. rewrite Hm. by setoid_rewrite HE.
Qed.

(** A record on the chain of its key is what the map holds. *)
Lemma Inv_lookup P I m ch o k a d :
  Inv P I m ch 0 -> o ∈ ch (hash k) -> I o = Some (k, a, d) -> m !! k = Some d.
Proof. intros HI Ho Hr. apply HI. by exists o, a. Qed.

(** A key no record of its chain has is not in the map. *)
Lemma Inv_lookup_none P I m ch k :
  Inv P I m ch 0 -> (forall o a d, o ∈ ch (hash k) -> I o = Some (k, a, d) -> False) -> m !! k = None.
Proof.
  intros HI Hno. destruct (m !! k) as [d|] eqn:E; [|done].
  apply HI in E as (o & a & Ho & Hr). by destruct (Hno o a d).
Qed.

(** A record moved from its hash chain to the free list: the key leaves the
    map.  The pointer fields that change are the one before the record, the
    free-list head and the record's own. *)
Lemma Inv_delete P P' I I' m ch i pre o post k a d n a' d' :
  Inv P I m ch 0 -> 0 <= i < 137 -> ch i = pre ++ o :: post -> I o = Some (k, a, d) ->
  (forall y, P' y = if endslot (slot i) pre =? y then P o else
                    if 0 =? y then Some o else if o =? y then P 0 else P y) ->
  (forall y, I' y = if o =? y then Some (replicate n SPACE, a', d') else I y) ->
  exists ch', Inv P' I' (delete k m) ch' 0.
Proof.
  intros HI Hi Hch Ho HP HI'. pose proof (v_links _ _ _ _ _ HI) as HL.
  pose proof (fields_nodup _ _ _ _ HL i (live_chain_no i Hi)) as Hn.
  pose proof (endslot_elem (slot i) pre) as He.
  assert (Hob : rec_base <= o) by (eapply in_bound with (i := i); eauto with db; rewrite Hch; set_solver).
  assert (He0 : endslot (slot i) pre <> 0).
  { apply elem_of_cons in He as [->|He]; [unfold slot; lia|].
    assert (rec_base <= endslot (slot i) pre); [|unfold rec_base in *; lia].
    eapply in_bound with (i := i); eauto with db. rewrite Hch. set_solver. }
  assert (Heo : endslot (slot i) pre <> o).
  { rewrite Hch in Hn. by apply endslot_ne in Hn. }
  pose proof (Inv_unlink_live P (fun y => if endslot (slot i) pre =? y then P o else P y) I m ch
                i pre o post k a d HI Hi Hch Ho (fun y => eq_refl)) as HU.
  eexists. eapply Inv_push_free with (e := o); [exact HU | done | | done].
  intros y. rewrite HP. change (slot (-1)) with 0. unfold rec_base in Hob.
  destruct (Z.eqb_spec (endslot (slot i) pre) y), (Z.eqb_spec 0 y), (Z.eqb_spec o y),
    (Z.eqb_spec (endslot (slot i) pre) 0); try done; try lia; congruence.
Qed.
