(* ===== verification/DbSpec.v ===== *)
(** * The database library implements a finite map

    The abstract specification of src/apue.3e/db/db.c (a finite map from keys
    to data, with the results of each operation) and the refinement theorems:
    an operation on a handle whose two files represent a map returns what the
    specification says, leaves files that represent the specified map and
    releases every record lock it took. *)

From S2P Require Import Prelude CLib Posix Db DbLayout DbOps DbChain.
Import Lockreg.

(** ** The specification *)

Definition spec_delete (k : bytes) (m : gmap bytes bytes) : Z * gmap bytes bytes :=
  match m !! k with
  | Some _ => (0, delete k m)
  | None => (-1, m)
  end.

Definition spec_store (k d : bytes) (flag : Z) (m : gmap bytes bytes) : Z * gmap bytes bytes :=
  if negb (flag =? DB_INSERT) && negb (flag =? DB_REPLACE) && negb (flag =? DB_STORE) then (-1, m)
  else match m !! k with
       | None => if flag =? DB_REPLACE then (-1, m) else (0, <[k := d]> m)
       | Some _ => if flag =? DB_INSERT then (1, m) else (0, <[k := d]> m)
       end.

(** The statistics counter an operation bumps. *)
Definition bumped (i : nat) (d d' : DB) : Prop :=
  counters d' = alter (fun n => to_u64 (n + 1)) i (counters d).

Definition store_bumps (k d : bytes) (flag : Z) (m : gmap bytes bytes) (h h' : DB) : Prop :=
  if negb (flag =? DB_INSERT) && negb (flag =? DB_REPLACE) && negb (flag =? DB_STORE)
  then counters h' = counters h
  else match m !! k with
       | None => if flag =? DB_REPLACE then bumped 9 h h' else bumped 5 h h' \/ bumped 6 h h'
       | Some d0 => if flag =? DB_INSERT then bumped 9 h h'
                    else if (length d =? length d0)%nat then bumped 8 h h' else bumped 7 h h'
       end.

(** Room for a new record with key [k] and data [d]: its offset fits in a
    chain pointer, and the index record has a legal length. *)
Definition fits (L : lay) (k d : bytes) : Prop :=
  end_off L <= PTR_MAX /\ IDXLEN_MIN <= p_len (Irec 0 k (dat_end L) d) <= IDXLEN_MAX.

(** A new layout has the old sizes, or those after one more record. *)
Definition same_size (L L' : lay) : Prop := end_off L' = end_off L /\ dat_end L' = dat_end L.
Definition more (L L' : lay) (k d : bytes) : Prop :=
  end_off L' = end_off L + rsz (Irec 0 k (dat_end L) d) /\
  dat_end L' = dat_end L + r_len (Irec 0 k (dat_end L) d).
Definition grown (L L' : lay) (k d : bytes) : Prop := same_size L L' \/ more L L' k d.

(** ** Small facts *)

Lemma offsets_bound (l : list Z) a b :
  NoDup l -> (forall o, o ∈ l -> a <= o < b) -> (length l <= Z.to_nat (b - a))%nat.
Proof.
  intros Hn Hr. rewrite <- (length_seqZ a (b - a)). apply submseteq_length, NoDup_submseteq; [done|].
  intros o Ho. apply elem_of_seqZ. apply Hr in Ho. lia.
Qed.

Lemma nonul_blanks n : nonul (replicate n SPACE).
Proof. by apply Forall_replicate. Qed.

Lemma key_ok_blanks n : key_ok (replicate n SPACE).
Proof. split; [apply nonul_blanks | by apply Forall_replicate]. Qed.

Lemma blank_key_buf k t : nonul k -> blank (k ++ 0 :: t) = replicate (length k) SPACE ++ 0 :: t.
Proof.
  induction 1 as [|c k Hc _ IH]; [done|]. cbn [app blank length replicate].
  unfold NUL. destruct (Z.eqb_spec c 0); [done|]. by rewrite IH.
Qed.

Lemma p_len_eq r r' :
  length (r_key r') = length (r_key r) -> r_off r' = r_off r ->
  length (r_data r') = length (r_data r) -> p_len r' = p_len r.
Proof.
  intros Hk Ho Hd. unfold p_len, payload, r_len. rewrite Ho, Hd.
  autorewrite with lens. rewrite Hk. done.
Qed.

Lemma info_set_rec L o r r' y :
  look L o = Some r -> rsz r' = rsz r ->
  info (set_rec L o r') y = if o =? y then Some (r_key r', r_off r', r_data r') else info L y.
Proof.
  intros Hr Hs. unfold info. rewrite (look_set_rec _ _ _ _ _ Hr Hs). by destruct (o =? y).
Qed.

Lemma info_app_rec L r y :
  info (app_rec L r) y = if end_off L =? y then Some (r_key r, r_off r, r_data r) else info L y.
Proof.
  unfold info. destruct (Z.eqb_spec (end_off L) y) as [<-|].
  - by rewrite look_app_rec.
  - by rewrite look_app_rec_ne.
Qed.

Lemma info_look L o k a d : info L o = Some (k, a, d) -> exists p, look L o = Some (Irec p k a d).
Proof.
  unfold info. destruct (look L o) as [[p ? ? ?]|] eqn:E; [|done]. intros [= <- <- <-]. eauto.
Qed.

Lemma look_info L o r : look L o = Some r -> info L o = Some (r_key r, r_off r, r_data r).
Proof. unfold info. by intros ->. Qed.

(** ** Representation *)

(** The layout's pointers are chains and its records are the map [m]. *)
Abbreviation Repr L m ch e := (Inv (get_ptr L) (info L) m ch e).

Lemma chain_look L m ch i o :
  Repr L m ch 0 -> chain_no i -> o ∈ ch i -> exists r, look L o = Some r.
Proof.
  intros HI Hi Ho. destruct (v_in _ _ _ _ (v_links _ _ _ _ _ HI) i o Hi Ho) as [[[k a] d] Hr].
  destruct (info_look _ _ _ _ _ Hr) as [p Hp]. eauto.
Qed.

Lemma chain_length L m ch i :
  Repr L m ch 0 -> lay_ok L -> chain_no i -> (length (ch i) < S (length (idx_bytes L)))%nat.
Proof.
  intros HI HL Hi. pose proof (idx_length _ HL). pose proof (end_off_ge L).
  assert (length (ch i) <= Z.to_nat (end_off L - 0))%nat; [|lia].
  apply offsets_bound; [by apply (v_links _ _ _ _ _ HI)|].
  intros o Ho. destruct (chain_look _ _ _ _ _ HI Hi Ho) as [r Hr].
  apply look_bounds in Hr as [? ?]. pose proof (rsz_pos r). unfold rec_base in *. lia.
Qed.

(** The pointer of a record on a chain is the next record. *)
Lemma chain_next L m ch i pre o post r :
  Repr L m ch 0 -> chain_no i -> ch i = pre ++ o :: post -> look L o = Some r -> r_ptr r = hd 0 post.
Proof.
  intros HI Hi Hch Hr. pose proof (v_chain _ _ _ _ (v_links _ _ _ _ _ HI) _ Hi) as Hc.
  rewrite Hch in Hc. apply chain_split in Hc as (_ & _ & Hc%chain_head).
  pose proof (look_bounds _ _ _ Hr) as [Hb _]. rewrite get_ptr_rec, Hr in Hc by done. by injection Hc.
Qed.

(** An offset on a chain is stored in some pointer field. *)
Lemma chain_ptr_ok L m ch i pre o post :
  Repr L m ch 0 -> lay_ok L -> chain_no i -> ch i = pre ++ o :: post -> ptr_ok o.
Proof.
  intros HI HL Hi Hch. pose proof (v_chain _ _ _ _ (v_links _ _ _ _ _ HI) i Hi) as Hc.
  rewrite Hch in Hc. apply chain_split in Hc as [Hp _]. by eapply get_ptr_ok.
Qed.

(** ** The pointers and records after the writes of [_db_dodelete]: the data
    blanked, the record rewritten, and the two pointers. *)
Section deleted.
Context (L : lay) (o q : Z) (r : irec).
Definition del_data := replicate (length (r_data r)) SPACE.
Definition del_rec1 := with_data del_data r.
Definition del_rec2 := Irec (l_free L) (replicate (length (r_key r)) SPACE) (r_off r) del_data.
Definition del_lay1 := set_rec L o del_rec1.
Definition del_lay2 := set_rec del_lay1 o del_rec2.
Definition del_lay3 := put_ptr del_lay2 0 o.
Definition del_lay := put_ptr del_lay3 q (r_ptr r).

Context (HL : lay_ok L) (Hlk : look L o = Some r) (Hq : is_Some (get_ptr L q)) (Hqo : q <> o).

Lemma deleted_sizes : rsz del_rec1 = rsz r /\ rsz del_rec2 = rsz del_rec1 /\ r_len del_rec1 = r_len r /\ r_len del_rec2 = r_len del_rec1.
Proof.
  assert (Hb : length del_data = length (r_data r)) by apply length_replicate.
  assert (E1 : p_len del_rec1 = p_len r) by (by apply p_len_eq).
  assert (E2 : p_len del_rec2 = p_len del_rec1) by (apply p_len_eq; [apply length_replicate | done..]).
  unfold rsz, r_len. cbn [r_data del_rec1 del_rec2 with_data]. lia.
Qed.

Lemma deleted_look1 : look del_lay1 o = Some del_rec1.
Proof. unfold del_lay1. by rewrite (look_set_rec _ _ _ _ _ Hlk), Z.eqb_refl by apply deleted_sizes. Qed.

Lemma deleted_rec_ok : rec_ok del_rec2.
Proof.
  pose proof (look_ok _ _ _ HL Hlk) as [Hp Hk [Hdn Hd] Ho Hn].
  pose proof deleted_sizes as (E1 & E2 & _). unfold rsz in *. split; cbn; try done.
  - apply HL.
  - apply key_ok_blanks.
  - split; [apply nonul_blanks | unfold del_data; by rewrite length_replicate].
  - lia.
Qed.

Lemma deleted_ptr2 y : get_ptr del_lay2 y = if o =? y then Some (l_free L) else get_ptr L y.
Proof.
  pose proof deleted_sizes as (E1 & E2 & _).
  unfold del_lay2. rewrite (get_ptr_set_rec _ _ _ _ _ deleted_look1 E2).
  unfold del_lay1. rewrite (get_ptr_set_rec _ _ _ _ _ Hlk E1). by destruct (o =? y).
Qed.

Lemma deleted_ptr3 : is_Some (get_ptr del_lay3 q).
Proof.
  destruct Hq as [p Hp]. unfold del_lay3. rewrite (get_put_ptr _ _ _ _ _ (get_ptr_free _)), deleted_ptr2.
  destruct (0 =? q), (Z.eqb_spec o q); eauto.
Qed.

Lemma deleted_ptr y : get_ptr del_lay y =
  if q =? y then get_ptr L o else if 0 =? y then Some o else if o =? y then get_ptr L 0 else get_ptr L y.
Proof.
  pose proof (look_bounds _ _ _ Hlk) as [Hb _]. destruct Hq as [p Hp].
  assert (E3 : forall y, get_ptr del_lay3 y = if 0 =? y then Some o else get_ptr del_lay2 y)
    by (intros; by eapply get_put_ptr, get_ptr_free).
  destruct deleted_ptr3 as [p3 Hp3]. unfold del_lay. rewrite (get_put_ptr _ _ _ _ _ Hp3), E3, deleted_ptr2.
  by rewrite (get_ptr_rec L o Hb), Hlk, get_ptr_free.
Qed.

Lemma deleted_info y : info del_lay y =
  if o =? y then Some (replicate (length (r_key r)) SPACE, r_off r, del_data) else info L y.
Proof.
  pose proof deleted_sizes as (E1 & E2 & _). unfold del_lay, del_lay3, del_lay2. rewrite !info_put_ptr.
  rewrite (info_set_rec _ _ _ _ _ deleted_look1 E2). unfold del_lay1.
  rewrite (info_set_rec _ _ _ _ _ Hlk E1). by destruct (o =? y).
Qed.

Lemma deleted_same_size : same_size L del_lay.
Proof.
  pose proof deleted_sizes as (E1 & E2 & E3 & E4). unfold same_size, del_lay, del_lay3.
  destruct (put_ptr_size (put_ptr del_lay2 0 o) q (r_ptr r)) as [-> ->].
  destruct (put_ptr_size del_lay2 0 o) as [-> ->].
  unfold del_lay2. destruct (set_rec_size _ _ _ _ deleted_look1 E2 E4) as [-> ->].
  unfold del_lay1. by apply set_rec_size with r.
Qed.
End deleted.

Section spec.
Context (ifd dfd : Z) (pi pd : bytes).
Context (Hfd : ifd <> dfd) (Hpath : pi <> pd).
Abbreviation Open := (Open ifd dfd pi pd).
Abbreviation held := (held pi).

(** The primitives' specifications on these files. *)
Abbreviation readptr := (readptr_spec ifd dfd pi pd Hfd).
Abbreviation writeptr := (writeptr_spec ifd dfd pi pd Hfd Hpath).
Abbreviation readidx := (readidx_spec ifd dfd pi pd Hfd).
Abbreviation readidx_end := (readidx_eof ifd dfd pi pd Hfd).
Abbreviation readdat := (readdat_spec ifd dfd pi pd Hfd).
Abbreviation writedat := (writedat_spec ifd dfd pi pd Hfd Hpath).
Abbreviation writedat_end := (writedat_end_spec ifd dfd pi pd Hfd Hpath).
Abbreviation writeidx := (writeidx_spec ifd dfd pi pd Hfd Hpath).
Abbreviation writeidx_end := (writeidx_end_spec ifd dfd pi pd Hfd Hpath).

Tactic Notation "use" uconstr(H) := eapply wp_seq; [eapply H; eauto | cbv beta].

(** The fields the search of a chain leaves alone. *)
Definition kept (d d' : DB) : Prop := chainoff d' = chainoff d /\ counters d' = counters d.

Lemma kept_trans d d' d'' : kept d d' -> kept d' d'' -> kept d d''.
Proof. unfold kept. intros [] []. split; congruence. Qed.

Lemma kept_frame d d' : frame d d' -> kept d d'.
Proof. by intros []. Qed.

(** [found]: the search stopped at the record [r] at [o], the predecessors
    are [pre], and the handle knows the field that points to [o]. *)
Definition found (d : DB) (L : lay) (ch : Z -> list Z) (k : bytes) (pre : list Z) (o : Z)
    (post : list Z) (r : irec) : Prop :=
  ch (hash k) = pre ++ o :: post /\ look L o = Some r /\ r_key r = k /\
  holds d o r /\ ptroff d = endslot (slot (hash k)) pre.

(** The loop of [_db_find_and_lock] from the record after [pre]. *)
Lemma find_loop_spec L m ch k K post : Repr L m ch 0 -> nonul k -> forall fuel s pre,
  Open s L [] -> held s K -> ch (hash k) = pre ++ post ->
  (forall o r, o ∈ pre -> look L o = Some r -> r_key r <> k) ->
  ptroff (D s) = endslot (slot (hash k)) pre -> (length post < fuel)%nat ->
  wp (_db_find_loop fuel k (hd 0 post)) (fun o s' =>
    Open s' L [] /\ held s' K /\ kept (D s) (D s') /\
    (o = 0 /\ m !! k = None \/
     o <> 0 /\ exists pre' post' r, found (D s') L ch k pre' o post' r)) s.
Proof.
  intros HI Hk. pose proof (hash_chain_no k) as Hi.
  induction post as [|o post IH]; intros fuel s pre HO HK Hch Hpre Hpo Hf;
    (destruct fuel as [|fuel]; [cbn in Hf; lia|]); cbn [hd _db_find_loop].
  - apply wp_ret. repeat (split; [done|]). left. split; [done|].
    rewrite app_nil_r in Hch. eapply Inv_lookup_none; [exact HI|].
    intros o a d Ho (p & Hr)%info_look. rewrite Hch in Ho. by apply (Hpre o _ Ho Hr).
  - assert (Ho : o ∈ ch (hash k)) by (rewrite Hch; set_solver).
    destruct (chain_look _ _ _ _ _ HI Hi Ho) as [r Hr].
    assert (Ho0 : o <> 0) by (eapply chain_nonzero; [by apply (v_links _ _ _ _ _ HI)|exact Ho]).
    destruct (Z.eqb_spec o 0) as [|_]; [done|].
    use readidx. intros v s1 (-> & HO1 & Hh & Hfr & _ & Hl & _).
    step_handle. destruct (h_idxbuf _ _ _ Hh) as [t Ht].
    pose proof (ro_key _ (look_ok _ _ _ (o_lay _ _ _ _ _ _ _ HO) Hr)) as [Hkn _].
    destruct (Z.eqb_spec (strcmp (idxbuf (D s1)) k) 0) as [E|E].
    + apply wp_ret. split; [done|]. split; [by eapply held_quiet|]. split; [by apply kept_frame|].
      right. split; [done|]. exists pre, post, r.
      apply strcmp_0 in E. rewrite Ht, cstr_end, cstr_id in E by done.
      repeat (split; [done|]). by rewrite (f_ptroff _ _ Hfr).
    + step_upd. rewrite (chain_next _ _ _ _ _ _ _ _ HI Hi Hch Hr).
      eapply wp_mono; [apply (IH fuel _ (pre ++ [o]))|].
      * by eapply Open_db; [exact HO1| |..]; try done; apply HO1.
      * by eapply held_quiet.
      * by rewrite <- app_assoc.
      * intros x r' [Hx|Hx%list_elem_of_singleton]%elem_of_app Hr'; [by eapply Hpre|]. subst x.
        simplify_eq. intros <-. apply E, strcmp_0. by rewrite Ht, cstr_end, cstr_id.
      * by rewrite endslot_snoc.
      * cbn in Hf. lia.
      * intros o' s' (HO' & HK' & Hkept & Hres). repeat (split; [done|]).
        split; [|exact Hres]. eapply kept_trans; [by apply kept_frame | exact Hkept].
Qed.
Lemma hash_slot s L k : Open s L [] -> _db_hash (D s) k * PTR_SZ + hashoff (D s) = slot (hash k).
Proof.
  intros HO. unfold _db_hash. rewrite (o_nhash _ _ _ _ _ _ _ HO), (o_hashoff _ _ _ _ _ _ _ HO).
  unfold slot, hash, HASH_OFF, PTR_SZ. lia.
Qed.

Lemma idx_fuel_spec s L x :
  Open s L x -> wp idx_fuel (fun n s' => n = S (length (idx_bytes L)) /\ s' = s) s.
Proof.
  intros HO. pose proof HO as [_ _ Hi _ [ip Hip] _ Hc _ _ _ _ _ _].
  unfold idx_fuel, wp. by rewrite Hi, Hip, Hc.
Qed.

Lemma head_ptr L m ch i e : Repr L m ch e -> chain_no i -> get_ptr L (slot i) = Some (hd 0 (ch i)).
Proof. intros HI Hi. apply chain_head. by apply (v_links _ _ _ _ _ HI). Qed.

(** The lock of one byte, whatever command asks for it. *)
Lemma lock_step s L x K cmd t o msg (B : Type) (f : unit -> M st B) Q :
  Open s L x -> held s K ->
  (forall s', Open s' L x -> held s' (lock1 o t K) -> D s' = D s -> wp (f tt) Q s') ->
  wp (bind (let* r := sys (lock_reg ifd cmd t o SEEK_SET 1) in dump_if (r <? 0) msg) f) Q s.
Proof.
  intros HO HK Hf. apply wp_bind, wp_bind. eapply lock1_spec; [exact HO | exact HK |].
  intros s' HO' HK' HD. apply wp_dump_if; [done|]. by apply Hf.
Qed.

(** [_db_find_and_lock] locks the chain of the key and finds its record. *)
Lemma find_and_lock_spec s L m ch k (b : bool) :
  Open s L [] -> held s unlocked -> Repr L m ch 0 -> nonul k ->
  wp (_db_find_and_lock k b) (fun r s' =>
    Open s' L [] /\
    held s' (lock1 (slot (hash k)) (if b then F_WRLCK else F_RDLCK) unlocked) /\
    chainoff (D s') = slot (hash k) /\ counters (D s') = counters (D s) /\
    (r = -1 /\ m !! k = None \/
     r = 0 /\ exists pre o post r', found (D s') L ch k pre o post r')) s.
Proof.
  intros HO HK HI Hk. unfold _db_find_and_lock. pose proof (hash_chain_no k) as Hi.
  step_handle. rewrite (hash_slot _ _ k HO). step_upd. step_upd. cbn [W D].
  set (s1 := St _ _). assert (HO1 : Open s1 L []) by (by eapply Open_db; [exact HO| ..]; try done; apply HO).
  assert (HK1 : held s1 unlocked) by (by eapply held_quiet).
  rewrite (o_ifd _ _ _ _ _ _ _ HO).
  set (Q := fun _ _ => _). 
  assert (Hrest : forall s2, Open s2 L [] -> 
     held s2 (lock1 (slot (hash k)) (if b then F_WRLCK else F_RDLCK) unlocked) -> D s2 = D s1 ->
     wp (let* offset := _db_readptr (slot (hash k)) in
         let* fuel := idx_fuel in
         let* offset := _db_find_loop fuel k offset in ret (if offset =? 0 then -1 else 0)) Q s2).
  { intros s2 HO2 HK2 HD2. use readptr; [by eapply head_ptr|].
    intros v s3 (-> & HO3 & HD3 & Hl3). use idx_fuel_spec. intros fuel ? [-> ->].
    eapply wp_seq; [eapply (find_loop_spec L m ch k _ _ HI Hk _ s3 []); try done|].
    - by eapply held_quiet.
    - set_solver.
    - by rewrite HD3, HD2.
    - apply (chain_length _ _ _ _ HI); [by apply HO | done].
    - cbv beta. intros o s4 (HO4 & HK4 & [Hc4 Hn4] & Hres). apply wp_ret.
      rewrite HD3, HD2 in Hc4, Hn4. repeat (split; [done|]).
      destruct Hres as [[-> Hm]|[Ho (pre & post & r & Hf)]]; [by left|].
      right. destruct (Z.eqb_spec o 0); [done|]. eauto 10. }
  destruct b; eapply lock_step; eauto.
Qed.

(** [un_lock] at the end of an operation. *)
Lemma unlock_step s L x t o msg (B : Type) (f : unit -> M st B) Q :
  Open s L x -> held s (lock1 o t unlocked) -> chainoff (D s) = o ->
  (forall s', Open s' L x -> held s' unlocked -> D s' = D s -> wp (f tt) Q s') ->
  wp (bind (unlock_chain msg) f) Q s.
Proof.
  intros HO HK Hc Hf. unfold unlock_chain. apply wp_bind. step_handle.
  rewrite Hc, (o_ifd _ _ _ _ _ _ _ HO). apply wp_bind. eapply unlock1_spec; [exact HO | exact HK |].
  intros s' HO' HK' HD. apply wp_dump_if; [done|]. apply Hf; [done| |done].
  intros p y. rewrite HK'. unfold lock1, unlocked. by destruct (y =? o).
Qed.

Definition Rep (s : st) (L : lay) (m : gmap bytes bytes) : Prop :=
  Open s L [] /\ held s unlocked /\ exists ch, Repr L m ch 0.

Lemma Rep_intro s L m ch : Open s L [] -> held s unlocked -> Repr L m ch 0 -> Rep s L m.
Proof. intros. split; [done|]. split; [done|]. by exists ch. Qed.

Lemma fetch_spec s L m k :
  Rep s L m -> nonul k ->
  wp (db_fetch k) (fun r s' => r = m !! k /\ Rep s' L m /\
    bumped (match m !! k with Some _ => 2 | None => 3 end) (D s) (D s')) s.
Proof.
  intros (HO & HK & ch & HI) Hk. unfold db_fetch. use find_and_lock_spec.
  intros rc s1 (HO1 & HK1 & Hc1 & Hn1 & Hr). apply wp_bind.
  destruct Hr as [[-> Hm]|[-> (pre & o & post & r & Hch & Hlk & Hkey & Hh & _)]].
  - cbn [Z.ltb Z.compare]. step_upd. apply wp_ret. eapply unlock_step; [| | |].
    + by eapply Open_db; [exact HO1| ..]; try done; apply HO1.
    + by eapply held_quiet.
    + done.
    + intros s2 HO2 HK2 HD2. apply wp_ret. rewrite Hm. split; [done|]. split; [by eapply Rep_intro|].
      unfold bumped. rewrite HD2, <- Hn1. done.
  - cbn [Z.ltb Z.compare]. eapply wp_bind. eapply wp_mono; [eapply readdat; [done|done| |]; by apply Hh|].
    cbv beta. intros v s2 (-> & HO2 & Hfr & Hl & _). step_upd. apply wp_ret.
    assert (Hm : m !! k = Some (r_data r)).
    { eapply Inv_lookup; [exact HI| |]; [|rewrite <- Hkey; by apply look_info].
      rewrite Hch. set_solver. }
    eapply unlock_step; [| | |].
    + by eapply Open_db; [exact HO2| ..]; try done; apply HO2.
    + by eapply held_quiet; [|exact HK1].
    + cbn. by rewrite (f_chainoff _ _ Hfr).
    + intros s3 HO3 HK3 HD3. apply wp_ret. rewrite Hm. split; [done|]. split; [by eapply Rep_intro|].
      unfold bumped. rewrite HD3, <- Hn1, <- (f_counters _ _ Hfr). done.
Qed.
Lemma held_ext s K K' : (forall b, K b = K' b) -> held s K -> held s K'.
Proof. intros HE HK p b. by rewrite HK, HE. Qed.

(** Unlock of the free list, locked since the state with locks [K]. *)
Lemma unlock_free s L x t K msg (Q : unit -> st -> Prop) :
  Open s L x -> held s (lock1 0 t K) -> K 0 = F_UNLCK ->
  (forall s', Open s' L x -> held s' K -> D s' = D s -> Q tt s') ->
  wp (let* r := sys (un_lock ifd FREE_OFF SEEK_SET 1) in dump_if (r <? 0) msg) Q s.
Proof.
  intros HO HK H0 Hf. apply wp_bind. eapply unlock1_spec; [exact HO | exact HK |].
  intros s' HO' HK' HD. apply wp_dump_if; [done|]. apply Hf; [done| |done].
  eapply held_ext; [|exact HK']. intros b. unfold lock1, FREE_OFF.
  by destruct (Z.eqb_spec b 0) as [->|].
Qed.

Lemma unlock_free_step s L x t K msg (B : Type) (f : M st B) Q :
  Open s L x -> held s (lock1 0 t K) -> K 0 = F_UNLCK ->
  (forall s', Open s' L x -> held s' K -> D s' = D s -> wp f Q s') ->
  wp (let* r := sys (un_lock ifd FREE_OFF SEEK_SET 1) in dump_if (r <? 0) msg ;;; f) Q s.
Proof.
  intros HO HK H0 Hf. pose proof (unlock_free s L x t K msg (fun _ => wp f Q) HO HK H0 Hf) as H.
  unfold wp, bind in *. destruct (sys _ s) as [[a|e] s1]; [|done].
  by destruct (dump_if (a <? 0) msg s1) as [[[]|e] s2].
Qed.

Lemma same_size_trans L L' L'' : same_size L L' -> same_size L' L'' -> same_size L L''.
Proof. unfold same_size. lia. Qed.

(** The two buffers blanked by [_db_dodelete]. *)
Lemma blanked s L o r :
  Open s L [] -> look L o = Some r -> holds (D s) o r ->
  let bd := replicate (length (r_data r)) SPACE in
  let buf := overwrite 0 (replicate (Z.to_nat (r_len r) - 1) SPACE ++ [NUL]) (datbuf (D s)) in
  let d := set_datbuf buf (D s) in
  (length (replicate (Z.to_nat (r_len r) - 1) SPACE ++ [NUL]) <= length (datbuf (D s)))%nat /\
  Open (St (W s) (set_idxbuf (blank (idxbuf (D s))) d)) L [] /\
  cstr buf = bd /\ cstr (blank (idxbuf (D s))) = replicate (length (r_key r)) SPACE.
Proof.
  intros HO Hlk Hh bd buf d. pose proof (look_ok _ _ _ (o_lay _ _ _ _ _ _ _ HO) Hlk) as Hr.
  destruct (ro_data _ Hr) as [Hdn Hdl]. destruct (ro_key _ Hr) as [Hkn _].
  destruct (h_idxbuf _ _ _ Hh) as [t Ht]. rewrite Ht, (blank_key_buf _ _ Hkn).
  pose proof (o_ibuf _ _ _ _ _ _ _ HO) as Hib. pose proof (o_dbuf _ _ _ _ _ _ _ HO) as Hdb.
  rewrite Ht in Hib.
  assert (Hn : (Z.to_nat (r_len r) - 1)%nat = length (r_data r)) by (unfold r_len; lia).
  rewrite Hn. split; [rewrite Hdb; len|]. split; [|split].
  - eapply Open_db; [exact HO|try done..]; cbn; [len|].
    unfold buf. rewrite overwrite_length; [done|]. rewrite Hn, Hdb. len.
  - unfold buf, overwrite. rewrite Hn. cbn. rewrite <- app_assoc. by apply cstr_end, nonul_blanks.
  - by apply cstr_end, nonul_blanks.
Qed.

(** [_db_dodelete] on the record found: its key leaves the map, the record
    goes to the free list. *)
Lemma dodelete_spec s L m ch k K pre o post r :
  Open s L [] -> held s K -> K 0 = F_UNLCK -> Repr L m ch 0 -> found (D s) L ch k pre o post r ->
  wp _db_dodelete (fun _ s' => exists L', Open s' L' [] /\ held s' K /\
    (exists ch', Repr L' (delete k m) ch' 0) /\ same_size L L' /\ kept (D s) (D s')) s.
Proof.
  intros HO HK HK0 HI (Hch & Hlk & Hkey & Hh & Hpo). pose proof (o_lay _ _ _ _ _ _ _ HO) as HL.
  pose proof (look_ok _ _ _ HL Hlk) as Hr. pose proof (deleted_sizes L r) as (E1 & E2 & E3 & E4).
  destruct (blanked _ _ _ _ HO Hlk Hh) as (Hfit & HOa & Hcd & Hck).
  unfold _db_dodelete. step_handle. rewrite (h_datlen _ _ _ Hh).
  apply wp_bind, wp_poke_dat; [done|]. step_upd. cbn [W D] in *.
  revert HOa. set (sa := St (W s) _). intros HOa.
  assert (Hha : idxoff (D sa) = o /\ datoff (D sa) = r_off r /\ datlen (D sa) = r_len r /\
                ptrval (D sa) = r_ptr r /\ ptroff (D sa) = endslot (slot (hash k)) pre)
    by (by repeat split; apply Hh || apply Hpo).
  destruct Hha as (Ho & Hdo & Hdl & Hpv & Hpf).
  apply wp_bind. rewrite (o_ifd _ _ _ _ _ _ _ HO). eapply lock1_spec; [exact HOa | exact HK |].
  intros s1 HO1 HK1 HD1. step_ok; [done|]. step_handle. rewrite HD1, Hdo.
  pose proof (deleted_rec_ok L o r HL Hlk) as Hr2.
  eapply wp_seq; [apply (writedat s1 L [] o r _ (del_data r) HO1 Hlk Hcd (ro_data _ Hr2)), length_replicate|].
  cbv beta. intros _ s2 (HO2 & HD2 & Hl2). rewrite HD1 in HD2.
  eapply wp_seq; [eapply (readptr _ _ _ _ _ HO2), get_ptr_free|]. cbv beta. intros fp s3 (-> & HO3 & HD3 & Hl3). rewrite HD2 in HD3.
  step_handle. rewrite HD3. cbn [idxoff ptrval idxbuf set_datlen set_datoff]. rewrite Ho, Hpv.
  eapply wp_seq; [apply (writeidx s3 (del_lay1 L o r) [] o (del_rec1 r) (del_rec2 L r)); try done|].
  { by apply deleted_look1. } { apply length_replicate. } { by rewrite HD3. }
  { by rewrite HD3, E3. }
  cbv beta. intros _ s4 (HO4 & (t & HD4 & _) & Hl4). rewrite HD3 in HD4.
  step_handle. rewrite HD4. cbn [idxoff ptroff set_idxoff set_idxbuf set_ptrval set_datlen set_datoff].
  assert (Hpo4 : ptroff (D sa) = endslot (slot (hash k)) pre) by done. rewrite Hpo4.
  eapply wp_seq; [eapply (writeptr _ _ _ _ _ _ HO4 (get_ptr_free _)); exact (chain_ptr_ok _ _ _ _ _ _ _ HI HL (hash_chain_no k) Hch) | cbv beta].
  intros _ s5 (HO5 & HD5 & Hl5).
  assert (Hq : is_Some (get_ptr L (endslot (slot (hash k)) pre))).
  { pose proof (v_chain _ _ _ _ (v_links _ _ _ _ _ HI) _ (hash_chain_no k)) as Hc.
    rewrite Hch in Hc. apply chain_split in Hc as [Hc _]. eauto. }
  assert (Hqo : endslot (slot (hash k)) pre <> o).
  { pose proof (fields_nodup _ _ _ _ (v_links _ _ _ _ _ HI) _ (hash_chain_no k)) as Hn.
    rewrite Hch in Hn. by apply endslot_ne in Hn. }
  assert (H3 : is_Some (get_ptr (del_lay3 L o r) (endslot (slot (hash k)) pre)))
    by (by apply deleted_ptr3). destruct H3 as [p3 Hp3].
  eapply wp_seq; [apply (writeptr s5 (del_lay3 L o r) _ _ _ _ HO5 Hp3), Hr | cbv beta].
  intros _ s6 (HO6 & HD6 & Hl6). replace (idxfd _) with ifd by (symmetry; apply HOa).
  eapply (unlock_free s6 (del_lay L o (endslot (slot (hash k)) pre) r)); [exact HO6| |exact HK0|].
  { eapply held_quiet; [|exact HK1]. congruence. }
  intros s7 HO7 HK7 HD7. eexists. split; [exact HO7|]. split; [done|]. split.
  - eapply Inv_delete; [exact HI|apply hash_range|exact Hch| | |].
    + rewrite <- Hkey. by apply look_info.
    + intros y. by apply deleted_ptr.
    + intros y. by apply deleted_info.
  - split; [by apply deleted_same_size|]. by rewrite HD7, HD6, HD5, HD4.
Qed.
Lemma lock1_free k t : lock1 (slot (hash k)) t unlocked 0 = F_UNLCK.
Proof.
  unfold lock1, slot. pose proof (hash_range k). by destruct (Z.eqb_spec 0 (7 * hash k + 7)); [lia|].
Qed.

Lemma lock1_recs k t b : rec_base <= b -> lock1 (slot (hash k)) t unlocked b = F_UNLCK.
Proof.
  intros Hb. unfold lock1, slot. pose proof (hash_range k). unfold rec_base in Hb.
  by destruct (Z.eqb_spec b (7 * hash k + 7)); [lia|].
Qed.

Lemma found_map s L m ch k pre o post r :
  Repr L m ch 0 -> found (D s) L ch k pre o post r -> m !! k = Some (r_data r).
Proof.
  intros HI (Hch & Hlk & Hkey & _). eapply Inv_lookup; [exact HI| |rewrite <- Hkey; by apply look_info].
  rewrite Hch. set_solver.
Qed.

Lemma delete_spec s L m k :
  Rep s L m -> nonul k ->
  wp (db_delete k) (fun r s' => exists L', r = (spec_delete k m).1 /\
    Rep s' L' (spec_delete k m).2 /\ same_size L L' /\
    bumped (match m !! k with Some _ => 0 | None => 1 end) (D s) (D s')) s.
Proof.
  intros (HO & HK & ch & HI) Hk. unfold db_delete, spec_delete. use find_and_lock_spec.
  intros rc s1 (HO1 & HK1 & Hc1 & Hn1 & Hr). apply wp_bind.
  destruct Hr as [[-> Hm]|[-> (pre & o & post & r & Hf)]].
  - cbn [Z.eqb]. step_upd. apply wp_ret. rewrite Hm. eapply unlock_step; [| | |].
    + by eapply Open_db; [exact HO1| ..]; try done; apply HO1.
    + by eapply held_quiet.
    + done.
    + intros s2 HO2 HK2 HD2. apply wp_ret. exists L. split; [done|].
      split; [by eapply Rep_intro|]. split; [done|]. unfold bumped. by rewrite HD2, <- Hn1.
  - cbn [Z.eqb]. rewrite (found_map _ _ _ _ _ _ _ _ _ HI Hf). use dodelete_spec; [apply lock1_free|].
    intros _ s2 (L' & HO2 & HK2 & (ch' & HI') & Hsz & [Hc2 Hn2]). step_upd. apply wp_ret.
    eapply unlock_step; [| | |].
    + by eapply Open_db; [exact HO2| ..]; try done; apply HO2.
    + by eapply held_quiet; [|exact HK2].
    + cbn. by rewrite Hc2.
    + intros s3 HO3 HK3 HD3. apply wp_ret. exists L'. split; [done|].
      split; [by eapply Rep_intro|]. split; [done|]. unfold bumped. by rewrite HD3, <- Hn1, <- Hn2.
Qed.

(** ** The free list *)

(** The loop of [_db_findfree] from the record after [pre]. *)
Lemma findfree_loop_spec L m ch n dn K post : Repr L m ch 0 -> forall fuel s pre,
  Open s L [] -> held s K -> ch (-1) = pre ++ post -> (length post < fuel)%nat ->
  wp (_db_findfree_loop fuel n dn (endslot 0 pre) (hd 0 post)) (fun os s' =>
    Open s' L [] /\ held s' K /\ kept (D s) (D s') /\
    (os.1 = 0 \/ os.1 <> 0 /\ exists pre' post' r, ch (-1) = pre' ++ os.1 :: post' /\
       os.2 = endslot 0 pre' /\ look L os.1 = Some r /\ holds (D s') os.1 r /\
       Z.of_nat (length (r_key r)) = n /\ r_len r = dn)) s.
Proof.
  intros HI. pose proof free_chain_no as Hi.
  induction post as [|o post IH]; intros fuel s pre HO HK Hch Hf;
    (destruct fuel as [|fuel]; [cbn in Hf; lia|]); cbn [hd _db_findfree_loop].
  - apply wp_ret. repeat (split; [done|]). by left.
  - assert (Ho : o ∈ ch (-1)) by (rewrite Hch; set_solver).
    destruct (chain_look _ _ _ _ _ HI Hi Ho) as [r Hr].
    assert (Ho0 : o <> 0) by (eapply chain_nonzero; [by apply (v_links _ _ _ _ _ HI)|exact Ho]).
    destruct (Z.eqb_spec o 0) as [|_]; [done|].
    use readidx. intros v s1 (-> & HO1 & Hh & Hfr & _ & Hl & _).
    step_handle. destruct (h_idxbuf _ _ _ Hh) as [t Ht].
    pose proof (ro_key _ (look_ok _ _ _ (o_lay _ _ _ _ _ _ _ HO) Hr)) as [Hkn _].
    unfold strlen. rewrite Ht, cstr_end, (h_datlen _ _ _ Hh) by done.
    destruct (_ && _) eqn:E.
    + apply andb_true_iff in E as [?%Z.eqb_eq ?%Z.eqb_eq]. apply wp_ret. split; [done|].
      split; [by eapply held_quiet|]. split; [by apply kept_frame|].
      right. split; [done|]. by exists pre, post, r.
    + rewrite (chain_next _ _ _ _ _ _ _ _ HI Hi Hch Hr), <- (endslot_snoc 0 pre o).
      eapply wp_mono; [apply (IH fuel _ (pre ++ [o]))|].
      * done.
      * by eapply held_quiet.
      * by rewrite <- app_assoc.
      * cbn in Hf. lia.
      * intros o' s' (HO' & HK' & Hkept & Hres). repeat (split; [done|]).
        split; [|exact Hres]. eapply kept_trans; [by apply kept_frame | exact Hkept].
Qed.

(** [_db_findfree] takes a record of the asked sizes off the free list. *)
Lemma findfree_spec s L m ch n dn K :
  Open s L [] -> held s K -> K 0 = F_UNLCK -> Repr L m ch 0 ->
  wp (_db_findfree n dn) (fun rc s' => held s' K /\ kept (D s) (D s') /\
    (rc = -1 /\ Open s' L [] \/
     rc = 0 /\ exists o r L' ch', Open s' L' [] /\ Repr L' m ch' o /\ ptr_ok o /\
       look L' o = Some r /\ holds (D s') o r /\ Z.of_nat (length (r_key r)) = n /\ r_len r = dn /\
       same_size L L' /\ forall i, 0 <= i < 137 -> ch' i = ch i)) s.
Proof.
  intros HO HK HK0 HI. pose proof (o_lay _ _ _ _ _ _ _ HO) as HL. unfold _db_findfree. step_handle.
  rewrite (o_ifd _ _ _ _ _ _ _ HO). apply wp_bind. eapply lock1_spec; [exact HO | exact HK |].
  intros s1 HO1 HK1 HD1. step_ok; [done|].
  eapply wp_seq; [eapply (readptr _ _ _ _ _ HO1), (head_ptr _ _ _ _ _ HI free_chain_no) | cbv beta].
  intros v s2 (-> & HO2 & HD2 & Hl2). use idx_fuel_spec. intros fuel ? [-> ->].
  eapply wp_seq.
  { eapply (findfree_loop_spec L m ch n dn _ _ HI _ s2 []); [done| by eapply held_quiet|done|].
    by apply (chain_length _ _ _ _ HI HL), free_chain_no. }
  cbv beta. intros [o sv] s3 (HO3 & HK3 & Hkp & Hres). cbn [fst snd] in *. rewrite HD2, HD1 in Hkp.
  apply wp_bind. destruct Hres as [->|[Ho (pre & post & r & Hch & -> & Hlk & Hh & Hn & Hd)]].
  - apply wp_ret. eapply unlock_free_step; [exact HO3 | exact HK3 | done |].
    intros s4 HO4 HK4 HD4. apply wp_ret. rewrite HD4. auto 10.
  - destruct (Z.eqb_spec o 0); [done|]. step_handle. rewrite (h_ptrval _ _ _ Hh).
    pose proof (v_links _ _ _ _ _ HI) as HLk.
    pose proof (v_chain _ _ _ _ HLk _ free_chain_no) as Hc. rewrite Hch in Hc.
    apply chain_split in Hc as (Hp & _ & _). change (slot (-1)) with 0 in Hp.
    eapply wp_seq; [apply (writeptr _ _ _ _ _ _ HO3 Hp); by eapply ro_ptr, look_ok | cbv beta].
    intros _ s4 (HO4 & HD4 & Hl4). apply wp_ret.
    set (L' := put_ptr _ _ _) in HO4.
    eapply unlock_free_step; [exact HO4 | by eapply held_quiet; [|exact HK3] | done |].
    intros s5 HO5 HK5 HD5. apply wp_ret. rewrite HD5, HD4. split; [done|]. split; [done|]. right.
    split; [done|]. pose proof (look_bounds _ _ _ Hlk) as [Hb _].
    pose proof (fields_nodup _ _ _ _ HLk _ free_chain_no) as Hnd. rewrite Hch in Hnd.
    exists o, r, L', (upd_ch (-1) (pre ++ post) ch). split; [done|]. split.
    { eapply Inv_ext_I; [|eapply Inv_unlink_free; [exact HI|exact Hch|]].
      - intros y. apply info_put_ptr.
      - intros y. unfold L'. rewrite (get_put_ptr _ _ _ _ _ Hp). by rewrite (get_ptr_rec L o Hb), Hlk. }
    split; [exact (chain_ptr_ok _ _ _ _ _ _ _ HI HL free_chain_no Hch)|].
    split; [unfold L'; rewrite look_put_ptr_ne; [done | by apply endslot_ne in Hnd]|].
    repeat (split; [done|]). split; [apply put_ptr_size|]. intros i Hi. apply upd_ch_ne. lia.
Qed.

(** ** Storing *)

(** Appending a record for a new key, and hooking it into its chain. *)
Lemma append_step s L m ch k d K (B : Type) (f : M st B) Q :
  Open s L [] -> held s K -> (forall b, rec_base <= b -> K b = F_UNLCK) -> Repr L m ch 0 ->
  m !! k = None -> key_ok k -> data_ok d -> fits L k d -> chainoff (D s) = slot (hash k) ->
  (forall s' L', Open s' L' [] -> held s' K -> (exists ch', Repr L' (<[k := d]> m) ch' 0) ->
     more L L' k d -> kept (D s) (D s') -> wp f Q s') ->
  wp (_db_writedat d 0 SEEK_END ;;; _db_writeidx k 0 SEEK_END (hd 0 (ch (hash k))) ;;;
      let* db := handle in _db_writeptr (chainoff db) (idxoff db) ;;; f) Q s.
Proof.
  intros HO HK HKr HI Hm Hk Hd [He Hpl] Hco Hf. pose proof (o_lay _ _ _ _ _ _ _ HO) as HL.
  pose proof (hash_chain_no k) as Hi. pose proof (head_ptr _ _ _ _ _ HI Hi) as Hhd.
  set (r := Irec (hd 0 (ch (hash k))) k (dat_end L) d).
  assert (Hr : rec_ok r).
  { split; cbn; try done; [by eapply get_ptr_ok|]. apply total_nonneg, r_len_pos. }
  use writedat_end. intros _ s1 (HO1 & HK1 & HD1). rewrite (cstr_id d) in * by apply Hd.
  change (hd 0 (ch (hash k))) with (r_ptr r).
  eapply wp_seq; [eapply (writeidx_end s1 L K r k); try done|].
  { by apply cstr_id, Hk. } { by rewrite HD1. } { by rewrite HD1. }
  cbv beta. intros _ s2 (HO2 & (t & HD2 & _) & HK2). rewrite HD1 in HD2. step_handle.
  rewrite HD2. cbn [idxoff chainoff set_idxoff set_idxbuf set_ptrval set_datlen set_datoff].
  rewrite Hco. pose proof (end_off_ge L) as Hge. pose proof (slot_below _ Hi).
  assert (Hs : get_ptr (app_rec L r) (slot (hash k)) = Some (hd 0 (ch (hash k)))).
  { rewrite get_ptr_app_rec. destruct (Z.eqb_spec (end_off L) (slot (hash k))); [lia | done]. }
  eapply wp_seq; [apply (writeptr _ _ _ _ _ _ HO2 Hs)|cbv beta].
  { split; [|done]. unfold rec_base in *. lia. }
  intros _ s3 (HO3 & HD3 & Hl3). eapply Hf; [exact HO3|by eapply held_quiet| | |].
  - eexists. eapply Inv_push_live with (e := end_off L); [|done|done| |].
    + apply Inv_fresh; [exact HI|]. unfold info. by rewrite look_end.
    + intros y. rewrite (get_put_ptr _ _ _ _ _ Hs), get_ptr_app_rec, Hhd. done.
    + intros y. by rewrite info_put_ptr, info_app_rec.
  - unfold more. destruct (put_ptr_size (app_rec L r) (slot (hash k)) (end_off L)) as [-> ->].
    exact (app_rec_size L r).
  - by rewrite HD3, HD2.
Qed.

(** Reusing a record taken off the free list for a new key. *)
Lemma reuse_step s L m ch k d K o r (B : Type) (f : M st B) Q :
  Open s L [] -> held s K -> Repr L m ch o -> ptr_ok o ->
  look L o = Some r -> holds (D s) o r ->
  length (r_key r) = length k -> length (r_data r) = length d ->
  m !! k = None -> key_ok k -> data_ok d -> chainoff (D s) = slot (hash k) ->
  (forall s' L', Open s' L' [] -> held s' K -> (exists ch', Repr L' (<[k := d]> m) ch' 0) ->
     same_size L L' -> kept (D s) (D s') -> wp f Q s') ->
  wp (let* db := handle in _db_writedat d (datoff db) SEEK_SET ;;;
      let* db := handle in _db_writeidx k (idxoff db) SEEK_SET (hd 0 (ch (hash k))) ;;;
      let* db := handle in _db_writeptr (chainoff db) (idxoff db) ;;; f) Q s.
Proof.
  intros HO HK HI Hop Hlk Hh Hkl Hdl Hm Hk Hd Hco Hf. pose proof (o_lay _ _ _ _ _ _ _ HO) as HL.
  pose proof (hash_chain_no k) as Hi. pose proof (head_ptr _ _ _ _ _ HI Hi) as Hhd.
  pose proof (look_ok _ _ _ HL Hlk) as Hr. pose proof (look_bounds _ _ _ Hlk) as [Hb _].
  set (r1 := with_data d r). set (r2 := Irec (hd 0 (ch (hash k))) k (r_off r) d).
  assert (Hp1 : p_len r1 = p_len r) by (by apply p_len_eq).
  assert (Hp2 : p_len r2 = p_len r1) by (by apply p_len_eq).
  assert (Hs1 : rsz r1 = rsz r) by (unfold rsz; lia). assert (Hs2 : rsz r2 = rsz r1) by (unfold rsz; lia).
  assert (Hr2 : rec_ok r2).
  { split; cbn; try done; [by eapply get_ptr_ok|by apply Hr|]. rewrite Hp2, Hp1. apply Hr. }
  step_handle. rewrite (h_datoff _ _ _ Hh).
  eapply wp_seq; [apply (writedat s L [] o r d d HO Hlk); [by apply cstr_id, Hd|done|done]|cbv beta].
  fold r1. intros _ s1 (HO1 & HD1 & Hl1). step_handle. rewrite HD1.
  cbn [idxoff set_datlen set_datoff]. rewrite (h_idxoff _ _ _ Hh).
  assert (Hlk1 : look (set_rec L o r1) o = Some r1) by (by rewrite (look_set_rec _ _ _ _ _ Hlk Hs1), Z.eqb_refl).
  change (hd 0 (ch (hash k))) with (r_ptr r2).
  eapply wp_seq; [apply (writeidx s1 (set_rec L o r1) [] o r1 r2); try done|].
  { by apply cstr_id, Hk. } { by rewrite HD1. }
  { rewrite HD1. unfold r_len. cbn. by rewrite Hdl. }
  cbv beta. intros _ s2 (HO2 & (t & HD2 & _) & Hl2). rewrite HD1 in HD2. step_handle.
  rewrite HD2. cbn [idxoff chainoff set_idxoff set_idxbuf set_ptrval set_datlen set_datoff].
  rewrite Hco. pose proof (slot_below _ Hi).
  assert (Hg : forall y, get_ptr (set_rec (set_rec L o r1) o r2) y =
                 if o =? y then Some (hd 0 (ch (hash k))) else get_ptr L y).
  { intros y. rewrite (get_ptr_set_rec _ _ _ _ _ Hlk1 Hs2), (get_ptr_set_rec _ _ _ _ _ Hlk Hs1).
    by destruct (o =? y). }
  assert (Hs : get_ptr (set_rec (set_rec L o r1) o r2) (slot (hash k)) = Some (hd 0 (ch (hash k)))).
  { rewrite Hg. by destruct (o =? slot (hash k)). }
  eapply wp_seq; [apply (writeptr _ _ _ _ _ _ HO2 Hs Hop)|cbv beta].
  intros _ s3 (HO3 & HD3 & Hl3). eapply Hf; [exact HO3|eapply held_quiet; [|exact HK]; congruence| | |].
  - eexists. eapply Inv_push_live with (e := o); [exact HI|done|done| |].
    + intros y. rewrite (get_put_ptr _ _ _ _ _ Hs), Hg, Hhd. done.
    + intros y. rewrite info_put_ptr, (info_set_rec _ _ _ _ _ Hlk1 Hs2), (info_set_rec _ _ _ _ _ Hlk Hs1).
      by destruct (o =? y).
  - unfold same_size. destruct (put_ptr_size (set_rec (set_rec L o r1) o r2) (slot (hash k)) o) as [-> ->].
    destruct (set_rec_size _ _ _ _ Hlk1 Hs2) as [-> ->]; [done|].
    apply set_rec_size with r; [done|done|]. unfold r_len. cbn. by rewrite Hdl.
  - by rewrite HD3, HD2.
Qed.

Lemma werrno_step s L x e (B : Type) (f : M st B) Q :
  Open s L x -> (forall s', Open s' L x -> w_locks (W s') = w_locks (W s) -> D s' = D s -> wp f Q s') ->
  wp (set_werrno e ;;; f) Q s.
Proof.
  intros HO Hf. apply wp_bind. eapply wp_sys; [done|]. apply Hf; [|done|done].
  destruct HO. by split.
Qed.

(** The state before the chain is unlocked. *)
Definition stored (s : st) (L : lay) (m : gmap bytes bytes) (k d : bytes) (flag : Z) (rc : Z) (s' : st)
    : Prop :=
  exists L' ch', Open s' L' [] /\ held s' (lock1 (slot (hash k)) F_WRLCK unlocked) /\
    chainoff (D s') = slot (hash k) /\ rc = (spec_store k d flag m).1 /\
    Repr L' (spec_store k d flag m).2 ch' 0 /\ grown L L' k d /\
    store_bumps k d flag m (D s) (D s').

(** Bumping a counter of the handle leaves the rest alone. *)
Lemma stored_bump s L m k d flag s1 s2 rc (f : DB -> DB) :
  (exists L' ch', Open s1 L' [] /\ held s1 (lock1 (slot (hash k)) F_WRLCK unlocked) /\
    Repr L' (spec_store k d flag m).2 ch' 0 /\ grown L L' k d) ->
  chainoff (D s1) = slot (hash k) -> rc = (spec_store k d flag m).1 ->
  s2 = St (W s1) (f (D s1)) ->
  (forall h, idxfd (f h) = idxfd h /\ datfd (f h) = datfd h /\ nhash (f h) = nhash h /\
     hashoff (f h) = hashoff h /\ idxbuf (f h) = idxbuf h /\ datbuf (f h) = datbuf h /\
     chainoff (f h) = chainoff h) ->
  store_bumps k d flag m (D s) (f (D s1)) ->
  stored s L m k d flag rc s2.
Proof.
  intros (L' & ch' & HO & HK & HI & Hg) Hc Hrc -> Hf Hb. destruct (Hf (D s1)) as (E1&E2&E3&E4&E5&E6&E7).
  exists L', ch'. cbn [D]. rewrite E7. split; [|done].
  eapply Open_db; [exact HO|congruence..| |]; rewrite ?E5, ?E6; apply HO.
Qed.

(** The handle's locks and chain offset while [db_store] works on a chain. *)
Abbreviation chain_lock k := (lock1 (slot (hash k)) F_WRLCK unlocked).
Abbreviation valid flag :=
  (negb (flag =? DB_INSERT) && negb (flag =? DB_REPLACE) && negb (flag =? DB_STORE) = false).

Lemma bump_counters (f : DB -> DB) i h h1 :
  counters h1 = counters h -> counters (f h1) = alter (fun n => to_u64 (n + 1)) i (counters h1) ->
  bumped i h (f h1).
Proof. unfold bumped. by intros <- ->. Qed.

Lemma store_new_spec s0 s L m ch k d flag :
  Open s L [] -> held s (chain_lock k) -> chainoff (D s) = slot (hash k) ->
  counters (D s) = counters (D s0) -> Repr L m ch 0 -> m !! k = None -> valid flag ->
  key_ok k -> data_ok d -> fits L k d ->
  wp (db_store_new k d flag (Z.of_nat (length k)) (Z.of_nat (length d) + 1)) (stored s0 L m k d flag) s.
Proof.
  intros HO HK Hc Hn HI Hm Hv Hk Hd Hfit. unfold db_store_new.
  assert (Hsp : spec_store k d flag m =
    if flag =? DB_REPLACE then (-1, m) else (0, <[k := d]> m)) by (unfold spec_store; by rewrite Hv, Hm).
  assert (Hbm : store_bumps k d flag m = fun h h' =>
    if flag =? DB_REPLACE then bumped 9 h h' else bumped 5 h h' \/ bumped 6 h h')
    by (unfold store_bumps; by rewrite Hv, Hm).
  destruct (flag =? DB_REPLACE).
  - step_upd. eapply werrno_step; [by eapply Open_db; [exact HO|..]; try done; apply HO|].
    intros s1 HO1 Hl1 HD1. apply wp_ret. exists L, ch. rewrite Hsp, Hbm, HD1. repeat (split; [done|]).
    split; [by eapply held_quiet|]. repeat (split; [done|]). split; [by left; split|].
    by eapply bump_counters.
  - step_handle. rewrite Hc.
    eapply wp_seq; [apply (readptr _ _ _ _ _ HO (head_ptr _ _ _ _ _ HI (hash_chain_no k)))|cbv beta].
    intros v s1 (-> & HO1 & HD1 & Hl1).
    use findfree_spec; [by eapply held_quiet|apply lock1_free|].
    rewrite HD1. intros ff s2 (HK2 & [Hc2 Hn2] & [[-> HO2]|(-> & o & r & L' & ch' & HO2 & HI2 & Hop & Hlk & Hh & Hkl & Hdl & Hsz & Hsame)]);
      cbn [Z.ltb Z.compare].
    + eapply append_step; [exact HO2|exact HK2|apply lock1_recs|exact HI|done|done|done|done|congruence|].
      intros s3 L3 HO3 HK3 [ch3 HI3] Hmore [Hc3 Hn3]. step_upd. apply wp_ret.
      eapply stored_bump with (s1 := s3); [|congruence| |done|done|]; rewrite ?Hsp.
      * exists L3, ch3. repeat (split; [done|]). by right.
      * done.
      * rewrite Hbm. left. eapply bump_counters; [congruence|done].
    + rewrite <- (Hsame _ (hash_range k)).
      eapply reuse_step; [exact HO2|exact HK2|exact HI2|done|exact Hlk|done|lia|unfold r_len in Hdl; lia|done|done|done|congruence|].
      intros s3 L3 HO3 HK3 [ch3 HI3] Hsz3 [Hc3 Hn3]. step_upd. apply wp_ret.
      eapply stored_bump with (s1 := s3); [|congruence| |done|done|]; rewrite ?Hsp.
      * exists L3, ch3. repeat (split; [done|]). left. by eapply same_size_trans.
      * done.
      * rewrite Hbm. right. eapply bump_counters; [congruence|done].
Qed.

Lemma store_old_spec s0 s L m ch k d flag pre o post r :
  Open s L [] -> held s (chain_lock k) -> chainoff (D s) = slot (hash k) ->
  counters (D s) = counters (D s0) -> Repr L m ch 0 -> found (D s) L ch k pre o post r -> valid flag ->
  key_ok k -> data_ok d -> fits L k d ->
  wp (db_store_old k d flag (Z.of_nat (length d) + 1)) (stored s0 L m k d flag) s.
Proof.
  intros HO HK Hc Hn HI Hf Hv Hk Hd Hfit. unfold db_store_old.
  pose proof (found_map _ _ _ _ _ _ _ _ _ HI Hf) as Hm.
  assert (Hsp : spec_store k d flag m =
    if flag =? DB_INSERT then (1, m) else (0, <[k := d]> m)) by (unfold spec_store; by rewrite Hv, Hm).
  assert (Hbm : store_bumps k d flag m = fun h h' =>
    if flag =? DB_INSERT then bumped 9 h h' else
    if (length d =? length (r_data r))%nat then bumped 8 h h' else bumped 7 h h')
    by (unfold store_bumps; by rewrite Hv, Hm).
  destruct (flag =? DB_INSERT).
  { step_upd. apply wp_ret. eapply stored_bump with (s1 := s); [|congruence| |done|done|]; rewrite ?Hsp.
    - exists L, ch. repeat (split; [done|]). by left; split.
    - done.
    - rewrite Hbm. by eapply bump_counters. }
  pose proof Hf as (Hch & Hlk & Hkey & Hh & Hpo). step_handle.
  rewrite (h_datlen _ _ _ Hh). unfold r_len.
  destruct (Z.eqb_spec (Z.of_nat (length d) + 1) (Z.of_nat (length (r_data r)) + 1)) as [E|E]; cbn [negb].
  - assert (Hlen : length d = length (r_data r)) by lia. rewrite (h_datoff _ _ _ Hh).
    eapply wp_seq; [apply (writedat s L [] o r d d HO Hlk); [by apply cstr_id, Hd|done|done]|cbv beta].
    intros _ s1 (HO1 & HD1 & Hl1). step_upd. apply wp_ret.
    eapply stored_bump with (s1 := s1); [|by rewrite HD1| |done|done|]; rewrite ?Hsp.
    + eexists _, ch. split; [exact HO1|]. split; [by eapply held_quiet|].
      assert (Hsz : rsz (with_data d r) = rsz r) by (unfold rsz; f_equal; by apply p_len_eq).
      split; [|left; apply set_rec_size with r; [done|done|unfold r_len; cbn; by rewrite Hlen]].
      eapply Inv_setdata with (o := o); [exact HI| | | |].
      * rewrite Hch. set_solver.
      * rewrite <- Hkey. by apply look_info.
      * intros y. rewrite (get_ptr_set_rec _ _ _ _ _ Hlk Hsz). destruct (Z.eqb_spec o y) as [<-|]; [|done].
        by rewrite get_ptr_rec, Hlk by (by apply look_bounds in Hlk as []).
      * intros y. rewrite (info_set_rec _ _ _ _ _ Hlk Hsz). cbn. by rewrite Hkey.
    + done.
    + rewrite Hbm, Hlen, Nat.eqb_refl. eapply bump_counters; [by rewrite HD1|done].
  - use dodelete_spec; [apply lock1_free|].
    intros _ s1 (L1 & HO1 & HK1 & [ch1 HI1] & [Hs1 Hs1'] & [Hc1 Hn1]). step_handle. rewrite Hc1, Hc.
    eapply wp_seq; [apply (readptr _ _ _ _ _ HO1 (head_ptr _ _ _ _ _ HI1 (hash_chain_no k)))|cbv beta].
    intros v s2 (-> & HO2 & HD2 & Hl2).
    eapply append_step; [exact HO2|by eapply held_quiet|apply lock1_recs|exact HI1|apply lookup_delete_eq|done|done| |congruence|].
    { unfold fits. rewrite Hs1, Hs1'. apply Hfit. }
    intros s3 L3 HO3 HK3 [ch3 HI3] Hmore [Hc3 Hn3]. step_upd. apply wp_ret. rewrite insert_delete_eq in HI3.
    eapply stored_bump with (s1 := s3); [|congruence| |done|done|]; rewrite ?Hsp.
    + exists L3, ch3. repeat (split; [done|]). right. unfold more in *. by rewrite <- Hs1, <- Hs1'.
    + done.
    + rewrite Hbm. destruct (Nat.eqb_spec (length d) (length (r_data r))); [lia|].
      eapply bump_counters; [congruence|done].
Qed.

Lemma store_spec s L m k d flag :
  Rep s L m -> key_ok k -> data_ok d -> fits L k d ->
  wp (db_store k d flag) (fun rc s' => exists L', rc = (spec_store k d flag m).1 /\
    Rep s' L' (spec_store k d flag m).2 /\ grown L L' k d /\
    store_bumps k d flag m (D s) (D s')) s.
Proof.
  intros (HO & HK & ch & HI) Hk Hd Hfit. unfold db_store.
  destruct (negb (flag =? DB_INSERT) && _ && _) eqn:Hflag.
  { unfold spec_store, store_bumps. rewrite Hflag. eapply werrno_step; [exact HO|].
    intros s' HO' Hl HD. apply wp_ret. exists L. split; [done|].
    split; [by eapply Rep_intro; [|eapply held_quiet|]|]. split; [by left; split|]. by rewrite HD. }
  assert (Hsl : strlen d = Z.of_nat (length d)) by (unfold strlen; by rewrite cstr_id by apply Hd).
  assert (Hkl : strlen k = Z.of_nat (length k)) by (unfold strlen; by rewrite cstr_id by apply Hk).
  cbv zeta. rewrite Hsl, Hkl. step_ok.
  { destruct Hd as [_ ?]. apply orb_false_iff. unfold DATLEN_MIN, DATLEN_MAX.
    split; [apply Z.ltb_ge | rewrite Z.gtb_ltb; apply Z.ltb_ge]; lia. }
  eapply wp_seq; [eapply find_and_lock_spec; eauto; apply Hk|cbv beta].
  intros rc s1 (HO1 & HK1 & Hc1 & Hn1 & Hr).
  eapply (wp_seq _ _ (stored s L m k d flag)).
  2:{ intros rc2 s2 (L' & ch' & HO2 & HK2 & Hc2 & Hrc & HI2 & Hg & Hb).
      eapply unlock_step; [exact HO2|exact HK2|done|]. intros s3 HO3 HK3 HD3. apply wp_ret.
      exists L'. split; [done|]. split; [by eapply Rep_intro|]. split; [done|]. by rewrite HD3. }
  destruct Hr as [[-> Hm]|[-> (pre & o & post & r & Hf)]].
  - by eapply store_new_spec.
  - by eapply store_old_spec.
Qed.
End spec.
