(* ===== verification/DbScan.v ===== *)
(** * Sequential access: [db_rewind] and [db_nextrec]

    A scan that starts with [db_rewind] and calls [db_nextrec] until it
    reports the end returns every key of the database with its data, each
    once, except keys made of blanks only, which look like deleted records. *)

From S2P Require Import Prelude CLib Posix Db DbLayout DbOps DbChain DbSpec.
Import Lockreg.

(** ** The client's loop *)

(** [db_rewind(db); while ((ptr = db_nextrec(db, key)) != NULL) ...]: what the
    calls return, in order. *)
Fixpoint scan (fuel : nat) : M st (list (bytes * bytes)) :=
  match fuel with
  | O => stop Hang
  | S f =>
      let* r := db_nextrec in
      match r with
      | None => ret []
      | Some kd => let* l := scan f in ret (kd :: l)
      end
  end.

(** ** What a scan sees of a layout *)

Definition is_blank (k : bytes) : Prop := Forall (fun c => c = SPACE) k.

#[export] Instance is_blank_dec k : Decision (is_blank k).
Proof. unfold is_blank. apply _. Defined.

Definition visible (l : list irec) : list (bytes * bytes) :=
  (fun r => (r_key r, r_data r)) <$> filter (fun r => ~ is_blank (r_key r)) l.

(** The first record of a list that is not deleted, and what follows it. *)
Fixpoint next_visible (l : list irec) : option (list irec * irec * list irec) :=
  match l with
  | [] => None
  | r :: l' => if decide (is_blank (r_key r))
               then (fun x => (r :: x.1.1, x.1.2, x.2)) <$> next_visible l'
               else Some ([], r, l')
  end.

Lemma blank_key_spec k t : nonul k -> blank_key (k ++ 0 :: t) = bool_decide (is_blank k).
Proof.
  induction 1 as [|c k Hc _ IH]; cbn [app blank_key]; [done|].
  unfold NUL. destruct (Z.eqb_spec c 0); [done|]. destruct (Z.eqb_spec c SPACE) as [->|Hne].
  - rewrite IH. apply bool_decide_ext. unfold is_blank. rewrite Forall_cons_iff. tauto.
  - symmetry. apply bool_decide_eq_false. unfold is_blank. rewrite Forall_cons_iff. tauto.
Qed.

Lemma next_visible_spec l :
  match next_visible l with
  | None => visible l = []
  | Some (pre, r, l') => l = pre ++ r :: l' /\ visible l = (r_key r, r_data r) :: visible l'
  end.
Proof.
  unfold visible. induction l as [|r l IH]; [done|]. cbn [next_visible]. rewrite filter_cons.
  destruct (decide (is_blank (r_key r))) as [Hb|Hb].
  - rewrite decide_False by tauto. destruct (next_visible l) as [[[pre r'] l']|]; cbn; [|done].
    destruct IH as [-> ->]. done.
  - by rewrite decide_True by done.
Qed.

Section scan.
Context (ifd dfd : Z) (pi pd : bytes).
Context (Hfd : ifd <> dfd).
Abbreviation Open := (Open ifd dfd pi pd).
Abbreviation held := (held pi).
Abbreviation ipos := (pos_of ifd).
Abbreviation Rep := (Rep ifd dfd pi pd).

(** The index file's offset is after the records [pre]. *)
Definition at_rec (s : st) (pre : list irec) : Prop := ipos s = rec_base + total rsz pre.

Lemma look_mid L pre r post :
  l_recs L = pre ++ r :: post -> look L (rec_base + total rsz pre) = Some r.
Proof. intros E. unfold look. rewrite E. apply (seek_mid rsz rsz_pos). Qed.

Lemma next_loop_spec L rest : forall fuel s pre,
  Open s L [] -> l_recs L = pre ++ rest -> at_rec s pre -> (length rest < fuel)%nat ->
  wp (_db_next_loop fuel) (fun b s' => Open s' L [] /\ w_locks (W s') = w_locks (W s) /\
    frame (D s) (D s') /\
    match next_visible rest with
    | None => b = false /\ at_rec s' (l_recs L)
    | Some (mid, r, _) => b = true /\ holds (D s') (rec_base + total rsz (pre ++ mid)) r /\
                          at_rec s' (pre ++ mid ++ [r])
    end) s.
Proof.
  induction rest as [|r rest IH]; intros fuel s pre HO HL Hat Hf;
    (destruct fuel as [|fuel]; [cbn in Hf; lia|]); cbn [_db_next_loop next_visible].
  - rewrite app_nil_r in HL. eapply wp_seq.
    { apply (readidx_eof ifd dfd pi pd Hfd _ _ _ HO). by rewrite Hat, <- HL. }
    cbv beta. intros v s1 (-> & HO1 & Hfr & Hl & Hp). apply wp_ret. repeat (split; [done|]). exact Hp.
  - pose proof (look_mid _ _ _ _ HL) as Hlk. eapply wp_seq.
    { eapply (readidx_spec ifd dfd pi pd Hfd _ _ _ 0 _ _ HO Hlk). by right. }
    cbv beta. intros v s1 (-> & HO1 & Hh & Hfr & _ & Hl & Hp).
    destruct (look_ok _ _ _ (o_lay _ _ _ _ _ _ _ HO) Hlk) as [[Hp0 _] [Hkn _] _ _ _].
    destruct (Z.ltb_spec (r_ptr r) 0); [lia|]. step_handle.
    destruct (h_idxbuf _ _ _ Hh) as [t Ht]. rewrite Ht, blank_key_spec by done.
    destruct (decide (is_blank (r_key r))) as [Hb|Hb].
    + rewrite bool_decide_true by done. eapply wp_mono; [apply (IH fuel s1 (pre ++ [r]))|].
      * done.
      * by rewrite <- app_assoc.
      * unfold at_rec. rewrite total_snoc. lia.
      * cbn in Hf. lia.
      * intros b s2 (HO2 & Hl2 & Hfr2 & Hres). split; [done|]. split; [congruence|].
        split; [by eapply frame_trans|]. destruct (next_visible rest) as [[[mid r'] l']|]; [|done].
        cbn in *. by rewrite <- !app_assoc in Hres.
    + rewrite bool_decide_false by done. apply wp_ret. repeat (split; [done|]).
      cbn. rewrite app_nil_r. split; [done|]. unfold at_rec. rewrite total_snoc. lia.
Qed.

(** Unlocking the free list does not move the file offset. *)
Lemma unlock_scan s L pre (B : Type) (f : M st B) msg Q :
  Open s L [] -> held s (lock1 0 F_RDLCK unlocked) -> at_rec s pre ->
  (forall s', Open s' L [] -> held s' unlocked -> at_rec s' pre -> D s' = D s -> wp f Q s') ->
  wp (let* r := sys (un_lock ifd FREE_OFF SEEK_SET 1) in dump_if (r <? 0) msg ;;; f) Q s.
Proof.
  intros HO HK Hat Hf. pose proof HO as [Hflt Ho _ _ [ip Hip] _ _ _ _ _ _ _ _]. step.
  eapply wp_sys; [by eapply lock_run|]. step_ok; [done|]. apply Hf; [by apply Open_locks| |done|done].
  intros p b. cbn. unfold set_range, in_range, FREE_OFF. rewrite HK. unfold lock1, unlocked.
  destruct (decide (p = pi)); [|done].
  destruct (Z.leb_spec 0 b), (Z.eqb_spec b 0), (Z.ltb_spec b (0 + 1)); cbn; try done; lia.
Qed.

(** [db_nextrec]: the next record that is not deleted, and its data. *)
Lemma nextrec_spec L m s pre rest :
  Rep s L m -> l_recs L = pre ++ rest -> at_rec s pre ->
  wp db_nextrec (fun res s' => Rep s' L m /\
    match next_visible rest with
    | None => res = None /\ at_rec s' (l_recs L) /\ counters (D s') = counters (D s)
    | Some (mid, r, _) => res = Some (r_key r, r_data r) /\ at_rec s' (pre ++ mid ++ [r]) /\
                          bumped 4 (D s) (D s')
    end) s.
Proof.
  intros (HO & HK & ch & HI) HL Hat. pose proof (o_lay _ _ _ _ _ _ _ HO) as Hok.
  unfold db_nextrec. step_handle. rewrite (o_ifd _ _ _ _ _ _ _ HO).
  pose proof HO as [Hf Ho _ _ [ip Hip] _ _ _ _ _ _ _ _]. step.
  eapply wp_sys; [by eapply lock_run|]. step_ok; [done|].
  set (s1 := St _ _). assert (HO1 : Open s1 L []) by (by apply Open_locks).
  assert (Hat1 : at_rec s1 pre) by done.
  assert (HK1 : held s1 (lock1 0 F_RDLCK unlocked)).
  { intros p b. cbn. unfold set_range, lock1, in_range, FREE_OFF. rewrite HK.
    destruct (decide (p = pi)); [|done].
    destruct (Z.leb_spec 0 b), (Z.eqb_spec b 0), (Z.ltb_spec b (0 + 1)); cbn; try done; lia. }
  eapply wp_seq; [by eapply idx_fuel_spec|cbv beta]. intros fuel ? [-> ->].
  eapply wp_seq; [apply (next_loop_spec L rest _ s1 pre HO1 HL Hat1)|cbv beta].
  { pose proof (recs_le L Hok) as Hle. rewrite HL, length_app in Hle. lia. }
  intros b s2 (HO2 & Hl2 & Hfr2 & Hres). apply wp_bind.
  pose proof (next_visible_spec rest) as Hnv.
  destruct (next_visible rest) as [[[mid r] l']|].
  - destruct Hres as (-> & Hh & Hat2). destruct Hnv as [-> _]. rewrite app_assoc in HL.
    pose proof (look_mid _ _ _ _ HL) as Hlk. step_handle. destruct (h_idxbuf _ _ _ Hh) as [t Ht].
    destruct (look_ok _ _ _ Hok Hlk) as [_ [Hkn _] _ _ _].
    eapply wp_seq; [apply (readdat_spec ifd dfd pi pd Hfd _ _ _ _ _ HO2 Hlk); apply Hh|cbv beta].
    intros v s3 (-> & HO3 & Hfr3 & Hl3 & _ & Hp3). step_upd. apply wp_ret.
    eapply (unlock_scan _ L (pre ++ mid ++ [r])).
    { by eapply Open_db; [exact HO3|..]; try done; apply HO3. }
    { eapply held_quiet; [|exact HK1]. etransitivity; [exact Hl3 | exact Hl2]. }
    { etransitivity; [exact Hp3 | exact Hat2]. }
    intros s4 HO4 HK4 Hat4 HD4. apply wp_ret. split; [by eapply Rep_intro|].
    rewrite Ht, cstr_end by done. split; [done|]. split; [done|]. rewrite HD4.
    eapply bump_counters; [exact (f_counters _ _ (frame_trans _ _ _ Hfr2 Hfr3)) | done].
  - destruct Hres as [-> Hat2]. apply wp_ret. eapply (unlock_scan _ L (l_recs L)); [done| |done|].
    { by eapply held_quiet. }
    intros s4 HO4 HK4 Hat4 HD4. apply wp_ret. split; [by eapply Rep_intro|]. split; [done|].
    split; [done|]. rewrite HD4. apply Hfr2.
Qed.

Lemma scan_spec L m rest : forall fuel s pre,
  Rep s L m -> l_recs L = pre ++ rest -> at_rec s pre -> (length rest < fuel)%nat ->
  wp (scan fuel) (fun l s' => l = visible rest /\ Rep s' L m) s.
Proof.
  induction rest as [rest IH] using (induction_ltof1 _ (@length irec)). unfold ltof in IH.
  intros [|fuel] s pre HR HL Hat Hf; [lia|]. cbn [scan].
  eapply wp_seq; [by eapply nextrec_spec|cbv beta]. intros res s1 [HR1 Hres].
  pose proof (next_visible_spec rest) as Hnv.
  destruct (next_visible rest) as [[[mid r] rest']|].
  - destruct Hres as (-> & Hat1 & _). destruct Hnv as [-> ->]. rewrite length_app in Hf. cbn in Hf.
    eapply wp_seq; [eapply (IH rest' _ fuel s1 (pre ++ mid ++ [r]) HR1); [|done|lia]|].
    { by rewrite HL, <- !app_assoc. }
    intros l s2 [-> HR2]. by apply wp_ret.
  - destruct Hres as (-> & _ & _). rewrite Hnv. by apply wp_ret.
  Unshelve. rewrite length_app. cbn. lia.
Qed.

Lemma rewind_spec s L m :
  Rep s L m -> wp db_rewind (fun _ s' => Rep s' L m /\ at_rec s' [] /\
                             counters (D s') = counters (D s)) s.
Proof.
  intros (HO & HK & ch & HI). unfold db_rewind. step_handle.
  rewrite (o_ifd _ _ _ _ _ _ _ HO), (o_nhash _ _ _ _ _ _ _ HO).
  eapply wp_seq; [by apply (seek_i ifd dfd pi pd Hfd _ _ _ _ HO)|cbv beta].
  intros off s1 (-> & HO1 & [HD1 Hl1] & Hp1). step_upd. apply wp_dump_if; [done|].
  split; [|split; [exact Hp1 | by cbn; rewrite HD1]].
  eapply Rep_intro; [|by eapply held_quiet|exact HI].
  by eapply Open_db; [exact HO1|..]; try done; apply HO1.
Qed.
End scan.

(** ** The records seen are the map *)

Section visible.
Context (L : lay) (m : gmap bytes bytes) (ch : Z -> list Z).
Hypothesis HI : Repr L m ch 0.

(** A record that does not look deleted is on the chain of its key. *)
Lemma visible_live o r :
  look L o = Some r -> ~ is_blank (r_key r) -> o ∈ ch (hash (r_key r)).
Proof.
  intros Hr Hb. pose proof (look_info _ _ _ Hr) as Hinf.
  pose proof (look_bounds _ _ _ Hr) as [Hbd _]. unfold rec_base in Hbd.
  destruct (v_all _ _ _ _ (v_links _ _ _ _ _ HI) o) as [->|(i & Hi & Ho)]; [by rewrite Hinf|lia|].
  destruct (decide (i = -1)) as [->|Hne].
  - destruct (v_blank _ _ _ _ _ HI o Ho) as (n & a & d & E). rewrite Hinf in E. injection E as E _ _.
    exfalso. apply Hb. rewrite E. by apply Forall_replicate.
  - assert (0 <= i < 137) by (unfold chain_no in Hi; lia).
    by rewrite (v_hash _ _ _ _ _ HI i o _ _ _ ltac:(done) Ho Hinf).
Qed.

Lemma visible_map k d :
  (k, d) ∈ visible (l_recs L) <-> m !! k = Some d /\ ~ is_blank k.
Proof.
  unfold visible. rewrite list_elem_of_fmap. split.
  - intros (r & E & Hr). injection E as -> ->. apply list_elem_of_filter in Hr as [Hb Hr].
    apply list_elem_of_split in Hr as (pre & post & E). pose proof (look_mid _ _ _ _ E) as Hlk.
    split; [|done]. eapply Inv_lookup; [exact HI|by apply visible_live|by apply look_info].
  - intros [Hm Hb]. apply HI in Hm as (o & a & Ho & Hinf). apply info_look in Hinf as [p Hlk].
    exists (Irec p k a d). split; [done|]. apply list_elem_of_filter. split; [done|].
    apply seek_split in Hlk as (pre & post & -> & _). set_solver.
Qed.

Lemma visible_nodup rest pre : l_recs L = pre ++ rest -> NoDup (visible rest).*1.
Proof.
  revert pre. induction rest as [|r rest IH]; intros pre E; [constructor|].
  unfold visible. rewrite filter_cons. destruct (decide _) as [Hb|_].
  - cbn. constructor; [|apply (IH (pre ++ [r])); by rewrite <- app_assoc].
    intros ([k d] & Ek & Hin)%list_elem_of_fmap. cbn in Ek. subst k.
    apply list_elem_of_fmap in Hin as (r' & E' & Hr'). injection E' as Ek Ed.
    apply list_elem_of_filter in Hr' as [Hb' Hr'].
    apply list_elem_of_split in Hr' as (mid & post & ->).
    pose proof (look_mid _ _ _ _ E) as Hlk.
    assert (E2 : l_recs L = (pre ++ r :: mid) ++ r' :: post) by (by rewrite E, <- app_assoc).
    pose proof (look_mid _ _ _ _ E2) as Hlk'.
    pose proof (look_info _ _ _ Hlk) as H1. pose proof (look_info _ _ _ Hlk') as H2.
    apply visible_live in Hlk, Hlk'; [|done..]. rewrite <- Ek in Hlk', H2.
    pose proof (v_uniq _ _ _ _ _ HI _ _ _ _ _ _ _ _ (hash_range _) Hlk Hlk' H1 H2) as Ho.
    rewrite total_app in Ho. cbn in Ho. pose proof (rsz_pos r).
    pose proof (total_nonneg rsz rsz_pos mid). lia.
  - apply (IH (pre ++ [r])). by rewrite <- app_assoc.
Qed.

Lemma visible_perm :
  visible (l_recs L) ≡ₚ map_to_list (filter (fun kd => ~ is_blank kd.1) m).
Proof.
  apply NoDup_Permutation.
  - eapply NoDup_fmap_1, (visible_nodup _ []). done.
  - apply NoDup_map_to_list.
  - intros [k d]. rewrite visible_map, elem_of_map_to_list, map_lookup_filter_Some. done.
Qed.
End visible.
