(* ===== verification/DbOpen.v ===== *)
(** * Opening and closing a database, and sequences of operations

    [db_open] with [O_CREAT | O_TRUNC] makes an empty database; closing one and
    opening it again preserves its contents; and a sequence of operations
    returns what the map specification returns.  Also the example program
    src/apue.3e/db/t4.c. *)

From S2P Require Import Prelude CLib Posix Db DbLayout DbOps DbChain DbSpec DbScan.
Import Lockreg.

(** ** The empty database *)

Definition empty_lay : lay := Lay 0 (replicate 137 0) [].

Lemma init_table_bytes : init_table = idx_bytes empty_lay.
Proof. by vm_compute. Qed.

Lemma empty_lay_ok : lay_ok empty_lay.
Proof.
  split; cbn; try done. by apply (Forall_replicate ptr_ok 137).
Qed.

Lemma empty_repr : Repr empty_lay ∅ (fun _ => []) 0.
Proof.
  split; [split|..]; try (intros; set_solver); try (intros; by constructor).
  - intros i Hi. cbn [chain]. destruct (decide (i = -1)) as [->|]; [done|].
    unfold chain_no in Hi. unfold slot. rewrite get_ptr_head by lia. cbn [l_heads empty_lay].
    apply lookup_replicate_2. lia.
  - intros o [x Hx]. done.
  - intros o [x Hx]. done.
Qed.

(** ** [db_open] *)

(** A world in which no call fails and no other process has a lock. *)
Record calm (w : world) : Prop := {
  c_faults : w_faults w = [];
  c_other : w_other w = [];
  c_locks : forall p b, w_locks w p b = F_UNLCK }.

Definition idx_path (path : bytes) : bytes := cstr path ++ str ".idx".
Definition dat_path (path : bytes) : bytes := cstr path ++ str ".dat".

Lemma paths_ne path : idx_path path <> dat_path path.
Proof. unfold idx_path, dat_path. intros E. by apply app_inv_head in E. Qed.

(** [Represents path n s m]: the handle of [s] is open on the database [path],
    which holds the map [m] and has had at most [n] records appended. *)
Definition Represents (path : bytes) (n : Z) (s : st) (m : gmap bytes bytes) : Prop :=
  exists ifd dfd L, ifd <> dfd /\ Rep ifd dfd (idx_path path) (dat_path path) s L m /\
    end_off L <= 967 + 1035 * n /\ dat_end L <= 1024 * n.

Lemma alloc_run fill w path :
  w_faults w = [] -> exists d, _db_alloc fill (strlen path) w = (Ret d, w) /\
    length (idxbuf d) = 1026%nat /\ length (datbuf d) = 1026%nat /\ counters d = replicate 10 0.
Proof.
  intros Hf. unfold _db_alloc, malloc, bind, ret.
  repeat (rewrite attempt_ok by done; cbv beta iota).
  eexists. split; [done|]. cbn [idxbuf datbuf]. by rewrite !length_map, !length_seq.
Qed.

(** The two calls of [open], with the contents they leave in the files. *)
Lemma open_both s path oflag ci cd (B : Type) (f : M st B) Q :
  calm (W s) -> length (idxbuf (D s)) = 1026%nat -> length (datbuf (D s)) = 1026%nat ->
  (forall p c, (p, c) = (idx_path path, ci) \/ (p, c) = (dat_path path, cd) ->
   match w_fs (W s) !! p with
   | None => has_flag oflag O_CREAT = true /\ c = []
   | Some c0 => has_flag oflag O_CREAT && has_flag oflag O_EXCL = false /\
                c = if has_flag oflag O_TRUNC then [] else c0
   end) ->
  (forall s' ifd dfd, calm (W s') -> ifd <> dfd -> 0 <= ifd -> 0 <= dfd ->
     w_fds (W s') !! ifd = Some (idx_path path, 0) -> w_fds (W s') !! dfd = Some (dat_path path, 0) ->
     w_fs (W s') !! idx_path path = Some ci -> w_fs (W s') !! dat_path path = Some cd ->
     D s' = set_datfd dfd (set_name (dat_path path) (set_idxfd ifd (set_name (idx_path path)
              (set_hashoff HASH_OFF (set_nhash NHASH_DEF (D s)))))) -> wp f Q s') ->
  wp (upd (set_nhash NHASH_DEF) ;;; upd (set_hashoff HASH_OFF) ;;;
      upd (set_name (cstr path ++ str ".idx")) ;;;
      let* db := handle in
      let* ifd := sys (open (name db) oflag) in
      upd (set_idxfd ifd) ;;; upd (set_name (cstr path ++ str ".dat")) ;;;
      let* db := handle in
      let* dfd := sys (open (name db) oflag) in
      upd (set_datfd dfd) ;;; f) Q s.
Proof.
  intros [Hf Ho Hl] Hib Hdb Hc Hcont. pose proof (paths_ne path) as Hne.
  step_upd. step_upd. step_upd. step_handle. cbn [name set_name]. fold (idx_path path).
  step. eapply wp_sys; [apply (open_run _ _ _ ci); [done|by apply Hc; left]|]. cbn [D W].
  step_upd. step_upd. step_handle. cbn [name set_name D W]. fold (dat_path path).
  step. eapply wp_sys.
  { apply (open_run _ _ _ cd); [done|]. cbn. rewrite lookup_insert_ne by done. apply Hc. by right. }
  step_upd. cbn [D W w_fds set_fds set_fs].
  pose proof (new_fd (w_fds (W s))) as [H1 H1']. set (f1 := lowest_free _ _ (w_fds (W s))) in *.
  set (fds1 := <[f1 := (idx_path path, 0)]> (w_fds (W s))).
  pose proof (new_fd fds1) as [H2 H2']. set (f2 := lowest_free (S (size fds1)) 0 fds1) in *.
  assert (H12 : f1 <> f2) by (intros E; rewrite <- E in H2'; unfold fds1 in H2'; by rewrite lookup_insert_eq in H2').
  apply Hcont with f1 f2; cbn; try done.
  - unfold fds1. by rewrite lookup_insert_ne, lookup_insert_eq.
  - by rewrite lookup_insert_eq.
  - by rewrite lookup_insert_ne, lookup_insert_eq.
  - by rewrite lookup_insert_eq.
Qed.

Lemma locks_held pi s : (forall p b, w_locks (W s) p b = F_UNLCK) -> held pi s unlocked.
Proof. intros Hl p b. rewrite Hl. by destruct (decide _). Qed.

(** [O_RDWR | O_CREAT | O_TRUNC]. *)
Definition create_flags : Z := Z.lor O_RDWR (Z.lor O_CREAT O_TRUNC).

Lemma open_body_create s path :
  calm (W s) -> length (idxbuf (D s)) = 1026%nat -> length (datbuf (D s)) = 1026%nat ->
  wp (db_open_body path create_flags) (fun b s' => b = true /\ Represents path 0 s' ∅ /\
     counters (D s') = counters (D s)) s.
Proof.
  intros Hw Hib Hdb. unfold db_open_body. pose proof (paths_ne path) as Hne.
  eapply (open_both s path create_flags [] []); [done..| |].
  { intros p c Hpc. destruct (w_fs (W s) !! p); (split; [done|]); by destruct Hpc as [[= _ ->]|[= _ ->]]. }
  intros s1 ifd dfd [Hf Ho Hl] Hfd Hi0 Hd0 Hip Hdp Hic Hdc HD. step_handle. rewrite HD. cbn [idxfd datfd set_datfd set_name set_idxfd].
  destruct (Z.ltb_spec ifd 0); [lia|]. destruct (Z.ltb_spec dfd 0); [lia|]. cbn [orb].
  change (Z.land create_flags _ =? _) with true. cbv iota. step.
  step. eapply wp_sys; [by eapply lock_run|]. step_ok; [done|].
  step. eapply wp_sys; [unfold fstat; rewrite attempt_ok by done; cbn; by rewrite Hip|].
  cbn [fst snd]. unfold file_size. cbn [w_fs set_locks W]. rewrite Hic. cbn [default from_option id length Z.of_nat Z.eqb Z.ltb Z.compare].
  step. apply wp_ret. step. step. eapply wp_sys; [by eapply (write_end_run _ _ _ _ [])|].
  apply wp_dump_if; [by rewrite Z.eqb_refl|].
  step. eapply wp_sys; [eapply lock_run; cbn; [done|done|by rewrite lookup_insert_eq]|]. apply wp_dump_if; [done|].
  set (s2 := St _ _).
  assert (HR : Rep ifd dfd (idx_path path) (dat_path path) s2 empty_lay ∅).
  { eapply Rep_intro; [|apply locks_held|exact empty_repr].
    - split; cbn; try done; try by rewrite HD.
      + rewrite lookup_insert_eq. eauto.
      + rewrite lookup_insert_ne by done. eauto.
      + rewrite lookup_insert_eq. cbn [app]. by rewrite init_table_bytes.
      + by rewrite lookup_insert_ne.
      + apply empty_lay_ok.
    - intros p b. cbn. unfold set_range. destruct (decide (p = idx_path path)), (in_range 0 0 b); try done; apply Hl. }
  eapply wp_seq; [by eapply rewind_spec|cbv beta]. intros _ s3 (HR3 & _ & Hc3). apply wp_ret.
  split; [done|]. split; [|rewrite Hc3; cbn; by rewrite HD].
  exists ifd, dfd, empty_lay. done.
Qed.

Lemma open_body_existing s path n L m ch :
  calm (W s) -> length (idxbuf (D s)) = 1026%nat -> length (datbuf (D s)) = 1026%nat ->
  w_fs (W s) !! idx_path path = Some (idx_bytes L) ->
  w_fs (W s) !! dat_path path = Some (dat_bytes L) -> lay_ok L -> Repr L m ch 0 ->
  end_off L <= 967 + 1035 * n -> dat_end L <= 1024 * n ->
  wp (db_open_body path O_RDWR) (fun b s' => b = true /\ Represents path n s' m) s.
Proof.
  intros Hw Hib Hdb Hix Hdx HL HI He Hde. unfold db_open_body.
  eapply (open_both s path O_RDWR (idx_bytes L) (dat_bytes L)); [done..| |].
  { intros p c [[= -> ->]|[= -> ->]]; [by rewrite Hix | by rewrite Hdx]. }
  intros s1 ifd dfd [Hf Ho Hl] Hfd Hi0 Hd0 Hip Hdp Hic Hdc HD. step_handle.
  assert (HR : Rep ifd dfd (idx_path path) (dat_path path) s1 L m).
  { eapply Rep_intro; [|by apply locks_held|exact HI].
    split; try done; try (by eauto); try (by rewrite HD). by rewrite app_nil_r. }
  rewrite HD. cbn [idxfd datfd set_datfd set_name set_idxfd].
  destruct (Z.ltb_spec ifd 0); [lia|]. destruct (Z.ltb_spec dfd 0); [lia|]. cbn [orb].
  change (Z.land O_RDWR _ =? _) with false. cbv iota. step. apply wp_ret.
  eapply wp_seq; [by eapply rewind_spec|cbv beta]. intros _ s3 (HR3 & _ & Hc3). apply wp_ret.
  split; [done|]. by exists ifd, dfd, L.
Qed.

Lemma wp_with_db {A} d (m : M st A) Q w :
  wp m (fun a s' => Q (a, D s') (W s')) (St w d) -> wp (with_db d m) Q w.
Proof. unfold wp, with_db. by destruct (m (St w d)) as [[a|e] s']. Qed.

(** The files of a database that is not open. *)
Definition on_disk (path : bytes) (n : Z) (w : world) (m : gmap bytes bytes) : Prop :=
  exists L ch, w_fs w !! idx_path path = Some (idx_bytes L) /\
    w_fs w !! dat_path path = Some (dat_bytes L) /\ lay_ok L /\ Repr L m ch 0 /\
    end_off L <= 967 + 1035 * n /\ dat_end L <= 1024 * n.

Lemma open_create_spec fill path w :
  calm w -> wp (db_open fill path create_flags) (fun od w' => exists d, od = Some d /\
    Represents path 0 (St w' d) ∅ /\ counters d = replicate 10 0) w.
Proof.
  intros Hw. destruct (alloc_run fill w path) as (d & Hr & Hib & Hdb & Hc); [apply Hw|].
  unfold db_open. step. eapply wp_of_run; [exact Hr|]. step. apply wp_with_db.
  eapply wp_mono; [by apply open_body_create|]. cbv beta. intros b s' (-> & HR & Hc').
  apply wp_ret. exists (D s'). split; [done|]. split; [by destruct s'|]. by rewrite Hc'.
Qed.

Lemma open_existing_spec fill path n m w :
  calm w -> on_disk path n w m ->
  wp (db_open fill path O_RDWR) (fun od w' => exists d, od = Some d /\ Represents path n (St w' d) m) w.
Proof.
  intros Hw (L & ch & Hi & Hd & HL & HI & He & Hde).
  destruct (alloc_run fill w path) as (d & Hr & Hib & Hdb & Hc); [apply Hw|].
  unfold db_open. step. eapply wp_of_run; [exact Hr|]. step. apply wp_with_db.
  eapply wp_mono; [by eapply (open_body_existing (St w d))|]. cbv beta. intros b s' (-> & HR).
  apply wp_ret. exists (D s'). split; [done|]. by destruct s'.
Qed.

(** Closing one descriptor. *)
Lemma close_step s fd (B : Type) (f : M st B) Q p o :
  calm (W s) -> w_fds (W s) !! fd = Some (p, o) ->
  (forall s', calm (W s') -> w_fs (W s') = w_fs (W s) -> w_fds (W s') = delete fd (w_fds (W s)) ->
     D s' = D s -> wp f Q s') ->
  wp (sys (close fd) ;;; f) Q s.
Proof.
  intros [Hf Ho Hl] Hp Hc. step. eapply wp_sys; [unfold close; rewrite attempt_ok, Hp by done; done|].
  apply Hc; try done. split; cbn; try done. intros q b. by destruct (decide _).
Qed.

Lemma Rep_calm ifd dfd pi pd s L m : Rep ifd dfd pi pd s L m -> calm (W s).
Proof.
  intros (HO & HK & _). destruct HO. split; try done. intros p b. rewrite HK. by destruct (decide _).
Qed.

Lemma close_spec path n s m :
  Represents path n s m ->
  wp db_close (fun _ s' => calm (W s') /\ on_disk path n (W s') m /\
    forall fd, 0 <= fd -> fd = idxfd (D s) \/ fd = datfd (D s) -> w_fds (W s') !! fd = None) s.
Proof.
  intros (ifd & dfd & L & Hne & HR & He & Hde). pose proof (Rep_calm _ _ _ _ _ _ _ HR) as Hw.
  destruct HR as (HO & HK & ch & HI). pose proof HO as [_ _ Hi Hd [ip Hip] [dp Hdp] Hix Hdx _ _ _ _ HL].
  rewrite app_nil_r in Hdx.
  unfold db_close, _db_free. step_handle. rewrite Hi, Hd. apply wp_bind.
  apply (wp_mono _ (fun _ s' => calm (W s') /\ w_fs (W s') = w_fs (W s) /\
    w_fds (W s') !! dfd = Some (dat_path path, dp) /\ (0 <= ifd -> w_fds (W s') !! ifd = None))).
  { rewrite Z.geb_leb. destruct (Z.leb_spec 0 ifd) as [Hge|Hlt].
    - eapply close_step; [done|exact Hip|]. intros s' Hw' Hfs Hfds _. apply wp_ret.
      rewrite Hfs, Hfds, lookup_delete_eq, lookup_delete_ne by done. done.
    - apply wp_ret. repeat (split; [done|]). lia. }
  intros _ s1 (Hw1 & Hfs1 & Hdp1 & Hi1). rewrite Z.geb_leb.
  assert (Hdisk : forall w, w_fs w = w_fs (W s) -> on_disk path n w m).
  { intros w E. exists L, ch. by rewrite E. }
  destruct (Z.leb_spec 0 dfd) as [Hge|Hlt].
  - eapply close_step; [done|exact Hdp1|]. intros s2 Hw2 Hfs2 Hfds2 _. apply wp_ret.
    split; [done|]. split; [apply Hdisk; congruence|]. intros fd Hfd0 [->| ->]; rewrite Hfds2.
    + rewrite lookup_delete_ne by done. by apply Hi1.
    + apply lookup_delete_eq.
  - apply wp_ret. split; [done|]. split; [by apply Hdisk|]. intros fd Hfd0 [->| ->]; [by apply Hi1|lia].
Qed.

(** ** Sequences of operations *)

Inductive dbop :=
| Fetch (k : bytes)
| Delete (k : bytes)
| Store (k d : bytes) (flag : Z).

Inductive result :=
| Data (d : option bytes)
| Code (rc : Z).

Definition run_op (o : dbop) : M st result :=
  match o with
  | Fetch k => let* d := db_fetch k in ret (Data d)
  | Delete k => let* rc := db_delete k in ret (Code rc)
  | Store k d flag => let* rc := db_store k d flag in ret (Code rc)
  end.

Fixpoint run_ops (l : list dbop) : M st (list result) :=
  match l with
  | [] => ret []
  | o :: l' => let* r := run_op o in let* rs := run_ops l' in ret (r :: rs)
  end.

(** The same on the specification. *)
Definition spec_op (o : dbop) (m : gmap bytes bytes) : result * gmap bytes bytes :=
  match o with
  | Fetch k => (Data (m !! k), m)
  | Delete k => let '(rc, m') := spec_delete k m in (Code rc, m')
  | Store k d flag => let '(rc, m') := spec_store k d flag m in (Code rc, m')
  end.

Fixpoint spec_ops (l : list dbop) (m : gmap bytes bytes) : list result * gmap bytes bytes :=
  match l with
  | [] => ([], m)
  | o :: l' => let '(r, m1) := spec_op o m in
               let '(rs, m2) := spec_ops l' m1 in (r :: rs, m2)
  end.

(** Keys the index format can hold, of at most 1000 characters, and data of
    at most 1023. *)
Definition op_ok (o : dbop) : Prop :=
  match o with
  | Fetch k | Delete k => nonul k
  | Store k d _ => key_ok k /\ (1 <= length k <= 1000)%nat /\ data_ok d
  end.

Lemma fits_bound L n k d :
  key_ok k -> (1 <= length k <= 1000)%nat -> data_ok d ->
  end_off L <= 967 + 1035 * n -> dat_end L <= 1024 * n -> n <= 9660 -> fits L k d.
Proof.
  intros _ Hk [_ Hd] He Hde Hn. unfold fits, PTR_MAX. split; [lia|].
  pose proof (total_nonneg r_len r_len_pos (l_recs L)) as Hnn. fold (dat_end L) in Hnn.
  unfold p_len, payload, IDXLEN_MIN, IDXLEN_MAX. cbn [r_key r_off r_len r_data].
  pose proof (dec_length (dat_end L) 7 ltac:(lia) ltac:(lia)).
  pose proof (dec_length (Z.of_nat (length d) + 1) 4 ltac:(lia) ltac:(lia)).
  autorewrite with lens. unfold r_len. cbn [r_data length]. lia.
Qed.

Lemma grown_bound L L' k d n :
  fits L k d -> data_ok d -> grown L L' k d ->
  end_off L <= 967 + 1035 * n -> dat_end L <= 1024 * n ->
  end_off L' <= 967 + 1035 * (n + 1) /\ dat_end L' <= 1024 * (n + 1).
Proof.
  intros [_ Hp] [_ Hd] [[-> ->]|[-> ->]] He Hde; [lia|].
  unfold rsz, IDXLEN_MAX, r_len in *. cbn [r_data]. lia.
Qed.

Lemma run_op_spec path n s m o :
  Represents path n s m -> op_ok o -> n <= 9660 ->
  wp (run_op o) (fun r s' => r = (spec_op o m).1 /\ Represents path (n + 1) s' (spec_op o m).2) s.
Proof.
  intros (ifd & dfd & L & Hne & HR & He & Hde) Ho Hn. pose proof (paths_ne path) as Hp.
  destruct o as [k|k|k d flag]; cbn [run_op spec_op op_ok] in *.
  - eapply wp_seq; [by eapply fetch_spec|cbv beta]. intros r s1 (-> & HR1 & _). apply wp_ret.
    split; [done|]. exists ifd, dfd, L. split; [done|]. split; [done|]. lia.
  - eapply wp_seq; [by eapply delete_spec|cbv beta]. intros r s1 (L1 & -> & HR1 & [Hs1 Hs2] & _). apply wp_ret.
    destruct (spec_delete k m) as [rc m']. split; [done|].
    exists ifd, dfd, L1. split; [done|]. split; [done|]. rewrite Hs1, Hs2. lia.
  - destruct Ho as (Hk & Hkl & Hd). pose proof (fits_bound L n k d Hk Hkl Hd He Hde Hn) as Hfit.
    eapply wp_seq; [by eapply store_spec|cbv beta]. intros r s1 (L1 & -> & HR1 & Hg & _). apply wp_ret.
    destruct (spec_store k d flag m) as [rc m']. split; [done|].
    exists ifd, dfd, L1. split; [done|]. split; [done|]. by eapply grown_bound.
Qed.

Lemma run_ops_spec path l : forall n s m,
  Represents path n s m -> Forall op_ok l -> n + Z.of_nat (length l) <= 9661 ->
  wp (run_ops l) (fun rs s' => rs = (spec_ops l m).1 /\
    Represents path (n + Z.of_nat (length l)) s' (spec_ops l m).2) s.
Proof.
  induction l as [|o l IH]; intros n s m HR Hl Hn; cbn [run_ops spec_ops].
  - apply wp_ret. split; [done|]. by rewrite Z.add_0_r.
  - apply Forall_cons_1 in Hl as [Ho Hl]. cbn [length] in *.
    eapply wp_seq; [eapply run_op_spec; eauto; lia|cbv beta]. intros r s1 (-> & HR1).
    destruct (spec_op o m) as [r1 m1]. cbn [fst snd] in *.
    eapply wp_seq; [eapply IH; eauto; lia|cbv beta]. intros rs s2 (-> & HR2). apply wp_ret.
    destruct (spec_ops l m1) as [rs2 m2]. cbn [fst snd] in *. split; [done|].
    replace (n + Z.of_nat (S (length l))) with (n + 1 + Z.of_nat (length l)) by lia. done.
Qed.

(** ** src/apue.3e/db/t4.c *)

Definition t4_main (fill : nat -> Z) : M world unit :=
  let* db := db_open fill (str "db4") create_flags in
  match db with
  | None => err_sys "db_open error"
  | Some db =>
      let* ' (rc, db) := with_db db (db_store (str "Alpha") (str "data1") DB_INSERT) in
      (if negb (rc =? 0) then err_quit "db_store error for alpha" else ret tt) ;;;
      let* ' (rc, db) := with_db db (db_store (str "beta") (str "Data for beta") DB_INSERT) in
      (if negb (rc =? 0) then err_quit "db_store error for beta" else ret tt) ;;;
      let* ' (rc, db) := with_db db (db_store (str "gamma") (str "record3") DB_INSERT) in
      (if negb (rc =? 0) then err_quit "db_store error for gamma" else ret tt) ;;;
      with_db db db_close ;;;
      stop (Exit 0)
  end.
