(* ===== verification/DbFault.v ===== *)
(** * Failing system calls in db.c

    The library checks the result of every system call it makes on the files
    and calls [err_dump] when one fails.  [strict] says so of a function: if it
    returns, then none of the calls it made had failed.  The rules below follow
    the structure of the code, so the proofs are by going through it. *)

From S2P Require Import Prelude CLib Posix Db DbOpen.
Import Lockreg.

(** The failure stream was used up to a point, and no entry used was a failure. *)
Definition consumed (w w' : world) : Prop :=
  exists used, w_faults w = used ++ w_faults w' /\ Forall (fun f => f = None) used.

Lemma consumed_refl w w' : w_faults w' = w_faults w -> consumed w w'.
Proof. intros E. exists []. by rewrite E. Qed.

Lemma consumed_trans w w' w'' : consumed w w' -> consumed w' w'' -> consumed w w''.
Proof.
  intros (u & E & Hu) (v & E' & Hv). exists (u ++ v). split; [by rewrite E, E', app_assoc|].
  by apply Forall_app.
Qed.

(** A system call whose failures [bad] recognises. *)
Definition checked {A} (c : M world A) (bad : A -> bool) : Prop :=
  forall w, match c w with
            | (Ret a, w') => consumed w w' \/ bad a = true
            | (Stop _, _) => True
            end.

Definition strict {A} (m : M st A) : Prop :=
  forall s, 0 <= datlen (D s) ->
    match m s with
    | (Ret _, s') => 0 <= datlen (D s') /\ consumed (W s) (W s')
    | (Stop _, _) => True
    end.

Definition never {A} (m : M st A) : Prop :=
  forall s, match m s with (Ret _, _) => False | (Stop _, _) => True end.

Create HintDb strict.

Section rules.
Context {A B : Type}.

Lemma strict_ret (a : A) : strict (ret a).
Proof. intros s Hs. split; [done|]. by apply consumed_refl. Qed.

Lemma strict_stop e : strict (stop (A := A) e).
Proof. by intros s Hs. Qed.

Lemma strict_bind (m : M st A) (f : A -> M st B) :
  strict m -> (forall a, strict (f a)) -> strict (bind m f).
Proof.
  intros Hm Hf s Hs. unfold bind. specialize (Hm s Hs). destruct (m s) as [[a|e] s1]; [|done].
  destruct Hm as [Hs1 Hc]. specialize (Hf a s1 Hs1). destruct (f a s1) as [[b|e] s2]; [|done].
  destruct Hf as [Hs2 Hc2]. split; [done|]. by eapply consumed_trans.
Qed.

Lemma strict_handle (f : DB -> M st B) :
  (forall d, 0 <= datlen d -> strict (f d)) -> strict (bind handle f).
Proof. intros Hf s Hs. exact (Hf (D s) Hs s Hs). Qed.

Lemma strict_call (c : M world A) bad (f : A -> M st B) :
  checked c bad -> (forall a, bad a = true -> never (f a)) -> (forall a, strict (f a)) ->
  strict (bind (sys c) f).
Proof.
  intros Hc Hn Hf s Hs. unfold bind, sys, zoom. specialize (Hc (W s)).
  destruct (c (W s)) as [[a|e] w1]; [|done]. set (s1 := St w1 (D s)).
  destruct Hc as [Hc|Hbad].
  - specialize (Hf a s1 Hs). destruct (f a s1) as [[b|e] s2]; [|done].
    destruct Hf as [? ?]. split; [done|]. by eapply consumed_trans.
  - specialize (Hn a Hbad s1). by destruct (f a s1) as [[b|e] s2].
Qed.

Lemma never_bind_l (m : M st A) (f : A -> M st B) : never m -> never (bind m f).
Proof. intros Hm s. unfold bind. specialize (Hm s). by destruct (m s) as [[a|e] s1]. Qed.

Lemma never_bind_r (m : M st A) (f : A -> M st B) : (forall a, never (f a)) -> never (bind m f).
Proof. intros Hf s. unfold bind. destruct (m s) as [[a|e] s1]; [apply Hf | done]. Qed.
End rules.

Lemma strict_upd f : (forall d, 0 <= datlen d -> 0 <= datlen (f d)) -> strict (upd f).
Proof. intros Hf s Hs. split; [by apply Hf | by apply consumed_refl]. Qed.

Lemma strict_dump_if b msg : strict (dump_if b msg).
Proof. unfold dump_if. destruct b; [apply strict_stop | apply strict_ret]. Qed.

Lemma never_dump b msg : b = true -> never (dump_if b msg).
Proof. by intros ->. Qed.

Lemma strict_poke_idx off d : strict (poke_idx off d).
Proof.
  apply strict_handle. intros h Hh. destruct (_ <=? _)%nat; [|apply strict_stop]. by apply strict_upd.
Qed.

Lemma strict_poke_dat off d : strict (poke_dat off d).
Proof.
  apply strict_handle. intros h Hh. destruct (_ <=? _)%nat; [|apply strict_stop]. by apply strict_upd.
Qed.

Lemma strict_fuel : strict idx_fuel.
Proof. intros s Hs. split; [done|]. by apply consumed_refl. Qed.

Lemma strict_werrno e : strict (set_werrno e).
Proof. intros s Hs. split; [done|]. by apply consumed_refl. Qed.

(** ** The system calls *)

Lemma checked_attempt {A} (x : A) (m : M world A) bad :
  bad x = true ->
  (forall w, match m w with (Ret _, w') => w_faults w' = w_faults w | (Stop _, _) => True end) ->
  checked (attempt x m) bad.
Proof.
  intros Hx Hm w. unfold attempt. destruct (w_faults w) as [|[e|] fs] eqn:E.
  - specialize (Hm w). destruct (m w) as [[a|e] w']; [|done]. left. by apply consumed_refl.
  - by right.
  - specialize (Hm (set_faults fs w)). destruct (m _) as [[a|e] w']; [|done]. left.
    exists [None]. rewrite E, Hm. split; [done|]. by constructor.
Qed.

Lemma checked_lseek fd off wh : checked (lseek fd off wh) (fun r => r =? -1).
Proof. apply checked_attempt; [done|]. intros w. unfold fail_with. by repeat case_match; simplify_eq. Qed.

Lemma checked_read fd n : checked (read fd n) (fun nd => nd.1 =? -1).
Proof. apply checked_attempt; [done|]. intros w. unfold fail_with. by repeat case_match; simplify_eq. Qed.

Lemma checked_write fd d : checked (write fd d) (fun r => r =? -1).
Proof. apply checked_attempt; [done|]. intros w. unfold fail_with. by repeat case_match; simplify_eq. Qed.

Lemma checked_lock fd cmd t off wh len : checked (lock_reg fd cmd t off wh len) (fun r => r <? 0).
Proof. apply checked_attempt; [done|]. intros w. unfold fail_with. by repeat case_match; simplify_eq. Qed.

#[export] Hint Resolve checked_lseek checked_read checked_write checked_lock
  strict_dump_if strict_poke_idx strict_poke_dat strict_fuel strict_werrno
  strict_ret strict_stop never_dump : strict.
#[export] Hint Unfold readv writev readw_lock writew_lock un_lock : strict.

(** ** Going through a function *)

Lemma to_u64_nonneg z : 0 <= to_u64 z.
Proof. apply Z.mod_pos_bound. done. Qed.

(** The check that follows a failed call: [bad] implies its condition. *)
Ltac bad_result :=
  match goal with
  | H : ?b = true |- ?b = true => exact H
  | H : (?x =? -1) = true |- _ =>
      apply Z.eqb_eq in H; apply negb_true_iff, Z.eqb_neq; rewrite H;
      unfold strlen, PTR_SZ, IDXLEN_SZ;
      try match goal with |- context [to_u64 ?z] => pose proof (to_u64_nonneg z) end; lia
  end.

Ltac never_returns :=
  intros; cbv beta in *;
  repeat first
    [ apply never_bind_l, never_dump; bad_result
    | apply never_dump; bad_result
    | apply never_bind_r; intros ].

Ltac strictly :=
  repeat (cbv zeta; autounfold with strict; lazymatch goal with
  | |- strict (bind handle _) => apply strict_handle; intros ? ?
  | |- strict (bind (sys _) _) =>
      eapply strict_call; [eauto with strict; fail | never_returns | intros ?]
  | |- strict (bind (upd _) _) => apply strict_bind; [apply strict_upd; cbn; try done | intros _]
  | |- strict (bind (if ?b then _ else _) _) => apply strict_bind; [|intros ?]
  | |- strict (bind (bind _ _) _) => apply strict_bind; [|intros ?]
  | |- strict (bind _ _) => apply strict_bind; [solve [eauto with strict] | intros ?]
  | |- strict (if ?b then _ else _) => destruct b eqn:?
  | |- strict (match ?x with _ => _ end) => destruct x eqn:?
  | |- strict _ => solve [eauto with strict]
  end).

Lemma strict_readptr o : strict (_db_readptr o).
Proof. unfold _db_readptr. strictly. Qed.

Lemma strict_writeptr o v : strict (_db_writeptr o v).
Proof. unfold _db_writeptr. strictly. Qed.

Lemma strict_splitidx : strict _db_splitidx.
Proof.
  unfold _db_splitidx. strictly. intros. apply to_u64_nonneg.
Qed.

#[export] Hint Resolve strict_readptr strict_writeptr strict_splitidx : strict.

Lemma strict_readidx o : strict (_db_readidx o).
Proof.
  unfold _db_readidx. strictly; cbv beta in *.
  match goal with H : (_ =? -1) = true |- _ => apply Z.eqb_eq in H; rewrite H end. done.
Qed.

Lemma strict_readdat : strict _db_readdat.
Proof. unfold _db_readdat. strictly. Qed.

#[export] Hint Resolve strict_readidx strict_readdat : strict.

Lemma strict_find_loop fuel k : forall o, strict (_db_find_loop fuel k o).
Proof. induction fuel as [|f IH]; intros o; cbn [_db_find_loop]; strictly. Qed.

Lemma strict_findfree_loop fuel n dn : forall sv o, strict (_db_findfree_loop fuel n dn sv o).
Proof. induction fuel as [|f IH]; intros sv o; cbn [_db_findfree_loop]; strictly. Qed.

Lemma strict_next_loop fuel : strict (_db_next_loop fuel).
Proof. induction fuel as [|f IH]; cbn [_db_next_loop]; strictly. Qed.

#[export] Hint Resolve strict_find_loop strict_findfree_loop strict_next_loop : strict.

Lemma strict_find_and_lock k b : strict (_db_find_and_lock k b).
Proof. unfold _db_find_and_lock. strictly. Qed.

Lemma strict_unlock_chain msg : strict (unlock_chain msg).
Proof. unfold unlock_chain. strictly. Qed.

Lemma strict_writedat d o wh : strict (_db_writedat d o wh).
Proof. unfold _db_writedat. strictly. intros. unfold strlen. lia. Qed.

Lemma strict_writeidx k o wh p : strict (_db_writeidx k o wh p).
Proof. unfold _db_writeidx. strictly. Qed.

#[export] Hint Resolve strict_find_and_lock strict_unlock_chain strict_writedat strict_writeidx : strict.

Lemma strict_dodelete : strict _db_dodelete.
Proof. unfold _db_dodelete. strictly. Qed.

Lemma strict_findfree n dn : strict (_db_findfree n dn).
Proof. unfold _db_findfree. strictly. Qed.

#[export] Hint Resolve strict_dodelete strict_findfree : strict.

Lemma strict_fetch k : strict (db_fetch k).
Proof. unfold db_fetch. strictly. Qed.

Lemma strict_delete k : strict (db_delete k).
Proof. unfold db_delete. strictly. Qed.

Lemma strict_store k d flag : strict (db_store k d flag).
Proof. unfold db_store, db_store_new, db_store_old. strictly. Qed.

Lemma strict_rewind : strict db_rewind.
Proof. unfold db_rewind. strictly. Qed.

Lemma strict_nextrec : strict db_nextrec.
Proof. unfold db_nextrec. strictly. Qed.
