(* ===== verification/DbThms.v ===== *)
(** * What the database library guarantees

    The theorems about src/apue.3e/db: each operation refines the finite-map
    specification, sessions and scans, persistence across close and open,
    failing system calls, and the format's limits. *)

From S2P Require Import Prelude CLib Posix Db DbLayout DbOps DbChain DbSpec DbScan DbOpen DbFault.
Import Lockreg.

(** ** A concrete database for the examples *)

Definition world0 : world := World ∅ ∅ (fun _ _ => F_UNLCK) [] [] 0.
Definition fill0 : nat -> Z := fun _ => 0.

Lemma world0_calm : calm world0.
Proof. done. Qed.

Lemma example_db l :
  Forall op_ok l -> Z.of_nat (length l) <= 9660 ->
  exists s, Represents (str "t") (Z.of_nat (length l)) s (spec_ops l ∅).2.
Proof.
  intros Hl Hn. destruct (wp_run _ _ _ (open_create_spec fill0 (str "t") world0 world0_calm))
    as (od & w1 & _ & d & _ & HR & _).
  destruct (wp_run _ _ _ (run_ops_spec (str "t") l 0 _ _ HR Hl ltac:(lia))) as (rs & s2 & _ & _ & HR2).
  by exists s2.
Qed.

(** ** Sessions *)

(** Create a database, run operations on it and close it. *)
Definition session (fill : nat -> Z) (path : bytes) (l : list dbop) : M world (option (list result)) :=
  let* od := db_open fill path create_flags in
  match od with
  | None => ret None
  | Some d => let* ' (rs, d) := with_db d (run_ops l) in
              with_db d db_close ;;; ret (Some rs)
  end.


(** The session of the next lemma, with a key deleted and its space reused. *)
Definition example_ops : list dbop :=
  [Store (str "Alpha") (str "data1") DB_INSERT; Store (str "beta") (str "Data for beta") DB_INSERT;
   Delete (str "Alpha"); Store (str "Gamma") (str "data3") DB_STORE; Fetch (str "Gamma");
   Store (str "beta") (str "x") DB_REPLACE; Fetch (str "Alpha")].

Lemma example_ops_ok : Forall op_ok example_ops.
Proof. repeat constructor; cbn; lia || done. Qed.


(** ** The operations *)



(** C4.  [db_fetch] returns the data of the key, a null pointer when the key is
    not there, and leaves files, map and locks as they were. *)
Theorem db_fetch_refines (ifd dfd : Z) (pi pd : bytes) s L m k :
  ifd <> dfd -> pi <> pd -> Rep ifd dfd pi pd s L m -> nonul k ->
  wp (db_fetch k) (fun r s' => r = m !! k /\ Rep ifd dfd pi pd s' L m /\
    bumped (match m !! k with Some _ => 2 | None => 3 end) (D s) (D s')) s.
Proof. intros. by apply fetch_spec. Qed.

(** A database with the keys Alpha and beta, for the examples below. *)
Definition example_two : list dbop :=
  [Store (str "Alpha") (str "data1") DB_INSERT; Store (str "beta") (str "Data for beta") DB_INSERT].

Definition example_map : gmap bytes bytes := (spec_ops example_two ∅).2.

Lemma example_rep : exists ifd dfd s L, ifd <> dfd /\
  Rep ifd dfd (idx_path (str "t")) (dat_path (str "t")) s L example_map /\
  end_off L <= 967 + 1035 * 2 /\ dat_end L <= 1024 * 2.
Proof.
  destruct (example_db example_two) as (s & ifd & dfd & L & H); [repeat constructor; cbn; lia || done|done|].
  by exists ifd, dfd, s, L.
Qed.



Lemma db_fetch_refines_witness :
  exists s, wp (db_fetch (str "beta")) (fun r _ => r = Some (str "Data for beta")) s.
Proof.
  destruct example_rep as (ifd & dfd & s & L & Hne & HR & He & Hd). exists s.
  eapply wp_mono; [apply (db_fetch_refines ifd dfd _ _ s L example_map (str "beta") Hne (paths_ne _) HR);
    repeat constructor; done|].
  intros r s' (-> & _). by vm_compute.
Defined.

(** ** Scans *)

(** C18.  [db_rewind] followed by [db_nextrec] until it returns a null pointer
    terminates and visits every key with its data exactly once, in some order,
    except that keys made only of blanks are skipped (they look deleted); the
    database is unchanged. *)
Theorem db_scan_complete (ifd dfd : Z) (pi pd : bytes) s L m :
  ifd <> dfd -> Rep ifd dfd pi pd s L m ->
  wp (db_rewind ;;; scan (S (length (l_recs L)))) (fun l s' =>
    l ≡ₚ map_to_list (filter (fun kd => ~ is_blank kd.1) m) /\ Rep ifd dfd pi pd s' L m) s.
Proof.
  intros Hne HR. pose proof HR as (_ & _ & ch & HI).
  eapply wp_seq; [by apply rewind_spec|cbv beta]. intros _ s1 (HR1 & Hat & _).
  eapply wp_mono; [by eapply (scan_spec _ _ _ _ Hne L m (l_recs L) _ s1 [] HR1); [|exact Hat|]; [|lia]|].
  cbv beta. intros l s2 [-> HR2]. split; [by apply (visible_perm L m ch HI) | done].
Qed.

Lemma db_scan_complete_witness :
  exists s L, wp (db_rewind ;;; scan (S (length (l_recs L)))) (fun l _ =>
    l ≡ₚ [(str "Alpha", str "data1"); (str "beta", str "Data for beta")]) s.
Proof.
  destruct example_rep as (ifd & dfd & s & L & Hne & HR & _). exists s, L.
  eapply wp_mono; [exact (db_scan_complete ifd dfd _ _ s L example_map Hne HR)|].
  cbv beta. intros l s' [-> _].
  assert (E : map_to_list (filter (fun kd : bytes * bytes => ~ is_blank kd.1) example_map) ≡ₚ
              [(str "Alpha", str "data1"); (str "beta", str "Data for beta")]); [|exact E].
  vm_compute. apply perm_swap || reflexivity.
Defined.

(** ** Persistence *)

(** C19.  Closing a database and opening it again in the same or in another
    process gives a handle on the same map; closing drops the process's locks. *)
Theorem db_close_open (fill : nat -> Z) path n s m :
  Represents path n s m ->
  wp (let* ' (_, _) := with_db (D s) db_close in db_open fill path O_RDWR)
    (fun od w' => exists d, od = Some d /\ Represents path n (St w' d) m) (W s).
Proof.
  intros HR. step. apply wp_with_db. eapply wp_mono; [destruct s; exact (close_spec _ _ _ _ HR)|].
  cbv beta. intros [] s1 (Hw1 & Hd & _). by apply open_existing_spec.
Qed.

Lemma db_close_open_witness :
  exists s, wp (let* ' (_, _) := with_db (D s) db_close in db_open fill0 (str "t") O_RDWR)
    (fun od w' => exists d, od = Some d /\ Represents (str "t") 2 (St w' d) example_map) (W s).
Proof.
  destruct (example_db example_two) as (s & HR); [repeat constructor; cbn; lia || done|done|].
  exists s. exact (db_close_open fill0 (str "t") 2 s example_map HR).
Defined.

(** src/apue.3e/db/t4.c exits with status 0 and leaves a database with its
    three records. *)
Theorem t4_main_stores (fill : nat -> Z) w :
  calm w -> exists w', t4_main fill w = (Stop (Exit 0), w') /\ calm w' /\
    on_disk (str "db4") 3 w' {[ str "Alpha" := str "data1"; str "beta" := str "Data for beta";
                                str "gamma" := str "record3" ]}.
Proof.
  intros Hw. set (l := [Store (str "Alpha") (str "data1") DB_INSERT;
    Store (str "beta") (str "Data for beta") DB_INSERT; Store (str "gamma") (str "record3") DB_INSERT]).
  destruct (wp_run _ _ _ (open_create_spec fill (str "db4") w Hw)) as (od & w1 & Ho & d & -> & HR & _).
  assert (Hl : Forall op_ok l) by (repeat constructor; cbn; lia || done).
  destruct (wp_run _ _ _ (run_ops_spec (str "db4") l 0 _ _ HR Hl ltac:(done))) as (rs & s2 & Hr & -> & HR2).
  destruct (wp_run _ _ _ (close_spec _ _ _ _ HR2)) as ([] & s3 & Hc & Hw3 & Hd & _).
  assert (E : (spec_ops l ∅).1 = [Code 0; Code 0; Code 0]) by (by vm_compute). rewrite E in Hr.
  exists (W s3). split; [|split; [done|]; exact Hd].
  unfold t4_main, bind at 1. rewrite Ho. unfold l, run_ops, run_op, bind in Hr.
  unfold with_db, bind, ret in *.
  destruct (db_store (str "Alpha") _ _ _) as [[r1|] [w2 d2]]; [|done].
  destruct (db_store (str "beta") _ _ _) as [[r2|] [w3 d3]] eqn:E2; [|done].
  destruct (db_store (str "gamma") _ _ _) as [[r3|] [w4 d4]] eqn:E3; [|done].
  injection Hr as -> -> -> <-. cbn [D W negb Z.eqb].
  rewrite E2. cbn [D W negb Z.eqb]. rewrite E3. cbn [D W negb Z.eqb]. by rewrite Hc.
Qed.

Lemma t4_main_stores_witness :
  exists w', t4_main fill0 world0 = (Stop (Exit 0), w') /\ calm w' /\   on_disk (str "db4") 3 w' {[ str "Alpha" := str "data1"; str "beta" := str "Data for beta";
                                str "gamma" := str "record3" ]}.
Proof. exact (t4_main_stores fill0 world0 world0_calm). Defined.

(** ** Failing system calls and locks of other processes *)

(** C36.  No failure is swallowed: if an operation returns to its caller, then
    none of the [lseek], [read], [readv], [write], [writev] and [fcntl] calls it
    made had failed.  (Every failure ends in [err_dump].) *)
Theorem db_failures_abort (o : dbop) s r s' :
  0 <= datlen (D s) -> run_op o s = (Ret r, s') -> consumed (W s) (W s').
Proof.
  intros Hd E. assert (Hs : strict (run_op o)).
  { destruct o; cbn [run_op]; apply strict_bind; auto using strict_ret, strict_fetch, strict_delete, strict_store. }
  specialize (Hs s Hd). rewrite E in Hs. apply Hs.
Qed.

Lemma run_fst {S A} (p : outcome A * S) r : p.1 = r -> p = (r, p.2).
Proof. by destruct p; intros <-. Qed.

(** A database opened in [world0], and the state of a handle with failures to come. *)
Definition opened0 : st :=
  match db_open fill0 (str "t") create_flags world0 with
  | (Ret (Some d), w) => St w d
  | _ => St world0 (mkDB 0 0 [] [] [] 0 0 0 0 0 0 0 0 0 0 0 0 0 0 0 0 0 0 0)
  end.

Definition with_faults (f : list (option Z)) (s : st) : st := St (set_faults f (W s)) (D s).

Lemma db_failures_abort_witness :
  (exists s', run_op (Fetch (str "k")) (with_faults (replicate 4 None ++ [Some EIO]) opened0) = (Ret (Data None), s') /\
     consumed (W (with_faults (replicate 4 None ++ [Some EIO]) opened0)) (W s')) /\
  (exists msg s', run_op (Fetch (str "k")) (with_faults (replicate 3 None ++ [Some EIO]) opened0) =
     (Stop (Err_dump msg), s')).
Proof.
  split.
  - set (s := with_faults _ opened0). exists (run_op (Fetch (str "k")) s).2.
    assert (E : run_op (Fetch (str "k")) s = (Ret (Data None), (run_op (Fetch (str "k")) s).2))
      by (apply run_fst; vm_compute; reflexivity).
    split; [exact E|]. refine (db_failures_abort (Fetch (str "k")) s _ _ _ E). vm_compute. discriminate.
  - eexists _, _. apply run_fst. vm_compute. reflexivity.
Defined.

(** [_db_find_and_lock] waits while another process has the chain locked. *)
Lemma find_and_lock_blocks s k (b : bool) p pos f :
  w_faults (W s) = [] -> w_fds (W s) !! idxfd (D s) = Some (p, pos) ->
  blocking p (if b then F_WRLCK else F_RDLCK) (_db_hash (D s) k * PTR_SZ + hashoff (D s)) 1 (w_other (W s)) = Some f ->
  exists s', _db_find_and_lock k b s = (Stop Hang, s') /\ W s' = W s.
Proof.
  intros Hf Hp Hb. unfold _db_find_and_lock, bind at 1. cbn [handle].
  unfold bind, upd, modify, sys, zoom, writew_lock, readw_lock, lock_reg, fcntl_lock.
  destruct b; cbn [W D set_ptroff set_chainoff idxfd]; rewrite attempt_ok, Hp by done;
    cbn [seek_base]; rewrite Z.add_0_l, Hb; by eexists.
Qed.

(** C37.  Mutual exclusion: while another process holds a lock on the chain of a
    key that conflicts with the one an operation needs (any lock for a delete or
    a store, a write lock for a fetch), the operation waits, and has touched
    neither file. *)
Theorem db_waits_for_chain (o : dbop) s p pos f :
  let need := match o with Fetch _ => F_RDLCK | _ => F_WRLCK end in
  let k := match o with Fetch k | Delete k => k | Store k _ _ => k end in
  match o with Store _ d flag => data_ok d /\ (flag = DB_INSERT \/ flag = DB_REPLACE \/ flag = DB_STORE)
             | _ => True end ->
  w_faults (W s) = [] -> w_fds (W s) !! idxfd (D s) = Some (p, pos) ->
  blocking p need (_db_hash (D s) k * PTR_SZ + hashoff (D s)) 1 (w_other (W s)) = Some f ->
  exists s', run_op o s = (Stop Hang, s') /\ W s' = W s.
Proof.
  destruct o as [k|k|k d flag]; cbv zeta; cbn [run_op]; intros Ho Hf Hp Hb.
  - destruct (find_and_lock_blocks s k false p pos f Hf Hp Hb) as (s' & E & HW).
    exists s'. split; [|done]. unfold db_fetch, bind. by rewrite E.
  - destruct (find_and_lock_blocks s k true p pos f Hf Hp Hb) as (s' & E & HW).
    exists s'. split; [|done]. unfold db_delete, bind. by rewrite E.
  - destruct (find_and_lock_blocks s k true p pos f Hf Hp Hb) as (s' & E & HW).
    exists s'. split; [|done]. destruct Ho as [[Hn Hd] Hfl]. unfold db_store, strlen. rewrite (cstr_id d Hn).
    replace (_ && _) with false by (by destruct Hfl as [->|[->| ->]]).
    replace (_ || _) with false; [unfold bind, dump_if, ret; by rewrite E|].
    symmetry. apply orb_false_iff. unfold DATLEN_MIN, DATLEN_MAX.
    split; [apply Z.ltb_ge | rewrite Z.gtb_ltb; apply Z.ltb_ge]; lia.
Qed.

Definition other_reader : flock := Flock 42 (idx_path (str "t")) F_RDLCK 0 0.

Lemma db_waits_for_chain_witness :
  let s := St (World (w_fs (W opened0)) (w_fds (W opened0)) (w_locks (W opened0)) [other_reader] [] 0) (D opened0) in
  (exists s', run_op (Delete (str "k")) s = (Stop Hang, s') /\ W s' = W s) /\
  (exists s', run_op (Fetch (str "k")) s = (Ret (Data None), s')).
Proof.
  intros s. split; [|eexists; apply run_fst; vm_compute; reflexivity].
  apply (db_waits_for_chain (Delete (str "k")) s (idx_path (str "t")) 967 other_reader I eq_refl);
    vm_compute; reflexivity.
Defined.

(** ** Limits of the format *)

(** A key that contains the separator ':' is accepted by [db_store], which
    returns 0, but the record cannot be read back: the next operation on its
    chain aborts the process in [_db_readidx]. *)
Theorem colon_key_aborts :
  exists s1 s2, db_store (str "a:b") (str "v") DB_INSERT opened0 = (Ret 0, s1) /\
    db_fetch (str "a:b") s1 = (Stop (Err_dump "_db_readidx: too many separators"), s2).
Proof.
  assert (E1 : (db_store (str "a:b") (str "v") DB_INSERT opened0).1 = Ret 0) by (vm_compute; reflexivity).
  assert (E2 : (db_fetch (str "a:b") (db_store (str "a:b") (str "v") DB_INSERT opened0).2).1 =
    Stop (Err_dump "_db_readidx: too many separators")) by (vm_compute; reflexivity).
  apply run_fst in E1, E2. exact (ex_intro _ _ (ex_intro _ _ (conj E1 E2))).
Qed.

