(* ===== verification/Stream.v ===== *)
(** * Reading and writing a descriptor that fragments its data

    A connected descriptor (a socket, a pipe or a terminal) hands data over in
    pieces of its own choosing: what the next reads return is a list of chunks,
    errors and time-outs, and a write may accept only part of the buffer.
    [readn] and [writen] of src/apue.3e/lib/readn.c and writen.c, and [tread]
    and [treadn] of src/apue.3e/printer/util.c, put the pieces together. *)

From S2P Require Import Prelude CLib Posix.

Definition ETIME : Z := 62.

(** What the next [read] finds, and what the next [write] does. *)
Inductive rd :=
| Chunk (d : bytes)
| RErr (e : Z)
| Tmo.

Inductive wr :=
| Accept (k : nat)
| WErr (e : Z).

Record sock := Sock { s_in : list rd; s_out : bytes; s_wr : list wr; s_errno : Z }.

Definition set_in x s := Sock x (s_out s) (s_wr s) (s_errno s).
Definition set_serrno x s := Sock (s_in s) (s_out s) (s_wr s) x.

(** [read]: the count and the bytes.  A time-out is no concern of [read]: it
    waits on. *)
Fixpoint read_in (l : list rd) (n : nat) : (Z * bytes) * list rd * option Z :=
  match l with
  | [] => ((0, []), [], None)
  | Tmo :: l' => read_in l' n
  | RErr e :: l' => ((-1, []), l', Some e)
  | Chunk d :: l' =>
      ((Z.of_nat (length (take n d)), take n d),
       if (length d <=? n)%nat then l' else Chunk (drop n d) :: l', None)
  end.

Definition sread (n : nat) : M sock (Z * bytes) := fun s =>
  let '(r, l, e) := read_in (s_in s) n in
  (Ret r, set_in l (match e with Some e => set_serrno e s | None => s end)).

(** [write]: the count; when nothing limits it, everything is accepted. *)
Definition swrite (d : bytes) : M sock Z := fun s =>
  match s_wr s with
  | [] => (Ret (Z.of_nat (length d)), Sock (s_in s) (s_out s ++ d) [] (s_errno s))
  | Accept k :: l => (Ret (Z.of_nat (length (take k d))), Sock (s_in s) (s_out s ++ take k d) l (s_errno s))
  | WErr e :: l => (Ret (-1), Sock (s_in s) (s_out s) l e)
  end.

(** [select] for reading with a time-out: 0 when the time is up. *)
Definition select_in : M sock Z := fun s =>
  match s_in s with
  | Tmo :: l => (Ret 0, set_in l s)
  | _ => (Ret 1, s)
  end.

(** ** The operations *)

(** The loop [readn] and [treadn] share: [n] bytes wanted, [nleft] of them
    missing, [got] in the buffer, [rd1] the call that reads a piece. *)
Fixpoint gather (rd1 : nat -> M sock (Z * bytes)) (fuel n nleft : nat) (got : bytes)
    : M sock (Z * bytes) :=
  match fuel with
  | O => stop Hang
  | S f =>
      if (nleft =? 0)%nat then ret (Z.of_nat (n - nleft), got) else
      let* nd := rd1 nleft in
      if nd.1 <? 0 then
        if (nleft =? n)%nat then ret (-1, got) else ret (Z.of_nat (n - nleft), got)
      else if nd.1 =? 0 then ret (Z.of_nat (n - nleft), got)
      else gather rd1 f n (nleft - Z.to_nat nd.1) (got ++ nd.2)
  end.

Definition readn (n : nat) : M sock (Z * bytes) := gather sread (S n) n n [].

Definition tread (n : nat) : M sock (Z * bytes) :=
  let* nfds := select_in in
  if nfds <=? 0 then
    (if nfds =? 0 then modify (set_serrno ETIME) else ret tt) ;;; ret (-1, [])
  else sread n.

Definition treadn (n : nat) : M sock (Z * bytes) := gather tread (S n) n n [].

(** [wr1] is the call that writes a piece. *)
Fixpoint writen_loop {S} (wr1 : bytes -> M S Z) (fuel n : nat) (d : bytes) : M S Z :=
  match fuel with
  | O => stop Hang
  | S f =>
      if (length d =? 0)%nat then ret (Z.of_nat (n - length d)) else
      let* nwritten := wr1 d in
      if nwritten <? 0 then
        if (length d =? n)%nat then ret (-1) else ret (Z.of_nat (n - length d))
      else if nwritten =? 0 then ret (Z.of_nat (n - length d))
      else writen_loop wr1 f n (drop (Z.to_nat nwritten) d)
  end.

Definition writen (d : bytes) : M sock Z := writen_loop swrite (S (length d)) (length d) d.

(** ** What can be read *)

(** The bytes before the end of file, an error, or (when [timed]) a time-out;
    and whether they end in an error. *)
Fixpoint readable (timed : bool) (l : list rd) : bytes :=
  match l with
  | [] => []
  | Tmo :: l' => if timed then [] else readable timed l'
  | RErr _ :: _ => []
  | Chunk [] :: _ => []
  | Chunk d :: l' => d ++ readable timed l'
  end.

Fixpoint fails (timed : bool) (l : list rd) : bool :=
  match l with
  | [] => false
  | Tmo :: l' => if timed then true else fails timed l'
  | RErr _ :: _ => true
  | Chunk [] :: _ => false
  | Chunk _ :: l' => fails timed l'
  end.

(** What a call that reads a piece promises: when nothing is readable it
    returns 0 or -1, otherwise it returns some of what is readable. *)
Class Reader (rd1 : nat -> M sock (Z * bytes)) (timed : bool) : Prop :=
  reader_law : forall s n, (0 < n)%nat ->
    wp (rd1 n) (fun nd s' => s_out s' = s_out s /\ s_wr s' = s_wr s /\
      if decide (readable timed (s_in s) = []) then
        nd = (if fails timed (s_in s) then -1 else 0, [])
      else nd.1 = Z.of_nat (length nd.2) /\ (0 < length nd.2 <= n)%nat /\
           readable timed (s_in s) = nd.2 ++ readable timed (s_in s') /\
           fails timed (s_in s') = fails timed (s_in s)) s.

Lemma read_in_spec timed l n : (0 < n)%nat -> (timed = true -> head l <> Some Tmo) ->
  match read_in l n with
  | (nd, l', _) =>
      if decide (readable timed l = []) then nd = (if fails timed l then -1 else 0, [])
      else nd.1 = Z.of_nat (length nd.2) /\ (0 < length nd.2 <= n)%nat /\
           readable timed l = nd.2 ++ readable timed l' /\ fails timed l' = fails timed l
  end.
Proof.
  intros Hn. induction l as [|[[|c d]|e|] l IH]; intros Ht; cbn [read_in readable fails];
    try (by rewrite decide_True).
  - rewrite decide_True by done. by rewrite take_nil.
  - rewrite decide_False by done. cbn [fst snd]. split; [done|].
    split; [destruct n; [lia|]; rewrite length_take; cbn; lia|].
    destruct (Nat.leb_spec (length (c :: d)) n).
    + by rewrite take_ge.
    + destruct (drop n (c :: d)) as [|c' d'] eqn:E.
      * apply (f_equal length) in E. rewrite length_drop in E. cbn in *. lia.
      * cbn [readable fails]. split; [|done]. by rewrite <- E, app_assoc, take_drop.
  - destruct timed; [by destruct Ht | by apply IH].
Qed.

#[export] Instance sread_reader : Reader sread false.
Proof.
  intros s n Hn. unfold wp, sread. pose proof (read_in_spec false (s_in s) n Hn ltac:(done)) as H.
  destruct (read_in (s_in s) n) as [[nd l'] e]. destruct e; cbn; auto.
Qed.

#[export] Instance tread_reader : Reader tread true.
Proof.
  intros s n Hn. unfold wp, tread, bind, select_in.
  pose proof (fun H => read_in_spec true (s_in s) n Hn (fun _ => H)) as H. unfold sread.
  destruct (s_in s) as [|[d|e|] l] eqn:E; [specialize (H ltac:(done)).. |];
    [..|cbn; rewrite decide_True by done; auto];
    cbn [Z.leb Z.compare]; cbv beta iota; rewrite E; destruct (read_in _ n) as [[nd l'] [?|]]; cbn; auto.
Qed.

(** ** The operations deliver what the stream holds *)

Section gather.
Context (rd1 : nat -> M sock (Z * bytes)) (timed : bool) `{!Reader rd1 timed}.

Lemma gather_spec n s0 : forall fuel nleft got s,
  (nleft < fuel)%nat -> (nleft <= n)%nat -> length got = (n - nleft)%nat ->
  got ++ readable timed (s_in s) = readable timed (s_in s0) ->
  fails timed (s_in s) = fails timed (s_in s0) -> s_out s = s_out s0 -> s_wr s = s_wr s0 ->
  wp (gather rd1 fuel n nleft got) (fun nd s' => s_out s' = s_out s0 /\ s_wr s' = s_wr s0 /\
    nd = (if decide (readable timed (s_in s0) = [] /\ n <> 0%nat) then
            (if fails timed (s_in s0) then -1 else 0, [])
          else (Z.of_nat (length (take n (readable timed (s_in s0)))), take n (readable timed (s_in s0)))) /\
    ((n <= length (readable timed (s_in s0)))%nat ->
       readable timed (s_in s') = drop n (readable timed (s_in s0)) /\
       fails timed (s_in s') = fails timed (s_in s0))) s.
Proof.
  induction fuel as [|fuel IH]; intros nleft got s Hf Hle Hg Hr Hfl Ho Hw; [lia|]. cbn [gather].
  assert (Hlen : length (readable timed (s_in s0)) = (length got + length (readable timed (s_in s)))%nat)
    by (by rewrite <- Hr, length_app).
  destruct (Nat.eqb_spec nleft 0) as [->|Hnz].
  - apply wp_ret. rewrite Nat.sub_0_r in *. rewrite <- Hr.
    assert (E1 : take n (got ++ readable timed (s_in s)) = got) by (by rewrite <- Hg, take_app_length).
    assert (E2 : drop n (got ++ readable timed (s_in s)) = readable timed (s_in s)) by (by rewrite <- Hg, drop_app_length).
    rewrite E1, E2, Hg. repeat (split; [done|]). split; [|done].
    rewrite decide_False; [done|]. intros [E Hn]. apply Hn. apply app_nil in E as [-> _]. by rewrite <- Hg.
  - eapply wp_seq; [apply (reader_law s nleft); lia|cbv beta]. intros nd s1 (Ho1 & Hw1 & Hcase).
    destruct (decide (readable timed (s_in s) = [])) as [He|He].
    + rewrite He, app_nil_r in Hr. rewrite He in Hlen. cbn in Hlen.
      assert (Ht : take n got = got) by (apply take_ge; lia).
      rewrite <- Hr, Ht. subst nd. cbn [fst snd]. rewrite <- Hfl.
      destruct (decide (got = [] /\ n <> 0%nat)) as [[-> Hn]|Hgn].
      * cbn in Hg. assert (nleft = n) as -> by lia. rewrite Nat.eqb_refl, Nat.sub_diag.
        destruct (fails timed (s_in s)); apply wp_ret; (split; [congruence|]); (split; [congruence|]);
          (split; [done|]); cbn; lia.
      * assert (nleft <> n) as Hne by (intros ->; apply Hgn; destruct got; cbn in *; [split; [done|lia]|lia]).
        rewrite (proj2 (Nat.eqb_neq nleft n) Hne), Hg.
        destruct (fails timed (s_in s)); apply wp_ret; (split; [congruence|]); (split; [congruence|]);
          (split; [done|]); lia.
    + destruct Hcase as (Hc & Hpos & Hcut & Hfl1). rewrite Hc.
      destruct (Z.ltb_spec (Z.of_nat (length nd.2)) 0); [lia|].
      destruct (Z.eqb_spec (Z.of_nat (length nd.2)) 0); [lia|]. rewrite Nat2Z.id.
      apply IH; try lia; try congruence.
      * rewrite length_app. lia.
      * by rewrite <- app_assoc, <- Hcut.
Qed.
End gather.

(** How many bytes of [n] the coming writes accept. *)
Fixpoint accepted (l : list wr) (n : nat) : nat :=
  match l with
  | [] => n
  | WErr _ :: _ => 0
  | Accept k :: l' => if (k =? 0)%nat then 0 else if (n <=? k)%nat then n else k + accepted l' (n - k)
  end.

Definition refuses (l : list wr) : bool := match l with WErr _ :: _ => true | _ => false end.

Lemma writen_loop_spec n : forall fuel d s,
  (length d < fuel)%nat -> (length d <= n)%nat ->
  wp (writen_loop swrite fuel n d) (fun r s' =>
    s_in s' = s_in s /\ s_out s' = s_out s ++ take (accepted (s_wr s) (length d)) d /\
    r = if refuses (s_wr s) && (length d =? n)%nat && negb (n =? 0)%nat then -1
        else Z.of_nat (n - length d + accepted (s_wr s) (length d))) s.
Proof.
  induction fuel as [|fuel IH]; intros d s Hf Hn; [lia|]. cbn [writen_loop].
  destruct (Nat.eqb_spec (length d) 0) as [E|Hd].
  - destruct d; [|done]. apply wp_ret. cbn [length] in *. split; [done|]. split; [by rewrite take_nil, app_nil_r|].
    replace (_ && _) with false by (destruct (refuses (s_wr s)), n; done).
    f_equal. assert (accepted (s_wr s) 0 = 0%nat) as ->; [|lia].
    destruct (s_wr s) as [|[[|k]|e] l]; done.
  - apply wp_bind. unfold wp at 1, swrite. destruct (s_wr s) as [|[k|e] l] eqn:Ew.
    + destruct (Z.ltb_spec (Z.of_nat (length d)) 0); [lia|]. destruct (Z.eqb_spec (Z.of_nat (length d)) 0); [lia|].
      rewrite Nat2Z.id. eapply wp_mono; [apply IH; rewrite length_drop; lia|]. cbn [s_wr s_in s_out refuses accepted andb].
      intros r s' (Hi & Ho & Hr). split; [done|]. rewrite drop_all in *. rewrite take_nil, app_nil_r in Ho.
      split; [by rewrite take_ge|]. rewrite Hr. f_equal. cbn. lia.
    + rewrite length_take. cbn [refuses andb accepted].
      destruct (Z.ltb_spec (Z.of_nat (k `min` length d)) 0); [lia|].
      destruct (Nat.eqb_spec k 0) as [->|Hk].
      { cbn. split; [done|]. split; [done|]. by rewrite Nat.add_0_r. }
      destruct (Z.eqb_spec (Z.of_nat (k `min` length d)) 0); [lia|]. rewrite Nat2Z.id.
      eapply wp_mono; [apply IH; rewrite length_drop; lia|]. cbn [s_wr s_in s_out].
      intros r s' (Hi & Ho & Hr). split; [done|].
      destruct (Nat.leb_spec (length d) k).
      * rewrite Nat.min_r, drop_all in * by done. rewrite take_nil, app_nil_r in Ho.
        assert (Ha : accepted l 0 = 0%nat) by (destruct l as [|[[|]|] ?]; done).
        cbn [length] in Hr. rewrite Ha in Hr.
        split; [by rewrite Ho, !take_ge by lia|]. rewrite Hr. 
        replace (_ && _) with false; [f_equal; lia|]. destruct n; [lia|]. cbn. by rewrite andb_false_r.
      * rewrite Nat.min_l in * by lia. rewrite length_drop in Hr, Ho.
        split; [rewrite Ho, <- app_assoc; f_equal; by rewrite <- take_take_drop|].
        rewrite Hr. replace (_ && _) with false; [f_equal; lia|]. symmetry.
        destruct (Nat.eqb_spec (length d - k) n); [lia|]. by rewrite andb_false_r.
    + cbn [Z.ltb Z.compare refuses andb accepted].
      destruct (Nat.eqb_spec (length d) n) as [E|Hne]; apply wp_ret; cbn [s_in s_out take andb];
        (split; [done|]); (split; [by rewrite app_nil_r|]).
      * by destruct (Nat.eqb_spec n 0); [lia|].
      * by rewrite Nat.add_0_r.
Qed.

Lemma readn_spec n s :
  wp (readn n) (fun nd s' => s_out s' = s_out s /\ s_wr s' = s_wr s /\
    nd = (if decide (readable false (s_in s) = [] /\ n <> 0%nat) then
            (if fails false (s_in s) then -1 else 0, [])
          else (Z.of_nat (length (take n (readable false (s_in s)))), take n (readable false (s_in s)))) /\
    ((n <= length (readable false (s_in s)))%nat ->
       readable false (s_in s') = drop n (readable false (s_in s)) /\
       fails false (s_in s') = fails false (s_in s))) s.
Proof. apply (gather_spec sread false n s); lia || done || (cbn; lia). Qed.

Lemma treadn_spec n s :
  wp (treadn n) (fun nd s' => s_out s' = s_out s /\ s_wr s' = s_wr s /\
    nd = (if decide (readable true (s_in s) = [] /\ n <> 0%nat) then
            (if fails true (s_in s) then -1 else 0, [])
          else (Z.of_nat (length (take n (readable true (s_in s)))), take n (readable true (s_in s)))) /\
    ((n <= length (readable true (s_in s)))%nat ->
       readable true (s_in s') = drop n (readable true (s_in s)) /\
       fails true (s_in s') = fails true (s_in s))) s.
Proof. apply (gather_spec tread true n s); lia || done || (cbn; lia). Qed.

Lemma writen_spec d s :
  wp (writen d) (fun r s' => s_in s' = s_in s /\
    s_out s' = s_out s ++ take (accepted (s_wr s) (length d)) d /\
    r = if refuses (s_wr s) && negb (length d =? 0)%nat then -1
        else Z.of_nat (accepted (s_wr s) (length d))) s.
Proof.
  eapply wp_mono; [apply writen_loop_spec; lia|]. cbv beta. intros r s' (Hi & Ho & ->).
  rewrite Nat.eqb_refl, andb_true_r, Nat.sub_diag. done.
Qed.

(** [readn] and [treadn] deliver data that arrives in pieces: they return
    (and put in the buffer) the first [n] bytes of what the stream holds before
    its end, an error or (for [treadn]) a time-out; -1 only when nothing was read
    and there was an error; and they always terminate. *)
Theorem readn_delivers (n : nat) (s : sock) :
  wp (readn n) (fun nd _ => nd =
      if decide (readable false (s_in s) = [] /\ n <> 0%nat) then (if fails false (s_in s) then -1 else 0, [])
      else (Z.of_nat (length (take n (readable false (s_in s)))), take n (readable false (s_in s)))) s /\
  wp (treadn n) (fun nd _ => nd =
      if decide (readable true (s_in s) = [] /\ n <> 0%nat) then (if fails true (s_in s) then -1 else 0, [])
      else (Z.of_nat (length (take n (readable true (s_in s)))), take n (readable true (s_in s)))) s.
Proof.
  split; (eapply wp_mono; [apply readn_spec || apply treadn_spec|]); cbv beta; intros nd s' (_ & _ & H & _); exact H.
Qed.

(** C39.  What [writen] hands over arrives: if the descriptor accepts the data
    piece by piece without refusing, [writen] returns its length, and a [readn]
    of that length at the other end, whatever pieces the transport delivers,
    returns exactly the data. *)
Theorem writen_readn (d : bytes) (s r : sock) :
  accepted (s_wr s) (length d) = length d -> (0 < length d)%nat ->
  wp (writen d) (fun n s' => n = Z.of_nat (length d) /\ exists sent, s_out s' = s_out s ++ sent /\
    (readable false (s_in r) = sent ->
     wp (readn (length d)) (fun nd _ => nd = (Z.of_nat (length d), d)) r)) s.
Proof.
  intros Ha Hd. eapply wp_mono; [apply writen_spec|]. cbv beta. intros n s' (_ & Ho & Hn).
  rewrite Ha, take_ge in Ho by lia. split.
  - rewrite Hn, Ha. destruct (s_wr s) as [|[k|e] l]; [done..|]. cbn in Ha. lia.
  - exists d. split; [done|]. intros Hr. eapply wp_mono; [apply readn_spec|]. cbv beta.
    intros nd r' (_ & _ & -> & _). rewrite Hr, take_ge by lia.
    rewrite decide_False; [done|]. intros [-> _]. cbn in Hd. lia.
Qed.

Lemma writen_readn_witness :
  let s := Sock [] [] [Accept 2; Accept 3] 0 in
  let r := Sock [Chunk [104; 101]; Chunk [108]; Chunk [108; 111]] [] [] 0 in
  wp (writen (str "hello")) (fun n s' => n = 5 /\ exists sent, s_out s' = s_out s ++ sent /\
    (readable false (s_in r) = sent -> wp (readn 5) (fun nd _ => nd = (5, str "hello")) r)) s /\
  readable false (s_in r) = str "hello".
Proof.
  intros s r. split; [|reflexivity]. apply (writen_readn (str "hello") s r); [reflexivity | cbn; lia].
Defined.
