(* ===== verification/Dll.v ===== *)
(** * Doubly linked lists in memory

    Memory cells with next and previous links, as the queues of the repository
    use them (src/apue.3e/threads/rwlock.c, the job and worker lists of
    src/apue.3e/printer/printd.c): loads and stores through a pointer, with a
    [Crash] when the pointer is null or the cell has been freed, and the
    predicate that a list of addresses is linked up. *)

From S2P Require Import Prelude.

(** Pointers are addresses, the null pointer is 0. *)
Definition null : Z := 0.

Record node (A : Type) := Node { n_next : Z; n_prev : Z; n_val : A }.
Arguments Node {A} _ _ _.
Arguments n_next {A} _.
Arguments n_prev {A} _.
Arguments n_val {A} _.

Abbreviation heap A := (gmap Z (node A)).

Section access.
Context {A : Type}.

Definition load (a : Z) : M (heap A) (node A) := fun h =>
  match h !! a with
  | Some c => (Ret c, h)
  | None => (Stop Crash, h)
  end.

Definition set_next (a v : Z) : M (heap A) unit :=
  let* c := load a in modify (<[a := Node v (n_prev c) (n_val c)]>).

Definition set_prev (a v : Z) : M (heap A) unit :=
  let* c := load a in modify (<[a := Node (n_next c) v (n_val c)]>).

(** [malloc] of a cell: an address that is not in use. *)
Definition alloc (v : A) : M (heap A) Z := fun h =>
  let a := 1 + foldr Z.max 0 (elements (dom h)) in
  (Ret a, <[a := Node null null v]> h).

Definition dealloc (a : Z) : M (heap A) unit := fun h =>
  match h !! a with
  | Some _ => (Ret tt, delete a h)
  | None => (Stop Crash, h)
  end.

(** ** Linked segments *)

(** The cells [l] are linked from [p] (the previous link of the first) to [n]
    (the next link of the last). *)
Fixpoint lseg (h : heap A) (p : Z) (l : list Z) (n : Z) : Prop :=
  match l with
  | [] => True
  | a :: l' => (exists v, h !! a = Some (Node (hd n l') p v)) /\ lseg h a l' n
  end.

(** The last cell of a list. *)
Fixpoint lst (p : Z) (l : list Z) : Z :=
  match l with
  | [] => p
  | a :: l' => lst a l'
  end.

Lemma lst_snoc p l a : lst p (l ++ [a]) = a.
Proof. revert p; induction l as [|b l IH]; intros p; cbn; [done | apply IH]. Qed.

Lemma lst_app p l l' : lst p (l ++ l') = lst (lst p l) l'.
Proof. revert p; induction l as [|b l IH]; intros p; cbn; [done | apply IH]. Qed.

Lemma lst_in p l : l <> [] -> lst p l ∈ l.
Proof.
  revert p; induction l as [|b l IH]; intros p H; [done|]. cbn. destruct l as [|c l].
  - set_solver.
  - right. by apply IH.
Qed.

Lemma lseg_app h p l l' n :
  lseg h p (l ++ l') n <-> lseg h p l (hd n l') /\ lseg h (lst p l) l' n.
Proof.
  revert p; induction l as [|a l IH]; intros p; cbn [app lseg lst]; [tauto|].
  rewrite IH. destruct l as [|b l]; cbn [app hd]; tauto.
Qed.

Lemma lseg_ext h h' p l n : (forall a, a ∈ l -> h' !! a = h !! a) -> lseg h p l n -> lseg h' p l n.
Proof.
  revert p; induction l as [|a l IH]; intros p He; cbn; [done|].
  intros [[v Hv] Hl]. split; [exists v; rewrite He; [done | set_solver]|].
  apply IH; [set_solver | done].
Qed.

Lemma lseg_mem h p l n a : lseg h p l n -> a ∈ l -> is_Some (h !! a).
Proof.
  revert p; induction l as [|b l IH]; intros p Hl Ha; [set_solver|].
  destruct Hl as [[v Hv] Hl]. apply elem_of_cons in Ha as [->|Ha]; [by eexists | by eapply IH].
Qed.

(** The links of a cell in the middle. *)
Lemma lseg_mid h p l1 a l2 n :
  lseg h p (l1 ++ a :: l2) n -> exists v, h !! a = Some (Node (hd n l2) (lst p l1) v).
Proof. rewrite lseg_app. intros [_ [H _]]. exact H. Qed.

(** Changing the next link of the last cell. *)
Lemma lseg_set_next h h' p l n n' :
  lseg h p l n -> NoDup l ->
  (forall a, a ∈ l -> a <> lst p l -> h' !! a = h !! a) ->
  (l <> [] -> forall c, h !! lst p l = Some c -> h' !! lst p l = Some (Node n' (n_prev c) (n_val c))) ->
  lseg h' p l n'.
Proof.
  revert p; induction l as [|a l IH]; intros p Hl Hn Hk Hs; [done|].
  apply list.NoDup_cons in Hn as [Ha Hn]. destruct Hl as [[v Hv] Hl]. cbn [lst] in *. split.
  - destruct l as [|b l].
    + exists v. cbn in *. apply (Hs ltac:(done) _ Hv).
    + exists v. rewrite Hk; [exact Hv|set_solver|]. intros E. apply Ha. rewrite E. by apply lst_in.
  - apply IH; [done|done| |].
    + intros x Hx Hne. apply Hk; set_solver.
    + intros Hne c Hc. by apply Hs.
Qed.

(** Changing the previous link of the first cell. *)
Lemma lseg_set_prev h h' p p' l n :
  lseg h p l n -> NoDup l ->
  (forall a, a ∈ tail l -> h' !! a = h !! a) ->
  (forall a c, head l = Some a -> h !! a = Some c -> h' !! a = Some (Node (n_next c) p' (n_val c))) ->
  lseg h' p' l n.
Proof.
  destruct l as [|a l]; [done|]. intros [[v Hv] Hl] Hn Hk Hs. split.
  - exists v. by apply (Hs a _ eq_refl Hv).
  - eapply lseg_ext; [|exact Hl]. exact Hk.
Qed.

(** A whole list between null links, with its two ends. *)
Record Dll (h : heap A) (l : list Z) (first last : Z) : Prop := {
  d_seg : lseg h null l null;
  d_nodup : NoDup l;
  d_null : null ∉ l;
  d_first : first = hd null l;
  d_last : last = lst null l }.

Lemma Dll_nil h : Dll h [] null null.
Proof. split; try done; [constructor | set_solver]. Qed.

Lemma Dll_ext h h' l f t : (forall a, a ∈ l -> h' !! a = h !! a) -> Dll h l f t -> Dll h' l f t.
Proof. intros He []. split; try done. by eapply lseg_ext. Qed.

Lemma Dll_first h l f t : Dll h l f t -> f = null <-> l = [].
Proof.
  intros []. destruct l as [|a l]; [done|]. cbn in *. split; [|done]. intros ->. set_solver.
Qed.

Lemma Dll_last h l f t : Dll h l f t -> t = null <-> l = [].
Proof.
  intros []. split; [|by intros ->]. intros ->. destruct (decide (l = [])); [done|].
  exfalso. apply d_null0. rewrite d_last0. by apply lst_in.
Qed.

(** ** The three changes *)

(** A cell linked in front. *)
Lemma Dll_push_front h h' l f t a v :
  Dll h l f t -> a <> null -> a ∉ l ->
  h' !! a = Some (Node f null v) ->
  (forall b c, b ∈ l -> h !! b = Some c ->
     h' !! b = Some (if decide (b = f) then Node (n_next c) a (n_val c) else c)) ->
  Dll h' (a :: l) a (if decide (l = []) then a else t).
Proof.
  intros [Hs Hn Hnl -> ->] Ha Hal Hh Hk. split; [|by apply list.NoDup_cons|set_solver|done|].
  - cbn [lseg]. split; [by exists v|]. eapply (lseg_set_prev h h' null a); [done|done| |].
    + intros b Hb. destruct l as [|c l]; [set_solver|]. cbn [tail hd] in *.
      destruct (lseg_mem _ _ _ _ b Hs) as [x Hx]; [set_solver|]. rewrite Hx.
      rewrite (Hk b x); [|set_solver|done]. rewrite decide_False; [done|].
      intros ->. apply list.NoDup_cons in Hn as [? _]. done.
    + intros b c Hb Hc. destruct l as [|x l]; [done|]. cbn in Hb. injection Hb as ->.
      rewrite (Hk b c); [|set_solver|done]. cbn. by rewrite decide_True.
  - cbn [lst]. destruct l as [|b l]; [done|]. by rewrite decide_False.
Qed.

(** A cell linked at the end. *)
Lemma Dll_push_back h h' l f t a v :
  Dll h l f t -> a <> null -> a ∉ l ->
  h' !! a = Some (Node null t v) ->
  (forall b c, b ∈ l -> h !! b = Some c ->
     h' !! b = Some (if decide (b = t) then Node a (n_prev c) (n_val c) else c)) ->
  Dll h' (l ++ [a]) (if decide (l = []) then a else f) a.
Proof.
  intros [Hs Hn Hnl -> ->] Ha Hal Hh Hk. split; [| | | |by rewrite lst_snoc].
  - apply lseg_app. cbn [lseg hd]. split; [|split; [by exists v|done]].
    eapply (lseg_set_next h h' null l null a); [done|done| |].
    + intros b Hb Hne. destruct (lseg_mem _ _ _ _ b Hs Hb) as [x Hx]. rewrite Hx.
      rewrite (Hk b x); [by rewrite decide_False|set_solver|done].
    + intros Hl c Hc. rewrite (Hk _ c); [by rewrite decide_True|by apply lst_in|done].
  - apply list.NoDup_app. split; [done|]. split; [set_solver|]. apply NoDup_singleton.
  - set_solver.
  - destruct l as [|b l]; [done|]. by rewrite decide_False.
Qed.

(** A cell unlinked: its neighbours are linked to each other. *)
Lemma Dll_remove h h' l1 a l2 f t c :
  Dll h (l1 ++ a :: l2) f t -> h !! a = Some c ->
  (forall b x, b ∈ l1 ++ l2 -> h !! b = Some x ->
     h' !! b = Some (Node (if decide (b = n_prev c) then n_next c else n_next x)
                          (if decide (b = n_next c) then n_prev c else n_prev x) (n_val x))) ->
  Dll h' (l1 ++ l2) (if decide (l1 = []) then n_next c else f) (if decide (l2 = []) then n_prev c else t).
Proof.
  intros [Hs Hn Hnl Hf Ht] Hc Hk.
  assert (Hlk : n_next c = hd null l2 /\ n_prev c = lst null l1).
  { destruct (lseg_mid _ _ _ _ _ _ Hs) as [v Hv]. rewrite Hc in Hv. by injection Hv as ->. }
  destruct Hlk as [Enx Epv]. apply lseg_app in Hs as [Hs1 Hs2]. cbn [hd lseg] in Hs1, Hs2. destruct Hs2 as [_ Hs2].
  apply list.NoDup_app in Hn as (Hn1 & Hd & Hn2). apply list.NoDup_cons in Hn2 as [Ha2 Hn2].
  assert (Ha1 : a ∉ l1) by (intros H; apply (Hd a H); set_solver).
  assert (Hnext2 : l2 <> [] -> hd null l2 ∈ l2) by (destruct l2; [done|set_solver]).
  split.
  - apply lseg_app. split.
    + eapply (lseg_set_next h h' null l1 a); [done|done| |].
      * intros b Hb Hne. destruct (lseg_mem _ _ _ _ b Hs1 Hb) as [x Hx]. rewrite Hx, (Hk b x); [|set_solver|done].
        rewrite Epv, Enx, decide_False by done. rewrite decide_False; [by destruct x|].
        intros ->. destruct l2 as [|y l2]; cbn in Hb; [set_solver|]. apply (Hd y Hb). set_solver.
      * intros Hl1 x Hx. rewrite (Hk _ x); [|apply elem_of_app; left; by apply lst_in|done].
        rewrite Epv, Enx, decide_True by done. rewrite decide_False; [done|].
        intros E. assert (Hin : lst null l1 ∈ l1) by (by apply lst_in).
        destruct l2 as [|y l2]; cbn in E; [rewrite E in Hin; set_solver|].
        apply (Hd _ Hin). rewrite E. set_solver.
    + eapply (lseg_set_prev h h' a (lst null l1)); [done|done| |].
      * intros b Hb. destruct l2 as [|y l2]; [set_solver|]. cbn [tail hd] in *.
        destruct (lseg_mem _ _ _ _ b Hs2) as [x Hx]; [set_solver|]. rewrite Hx, (Hk b x); [|set_solver|done].
        apply list.NoDup_cons in Hn2 as [Hy Hn2].
        rewrite Epv, Enx, (decide_False (P := b = y)) by set_solver. rewrite decide_False; [by destruct x|].
        intros ->. destruct (decide (l1 = [])) as [->|Hl1]; [cbn in *; set_solver|].
        apply (Hd (lst null l1)); [by apply lst_in | set_solver].
      * intros b x Hb Hx. destruct l2 as [|y l2]; [done|]. cbn in Hb. injection Hb as ->. cbn [hd] in *.
        rewrite (Hk b x); [|set_solver|done]. rewrite Epv, Enx, (decide_True (P := b = b)) by done.
        rewrite decide_False; [done|]. intros ->. destruct (decide (l1 = [])) as [->|Hl1]; [cbn in *; set_solver|].
        apply (Hd (lst null l1)); [by apply lst_in | set_solver].
  - apply list.NoDup_app. set_solver.
  - set_solver.
  - destruct l1 as [|b l1]; [by rewrite decide_True | by rewrite decide_False].
  - rewrite lst_app. destruct (decide (l2 = [])) as [->|Hl2]; [done|].
    rewrite Ht, lst_app. cbn. by destruct l2.
Qed.
End access.

(** ** Rules for loads and stores *)

Section rules.
Context {A : Type}.
Implicit Types (h : heap A) (c : node A).

Lemma wp_load a c Q h : h !! a = Some c -> Q c h -> wp (load a) Q h.
Proof. unfold wp, load. by intros ->. Qed.

Lemma wp_set_next a v c Q h :
  h !! a = Some c -> Q tt (<[a := Node v (n_prev c) (n_val c)]> h) -> wp (set_next a v) Q h.
Proof. intros Hc HQ. apply wp_bind. by eapply wp_load. Qed.

Lemma wp_set_prev a v c Q h :
  h !! a = Some c -> Q tt (<[a := Node (n_next c) v (n_val c)]> h) -> wp (set_prev a v) Q h.
Proof. intros Hc HQ. apply wp_bind. by eapply wp_load. Qed.

Lemma foldr_max_ge l (x : Z) : x ∈ l -> x <= foldr Z.max 0 l.
Proof. induction l as [|y l IH]; [set_solver|]. cbn. intros [->|H%IH]%elem_of_cons; lia. Qed.

Lemma foldr_max_nonneg l : 0 <= foldr Z.max 0 l.
Proof. induction l as [|y l IH]; cbn; lia. Qed.

Lemma wp_alloc (v : A) Q h :
  (forall a, a <> null -> h !! a = None -> Q a (<[a := Node null null v]> h)) -> wp (alloc v) Q h.
Proof.
  intros HQ. unfold wp, alloc. apply HQ.
  - unfold null. pose proof (foldr_max_nonneg (elements (dom h))). lia.
  - apply not_elem_of_dom. intros H%elem_of_elements%foldr_max_ge. lia.
Qed.

Lemma wp_dealloc a Q h : is_Some (h !! a) -> Q tt (delete a h) -> wp (dealloc a) Q h.
Proof. unfold wp, dealloc. by intros [c ->]. Qed.
End rules.

(** What the cells hold, links aside. *)
Definition vals {A} (h : heap A) (a : Z) : option A := n_val <$> h !! a.

Lemma vals_insert {A} (h : heap A) a c n p b :
  h !! a = Some c -> vals (<[a := Node n p (n_val c)]> h) b = vals h b.
Proof.
  intros Hc. unfold vals. destruct (decide (b = a)) as [->|]; [by rewrite lookup_insert_eq, Hc|].
  by rewrite lookup_insert_ne.
Qed.

Lemma Dll_cell {A} (h : heap A) l f t a : Dll h l f t -> a ∈ l -> exists c, h !! a = Some c.
Proof. intros HD Ha. destruct (lseg_mem _ _ _ _ _ (d_seg _ _ _ _ HD) Ha) as [c Hc]. eauto. Qed.

Lemma Dll_first_in {A} (h : heap A) l f t : Dll h l f t -> f <> null -> f ∈ l /\ l <> [].
Proof.
  intros HD Hf. rewrite (Dll_first _ _ _ _ HD) in Hf. split; [|done].
  rewrite (d_first _ _ _ _ HD). destruct l; [done|set_solver].
Qed.

Lemma Dll_last_in {A} (h : heap A) l f t : Dll h l f t -> t <> null -> t ∈ l /\ l <> [].
Proof.
  intros HD Hf. rewrite (Dll_last _ _ _ _ HD) in Hf. split; [|done].
  rewrite (d_last _ _ _ _ HD). by apply lst_in.
Qed.

(** A list of cells is no longer than memory. *)
Lemma Dll_length {A} (h : heap A) l f t : Dll h l f t -> (length l <= size h)%nat.
Proof.
  intros HD. rewrite <- (size_list_to_set (C := gset Z) l), <- size_dom by apply HD.
  apply subseteq_size. intros a. rewrite elem_of_list_to_set. intros Ha. apply elem_of_dom.
  destruct (Dll_cell _ _ _ _ _ HD Ha) as [c Hc]. eauto.
Qed.
