(* ===== verification/Rwlock.v ===== *)
(** * The job queue of src/apue.3e/threads/rwlock.c

    A queue of jobs, doubly linked, under a reader-writer lock.  The queue is
    refined to a list of jobs in order. *)

From S2P Require Import Prelude Dll.

Module Rwlock.

(** The lock: free, held by readers, or held by a writer. *)
Inductive rwlock := Unlocked | Readers (n : nat) | Writer.

(** The queue, the jobs in memory (each with the thread that handles it), and
    the results of the coming calls that may fail (0 when the list is empty). *)
Record queue := Queue {
  jobs : heap Z;
  q_head : Z;
  q_tail : Z;
  q_lock : rwlock;
  q_err : list Z }.

Definition set_jobs x q := Queue x (q_head q) (q_tail q) (q_lock q) (q_err q).
Definition set_head x q := Queue (jobs q) x (q_tail q) (q_lock q) (q_err q).
Definition set_tail x q := Queue (jobs q) (q_head q) x (q_lock q) (q_err q).
Definition set_lock x q := Queue (jobs q) (q_head q) (q_tail q) x (q_err q).
Definition set_err x q := Queue (jobs q) (q_head q) (q_tail q) (q_lock q) x.

Definition mem {A} (m : M (heap Z) A) : M queue A := zoom jobs set_jobs m.

Definition next_err : M queue Z := fun q =>
  match q_err q with
  | [] => (Ret 0, q)
  | e :: l => (Ret e, set_err l q)
  end.

Definition pthread_rwlock_init : M queue Z :=
  let* e := next_err in
  if e =? 0 then modify (set_lock Unlocked) ;;; ret 0 else ret e.

(** A lock that is not free makes the caller wait. *)
Definition pthread_rwlock_wrlock : M queue unit :=
  let* q := get in
  match q_lock q with
  | Unlocked => modify (set_lock Writer)
  | _ => stop Hang
  end.

Definition pthread_rwlock_rdlock : M queue Z :=
  let* e := next_err in
  if negb (e =? 0) then ret e else
  let* q := get in
  match q_lock q with
  | Unlocked => modify (set_lock (Readers 1)) ;;; ret 0
  | Readers n => modify (set_lock (Readers (S n))) ;;; ret 0
  | Writer => stop Hang
  end.

Definition pthread_rwlock_unlock : M queue unit :=
  let* q := get in
  match q_lock q with
  | Readers (S (S n)) => modify (set_lock (Readers (S n)))
  | _ => modify (set_lock Unlocked)
  end.

Definition queue_init : M queue Z :=
  modify (set_head null) ;;;
  modify (set_tail null) ;;;
  let* err := pthread_rwlock_init in
  if negb (err =? 0) then ret err else ret 0.

Definition job_insert (jp : Z) : M queue unit :=
  pthread_rwlock_wrlock ;;;
  let* q := get in
  mem (set_next jp (q_head q)) ;;;
  mem (set_prev jp null) ;;;
  (if negb (q_head q =? null) then mem (set_prev (q_head q) jp)
   else modify (set_tail jp)) ;;;
  modify (set_head jp) ;;;
  pthread_rwlock_unlock.

Definition job_append (jp : Z) : M queue unit :=
  pthread_rwlock_wrlock ;;;
  let* q := get in
  mem (set_next jp null) ;;;
  mem (set_prev jp (q_tail q)) ;;;
  (if negb (q_tail q =? null) then mem (set_next (q_tail q) jp)
   else modify (set_head jp)) ;;;
  modify (set_tail jp) ;;;
  pthread_rwlock_unlock.

Definition job_remove (jp : Z) : M queue unit :=
  pthread_rwlock_wrlock ;;;
  let* q := get in
  (if jp =? q_head q then
     let* j := mem (load jp) in
     modify (set_head (n_next j)) ;;;
     (if q_tail q =? jp then modify (set_tail null)
      else mem (set_prev (n_next j) (n_prev j)))
   else if jp =? q_tail q then
     let* j := mem (load jp) in
     modify (set_tail (n_prev j)) ;;;
     mem (set_next (n_prev j) (n_next j))
   else
     let* j := mem (load jp) in
     mem (set_next (n_prev j) (n_next j)) ;;;
     mem (set_prev (n_next j) (n_prev j))) ;;;
  pthread_rwlock_unlock.

(** The [for] loop of [job_find]. *)
Fixpoint find_loop (fuel : nat) (id jp : Z) : M queue Z :=
  match fuel with
  | O => stop Hang
  | S f =>
      if jp =? null then ret null else
      let* j := mem (load jp) in
      if n_val j =? id then ret jp else find_loop f id (n_next j)
  end.

Definition job_find (id : Z) : M queue Z :=
  let* e := pthread_rwlock_rdlock in
  if negb (e =? 0) then ret null else
  let* q := get in
  let* jp := find_loop (S (size (jobs q))) id (q_head q) in
  pthread_rwlock_unlock ;;;
  ret jp.

(** ** Refinement to a list *)

(** The queue holds the jobs [l], in order, and nobody has the lock. *)
Record Represents (q : queue) (l : list Z) : Prop := {
  r_dll : Dll (jobs q) l (q_head q) (q_tail q);
  r_free : q_lock q = Unlocked }.

(** The thread of a job. *)
Abbreviation id_of q := (vals (jobs q)).

Lemma wp_mem {A} (m : M (heap Z) A) Q q :
  wp m (fun a h => Q a (set_jobs h q)) (jobs q) -> wp (mem m) Q q.
Proof. apply wp_zoom. Qed.

Lemma wrlock_free q Q : q_lock q = Unlocked -> Q tt (set_lock Writer q) -> wp pthread_rwlock_wrlock Q q.
Proof. intros E HQ. unfold pthread_rwlock_wrlock. apply wp_bind, wp_get. by rewrite E. Qed.

Lemma unlock_writer q Q : q_lock q = Writer -> Q tt (set_lock Unlocked q) -> wp pthread_rwlock_unlock Q q.
Proof. intros E HQ. unfold pthread_rwlock_unlock. apply wp_bind, wp_get. by rewrite E. Qed.

Ltac stepq := apply wp_bind; first [apply wp_get | apply wp_modify | apply wp_mem]; cbv beta.

Lemma insert_spec q l jp v :
  Represents q l -> jp <> null -> jp ∉ l -> jobs q !! jp = Some v ->
  wp (job_insert jp) (fun _ q' => Represents q' (jp :: l) /\ q_err q' = q_err q /\ forall a, id_of q' a = id_of q a) q.
Proof.
  intros [HD Hlk] Hj Hjl Hv. unfold job_insert. apply wp_bind, wrlock_free; [done|]. stepq.
  cbn [q_head set_lock]. stepq. eapply wp_set_next; [exact Hv|].
  stepq. eapply wp_set_prev; [by apply lookup_insert_eq|]. cbn [n_next n_val set_jobs jobs].
  rewrite insert_insert_eq. apply wp_bind.
  destruct (Z.eqb_spec (q_head q) null) as [E|E]; cbn [negb].
  - apply wp_modify. stepq. apply unlock_writer; [done|].
    apply (Dll_first _ _ _ _ HD) in E as ->. split; [split; [|done]|split; [done|]].
    + eapply (Dll_push_front (jobs q) _ [] _ _ jp (n_val v)) in HD; [by rewrite decide_True in HD|done|done|..].
      * apply lookup_insert_eq.
      * set_solver.
    + intros a. by apply vals_insert.
  - destruct (Dll_first_in _ _ _ _ HD E) as [Hin Hl]. assert (Hne : q_head q <> jp) by (intros <-; done).
    destruct (Dll_cell _ _ _ _ _ HD Hin) as [c Hc].
    apply wp_mem. eapply wp_set_prev; [cbn; by rewrite lookup_insert_ne|]. stepq. apply unlock_writer; [done|].
    split; [split; [|done]|split; [done|]].
    + eapply (Dll_push_front (jobs q) _ l _ _ jp (n_val v)) in HD; [by rewrite decide_False in HD|done|done|..].
      * cbn. rewrite lookup_insert_ne by done. apply lookup_insert_eq.
      * intros b x Hb Hx. cbn. destruct (decide (b = q_head q)) as [->|Hbq].
        -- rewrite lookup_insert_eq. by simplify_eq.
        -- rewrite !lookup_insert_ne by set_solver. done.
    + intros a. cbn. rewrite !vals_insert; [done|done|by rewrite lookup_insert_ne].
Qed.

Lemma append_spec q l jp v :
  Represents q l -> jp <> null -> jp ∉ l -> jobs q !! jp = Some v ->
  wp (job_append jp) (fun _ q' => Represents q' (l ++ [jp]) /\ q_err q' = q_err q /\ forall a, id_of q' a = id_of q a) q.
Proof.
  intros [HD Hlk] Hj Hjl Hv. unfold job_append. apply wp_bind, wrlock_free; [done|]. stepq.
  cbn [q_tail set_lock]. stepq. eapply wp_set_next; [exact Hv|].
  stepq. eapply wp_set_prev; [by apply lookup_insert_eq|]. cbn [n_next n_val set_jobs jobs].
  rewrite insert_insert_eq. apply wp_bind.
  destruct (Z.eqb_spec (q_tail q) null) as [E|E]; cbn [negb].
  - apply wp_modify. stepq. apply unlock_writer; [done|].
    apply (Dll_last _ _ _ _ HD) in E as ->. split; [split; [|done]|split; [done|]].
    + eapply (Dll_push_back (jobs q) _ [] _ _ jp (n_val v)) in HD; [by rewrite decide_True in HD|done|done|..].
      * apply lookup_insert_eq.
      * set_solver.
    + intros a. by apply vals_insert.
  - destruct (Dll_last_in _ _ _ _ HD E) as [Hin Hl]. assert (Hne : q_tail q <> jp) by (intros <-; done).
    destruct (Dll_cell _ _ _ _ _ HD Hin) as [c Hc].
    apply wp_mem. eapply wp_set_next; [cbn; by rewrite lookup_insert_ne|]. stepq. apply unlock_writer; [done|].
    split; [split; [|done]|split; [done|]].
    + eapply (Dll_push_back (jobs q) _ l _ _ jp (n_val v)) in HD; [by rewrite decide_False in HD|done|done|..].
      * cbn. rewrite lookup_insert_ne by done. apply lookup_insert_eq.
      * intros b x Hb Hx. cbn. destruct (decide (b = q_tail q)) as [->|Hbq].
        -- rewrite lookup_insert_eq. by simplify_eq.
        -- rewrite !lookup_insert_ne by set_solver. done.
    + intros a. cbn. rewrite !vals_insert; [done|done|by rewrite lookup_insert_ne].
Qed.

(** The cells next to a job, and which of them exist. *)
Lemma neighbours q l1 jp l2 : Represents q (l1 ++ jp :: l2) ->
  exists v, jobs q !! jp = Some (Node (hd null l2) (lst null l1) v) /\
    (jp = q_head q <-> l1 = []) /\ (jp = q_tail q <-> l2 = []) /\
    (l1 <> [] -> lst null l1 ∈ l1) /\ (l2 <> [] -> hd null l2 ∈ l2) /\
    (jp ∉ l1) /\ (jp ∉ l2) /\ (forall a, a ∈ l1 -> a ∉ l2) /\ (null ∉ l1) /\ (null ∉ l2).
Proof.
  intros [[Hs Hn Hnl Hf Ht] _]. destruct (lseg_mid _ _ _ _ _ _ Hs) as [v Hv]. exists v.
  apply list.NoDup_app in Hn as (Hn1 & Hd & Hn2). apply list.NoDup_cons in Hn2 as [Ha2 Hn2].
  assert (Ha1 : jp ∉ l1) by (intros H; apply (Hd jp H); set_solver).
  split; [done|]. split; [|split].
  - rewrite Hf. split; [|by intros ->]. destruct l1 as [|b l1]; [done|]. cbn. intros ->. set_solver.
  - rewrite Ht, lst_app. cbn [lst]. split; [|by intros ->]. intros E.
    destruct (decide (l2 = [])) as [|Hl]; [done|]. exfalso. apply Ha2. rewrite E. by apply lst_in.
  - split; [apply lst_in|]. split; [destruct l2; [done|set_solver]|]. set_solver.
Qed.

Lemma remove_spec q l1 jp l2 :
  Represents q (l1 ++ jp :: l2) ->
  wp (job_remove jp) (fun _ q' => Represents q' (l1 ++ l2) /\ q_err q' = q_err q /\ forall a, id_of q' a = id_of q a) q.
Proof.
  intros HR. destruct (neighbours _ _ _ _ HR) as (v & Hv & Hh & Ht & Hl1 & Hl2 & Hj1 & Hj2 & Hd & Hn1 & Hn2).
  destruct HR as [HD Hlk]. pose proof (Dll_remove _ (jobs q) l1 jp l2 _ _ _ HD Hv) as _.
  assert (Hc1 : l1 <> [] -> exists c, jobs q !! lst null l1 = Some c).
  { intros H. eapply Dll_cell; [exact HD|]. apply elem_of_app. left. by apply Hl1. }
  assert (Hc2 : l2 <> [] -> exists c, jobs q !! hd null l2 = Some c).
  { intros H. eapply Dll_cell; [exact HD|]. specialize (Hl2 H). set_solver. }
  unfold job_remove. apply wp_bind, wrlock_free; [done|]. stepq. cbn [q_head q_tail set_lock].
  destruct (Z.eqb_spec jp (q_head q)) as [E|E].
  - apply Hh in E as ->. apply wp_bind. stepq. eapply wp_load; [exact Hv|]. stepq. cbn [n_next n_prev].
    destruct (Z.eqb_spec (q_tail q) jp) as [E2|E2].
    + symmetry in E2. apply Ht in E2 as ->. apply wp_modify. apply unlock_writer; [done|].
      split; [split; [|done]|by split]. cbn. apply Dll_nil.
    + assert (Hne : l2 <> []) by (intros ->; apply E2; symmetry; by apply Ht).
      destruct (Hc2 Hne) as [c Hc]. apply wp_mem. eapply wp_set_prev; [exact Hc|]. apply unlock_writer; [done|].
      split; [split; [|done]|split; [done|intros a; by apply vals_insert]].
      eapply (Dll_remove _ _ [] jp l2) in HD; [|exact Hv|].
      * rewrite decide_True, decide_False in HD by done. exact HD.
      * cbn. intros b x Hb Hx. rewrite (decide_False (P := b = null)) by set_solver.
        destruct (decide (b = hd null l2)) as [->|Hbn]; [rewrite lookup_insert_eq; by simplify_eq|].
        rewrite lookup_insert_ne, Hx by done. by destruct x.
  - assert (Hne1 : l1 <> []) by (intros ->; apply E; by apply Hh). destruct (Hc1 Hne1) as [c1 Hc1'].
    destruct (Z.eqb_spec jp (q_tail q)) as [E2|E2].
    + apply Ht in E2 as ->. apply wp_bind. stepq. eapply wp_load; [exact Hv|]. stepq. cbn [n_next n_prev].
      apply wp_mem. eapply wp_set_next; [exact Hc1'|]. apply unlock_writer; [done|].
      split; [split; [|done]|split; [done|intros a; by apply vals_insert]].
      eapply (Dll_remove _ _ l1 jp []) in HD; [|exact Hv|].
      * rewrite decide_False, decide_True in HD by done. exact HD.
      * cbn. intros b x Hb Hx. rewrite (decide_False (P := b = null)) by set_solver.
        destruct (decide (b = lst null l1)) as [->|Hbn]; [rewrite lookup_insert_eq; by simplify_eq|].
        rewrite lookup_insert_ne, Hx by done. by destruct x.
    + assert (Hne2 : l2 <> []) by (intros ->; apply E2; by apply Ht). destruct (Hc2 Hne2) as [c2 Hc2'].
      assert (H12 : lst null l1 <> hd null l2) by (intros Eq; apply (Hd (lst null l1)); [by apply Hl1|rewrite Eq; by apply Hl2]).
      apply wp_bind. stepq. eapply wp_load; [exact Hv|]. stepq. cbn [n_next n_prev].
      eapply wp_set_next; [exact Hc1'|]. apply wp_mem. eapply wp_set_prev; [cbn; by rewrite lookup_insert_ne|].
      apply unlock_writer; [done|]. split; [split; [|done]|split; [done|]].
      * eapply (Dll_remove _ _ l1 jp l2) in HD; [|exact Hv|].
        -- rewrite !decide_False in HD by done. exact HD.
        -- cbn. intros b x Hb Hx. destruct (decide (b = hd null l2)) as [->|Hb2].
           ++ rewrite lookup_insert_eq, decide_False by done. by simplify_eq.
           ++ rewrite lookup_insert_ne by done.
              destruct (decide (b = lst null l1)) as [->|Hb1]; [rewrite lookup_insert_eq; by simplify_eq|].
              rewrite lookup_insert_ne, Hx by done. by destruct x.
      * intros a. cbn. rewrite !vals_insert; [done|done|by rewrite lookup_insert_ne].
Qed.

(** The first job of a list handled by a thread. *)
Fixpoint first_of (ids : Z -> option Z) (l : list Z) (id : Z) : Z :=
  match l with
  | [] => null
  | a :: l' => if decide (ids a = Some id) then a else first_of ids l' id
  end.

Lemma qfind_loop_spec q id l : forall fuel p n,
  lseg (jobs q) p l n -> n = null -> null ∉ l -> (length l < fuel)%nat ->
  wp (find_loop fuel id (hd n l)) (fun r q' => r = first_of (id_of q) l id /\ q' = q) q.
Proof.
  induction l as [|a l IH]; intros fuel p n Hs -> Hnl Hf; (destruct fuel as [|fuel]; [cbn in Hf; lia|]);
    cbn [hd find_loop first_of].
  - by apply wp_ret.
  - destruct (Z.eqb_spec a null) as [->|Ha]; [set_solver|]. destruct Hs as [[v Hv] Hs].
    stepq. eapply wp_load; [exact Hv|]. cbn [n_val n_next].
    assert (Hid : id_of q a = Some v) by (unfold vals; by rewrite Hv).
    destruct (Z.eqb_spec v id) as [->|Hne].
    + rewrite decide_True by done. apply wp_ret. split; [done|]. by destruct q.
    + rewrite decide_False by congruence.
      replace (set_jobs (jobs q) q) with q by (by destruct q). eapply IH; [exact Hs|done|set_solver|cbn in Hf; lia].
Qed.

Lemma find_spec q l id :
  Represents q l -> q_err q = [] ->
  wp (job_find id) (fun r q' => r = first_of (id_of q) l id /\ Represents q' l /\ q_err q' = q_err q /\
    forall a, id_of q' a = id_of q a) q.
Proof.
  intros [HD Hlk] He. unfold job_find, pthread_rwlock_rdlock, next_err.
  apply wp_bind, wp_bind. unfold wp at 1. rewrite He. cbn [Z.eqb negb]. stepq. rewrite Hlk. stepq. apply wp_ret.
  cbn [Z.eqb negb]. stepq. cbn [jobs q_head set_lock]. rewrite (d_first _ _ _ _ HD).
  eapply wp_seq; [eapply qfind_loop_spec; [apply HD|done|apply HD|]|cbv beta].
  { pose proof (Dll_length _ _ _ _ HD). lia. }
  intros r q' [-> ->]. unfold pthread_rwlock_unlock. stepq. split; [done|]. split; [by split|]. done.
Qed.

(** ** Sequences of operations *)

Inductive qop := Insert (jp : Z) | Append (jp : Z) | Remove (jp : Z) | Find (id : Z).

Definition run_qop (o : qop) : M queue Z :=
  match o with
  | Insert jp => job_insert jp ;;; ret 0
  | Append jp => job_append jp ;;; ret 0
  | Remove jp => job_remove jp ;;; ret 0
  | Find id => job_find id
  end.

Fixpoint run_qops (l : list qop) : M queue (list Z) :=
  match l with
  | [] => ret []
  | o :: l' => let* r := run_qop o in let* rs := run_qops l' in ret (r :: rs)
  end.

(** The same on lists; [None] when the caller breaks the contract (a job that
    does not exist, is already queued, or is not queued). *)
Definition spec_qop (ids : Z -> option Z) (o : qop) (l : list Z) : option (Z * list Z) :=
  match o with
  | Insert jp => if decide (is_Some (ids jp) /\ jp <> null /\ jp ∉ l) then Some (0, jp :: l) else None
  | Append jp => if decide (is_Some (ids jp) /\ jp <> null /\ jp ∉ l) then Some (0, l ++ [jp]) else None
  | Remove jp => if decide (jp ∈ l) then Some (0, filter (fun a => a <> jp) l) else None
  | Find id => Some (first_of ids l id, l)
  end.

Fixpoint spec_qops (ids : Z -> option Z) (ops : list qop) (l : list Z) : option (list Z * list Z) :=
  match ops with
  | [] => Some ([], l)
  | o :: ops' => '(r, l1) ← spec_qop ids o l; '(rs, l2) ← spec_qops ids ops' l1; Some (r :: rs, l2)
  end.

Lemma filter_absent (jp : Z) (l : list Z) : jp ∉ l -> filter (fun a => a <> jp) l = l.
Proof.
  induction l as [|a l IH]; intros Hj; [done|]. rewrite filter_cons, decide_True by set_solver.
  by rewrite IH by set_solver.
Qed.

Lemma filter_mid l1 (jp : Z) l2 :
  NoDup (l1 ++ jp :: l2) -> filter (fun a => a <> jp) (l1 ++ jp :: l2) = l1 ++ l2.
Proof.
  intros Hn. apply list.NoDup_app in Hn as (Hn1 & Hd & Hn2). apply list.NoDup_cons in Hn2 as [Hj2 Hn2].
  rewrite list.filter_app, filter_cons, decide_False by tauto. f_equal; apply filter_absent; [|done].
  intros Hj. apply (Hd jp Hj). set_solver.
Qed.

Lemma first_of_ext ids ids' l id : (forall a, ids' a = ids a) -> first_of ids' l id = first_of ids l id.
Proof.
  intros He. induction l as [|a l IH]; [done|]. cbn. rewrite IH.
  destruct (decide (ids a = Some id)) as [E|E]; [rewrite decide_True | rewrite decide_False]; by rewrite ?He.
Qed.

Lemma run_qop_spec q l o r l' :
  Represents q l -> q_err q = [] -> spec_qop (id_of q) o l = Some (r, l') ->
  wp (run_qop o) (fun r' q' => r' = r /\ Represents q' l' /\ q_err q' = [] /\
    forall a, id_of q' a = id_of q a) q.
Proof.
  intros HR He Hs. destruct o as [jp|jp|jp|id]; cbn [run_qop spec_qop] in *.
  - case_decide as Hd; [|done]. destruct Hd as ([v Hv] & Hj & Hl). simplify_eq.
    unfold vals in Hv. apply fmap_Some in Hv as (c & Hc & _).
    eapply wp_seq; [by eapply insert_spec|cbv beta]. intros _ q' (HR' & He' & Hid). apply wp_ret.
    rewrite He'. auto.
  - case_decide as Hd; [|done]. destruct Hd as ([v Hv] & Hj & Hl). simplify_eq.
    unfold vals in Hv. apply fmap_Some in Hv as (c & Hc & _).
    eapply wp_seq; [by eapply append_spec|cbv beta]. intros _ q' (HR' & He' & Hid). apply wp_ret.
    rewrite He'. auto.
  - case_decide as Hd; [|done]. simplify_eq. apply list_elem_of_split in Hd as (l1 & l2 & ->).
    rewrite filter_mid by apply HR.
    eapply wp_seq; [by eapply remove_spec|cbv beta]. intros _ q' (HR' & He' & Hid). apply wp_ret.
    rewrite He'. auto.
  - simplify_eq. eapply wp_mono; [by eapply find_spec|]. cbv beta. intros r q' (-> & HR' & He' & Hid).
    rewrite He'. auto.
Qed.

Lemma spec_qops_ext ids ids' ops : (forall a, ids' a = ids a) -> forall l, spec_qops ids' ops l = spec_qops ids ops l.
Proof.
  intros He. induction ops as [|o ops IH]; intros l; [done|]. cbn.
  assert (E : spec_qop ids' o l = spec_qop ids o l).
  { destruct o; cbn; rewrite ?(first_of_ext ids ids') by done; try done;
      repeat case_decide; rewrite ?He in *; tauto || done. }
  rewrite E. destruct (spec_qop ids o l) as [[r l1]|]; [|done]. cbn. by rewrite IH.
Qed.

(** C20.  The queue of rwlock.c behaves as a list under any sequence of insert,
    append, remove and find calls that respects the contract: the calls return,
    no null or dangling pointer is followed, [job_find] returns the first job of
    the thread (or null), the links stay consistent, and the lock is released. *)
Theorem queue_refines_list q l ops rs l' :
  Represents q l -> q_err q = [] -> spec_qops (id_of q) ops l = Some (rs, l') ->
  wp (run_qops ops) (fun rs' q' => rs' = rs /\ Represents q' l') q.
Proof.
  revert q l rs. induction ops as [|o ops IH]; intros q l rs HR He Hs; cbn [run_qops spec_qops] in *.
  - simplify_eq. by apply wp_ret.
  - destruct (spec_qop _ o l) as [[r l1]|] eqn:E1; [|done]. cbn in Hs.
    destruct (spec_qops _ ops l1) as [[rs1 l2]|] eqn:E2; [|done]. cbn in Hs. simplify_eq.
    eapply wp_seq; [by eapply run_qop_spec|cbv beta]. intros r' q1 (-> & HR1 & He1 & Hid).
    eapply wp_seq; [eapply IH; [exact HR1|exact He1|]|cbv beta].
    { rewrite (spec_qops_ext (id_of q) (id_of q1) ops Hid). exact E2. }
    intros rs' q2 (-> & HR2). by apply wp_ret.
Qed.

(** Three jobs in memory, handled by the threads 7, 8 and 7. *)
Definition example_queue : queue :=
  Queue {[1 := Node 0 0 7; 2 := Node 0 0 8; 3 := Node 0 0 7]} null null Unlocked [].

Lemma queue_refines_list_witness :
  wp (run_qops [Append 1; Insert 2; Append 3; Find 7; Remove 1; Find 7; Find 9])
    (fun rs q' => rs = [0; 0; 0; 1; 0; 3; 0] /\ Represents q' [2; 3]) example_queue.
Proof.
  apply (queue_refines_list example_queue []); [split; [apply Dll_nil | done] | done | by vm_compute].
Defined.
End Rwlock.
