(* ===== verification/Wire.v ===== *)
(** * Integers in memory and on the wire

    The in-memory layout of the integer types of the build platform (little
    endian), and the byte-order conversions [htonl], [ntohl], [htons] and
    [ntohs], whose result is again an integer. *)

From S2P Require Import Prelude CLib.

Definition byte_ok (c : Z) : Prop := 0 <= c < 256.

Definition le16 (n : Z) : bytes := [n mod 256; n / 256 mod 256].
Definition le32 (n : Z) : bytes :=
  [n mod 256; n / 256 mod 256; n / 65536 mod 256; n / 16777216 mod 256].

Definition rd_le16 (l : bytes) : Z := nth 0 l 0 + 256 * nth 1 l 0.
Definition rd_le32 (l : bytes) : Z :=
  nth 0 l 0 + 256 * nth 1 l 0 + 65536 * nth 2 l 0 + 16777216 * nth 3 l 0.

(** The conversions reverse the bytes in memory. *)
Definition htonl (n : Z) : Z := rd_le32 (rev (le32 n)).
Definition ntohl (n : Z) : Z := htonl n.
Definition htons (n : Z) : Z := rd_le16 (rev (le16 n)).
Definition ntohs (n : Z) : Z := htons n.

(** Big-endian, as on the wire. *)
Definition be16 (n : Z) : bytes := rev (le16 n).
Definition be32 (n : Z) : bytes := rev (le32 n).

Lemma be16_length n : length (be16 n) = 2%nat.
Proof. done. Qed.
Lemma be32_length n : length (be32 n) = 4%nat.
Proof. done. Qed.
#[export] Hint Rewrite be16_length be32_length : lens.

Lemma div_mod_byte n : 0 <= n mod 256 < 256.
Proof. apply Z.mod_pos_bound. lia. Qed.

Lemma le32_length n : length (le32 n) = 4%nat.
Proof. done. Qed.

Lemma rd_le32_le32 n l : 0 <= n < 2 ^ 32 -> rd_le32 (le32 n ++ l) = n.
Proof.
  intros Hn. unfold rd_le32, le32. cbn [app nth].
  change (2 ^ 32) with 4294967296 in Hn.
  assert (E2 : n / 65536 = n / 256 / 256) by (rewrite Z.div_div by lia; done).
  assert (E3 : n / 16777216 = n / 256 / 256 / 256) by (rewrite !Z.div_div by lia; done).
  assert (H3 : 0 <= n / 16777216 < 256)
    by (split; [apply Z.div_pos; lia | apply Z.div_lt_upper_bound; lia]).
  rewrite (Z.mod_small (n / 16777216)) by done.
  pose proof (Z.div_mod n 256 ltac:(lia)). pose proof (Z.div_mod (n / 256) 256 ltac:(lia)).
  pose proof (Z.div_mod (n / 256 / 256) 256 ltac:(lia)). rewrite E2, E3 in *. lia.
Qed.

(** The bytes of a 32-bit pattern given by its bytes. *)
Lemma le32_rd a b c d :
  byte_ok a -> byte_ok b -> byte_ok c -> byte_ok d -> le32 (rd_le32 [a; b; c; d]) = [a; b; c; d].
Proof.
  unfold byte_ok, le32, rd_le32. cbn [nth]. intros.
  set (n := a + 256 * b + 65536 * c + 16777216 * d).
  assert (E0 : n mod 256 = a) by (symmetry; apply (Z.mod_unique n 256 (b + 256 * c + 65536 * d)); lia).
  assert (E1 : n / 256 = b + 256 * c + 65536 * d) by (symmetry; apply (Z.div_unique n 256 _ a); lia).
  assert (E2 : n / 65536 = c + 256 * d) by (symmetry; apply (Z.div_unique n 65536 _ (a + 256 * b)); lia).
  assert (E3 : n / 16777216 = d) by (symmetry; apply (Z.div_unique n 16777216 _ (a + 256 * b + 65536 * c)); lia).
  rewrite E0, E1, E2, E3.
  assert ((b + 256 * c + 65536 * d) mod 256 = b) as ->
    by (symmetry; apply (Z.mod_unique _ 256 (c + 256 * d)); lia).
  assert ((c + 256 * d) mod 256 = c) as -> by (symmetry; apply (Z.mod_unique _ 256 d); lia).
  rewrite Z.mod_small by lia. done.
Qed.

Lemma le32_bytes n : Forall byte_ok (le32 n).
Proof. repeat constructor; apply Z.mod_pos_bound; lia. Qed.

(** The bytes of a converted integer are those of the integer reversed. *)
Lemma le32_htonl n : le32 (htonl n) = rev (le32 n).
Proof.
  unfold htonl. pose proof (le32_bytes n) as H. unfold le32 at 2 3. cbn [rev app].
  unfold le32 in H. repeat (apply Forall_cons_iff in H as [? H]). by apply le32_rd.
Qed.

Lemma rd_le32_range a b c d : byte_ok a -> byte_ok b -> byte_ok c -> byte_ok d ->
  0 <= rd_le32 [a; b; c; d] < 2 ^ 32.
Proof. unfold byte_ok, rd_le32. cbn [nth]. change (2 ^ 32) with 4294967296. lia. Qed.

Lemma htonl_range n : 0 <= htonl n < 2 ^ 32.
Proof.
  unfold htonl. pose proof (le32_bytes n) as H. unfold le32 at 1 2. cbn [rev app].
  unfold le32 in H. repeat (apply Forall_cons_iff in H as [? H]). by apply rd_le32_range.
Qed.

Lemma ntohl_htonl n : 0 <= n < 2 ^ 32 -> ntohl (htonl n) = n.
Proof.
  intros Hn. unfold ntohl, htonl at 1. rewrite le32_htonl, rev_involutive.
  pose proof (rd_le32_le32 n [] Hn) as H. by rewrite app_nil_r in H.
Qed.
