(* ===== verification/PrintStatus.v ===== *)
(** * The printer's answer: [readmore] and [printer_status] of printd.c

    The parser works on a malloc'ed buffer with an index into it (the pointer
    [cp] and the counter [i] of the source move together); reading or writing
    outside the buffer is a [Crash].  Its loops that depend on the connection
    are bounded by a fuel whose exhaustion is a [Hang]. *)

From S2P Require Import Prelude CLib Posix Stream Wire.

Definition IOBUFSZ : nat := Z.to_nat 8192.

(** The buffer [bp] of size [bufsz], and the bytes [datsz] counted in it. *)
Record pbuf := Pbuf { bp : bytes; datsz : Z }.

Definition peek (b : bytes) (i : nat) : M sock Z :=
  match b !! i with Some c => ret c | None => stop Crash end.

Definition poke (b : bytes) (i : nat) (d : bytes) : M sock bytes :=
  if (i + length d <=? length b)%nat then ret (overwrite i d b) else stop Crash.

(** The loop that advances [cp] while [p] holds of what it points to: the first index from [i] on where [p] fails; it
    runs off the buffer when there is none. *)
Fixpoint scan_while (p : Z -> bool) (l : bytes) (i : nat) : option nat :=
  match l with
  | [] => None
  | c :: l' => if p c then scan_while p l' (S i) else Some i
  end.

Definition scan (p : Z -> bool) (b : bytes) (i : nat) : M sock nat :=
  match scan_while p (drop i b) i with
  | Some j => ret j
  | None => stop Crash
  end.

(** Read at [off], growing the buffer when it is full; the offset of the end of
    the data, or -1. *)
Definition readmore (b : bytes) (off : nat) : M sock (Z * bytes) :=
  let b := if (length b <=? off)%nat then b ++ replicate IOBUFSZ 0 else b in
  let* nd := tread (length b - off) in
  if nd.1 >? 0 then ret (Z.of_nat off + nd.1, overwrite off nd.2 b) else ret (-1, b).

(** [if (i >= datsz) ...]: read more header; [None] when that fails.  The
    amount added is the offset [readmore] returns. *)
Definition more_header (b : pbuf) (i : nat) : M sock (option pbuf) :=
  let* r := readmore (bp b) i in
  if r.1 <? 0 then ret None else ret (Some (Pbuf r.2 (datsz b + r.1))).

Definition is_c (c : Z) : bool := (c =? 67) || (c =? 99).

(** The loop that skips to a letter C or c while [i < datsz]. *)
Fixpoint skip_to_c (fuel : nat) (b : pbuf) (i : nat) : M sock nat :=
  match fuel with
  | O => stop Hang
  | S f =>
      let* c := peek (bp b) i in
      if negb (is_c c) && (Z.of_nat i <? datsz b) then skip_to_c f b (S i) else ret i
  end.

(** [strncasecmp(cp, "Content-Length:", 15) == 0]; the comparison runs off the
    buffer when the buffer ends inside a match. *)
Definition CL : bytes := str "Content-Length:".

Definition strncasecmp_at (b : bytes) (i : nat) : M sock bool :=
  let l := drop i b in
  if (length l <? 15)%nat && (strncasecmp (length l) l CL =? 0) then stop Crash
  else ret (strncasecmp 15 l CL =? 0).

(** The search for the Content-Length header: the index after it and its
    value. *)
Fixpoint find_length (fuel : nat) (b : pbuf) (i : nat) : M sock (option (pbuf * nat * Z)) :=
  match fuel with
  | O => stop Hang
  | S f =>
      let* i := skip_to_c (S (Z.to_nat (datsz b))) b i in
      let* b := (if Z.of_nat i >=? datsz b then more_header b i else ret (Some b)) in
      match b with
      | None => ret None
      | Some b =>
          let* e := strncasecmp_at (bp b) i in
          if e then
            let* j := scan isspace (bp b) (i + 15) in
            let* k := scan isdigit (bp b) j in
            let* b' := poke (bp b) k [NUL] in
            ret (Some (Pbuf b' (datsz b), S k, atoi (drop j b')))
          else find_length f b (S i)
      end
  end.

(** [while (i < datsz - 2)]: the index after the blank line that ends the
    header, or where the search stopped. *)
Fixpoint find_blank (fuel : nat) (b : pbuf) (i : nat) : M sock (bool * nat) :=
  match fuel with
  | O => stop Hang
  | S f =>
      if Z.of_nat i <? datsz b - 2 then
        let* c0 := peek (bp b) i in
        if negb (c0 =? 10) then find_blank f b (S i) else
        let* c1 := peek (bp b) (S i) in
        if negb (c1 =? 13) then find_blank f b (S i) else
        let* c2 := peek (bp b) (S (S i)) in
        if c2 =? 10 then ret (true, (i + 3)%nat) else find_blank f b (S i)
      else ret (false, i)
  end.

(** [while (!found)]. *)
Fixpoint find_end (fuel : nat) (b : pbuf) (i : nat) : M sock (option (pbuf * nat)) :=
  match fuel with
  | O => stop Hang
  | S f =>
      let* ' (found, i) := find_blank (S (Z.to_nat (datsz b))) b i in
      let* b := (if Z.of_nat i >=? datsz b then more_header b i else ret (Some b)) in
      match b with
      | None => ret None
      | Some b => if found then ret (Some (b, i)) else find_end f b i
      end
  end.

(** The part after a successful status line. *)
Definition ipp_status (fuel : nat) (b : pbuf) (i : nat) (id : Z) : M sock bool :=
  let* r := find_length fuel b i in
  match r with
  | None => ret false
  | Some (b, i, len) =>
      let* b := (if Z.of_nat i >=? datsz b then more_header b i else ret (Some b)) in
      match b with
      | None => ret false
      | Some b =>
          let* r := find_end fuel b i in
          match r with
          | None => ret false
          | Some (b, i) =>
              let* b := (if datsz b - Z.of_nat i <? len then more_header b i else ret (Some b)) in
              match b with
              | None => ret false
              | Some b =>
                  if (i + 8 <=? length (bp b))%nat then
                    let st := ntohs (rd_le16 (drop (i + 2) (bp b))) in
                    let jobid := to_i32 (ntohl (rd_le32 (drop (i + 4) (bp b)))) in
                    ret ((jobid =? id) && (0 <=? st) && (st <=? 255))
                  else stop Crash
              end
          end
      end
  end.

Definition HTTP_INFO (x : Z) : bool := (100 <=? x) && (x <=? 199).
Definition HTTP_SUCCESS (x : Z) : bool := (200 <=? x) && (x <=? 299).

(** The status line: the end of the reason and the status code; [None] when no
    digit follows the protocol version. *)
Definition status_line (b : bytes) : M sock (option (bytes * nat * Z)) :=
  let* statcode := scan isspace b 8 in
  let* i := scan isdigit b statcode in
  if (i =? statcode)%nat then ret None else
  let* b := poke b i [NUL] in
  let* j := scan (fun c => negb ((c =? 13) || (c =? 10))) b (S i) in
  let* b := poke b j [NUL] in
  ret (Some (b, j, atoi (drop statcode b))).

(** The loop over the responses; [turns] bounds the responses read. *)
Fixpoint status_loop (turns fuel : nat) (b : bytes) (id : Z) : M sock bool :=
  match turns with
  | O => stop Hang
  | S t =>
      let* nd := tread (length b) in
      if nd.1 <=? 0 then ret false else
      let b := overwrite 0 nd.2 b in
      let* l := status_line b in
      match l with
      | None => status_loop t fuel b id
      | Some (b, j, code) =>
          if HTTP_INFO code then status_loop t fuel b id
          else if negb (HTTP_SUCCESS code) then
            poke b (Z.to_nat nd.1) [NUL] ;;; ret false
          else ipp_status fuel (Pbuf b nd.1) j id
      end
  end.

(** [junk] is what [malloc] returns. *)
Definition printer_status (turns fuel : nat) (junk : bytes) (id : Z) : M sock bool :=
  status_loop turns fuel (take IOBUFSZ (junk ++ replicate IOBUFSZ 0)) id.

(** ** A response that arrives in one piece *)

Lemma CL_length : length CL = 15%nat.
Proof. done. Qed.
#[export] Hint Rewrite CL_length : lens.

Lemma scan_while_app p l1 c l2 i :
  Forall (fun x => p x = true) l1 -> p c = false ->
  scan_while p (l1 ++ c :: l2) i = Some (i + length l1)%nat.
Proof.
  intros H Hc. revert i. induction H as [|x l1 Hx _ IH]; intros i; cbn.
  - rewrite Hc. f_equal. lia.
  - rewrite Hx, IH. f_equal. lia.
Qed.

Lemma wp_scan pre l1 c l2 p b i Q s :
  b = pre ++ l1 ++ c :: l2 -> i = length pre ->
  Forall (fun x => p x = true) l1 -> p c = false ->
  Q (length pre + length l1)%nat s -> wp (scan p b i) Q s.
Proof.
  intros -> -> H Hc HQ. unfold scan. rewrite drop_app_length, scan_while_app by done. exact HQ.
Qed.

Lemma wp_poke pre c l2 b i d Q s :
  b = pre ++ c :: l2 -> i = length pre ->
  Q (pre ++ d :: l2) s -> wp (poke b i [d]) Q s.
Proof.
  intros -> -> HQ. unfold poke. destruct (Nat.leb_spec (length pre + length [d]) (length (pre ++ c :: l2))); [|len].
  apply wp_ret. change (c :: l2) with ([c] ++ l2). by rewrite overwrite_mid.
Qed.

Lemma wp_peek b i c Q s : b !! i = Some c -> Q c s -> wp (peek b i) Q s.
Proof. intros H HQ. unfold peek. rewrite H. exact HQ. Qed.

(** Where the header name stands, and where the blank line stands. *)
Definition cl_at (l : bytes) (k : nat) : Prop := strncasecmp 15 (drop k l) CL = 0.
Definition blank_at (l : bytes) (k : nat) : Prop :=
  l !! k = Some 10 /\ l !! S k = Some 13 /\ l !! S (S k) = Some 10.

Lemma strncasecmp_step n x l y r :
  strncmp_by tolower (S n) (x :: l) (y :: r) = 0 -> tolower x = tolower y.
Proof.
  unfold strncmp_by; fold strncmp_by. cbn [hd].
  destruct (Z.eqb_spec (tolower x) (tolower y)); [done|]. cbn. lia.
Qed.

Lemma cl_at_c l k c : l !! k = Some c -> cl_at l k -> is_c c = true.
Proof.
  intros Hc H. unfold cl_at in H. rewrite (drop_S l c k Hc) in H.
  apply strncasecmp_step in H. unfold is_c, tolower in *.
  repeat destruct_if; cbn in *; lia.
Qed.

Lemma skip_to_c_spec f l d i t c Q s :
  (i <= t)%nat -> (t - i < f)%nat -> l !! t = Some c -> is_c c = true ->
  (forall i', (i <= i' <= t)%nat -> Q i' s) -> wp (skip_to_c f (Pbuf l d) i) Q s.
Proof.
  revert i. induction f as [|f IH]; intros i Hi Hf Hc Hcc HQ; [lia|].
  cbn [skip_to_c bp datsz].
  assert (exists x, l !! i = Some x) as [x Hx]
    by (apply lookup_lt_is_Some; apply lookup_lt_Some in Hc; lia).
  apply wp_bind, (wp_peek _ _ x); [done|].
  destruct (decide (i = t)) as [->|].
  - assert (x = c) as -> by congruence. rewrite Hcc. apply wp_ret, HQ. lia.
  - destruct_if; [apply IH; [lia|lia|done|done|] | apply wp_ret]; intros; apply HQ; lia.
Qed.

(** The code after the comparison succeeds at [t]. *)
Definition cl_value (l : bytes) (d : Z) (t : nat) : M sock (option (pbuf * nat * Z)) :=
  let* j := scan isspace l (t + 15) in
  let* k := scan isdigit l j in
  let* b' := poke l k [NUL] in
  ret (Some (Pbuf b' d, S k, atoi (drop j b'))).

Lemma find_length_spec f l d i t Q s :
  (i <= t)%nat -> (t - i < f)%nat -> (t + 15 <= length l)%nat -> Z.of_nat t < d ->
  (forall k, (i <= k < t)%nat -> ~ cl_at l k) -> cl_at l t ->
  wp (cl_value l d t) Q s -> wp (find_length f (Pbuf l d) i) Q s.
Proof.
  revert i. induction f as [|f IH]; intros i Hi Hf Hl Hd Hno Ht HQ; [lia|].
  assert (exists c, l !! t = Some c) as [c Hc] by (apply lookup_lt_is_Some; lia).
  cbn [find_length datsz bp]. apply wp_bind.
  apply (skip_to_c_spec _ _ _ _ t c); [lia|lia|done|by eapply cl_at_c|].
  intros i' Hi'. apply wp_bind. destruct (Z.geb_spec (Z.of_nat i') d); [lia|].
  apply wp_ret. cbn [bp datsz]. unfold strncasecmp_at. apply wp_bind.
  destruct (Nat.ltb_spec (length (drop i' l)) 15); [len|]. cbn [andb]. apply wp_ret.
  destruct (Z.eqb_spec (strncasecmp 15 (drop i' l) CL) 0) as [E|E].
  - destruct (decide (i' = t)) as [->|]; [exact HQ|].
    exfalso. apply (Hno i'); [lia | exact E].
  - assert (i' <> t) by (intros ->; apply E, Ht).
    apply IH; auto; [lia|lia|]. intros k Hk. apply Hno. lia.
Qed.

Lemma find_blank_spec f l d i t Q s :
  (i <= t)%nat -> (t - i < f)%nat -> Z.of_nat t + 2 < d <= Z.of_nat (length l) ->
  (forall k, (i <= k < t)%nat -> ~ blank_at l k) -> blank_at l t ->
  Q (true, (t + 3)%nat) s -> wp (find_blank f (Pbuf l d) i) Q s.
Proof.
  revert i. induction f as [|f IH]; intros i Hi Hf Hl Hno Ht HQ; [lia|].
  cbn [find_blank bp datsz]. destruct (Z.ltb_spec (Z.of_nat i) (d - 2)); [|lia].
  assert (forall k, (k < 3)%nat -> exists x, l !! (k + i)%nat = Some x) as Hx
    by (intros; apply lookup_lt_is_Some; lia).
  destruct (Hx 0%nat) as [a Ha], (Hx 1%nat) as [b Hb], (Hx 2%nat) as [c Hc]; [lia..|].
  cbn [Nat.add] in *.
  assert (HR : i <> t -> wp (find_blank f (Pbuf l d) (S i)) Q s).
  { intros. apply IH; auto; [lia|lia|]. intros k Hk. apply Hno. lia. }
  destruct (decide (i = t)) as [->|Hne].
  - destruct Ht as (H0 & H1 & H2). simplify_eq.
    do 3 (eapply wp_bind, wp_peek; [done|]; cbn [Z.eqb Pos.eqb negb]). exact HQ.
  - pose proof (Hno i ltac:(lia)) as Hni. unfold blank_at in Hni.
    eapply wp_bind, wp_peek; [done|].
    destruct (Z.eqb_spec a 10) as [->|]; cbn [negb]; [|auto].
    eapply wp_bind, wp_peek; [done|].
    destruct (Z.eqb_spec b 13) as [->|]; cbn [negb]; [|auto].
    eapply wp_bind, wp_peek; [done|].
    destruct (Z.eqb_spec c 10) as [->|]; [tauto|auto].
Qed.

Lemma strncmp_by_app f n l x r :
  (n <= length l)%nat -> strncmp_by f n (l ++ x) r = strncmp_by f n l r.
Proof.
  revert l r. induction n as [|n IH]; intros l r H; [done|].
  destruct l as [|y l]; [cbn in H; lia|]. cbn [strncmp_by app hd tl].
  rewrite IH by (cbn in H; lia). done.
Qed.

Lemma cl_at_app pre l k : cl_at (pre ++ l) (length pre + k) <-> cl_at l k.
Proof. unfold cl_at. by rewrite drop_app_add. Qed.

Lemma cl_at_ext l x k : (k + 15 <= length l)%nat -> cl_at (l ++ x) k <-> cl_at l k.
Proof.
  intros H. unfold cl_at. rewrite drop_app_le by lia. unfold strncasecmp.
  rewrite strncmp_by_app; [done|]. rewrite length_drop. lia.
Qed.

Lemma blank_at_app pre l k : blank_at (pre ++ l) (length pre + k) <-> blank_at l k.
Proof.
  unfold blank_at. rewrite !lookup_app_r by lia.
  replace (length pre + k - length pre)%nat with k by lia.
  replace (S (length pre + k) - length pre)%nat with (S k) by lia.
  replace (S (S (length pre + k)) - length pre)%nat with (S (S k)) by lia. done.
Qed.

Lemma blank_at_ext l x k : (k + 3 <= length l)%nat -> blank_at (l ++ x) k <-> blank_at l k.
Proof. intros H. unfold blank_at. rewrite !lookup_app_l by lia. done. Qed.

Lemma ntohl_be32 n l : 0 <= n < 2 ^ 31 -> to_i32 (ntohl (rd_le32 (be32 n ++ l))) = n.
Proof.
  intros Hn. change (rd_le32 (be32 n ++ l)) with (htonl n).
  change (2 ^ 31) with 2147483648 in Hn.
  rewrite ntohl_htonl by (change (2 ^ 32) with 4294967296; lia).
  unfold to_i32. change (2 ^ 31) with 2147483648. change (2 ^ 32) with 4294967296.
  rewrite Z.mod_small by lia. lia.
Qed.

Lemma ntohs_be16 n l : 0 <= n < 65536 -> ntohs (rd_le16 (be16 n ++ l)) = n.
Proof.
  intros Hn. change (rd_le16 (be16 n ++ l)) with (n / 256 mod 256 + 256 * (n mod 256)).
  assert (0 <= n / 256 < 256)
    by (split; [apply Z.div_pos; lia | apply Z.div_lt_upper_bound; lia]).
  rewrite (Z.mod_small (n / 256)) by lia.
  pose proof (Z.mod_pos_bound n 256 ltac:(lia)).
  unfold ntohs, htons, le16, rd_le16. cbn [rev app nth].
  set (q := n / 256) in *. set (m := n mod 256) in *.
  assert ((q + 256 * m) mod 256 = q) as -> by (symmetry; apply (Z.mod_unique _ 256 m); lia).
  assert ((q + 256 * m) / 256 = m) as -> by (symmetry; apply (Z.div_unique _ 256 _ q); lia).
  rewrite Z.mod_small by lia. pose proof (Z.div_mod n 256). lia.
Qed.

(** The response an IPP server sends: a status line, header lines [hs], the
    Content-Length, further header lines [sep :: rest], the blank line, and an
    IPP header with the status and the request number before the rest of the
    body. *)
Record response := Response {
  r_ver : bytes; r_code : Z; r_reason : bytes; r_hs : bytes; r_len : Z;
  r_sep : Z; r_rest : bytes; r_status : Z; r_id : Z; r_body : bytes }.

Definition r_ipp (r : response) : bytes :=
  [1; 1] ++ be16 (r_status r) ++ be32 (r_id r) ++ r_body r.
Definition r_tail (r : response) : bytes := r_rest r ++ [10; 13; 10] ++ r_ipp r.
Definition r_head (r : response) : bytes :=
  r_hs r ++ CL ++ [32] ++ dec (r_len r) ++ [r_sep r].
Definition r_line (r : response) : bytes :=
  r_ver r ++ [32] ++ dec (r_code r) ++ [32] ++ r_reason r.
Definition r_bytes (r : response) : bytes := r_line r ++ 13 :: r_head r ++ r_tail r.

Record well_formed (r : response) : Prop := {
  wf_ver : length (r_ver r) = 8%nat;
  wf_code : 0 <= r_code r;
  wf_reason : Forall (fun c => c <> 13 /\ c <> 10) (r_reason r);
  wf_hs : forall k, (k < length (r_hs r))%nat -> ~ cl_at (r_hs r ++ CL) k;
  wf_len : 0 <= r_len r <= Z.of_nat (length (r_ipp r));
  wf_sep : isdigit (r_sep r) = false;
  wf_rest : forall k, (k < length (r_rest r))%nat -> ~ blank_at (r_rest r ++ [10; 13; 10]) k;
  wf_status : 0 <= r_status r < 65536;
  wf_id : 0 <= r_id r < 2 ^ 31 }.

Lemma isdigit_digit c : digit c -> isdigit c = true.
Proof. unfold digit, isdigit. lia. Qed.

Lemma dec_isdigit n : 0 <= n -> Forall (fun c => isdigit c = true) (dec n).
Proof. intros H. eapply Forall_impl; [|by apply dec_digits]. apply isdigit_digit. Qed.

Lemma dec_cons n : 0 <= n -> exists x ds, dec n = x :: ds /\ isdigit x = true.
Proof.
  intros H. pose proof (dec_isdigit n H) as Hd. destruct (dec n) as [|x ds] eqn:E.
  - pose proof (udec_spec n H). rewrite dec_nonneg in E by done. rewrite E in *. cbn in *. lia.
  - inv Hd. eauto.
Qed.

(** The number is followed by a byte that ends it. *)
Lemma atoi_dec_nul n l : 0 <= n -> atoi (dec n ++ NUL :: l) = n.
Proof. intros. by apply atol_dec. Qed.

(** The header name, then the length. *)
Lemma cl_value_spec pre n c l d Q s :
  0 <= n -> isdigit c = false ->
  Q (Some (Pbuf (pre ++ CL ++ [32] ++ dec n ++ NUL :: l) d,
           S (length (pre ++ CL ++ [32] ++ dec n)), n)) s ->
  wp (cl_value (pre ++ CL ++ [32] ++ dec n ++ c :: l) d (length pre)) Q s.
Proof.
  intros Hn Hc HQ. unfold cl_value. destruct (dec_cons n Hn) as (x & ds & E & Hx).
  pose proof (dec_isdigit n Hn) as Hd. apply wp_bind.
  apply (wp_scan (pre ++ CL) [32] x (ds ++ c :: l)); [rewrite E; by apps|len|by repeat constructor| |].
  { unfold isdigit, isspace in *. lia. }
  apply wp_bind, (wp_scan (pre ++ CL ++ [32]) (dec n) c l); [by apps|len|done|done|].
  apply wp_bind, (wp_poke (pre ++ CL ++ [32] ++ dec n) c l); [by apps|len|].
  apply wp_ret.
  rewrite (drop_eq (pre ++ CL ++ [32]) (dec n ++ NUL :: l)); [|by apps|len].
  rewrite atoi_dec_nul by done.
  replace (S _) with (S (length (pre ++ CL ++ [32] ++ dec n))) by len.
  revert HQ. by apps.
Qed.

Lemma r_ipp_length r : length (r_ipp r) = (8 + length (r_body r))%nat.
Proof. done. Qed.

#[export] Hint Rewrite r_ipp_length : lens.

(** No header before [r_hs] ends is mistaken for the length. *)
Lemma no_early_length r pre tail k :
  well_formed r -> (length pre <= k < length (pre ++ 0%Z :: r_hs r))%nat ->
  ~ cl_at (pre ++ 0 :: r_head r ++ tail) k.
Proof.
  intros W Hk Hcl. destruct (decide (k = length pre)) as [->|].
  - by apply cl_at_c with (c := 0) in Hcl; [|rewrite list_lookup_middle].
  - replace k with (length (pre ++ [0%Z]) + (k - S (length pre)))%nat in Hcl by len.
    change (0 :: r_head r ++ tail) with ([0] ++ r_head r ++ tail) in Hcl.
    rewrite app_assoc, cl_at_app in Hcl. unfold r_head in Hcl.
    rewrite <- app_assoc, <- (app_assoc CL), (app_assoc (r_hs r)) in Hcl.
    apply cl_at_ext in Hcl; [|len].
    apply (wf_hs r W) in Hcl; [done|]. len.
Qed.

(** From the byte that ended the status line to the byte after the length. *)
Lemma find_length_response r pre tail fuel d Q s :
  well_formed r -> (length (r_head r) < fuel)%nat ->
  Z.of_nat (length (pre ++ 0 :: r_head r)) <= d ->
  (let p := pre ++ 0 :: r_hs r ++ CL ++ [32] ++ dec (r_len r) ++ [NUL] in
   Q (Some (Pbuf (p ++ tail) d, length p, r_len r)) s) ->
  wp (find_length fuel (Pbuf (pre ++ 0 :: r_head r ++ tail) d) (length pre)) Q s.
Proof.
  intros W Hf Hd HQ. pose proof (no_early_length r pre tail) as Hno.
  set (p1 := pre ++ 0 :: r_hs r) in *.
  assert (EH : pre ++ 0 :: r_head r ++ tail =
    p1 ++ CL ++ [32] ++ dec (r_len r) ++ r_sep r :: tail) by (unfold p1, r_head; by apps).
  apply (find_length_spec _ _ _ _ (length p1)).
  1,2,4: unfold p1, r_head in *; len.
  - rewrite EH. len.
  - intros k Hk. by apply Hno.
  - rewrite EH. replace (length p1) with (length p1 + 0)%nat by lia. by rewrite cl_at_app.
  - rewrite EH. apply cl_value_spec; [pose proof (wf_len r W); lia | apply W |].
    replace (p1 ++ CL ++ [32] ++ dec (r_len r) ++ NUL :: tail)
      with ((pre ++ 0 :: r_hs r ++ CL ++ [32] ++ dec (r_len r) ++ [NUL]) ++ tail)
      by (unfold p1; by apps).
    replace (S _) with (length (pre ++ 0 :: r_hs r ++ CL ++ [32] ++ dec (r_len r) ++ [NUL])).
    + exact HQ.
    + unfold p1. len.
Qed.

(** From there to the IPP header. *)
Lemma find_end_response r p tail fuel d Q s :
  well_formed r -> (0 < fuel)%nat -> d = Z.of_nat (length (p ++ r_tail r)) ->
  (let q := p ++ r_rest r ++ [10; 13; 10] in
   Q (Some (Pbuf (q ++ r_ipp r ++ tail) d, length q)) s) ->
  wp (find_end fuel (Pbuf (p ++ r_tail r ++ tail) d) (length p)) Q s.
Proof.
  intros W Hf -> HQ. destruct fuel as [|fuel]; [lia|]. cbn [find_end datsz bp].
  assert (ET : p ++ r_tail r ++ tail = (p ++ r_rest r ++ [10; 13; 10]) ++ r_ipp r ++ tail).
  { unfold r_tail. by apps. }
  assert (Hb : forall k, (k + 3 <= length (r_rest r ++ [10%Z; 13%Z; 10%Z]))%nat ->
    blank_at (p ++ r_tail r ++ tail) (length p + k) <-> blank_at (r_rest r ++ [10; 13; 10]) k).
  { intros k Hk. rewrite ET, <- (app_assoc p), blank_at_app, blank_at_ext by done. done. }
  unfold r_tail in *.
  apply wp_bind, (find_blank_spec _ _ _ _ (length p + length (r_rest r))).
  1-3: len.
  - intros k Hk. replace k with (length p + (k - length p))%nat by lia.
    rewrite Hb by len. apply (wf_rest r W). lia.
  - rewrite Hb by len. replace (length (r_rest r)) with (length (r_rest r) + 0)%nat by lia.
    by rewrite blank_at_app.
  - destruct (Z.geb_spec (Z.of_nat (length p + length (r_rest r) + 3))
      (Z.of_nat (length (p ++ r_rest r ++ [10; 13; 10] ++ r_ipp r)))); [len|].
    apply wp_bind, wp_ret, wp_ret. rewrite ET.
    replace (length p + length (r_rest r) + 3)%nat
      with (length (p ++ r_rest r ++ [10%Z; 13%Z; 10%Z])) by len. exact HQ.
Qed.

Lemma ipp_status_response r pre tail fuel id s :
  well_formed r -> (length (r_head r) < fuel)%nat ->
  wp (ipp_status fuel (Pbuf (pre ++ 0 :: r_head r ++ r_tail r ++ tail)
        (Z.of_nat (length (pre ++ 0 :: r_head r ++ r_tail r)))) (length pre) id)
     (fun x s' => x = (r_id r =? id) && (r_status r <=? 255) /\ s' = s) s.
Proof.
  intros W Hf. unfold ipp_status.
  apply wp_bind, find_length_response; [done|done|len|]. cbn zeta.
  set (p := pre ++ 0 :: r_hs r ++ CL ++ [32] ++ dec (r_len r) ++ [NUL]). cbn [datsz].
  assert (Ed : Z.of_nat (length (pre ++ 0 :: r_head r ++ r_tail r)) = Z.of_nat (length (p ++ r_tail r)))
    by (unfold p, r_head; len).
  rewrite Ed. destruct (Z.geb_spec (Z.of_nat (length p)) (Z.of_nat (length (p ++ r_tail r))));
    [unfold r_tail in *; len|].
  apply wp_bind, wp_ret, wp_bind, find_end_response; [done|lia|done|]. cbn zeta.
  set (q := p ++ r_rest r ++ [10; 13; 10]). cbn [datsz].
  assert (Eq : length (p ++ r_tail r) = (length q + length (r_ipp r))%nat)
    by (unfold q, r_tail; len). rewrite Eq.
  destruct (Z.ltb_spec (Z.of_nat (length q + length (r_ipp r)) - Z.of_nat (length q)) (r_len r)).
  { pose proof (wf_len r W). lia. }
  apply wp_bind, wp_ret. cbn [bp].
  destruct (Nat.leb_spec (length q + 8) (length (q ++ r_ipp r ++ tail))); [|len].
  apply wp_ret. split; [|done]. rewrite !drop_app_add.
  change (drop 2 (r_ipp r ++ tail)) with (be16 (r_status r) ++ be32 (r_id r) ++ r_body r ++ tail).
  change (drop 4 (r_ipp r ++ tail)) with (be32 (r_id r) ++ r_body r ++ tail).
  rewrite ntohs_be16, ntohl_be32 by apply W.
  pose proof (wf_status r W). destruct (Z.leb_spec 0 (r_status r)); [|lia].
  by rewrite andb_true_r.
Qed.

(** The status line, whatever follows it. *)
Definition r_line0 (r : response) : bytes :=
  r_ver r ++ [32] ++ dec (r_code r) ++ [0] ++ r_reason r.

Lemma status_line_response r l Q s :
  well_formed r -> Q (Some (r_line0 r ++ 0 :: l, length (r_line0 r), r_code r)) s ->
  wp (status_line (r_line r ++ 13 :: l)) Q s.
Proof.
  intros W HQ. unfold status_line, r_line. destruct W.
  pose proof (dec_isdigit _ wf_code0) as Hd.
  destruct (dec_cons _ wf_code0) as (x & ds & E & Hx).
  apply wp_bind, (wp_scan (r_ver r) [32] x (ds ++ [32] ++ r_reason r ++ 13 :: l));
    [rewrite E; by apps|lia|by repeat constructor| |].
  { unfold isdigit, isspace in *. lia. }
  apply wp_bind, (wp_scan (r_ver r ++ [32]) (dec (r_code r)) 32 (r_reason r ++ 13 :: l));
    [by apps|len|done|done|].
  destruct (Nat.eqb_spec (length (r_ver r ++ [32%Z]) + length (dec (r_code r)))
              (length (r_ver r) + length [32%Z])); [rewrite E in *; len|].
  apply wp_bind, (wp_poke (r_ver r ++ [32] ++ dec (r_code r)) 32 (r_reason r ++ 13 :: l));
    [by apps|len|].
  apply wp_bind, (wp_scan (r_ver r ++ [32] ++ dec (r_code r) ++ [0]) (r_reason r) 13 l);
    [by apps|len| |done|].
  { eapply Forall_impl; [|exact wf_reason0]. cbn. intros c Hc. lia. }
  apply wp_bind, (wp_poke (r_line0 r) 13 l); [unfold r_line0; by apps|unfold r_line0; len|].
  apply wp_ret.
  rewrite (drop_eq (r_ver r ++ [32]) (dec (r_code r) ++ NUL :: r_reason r ++ 0 :: l));
    [|unfold r_line0; by apps|len].
  rewrite atoi_dec_nul by done.
  replace (_ + length (r_reason r))%nat with (length (r_line0 r)) by (unfold r_line0; len).
  exact HQ.
Qed.

(** A piece that fits the buffer is read whole. *)
Lemma wp_tread_chunk d l n Q s :
  s_in s = Chunk d :: l -> (length d <= n)%nat ->
  Q (Z.of_nat (length d), d) (set_in l s) -> wp (tread n) Q s.
Proof.
  intros Hs Hn HQ. unfold tread, select_in, sread, wp, bind. rewrite Hs. cbn.
  rewrite Hs. cbn. rewrite take_ge by done.
  destruct (Nat.leb_spec (length d) n); [|lia]. exact HQ.
Qed.

Lemma overwrite_start d b :
  (length d <= length b)%nat -> overwrite 0 d b = d ++ drop (length d) b.
Proof.
  intros H. rewrite <- (take_drop (length d) b) at 1.
  pose proof (overwrite_mid [] (take (length d) b) d (drop (length d) b)) as E.
  cbn [app length] in E. apply E. len.
Qed.

(** The piece [r_line r ++ 13 :: x] read into a fresh buffer. *)
Definition fresh (junk : bytes) : bytes := take IOBUFSZ (junk ++ replicate IOBUFSZ 0).

Lemma fresh_length junk : length (fresh junk) = IOBUFSZ.
Proof. unfold fresh. rewrite length_take, length_app, length_replicate. lia. Qed.

Lemma r_line_length r : well_formed r -> length (r_line r) = length (r_line0 r).
Proof. intros _. unfold r_line, r_line0. len. Qed.

Lemma printer_status_response r turns fuel junk id l s :
  well_formed r -> HTTP_INFO (r_code r) = false ->
  (length (r_bytes r) < IOBUFSZ)%nat -> (length (r_bytes r) < fuel)%nat -> (0 < turns)%nat ->
  s_in s = Chunk (r_bytes r) :: l ->
  wp (printer_status turns fuel junk id)
    (fun x s' => x = HTTP_SUCCESS (r_code r) && (r_id r =? id) && (r_status r <=? 255)
                 /\ s' = set_in l s) s.
Proof.
  intros W Hi Hl Hf Ht Hs. destruct turns as [|turns]; [lia|].
  unfold printer_status. fold (fresh junk). pose proof (fresh_length junk) as Hb.
  cbn [status_loop]. apply wp_bind.
  apply (wp_tread_chunk _ _ _ _ _ Hs); [lia|]. cbn [fst snd].
  destruct (Z.leb_spec (Z.of_nat (length (r_bytes r))) 0).
  { unfold r_bytes in *. autorewrite with lens in *. lia. }
  rewrite overwrite_start by lia. set (tail := drop _ (fresh junk)).
  assert (Htl : (0 < length tail)%nat) by (subst tail; len).
  apply wp_bind.
  replace (r_bytes r ++ tail) with (r_line r ++ 13 :: r_head r ++ r_tail r ++ tail)
    by (unfold r_bytes; by apps).
  apply status_line_response; [done|]. rewrite Hi.
  destruct (HTTP_SUCCESS (r_code r)); cbn [negb].
  - unfold r_bytes. replace (length (r_line r ++ 13 :: r_head r ++ r_tail r)) with
      (length (r_line0 r ++ 0 :: r_head r ++ r_tail r)).
    + apply ipp_status_response; [done|]. unfold r_bytes in Hf. len.
    + pose proof (r_line_length r W). len.
  - rewrite Nat2Z.id. destruct tail as [|c tail]; [cbn in Htl; lia|].
    apply wp_bind, (wp_poke (r_line0 r ++ 0 :: r_head r ++ r_tail r) c tail); [by apps| |by apply wp_ret].
    unfold r_bytes. pose proof (r_line_length r W). len.
Qed.

(** C23. A printer's response that arrives in one piece, smaller than the read
    buffer, is judged as the protocol says: [printer_status] returns, and it
    reports success exactly when the HTTP status is of the 200 class, the
    request number of the IPP header is that of the job and the IPP status is
    of the successful class.  The rest of the connection is not touched. *)
Theorem printer_status_complete r turns fuel junk id l s :
  well_formed r -> HTTP_INFO (r_code r) = false ->
  (length (r_bytes r) < IOBUFSZ)%nat -> (length (r_bytes r) < fuel)%nat -> (0 < turns)%nat ->
  s_in s = Chunk (r_bytes r) :: l ->
  printer_status turns fuel junk id s =
    (Ret (HTTP_SUCCESS (r_code r) && (r_id r =? id) && (r_status r <=? 255)), set_in l s).
Proof.
  intros W Hi Hl Hf Ht Hs.
  pose proof (printer_status_response r turns fuel junk id l s W Hi Hl Hf Ht Hs) as H.
  apply wp_run in H as (x & s' & -> & -> & ->). done.
Qed.

(** ** A response that arrives in pieces *)

(** Once the search for the blank line has stopped inside the last two bytes
    of the data, it never leaves them. *)
Lemma find_end_stuck fuel l d i s :
  d - 2 <= Z.of_nat i < d -> (find_end fuel (Pbuf l d) i s).1 = Stop Hang.
Proof.
  intros Hi. induction fuel as [|fuel IH]; [done|]. cbn [find_end datsz bp find_blank].
  apply bind_fst. destruct (Z.ltb_spec (Z.of_nat i) (d - 2)); [lia|].
  apply wp_ret. apply bind_fst. destruct (Z.geb_spec (Z.of_nat i) d); [lia|].
  by apply wp_ret.
Qed.

(** Without a blank line in the data the search stops there. *)
Lemma find_blank_none f l d i Q s :
  (Z.to_nat d - i < f)%nat -> Z.of_nat i < d <= Z.of_nat (length l) ->
  (forall k, (i <= k)%nat -> Z.of_nat k + 2 < d -> ~ blank_at l k) ->
  (forall i', d - 2 <= Z.of_nat i' < d -> Q (false, i') s) ->
  wp (find_blank f (Pbuf l d) i) Q s.
Proof.
  revert i. induction f as [|f IH]; intros i Hf Hl Hno HQ; [lia|].
  cbn [find_blank bp datsz]. destruct (Z.ltb_spec (Z.of_nat i) (d - 2)).
  2:{ apply wp_ret, HQ. lia. }
  assert (forall k, (k < 3)%nat -> exists x, l !! (k + i)%nat = Some x) as Hx
    by (intros; apply lookup_lt_is_Some; lia).
  destruct (Hx 0%nat) as [a Ha], (Hx 1%nat) as [b Hb], (Hx 2%nat) as [c Hc]; [lia..|].
  cbn [Nat.add] in *.
  assert (HR : wp (find_blank f (Pbuf l d) (S i)) Q s).
  { apply IH; auto; [lia|lia|]. intros k Hk. apply Hno. lia. }
  pose proof (Hno i ltac:(lia) ltac:(lia)) as Hni. unfold blank_at in Hni.
  eapply wp_bind, wp_peek; [done|].
  destruct (Z.eqb_spec a 10) as [->|]; cbn [negb]; [|done].
  eapply wp_bind, wp_peek; [done|].
  destruct (Z.eqb_spec b 13) as [->|]; cbn [negb]; [|done].
  eapply wp_bind, wp_peek; [done|].
  destruct (Z.eqb_spec c 10) as [->|]; [tauto|done].
Qed.

Lemma find_end_spins fuel l d i s :
  d <= Z.of_nat (length l) -> Z.of_nat i < d ->
  (forall k, (i <= k)%nat /\ Z.of_nat k + 2 < d -> ~ blank_at l k) ->
  (find_end fuel (Pbuf l d) i s).1 = Stop Hang.
Proof.
  intros Hd Hi Hno. destruct fuel as [|fuel]; [done|]. cbn [find_end datsz bp].
  apply bind_fst, find_blank_none; [lia|lia|intros; by apply Hno|].
  intros i' Hi'. apply bind_fst. destruct (Z.geb_spec (Z.of_nat i') d); [lia|].
  apply wp_ret. by apply find_end_stuck.
Qed.

(** C40. When the first piece of a successful response ends in the header, after
    the Content-Length and before the end of the blank line, the search for the
    blank line runs for ever: no amount of fuel suffices, whatever the printer
    sends next.  ([i] stops two bytes before [datsz], where the loop neither
    advances nor reads more.) *)
Theorem printer_status_spins r t turns fuel junk id l s :
  well_formed r -> HTTP_SUCCESS (r_code r) = true -> t <> [] ->
  (forall k, ~ blank_at t k) ->
  let piece := r_line r ++ 13 :: r_head r ++ t in
  (length piece < IOBUFSZ)%nat -> (length piece < fuel)%nat -> (0 < turns)%nat ->
  s_in s = Chunk piece :: l ->
  (printer_status turns fuel junk id s).1 = Stop Hang.
Proof.
  intros W Hc Ht Hno piece Hl Hf Htu Hs. destruct turns as [|turns]; [lia|].
  unfold printer_status. fold (fresh junk). pose proof (fresh_length junk) as Hb.
  assert (Hpos : (0 < length t)%nat) by (destruct t; [done | cbn; lia]).
  cbn [status_loop]. apply bind_fst.
  apply (wp_tread_chunk _ _ _ _ _ Hs); [lia|]. cbn [fst snd].
  destruct (Z.leb_spec (Z.of_nat (length piece)) 0); [unfold piece in *; len|].
  rewrite overwrite_start by lia. set (tail := drop _ (fresh junk)).
  apply bind_fst.
  replace (piece ++ tail) with (r_line r ++ 13 :: r_head r ++ t ++ tail)
    by (unfold piece; by apps).
  apply status_line_response; [done|].
  assert (HTTP_INFO (r_code r) = false) as -> by (unfold HTTP_INFO, HTTP_SUCCESS in *; lia).
  rewrite Hc. cbn [negb]. unfold ipp_status. pose proof (r_line_length r W).
  apply bind_fst, find_length_response; [done|unfold piece in *; len|unfold piece in *; len|].
  cbn zeta. set (p := r_line0 r ++ 0 :: r_hs r ++ CL ++ [32] ++ dec (r_len r) ++ [NUL]).
  assert (Hp : length piece = (length p + length t)%nat) by (unfold piece, p, r_head in *; len).
  cbn [datsz]. apply bind_fst. destruct (Z.geb_spec (Z.of_nat (length p)) (Z.of_nat (length piece))); [lia|].
  apply wp_ret, bind_stop, find_end_spins; [|lia|].
  - unfold tail. rewrite length_app, length_app. lia.
  - intros k Hk Hb'. apply (Hno (k - length p)%nat). apply (blank_at_ext _ tail).
    + lia.
    + rewrite <- (blank_at_app p). by replace (length p + (k - length p))%nat with k by lia.
Qed.

(** A response as CUPS sends it. *)
Definition ok_response : response :=
  Response (str "HTTP/1.1") 200 (str "OK") (10 :: str "Server: CUPS/2.4" ++ [13; 10]) 8
    13 [] 0 7 [].

Lemma ok_response_wf : well_formed ok_response.
Proof.
  split; cbn [ok_response r_ver r_code r_reason r_hs r_len r_sep r_rest r_status r_id].
  - done.
  - lia.
  - repeat constructor; done.
  - intros k Hk. do 19 (destruct k as [|k]; [vm_compute; done|]). cbn in Hk. lia.
  - cbn. lia.
  - done.
  - cbn. lia.
  - lia.
  - lia.
Qed.

Lemma printer_status_complete_witness :
  exists s', printer_status 1 200 [] 7 (Sock [Chunk (r_bytes ok_response)] [] [] 0) = (Ret true, s').
Proof.
  eexists. rewrite (printer_status_complete ok_response 1 200 [] 7 [] _ ok_response_wf).
  - reflexivity.
  - reflexivity.
  - apply Nat.ltb_lt. vm_compute. reflexivity.
  - apply Nat.ltb_lt. vm_compute. reflexivity.
  - lia.
  - reflexivity.
Defined.

(** The same response, cut after the line end that follows the length. *)
Lemma printer_status_spins_witness :
  (printer_status 1 200 [] 7
    (Sock [Chunk (r_line ok_response ++ 13 :: r_head ok_response ++ [10]);
           Chunk ([13; 10] ++ r_ipp ok_response)] [] [] 0)).1 = Stop Hang.
Proof.
  apply (printer_status_spins ok_response [10] 1 200 [] 7
    [Chunk ([13; 10] ++ r_ipp ok_response)] _ ok_response_wf).
  - reflexivity.
  - discriminate.
  - intros k (H & H1 & _). by destruct k.
  - apply Nat.ltb_lt. vm_compute. reflexivity.
  - apply Nat.ltb_lt. vm_compute. reflexivity.
  - lia.
  - reflexivity.
Defined.
