(* ===== verification/Printd.v ===== *)
(** * The print spooler daemon: src/apue.3e/printer/printd.c

    State and operations of the daemon: the queue of pending jobs, the list of
    worker threads, job numbers and the job-number file, the spool directory,
    the client's connection and the connection to the printer.  The threads'
    functions are given whole; where they take a mutex, the model records that
    it is held, and a second lock of it is a [Hang]. *)

From S2P Require Import Prelude CLib Posix Stream Dll Wire PrintStatus.
Import Lockreg.

(** ** Constants and structures: print.h *)

Definition SPOOLDIR : bytes := str "/var/spool/printer".
Definition JOBFILE : bytes := str "jobno".
Definition DATADIR : bytes := str "data".
Definition REQDIR : bytes := str "reqs".
Definition FILENMSZ : nat := 64.
Definition USERNM_MAX : nat := 64.
Definition JOBNM_MAX : nat := 256.
Definition MSGLEN_MAX : nat := 512.
Definition IBUFSZ : nat := 512.
Definition HBUFSZ : nat := 512.
Definition IPP_PORT : Z := 631.
Definition PR_TEXT : Z := 1.

Record printreq := Req { rq_size : Z; rq_flags : Z; rq_usernm : bytes; rq_jobnm : bytes }.

(** [sizeof(struct printreq)] and [sizeof(struct printresp)]. *)
Definition REQSZ : nat := 328.
Definition RESPSZ : nat := 520.

(** The structure in memory, and read back from memory. *)
Definition enc_req (r : printreq) : bytes :=
  le32 (rq_size r) ++ le32 (rq_flags r) ++ rq_usernm r ++ rq_jobnm r.
Definition dec_req (l : bytes) : printreq :=
  Req (rd_le32 l) (rd_le32 (drop 4 l)) (sub 8 USERNM_MAX l) (sub 72 JOBNM_MAX l).

Record printresp := Resp { rs_retcode : Z; rs_jobid : Z; rs_msg : bytes }.

Definition enc_resp (r : printresp) : bytes := le32 (rs_retcode r) ++ le32 (rs_jobid r) ++ rs_msg r.

Record job := Job { jobid : Z; req : printreq }.
Record worker_thread := Worker { tid : Z; sockfd : Z }.

(** What the next attempt to connect to the printer meets: no socket, a refused
    connection, or a connection. *)
Inductive peer := NoSocket | Refused | Up (s : sock).

(** ** The daemon's state *)

Record pd := Pd {
  jobs : heap job;
  jobhead : Z;
  jobtail : Z;
  jobfd : Z;
  nextjob : Z;
  joblock : bool;
  wkrs : heap worker_thread;
  workers : Z;
  workerlock : bool;
  reread : bool;
  configlock : bool;
  printer_name : bytes;
  os : world;
  socks : gmap Z sock;
  peers : list peer;
  cancelled : list Z;
  mallocs : list bool }.

(** Field assignment. *)
Definition set_jobs x d := Pd x (jobhead d) (jobtail d) (jobfd d) (nextjob d) (joblock d) (wkrs
  d) (workers d) (workerlock d) (reread d) (configlock d) (printer_name d) (os d) (socks d)
  (peers d) (cancelled d) (mallocs d).
Definition set_jobhead x d := Pd (jobs d) x (jobtail d) (jobfd d) (nextjob d) (joblock d) (wkrs
  d) (workers d) (workerlock d) (reread d) (configlock d) (printer_name d) (os d) (socks d)
  (peers d) (cancelled d) (mallocs d).
Definition set_jobtail x d := Pd (jobs d) (jobhead d) x (jobfd d) (nextjob d) (joblock d) (wkrs
  d) (workers d) (workerlock d) (reread d) (configlock d) (printer_name d) (os d) (socks d)
  (peers d) (cancelled d) (mallocs d).
Definition set_jobfd x d := Pd (jobs d) (jobhead d) (jobtail d) x (nextjob d) (joblock d) (wkrs
  d) (workers d) (workerlock d) (reread d) (configlock d) (printer_name d) (os d) (socks d)
  (peers d) (cancelled d) (mallocs d).
Definition set_nextjob x d := Pd (jobs d) (jobhead d) (jobtail d) (jobfd d) x (joblock d) (wkrs
  d) (workers d) (workerlock d) (reread d) (configlock d) (printer_name d) (os d) (socks d)
  (peers d) (cancelled d) (mallocs d).
Definition set_joblock x d := Pd (jobs d) (jobhead d) (jobtail d) (jobfd d) (nextjob d) x (wkrs
  d) (workers d) (workerlock d) (reread d) (configlock d) (printer_name d) (os d) (socks d)
  (peers d) (cancelled d) (mallocs d).
Definition set_wkrs x d := Pd (jobs d) (jobhead d) (jobtail d) (jobfd d) (nextjob d) (joblock d)
  x (workers d) (workerlock d) (reread d) (configlock d) (printer_name d) (os d) (socks d)
  (peers d) (cancelled d) (mallocs d).
Definition set_workers x d := Pd (jobs d) (jobhead d) (jobtail d) (jobfd d) (nextjob d) (joblock
  d) (wkrs d) x (workerlock d) (reread d) (configlock d) (printer_name d) (os d) (socks d)
  (peers d) (cancelled d) (mallocs d).
Definition set_workerlock x d := Pd (jobs d) (jobhead d) (jobtail d) (jobfd d) (nextjob d)
  (joblock d) (wkrs d) (workers d) x (reread d) (configlock d) (printer_name d) (os d) (socks d)
  (peers d) (cancelled d) (mallocs d).
Definition set_reread x d := Pd (jobs d) (jobhead d) (jobtail d) (jobfd d) (nextjob d) (joblock
  d) (wkrs d) (workers d) (workerlock d) x (configlock d) (printer_name d) (os d) (socks d)
  (peers d) (cancelled d) (mallocs d).
Definition set_configlock x d := Pd (jobs d) (jobhead d) (jobtail d) (jobfd d) (nextjob d)
  (joblock d) (wkrs d) (workers d) (workerlock d) (reread d) x (printer_name d) (os d) (socks d)
  (peers d) (cancelled d) (mallocs d).
Definition set_printer_name x d := Pd (jobs d) (jobhead d) (jobtail d) (jobfd d) (nextjob d)
  (joblock d) (wkrs d) (workers d) (workerlock d) (reread d) (configlock d) x (os d) (socks d)
  (peers d) (cancelled d) (mallocs d).
Definition set_os x d := Pd (jobs d) (jobhead d) (jobtail d) (jobfd d) (nextjob d) (joblock d)
  (wkrs d) (workers d) (workerlock d) (reread d) (configlock d) (printer_name d) x (socks d)
  (peers d) (cancelled d) (mallocs d).
Definition set_socks x d := Pd (jobs d) (jobhead d) (jobtail d) (jobfd d) (nextjob d) (joblock
  d) (wkrs d) (workers d) (workerlock d) (reread d) (configlock d) (printer_name d) (os d) x
  (peers d) (cancelled d) (mallocs d).
Definition set_peers x d := Pd (jobs d) (jobhead d) (jobtail d) (jobfd d) (nextjob d) (joblock
  d) (wkrs d) (workers d) (workerlock d) (reread d) (configlock d) (printer_name d) (os d)
  (socks d) x (cancelled d) (mallocs d).
Definition set_cancelled x d := Pd (jobs d) (jobhead d) (jobtail d) (jobfd d) (nextjob d)
  (joblock d) (wkrs d) (workers d) (workerlock d) (reread d) (configlock d) (printer_name d) (os
  d) (socks d) (peers d) x (mallocs d).
Definition set_mallocs x d := Pd (jobs d) (jobhead d) (jobtail d) (jobfd d) (nextjob d) (joblock
  d) (wkrs d) (workers d) (workerlock d) (reread d) (configlock d) (printer_name d) (os d)
  (socks d) (peers d) (cancelled d) x.

Definition sysp {A} (m : M world A) : M pd A := zoom os set_os m.
Definition jmem {A} (m : M (heap job) A) : M pd A := zoom jobs set_jobs m.
Definition wmem {A} (m : M (heap worker_thread) A) : M pd A := zoom wkrs set_wkrs m.

(** A call on a socket; a descriptor that is not open gives an error. *)
Definition on_sock {A} (fd : Z) (m : M sock A) : M pd A := fun d =>
  let s := default (Sock [RErr EBADF] [] [WErr EBADF] EBADF) (socks d !! fd) in
  match m s with
  | (r, s') => (r, set_socks (match socks d !! fd with Some _ => <[fd := s']> (socks d) | None => socks d end) d)
  end.

Definition close_sock (fd : Z) : M pd unit := modify (fun d => set_socks (delete fd (socks d)) d).

(** Does [malloc] succeed? *)
Definition malloc_ok : M pd bool := fun d =>
  match mallocs d with
  | [] => (Ret true, d)
  | b :: l => (Ret b, set_mallocs l d)
  end.

Definition log_sys {S A} (msg : string) : M S A := stop (Err_sys msg).
Definition log_quit {S A} (msg : string) : M S A := stop (Err_quit msg).

(** The mutexes: a second lock by the same thread waits for ever. *)
Definition lock_job : M pd unit :=
  let* d := get in if joblock d then stop Hang else modify (set_joblock true).
Definition unlock_job : M pd unit := modify (set_joblock false).
Definition lock_worker : M pd unit :=
  let* d := get in if workerlock d then stop Hang else modify (set_workerlock true).
Definition unlock_worker : M pd unit := modify (set_workerlock false).
Definition lock_config : M pd unit :=
  let* d := get in if configlock d then stop Hang else modify (set_configlock true).
Definition unlock_config : M pd unit := modify (set_configlock false).

(** ** Job numbers *)

Definition init_request : M pd unit :=
  let name := cstr (snprintf FILENMSZ (SPOOLDIR ++ str "/" ++ JOBFILE)) in
  let* fd := sysp (open name (Z.lor O_CREAT O_RDWR)) in
  modify (set_jobfd fd) ;;;
  let* r := sysp (write_lock fd 0 SEEK_SET 0) in
  (if r <? 0 then log_quit "daemon already running" else ret tt) ;;;
  let* nd := sysp (read fd FILENMSZ) in
  (if nd.1 <? 0 then log_sys "can't read job file" else ret tt) ;;;
  if nd.1 =? 0 then modify (set_nextjob 1)
  else (* the buffer still holds the file's name after the bytes read *)
    modify (set_nextjob (to_i32 (atol (overwrite 0 nd.2 (name ++ [NUL]))))).

Definition update_jobno : M pd unit :=
  let* d := get in
  let* r := sysp (lseek (jobfd d) 0 SEEK_SET) in
  (if r =? -1 then log_sys "can't seek in job file" else ret tt) ;;;
  let buf := snprintf 32 (dec (nextjob d)) in
  let* n := sysp (write (jobfd d) (cstr buf)) in
  if n <? 0 then log_sys "can't update job file" else ret tt.

(** [nextjob++] on a 32-bit [int]. *)
Definition get_newjobno : M pd Z :=
  lock_job ;;;
  let* d := get in
  let id := nextjob d in
  let nxt := to_i32 (id + 1) in
  modify (set_nextjob (if nxt <=? 0 then 1 else nxt)) ;;;
  unlock_job ;;;
  ret id.

(** ** The job queue *)

Definition add_job (reqp : printreq) (id : Z) : M pd unit :=
  let* ok := malloc_ok in
  if negb ok then log_sys "malloc failed" else
  let* jp := jmem (alloc (Job id reqp)) in
  jmem (set_next jp null) ;;;
  lock_job ;;;
  let* d := get in
  jmem (set_prev jp (jobtail d)) ;;;
  (if jobtail d =? null then modify (set_jobhead jp)
   else jmem (set_next (jobtail d) jp)) ;;;
  modify (set_jobtail jp) ;;;
  unlock_job.

Definition replace_job (jp : Z) : M pd unit :=
  lock_job ;;;
  let* d := get in
  jmem (set_prev jp null) ;;;
  jmem (set_next jp (jobhead d)) ;;;
  (if jobhead d =? null then modify (set_jobtail jp)
   else jmem (set_prev (jobhead d) jp)) ;;;
  modify (set_jobhead jp) ;;;
  unlock_job.

(** The caller holds [joblock]. *)
Definition remove_job (target : Z) : M pd unit :=
  let* t := jmem (load target) in
  (if negb (n_next t =? null) then jmem (set_prev (n_next t) (n_prev t))
   else modify (set_jobtail (n_prev t))) ;;;
  let* t := jmem (load target) in
  (if negb (n_prev t =? null) then jmem (set_next (n_prev t) (n_next t))
   else modify (set_jobhead (n_next t))).

(** The printer thread picks up the first job; null when the queue is empty
    and it waits (which releases [joblock]). *)
Definition pick_job : M pd Z :=
  lock_job ;;;
  let* d := get in
  if jobhead d =? null then unlock_job ;;; ret null else
  remove_job (jobhead d) ;;;
  unlock_job ;;;
  ret (jobhead d).

(** ** Worker threads *)

(** [false] when the thread exits because there is no memory. *)
Definition add_worker (t fd : Z) : M pd bool :=
  let* ok := malloc_ok in
  if negb ok then ret false else
  let* wtp := wmem (alloc (Worker t fd)) in
  lock_worker ;;;
  let* d := get in
  wmem (set_prev wtp null) ;;;
  wmem (set_next wtp (workers d)) ;;;
  (if workers d =? null then modify (set_workers wtp)
   else wmem (set_prev (workers d) wtp)) ;;;
  unlock_worker ;;;
  ret true.

Fixpoint kill_loop (fuel : nat) (wtp : Z) : M pd unit :=
  match fuel with
  | O => stop Hang
  | S f =>
      if wtp =? null then ret tt else
      let* w := wmem (load wtp) in
      modify (fun d => set_cancelled (cancelled d ++ [tid (n_val w)]) d) ;;;
      kill_loop f (n_next w)
  end.

Definition kill_workers : M pd unit :=
  lock_worker ;;;
  let* d := get in
  kill_loop (S (size (wkrs d))) (workers d) ;;;
  unlock_worker.

(** The search of [client_cleanup], with the unlinking at the match: the
    worker found, or null. *)
Fixpoint cleanup_loop (fuel : nat) (t wtp : Z) : M pd Z :=
  match fuel with
  | O => stop Hang
  | S f =>
      if wtp =? null then ret null else
      let* w := wmem (load wtp) in
      if tid (n_val w) =? t then
        (if negb (n_next w =? null) then wmem (set_prev (n_next w) (n_prev w)) else ret tt) ;;;
        (if negb (n_prev w =? null) then wmem (set_next (n_prev w) (n_next w))
         else modify (set_workers (n_next w))) ;;;
        ret wtp
      else cleanup_loop f t (n_next w)
  end.

Definition client_cleanup (t : Z) : M pd unit :=
  lock_worker ;;;
  let* d := get in
  let* wtp := cleanup_loop (S (size (wkrs d))) t (workers d) in
  unlock_worker ;;;
  if wtp =? null then ret tt else
  let* w := wmem (load wtp) in
  close_sock (sockfd (n_val w)) ;;;
  wmem (dealloc wtp).

(** ** Serving a client *)

Definition spool_name (dir : bytes) (id : Z) : bytes :=
  cstr (snprintf FILENMSZ (SPOOLDIR ++ str "/" ++ dir ++ str "/" ++ dec id)).

Definition sock_errno (fd : Z) : M pd Z := on_sock fd (let* s := get in ret (s_errno s)).
Definition os_errno : M pd Z := sysp (let* w := get in ret (w_errno w)).

(** More turns than the reads of a connection can make. *)
Fixpoint in_weight (l : list rd) : nat :=
  match l with
  | [] => 0
  | Chunk d :: l' => S (length d) + in_weight l'
  | _ :: l' => S (in_weight l')
  end.
Definition sock_fuel (fd : Z) : M pd nat := on_sock fd (let* s := get in ret (S (in_weight (s_in s)))).

Section client.
(** The text of an error number, and what the stack buffers [buf] and
    [res.msg] hold before they are written. *)
Context (strerror : Z -> bytes) (buf0 msg0 : bytes).

Definition reply (fd retcode id : Z) (msg : bytes) : M pd unit :=
  on_sock fd (writen (enc_resp (Resp retcode id (overwrite 0 (snprintf MSGLEN_MAX msg) msg0)))) ;;; ret tt.

(** An error response: the code in network byte order, which is also what
    [strerror] is given. *)
Definition reply_err (fd e : Z) : M pd unit := reply fd (htonl e) 0 (strerror (htonl e)).

(** The loop that copies the data to the spool file: the flags of the request
    afterwards, or the error to report. *)
Fixpoint copy_loop (fuel : nat) (fd dfd : Z) (first : bool) (flags : Z) : M pd (Z + Z) :=
  match fuel with
  | O => stop Hang
  | S f =>
      let* nd := on_sock fd (tread IOBUFSZ) in
      if nd.1 <=? 0 then ret (inr flags) else
      let flags := if first && negb (strncmp 4 (overwrite 0 nd.2 buf0) (str "%!PS") =? 0)
                   then Z.lor flags PR_TEXT else flags in
      let* nw := sysp (write dfd nd.2) in
      if negb (nw =? nd.1) then
        let* e := os_errno in ret (inl (if nw <? 0 then e else EIO))
      else copy_loop f fd dfd false flags
  end.

(** From the control file on; the data is in the spool. *)
Definition write_control (fd id : Z) (rq : printreq) : M pd Z :=
  let* cfd := sysp (creat (spool_name REQDIR id)) in
  if cfd <? 0 then
    let* e := os_errno in reply_err fd e ;;;
    sysp (unlink (spool_name DATADIR id)) ;;; ret 1
  else
  let* nw := sysp (write cfd (enc_req rq)) in
  if negb (nw =? Z.of_nat REQSZ) then
    let* e := os_errno in
    sysp (close cfd) ;;;
    reply_err fd (if nw <? 0 then e else EIO) ;;;
    sysp (unlink (spool_name REQDIR id)) ;;;
    sysp (unlink (spool_name DATADIR id)) ;;; ret 1
  else
  sysp (close cfd) ;;;
  reply fd 0 (htonl id) (str "request ID " ++ dec id) ;;;
  add_job rq id ;;;
  ret 0.

(** From the creation of the data file on. *)
Definition client_data (fd id : Z) (rq : printreq) : M pd Z :=
  let* dfd := sysp (creat (spool_name DATADIR id)) in
  if dfd <? 0 then
    let* e := os_errno in reply_err fd e ;;; ret 1
  else
  let* fuel := sock_fuel fd in
  let* r := copy_loop fuel fd dfd true (rq_flags rq) in
  match r with
  | inl e =>
      sysp (close dfd) ;;;
      reply_err fd e ;;;
      sysp (unlink (spool_name DATADIR id)) ;;; ret 1
  | inr flags =>
      sysp (close dfd) ;;;
      write_control fd id (Req (rq_size rq) flags (rq_usernm rq) (rq_jobnm rq))
  end.

Definition client_body (fd : Z) : M pd Z :=
  let* nd := on_sock fd (treadn REQSZ) in
  if negb (nd.1 =? Z.of_nat REQSZ) then
    let* e := sock_errno fd in
    reply_err fd (if nd.1 <? 0 then e else EIO) ;;; ret 1
  else
  let raw := dec_req nd.2 in
  let* id := get_newjobno in
  client_data fd id (Req (ntohl (rq_size raw)) (ntohl (rq_flags raw)) (rq_usernm raw) (rq_jobnm raw)).

(** [pthread_exit] and the end of the function both run the cleanup handler. *)
Definition client_thread (t fd : Z) : M pd Z :=
  let* ok := add_worker t fd in
  let* rc := (if ok then client_body fd else ret 1) in
  client_cleanup t ;;;
  ret rc.
End client.
