(* ===== verification/PrintQueue.v ===== *)
(** * The job queue of the print spooler

    The linked list of pending jobs of printd.c ([add_job], [replace_job],
    [remove_job]) behaves as a queue, and the numbers [get_newjobno] hands out
    and [update_jobno]/[init_request] store and read back. *)

From S2P Require Import Prelude CLib Posix Stream Dll Wire PrintStatus Printd.
Import Lockreg.

(** The part of the state the queue operations leave alone. *)
Definition rest (d : pd) :=
  (jobfd d, nextjob d, wkrs d, workers d, workerlock d,
   (reread d, configlock d, printer_name d, os d, socks d, peers d, cancelled d)).

Lemma rest_eq d d' : rest d' = rest d ->
  (jobfd d' = jobfd d /\ nextjob d' = nextjob d /\ os d' = os d /\ socks d' = socks d) /\
  (reread d' = reread d /\ configlock d' = configlock d /\ printer_name d' = printer_name d /\ peers d' = peers d) /\
  (wkrs d' = wkrs d /\ workers d' = workers d /\ workerlock d' = workerlock d /\ cancelled d' = cancelled d).
Proof. unfold rest. intros. simplify_eq. done. Qed.

(** The cells [l] are the queue, and nobody holds [joblock]. *)
Record Queue (d : pd) (l : list Z) : Prop := {
  q_dll : Dll (jobs d) l (jobhead d) (jobtail d);
  q_free : joblock d = false }.

(** What [d'] has in common with [d]: the jobs in memory and [rest]. *)
Definition kept (d d' : pd) : Prop :=
  rest d' = rest d /\ mallocs d' = mallocs d /\ forall a, vals (jobs d') a = vals (jobs d) a.

Lemma wp_jmem {A} (m : M (heap job) A) Q d :
  wp m (fun a h => Q a (set_jobs h d)) (jobs d) -> wp (jmem m) Q d.
Proof. apply wp_zoom. Qed.

Ltac stepj := apply wp_bind; first [apply wp_get | apply wp_modify | apply wp_jmem]; cbv beta.

Lemma lock_job_free d Q : joblock d = false -> Q tt (set_joblock true d) -> wp lock_job Q d.
Proof. intros E HQ. unfold lock_job. apply wp_bind, wp_get. by rewrite E. Qed.

Lemma replace_job_spec d l jp c :
  Queue d l -> jp <> null -> jp ∉ l -> jobs d !! jp = Some c ->
  wp (replace_job jp) (fun _ d' => Queue d' (jp :: l) /\ kept d d') d.
Proof.
  intros [HD Hlk] Hj Hjl Hv. unfold replace_job. apply wp_bind, lock_job_free; [done|]. stepj.
  cbn [jobhead set_joblock]. stepj. eapply wp_set_prev; [exact Hv|].
  stepj. eapply wp_set_next; [by apply lookup_insert_eq|]. cbn [n_next n_prev n_val set_jobs jobs].
  rewrite insert_insert_eq. apply wp_bind.
  destruct (Z.eqb_spec (jobhead d) null) as [E|E]; cbn [negb].
  - apply wp_modify. stepj. apply wp_modify.
    apply (Dll_first _ _ _ _ HD) in E as ->. split; [split; [|done]|split; [done|split; [done|]]].
    + eapply (Dll_push_front (jobs d) _ [] _ _ jp (n_val c)) in HD; [by rewrite decide_True in HD|done|done|..].
      * apply lookup_insert_eq.
      * set_solver.
    + intros a. by apply vals_insert.
  - destruct (Dll_first_in _ _ _ _ HD E) as [Hin Hl]. assert (Hne : jobhead d <> jp) by (intros <-; done).
    destruct (Dll_cell _ _ _ _ _ HD Hin) as [x Hx].
    apply wp_jmem. eapply wp_set_prev; [cbn; by rewrite lookup_insert_ne|]. stepj. apply wp_modify.
    split; [split; [|done]|split; [done|split; [done|]]].
    + eapply (Dll_push_front (jobs d) _ l _ _ jp (n_val c)) in HD; [by rewrite decide_False in HD|done|done|..].
      * cbn. rewrite lookup_insert_ne by done. apply lookup_insert_eq.
      * intros b y Hb Hy. cbn. destruct (decide (b = jobhead d)) as [->|Hbq].
        -- rewrite lookup_insert_eq. by simplify_eq.
        -- rewrite !lookup_insert_ne by set_solver. done.
    + intros a. cbn. rewrite !vals_insert; [done|done|by rewrite lookup_insert_ne].
Qed.

(** The linking part of [add_job], for a cell outside the queue. *)
Lemma link_back d l jp c Q :
  Queue d l -> jp <> null -> jp ∉ l -> jobs d !! jp = Some c -> n_next c = null ->
  (forall d', Queue d' (l ++ [jp]) -> kept d d' -> Q tt d') ->
  wp (lock_job ;;;
      let* d := get in
      jmem (set_prev jp (jobtail d)) ;;;
      (if jobtail d =? null then modify (set_jobhead jp)
       else jmem (set_next (jobtail d) jp)) ;;;
      modify (set_jobtail jp) ;;;
      unlock_job) Q d.
Proof.
  intros [HD Hlk] Hj Hjl Hv Hn HQ. apply wp_bind, lock_job_free; [done|]. stepj.
  cbn [jobtail set_joblock]. stepj. eapply wp_set_prev; [exact Hv|]. rewrite Hn. apply wp_bind.
  destruct (Z.eqb_spec (jobtail d) null) as [E|E]; cbn [negb].
  - apply wp_modify. stepj. apply wp_modify.
    apply (Dll_last _ _ _ _ HD) in E as ->. apply HQ; [split; [|done]|split; [done|split; [done|]]].
    + eapply (Dll_push_back (jobs d) _ [] _ _ jp (n_val c)) in HD; [by rewrite decide_True in HD|done|done|..].
      * apply lookup_insert_eq.
      * set_solver.
    + intros a. by apply vals_insert.
  - destruct (Dll_last_in _ _ _ _ HD E) as [Hin Hl]. assert (Hne : jobtail d <> jp) by (intros <-; done).
    destruct (Dll_cell _ _ _ _ _ HD Hin) as [x Hx].
    apply wp_jmem. eapply wp_set_next; [cbn; by rewrite lookup_insert_ne|]. stepj. apply wp_modify.
    apply HQ; [split; [|done]|split; [done|split; [done|]]].
    + eapply (Dll_push_back (jobs d) _ l _ _ jp (n_val c)) in HD; [by rewrite decide_False in HD|done|done|..].
      * cbn. rewrite lookup_insert_ne by done. apply lookup_insert_eq.
      * intros b y Hb Hy. cbn. destruct (decide (b = jobtail d)) as [->|Hbq].
        -- rewrite lookup_insert_eq. by simplify_eq.
        -- rewrite !lookup_insert_ne by set_solver. done.
    + intros a. cbn. rewrite !vals_insert; [done|done|by rewrite lookup_insert_ne].
Qed.

Lemma wp_malloc_ok d Q :
  (forall b l, mallocs d = b :: l -> Q b (set_mallocs l d)) -> (mallocs d = [] -> Q true d) ->
  wp malloc_ok Q d.
Proof. unfold wp, malloc_ok. destruct (mallocs d); auto. Qed.

Lemma Queue_ext d d' l :
  Queue d l -> (forall a, a ∈ l -> jobs d' !! a = jobs d !! a) -> jobhead d' = jobhead d ->
  jobtail d' = jobtail d -> joblock d' = joblock d -> Queue d' l.
Proof.
  intros [HD Hl] He Hh Ht Hk. split; [|congruence]. rewrite Hh, Ht. by eapply Dll_ext.
Qed.

(** Memory for one job is available. *)
Definition has_mem (d : pd) : Prop := hd true (mallocs d) = true.

Lemma add_job_spec d l rq id :
  Queue d l -> has_mem d ->
  wp (add_job rq id) (fun _ d' => exists jp, jp <> null /\ jobs d !! jp = None /\
    Queue d' (l ++ [jp]) /\ rest d' = rest d /\ mallocs d' = tl (mallocs d) /\
    vals (jobs d') jp = Some (Job id rq) /\
    forall a, a <> jp -> vals (jobs d') a = vals (jobs d) a) d.
Proof.
  intros HQ Hm. unfold add_job, has_mem in *.
  assert (Hgo : forall d1, jobs d1 = jobs d -> jobhead d1 = jobhead d -> jobtail d1 = jobtail d ->
    joblock d1 = joblock d -> rest d1 = rest d -> mallocs d1 = tl (mallocs d) ->
    wp (let* jp := jmem (alloc (Job id rq)) in
        jmem (set_next jp null) ;;; lock_job ;;;
        let* d := get in
        jmem (set_prev jp (jobtail d)) ;;;
        (if jobtail d =? null then modify (set_jobhead jp) else jmem (set_next (jobtail d) jp)) ;;;
        modify (set_jobtail jp) ;;; unlock_job)
      (fun _ d' => exists jp, jp <> null /\ jobs d !! jp = None /\
        Queue d' (l ++ [jp]) /\ rest d' = rest d /\ mallocs d' = tl (mallocs d) /\
        vals (jobs d') jp = Some (Job id rq) /\
        forall a, a <> jp -> vals (jobs d') a = vals (jobs d) a) d1).
  { intros d1 E1 E2 E3 E4 E5 E6. stepj. apply wp_alloc. intros jp Hj Hn. rewrite E1 in *.
    assert (Hjl : jp ∉ l).
    { intros H. destruct (Dll_cell _ _ _ _ _ (q_dll _ _ HQ) H) as [c Hc]. congruence. }
    stepj. eapply wp_set_next; [by apply lookup_insert_eq|]. cbn [n_prev n_val set_jobs jobs].
    rewrite insert_insert_eq.
    eapply (link_back _ l jp); [|done|done|by apply lookup_insert_eq|done|].
    { eapply Queue_ext; [exact HQ| |done..]. intros a Ha. cbn. rewrite lookup_insert_ne; [done|set_solver]. }
    intros d' HQ' (Hr & Hmm & Hv). exists jp. split_and!; try done.
    - rewrite Hr. exact E5.
    - rewrite Hmm. exact E6.
    - rewrite Hv. cbn. unfold vals. by rewrite lookup_insert_eq.
    - intros a Ha. rewrite Hv. cbn. unfold vals. by rewrite lookup_insert_ne. }
  apply wp_bind, wp_malloc_ok.
  - intros b ml Em. rewrite Em in *. cbn in Hm. subst b. cbn [negb]. by apply Hgo.
  - intros Em. cbn [negb]. apply Hgo; try done. by rewrite Em.
Qed.

(** The cells next to a queued job. *)
Lemma q_neighbours d l1 jp l2 : Queue d (l1 ++ jp :: l2) ->
  exists v, jobs d !! jp = Some (Node (hd null l2) (lst null l1) v) /\ (jp ∉ l1) /\ (jp ∉ l2) /\
    (l1 <> [] -> exists c, jobs d !! lst null l1 = Some c) /\ (l1 <> [] -> lst null l1 ∈ l1) /\
    (l2 <> [] -> exists c, jobs d !! hd null l2 = Some c) /\ (l2 <> [] -> hd null l2 ∈ l2) /\
    (forall a, a ∈ l1 -> a ∉ l2) /\ (null ∉ l1) /\ (null ∉ l2).
Proof.
  intros [HD _]. destruct (HD) as [Hs Hn Hnl Hf Ht]. destruct (lseg_mid _ _ _ _ _ _ Hs) as [v Hv].
  apply list.NoDup_app in Hn as (Hn1 & Hd & Hn2). apply list.NoDup_cons in Hn2 as [Ha2 Hn2].
  assert (H1 : l1 <> [] -> lst null l1 ∈ l1) by apply lst_in.
  assert (H2 : l2 <> [] -> hd null l2 ∈ l2) by (destruct l2; [done|set_solver]).
  exists v. split_and!; try done.
  - intros H. apply (Hd jp H). set_solver.
  - intros H. eapply Dll_cell; [exact HD|]. apply elem_of_app. auto.
  - intros H. eapply Dll_cell; [exact HD|]. specialize (H2 H). set_solver.
  - set_solver.
  - set_solver.
  - set_solver.
Qed.


Lemma hd_null (l : list Z) : null ∉ l -> hd null l = null <-> l = [].
Proof. destruct l as [|a l]; [done|]. cbn. intros H. split; [intros ->; set_solver | done]. Qed.

Lemma lst_null (l : list Z) : null ∉ l -> lst null l = null <-> l = [].
Proof.
  intros H. split; [|by intros ->]. intros E. destruct (decide (l = [])); [done|].
  exfalso. apply H. rewrite <- E at 1. by apply lst_in.
Qed.

Lemma remove_job_spec d l1 jp l2 :
  Dll (jobs d) (l1 ++ jp :: l2) (jobhead d) (jobtail d) ->
  wp (remove_job jp) (fun _ d' => Dll (jobs d') (l1 ++ l2) (jobhead d') (jobtail d') /\
    joblock d' = joblock d /\ kept d d' /\ jobs d' !! jp = jobs d !! jp) d.
Proof.
  intros HD. destruct (q_neighbours (set_joblock false d) l1 jp l2) as
    (v & Hv & Hj1 & Hj2 & Hc1 & Hl1 & Hc2 & Hl2 & Hd & Hn1 & Hn2); [by split|]. cbn [jobs set_joblock] in *.
  unfold remove_job. stepj. eapply wp_load; [exact Hv|]. cbn [n_next n_prev]. apply wp_bind.
  destruct (Z.eqb_spec (hd null l2) null) as [E2|E2]; cbn [negb].
  - apply hd_null in E2 as ->; [|done]. apply wp_modify. stepj. eapply wp_load; [exact Hv|]. cbn [n_next n_prev].
    destruct (Z.eqb_spec (lst null l1) null) as [E1|E1]; cbn [negb].
    + apply lst_null in E1 as ->; [|done]. apply wp_modify. split; [apply Dll_nil|done].
    + rewrite (lst_null l1 Hn1) in E1. destruct (Hc1 E1) as [c Hc]. specialize (Hl1 E1).
      apply wp_jmem. eapply wp_set_next; [exact Hc|]. split; [|split; [done|]].
      * eapply (Dll_remove _ _ l1 jp []) in HD; [|exact Hv|]; [by rewrite decide_False, decide_True in HD|].
        cbn. intros b x Hb Hx. rewrite (decide_False (P := b = null)) by set_solver.
        destruct (decide (b = lst null l1)) as [->|]; [rewrite lookup_insert_eq; by simplify_eq|].
        rewrite lookup_insert_ne, Hx by done. by destruct x.
      * split; [split; [done|split; [done|intros a; by apply vals_insert]]|].
        cbn. apply lookup_insert_ne. intros <-. done.
  - rewrite (hd_null l2 Hn2) in E2. destruct (Hc2 E2) as [c2 Hc2']. specialize (Hl2 E2).
    assert (Hjn : hd null l2 <> jp) by (intros <-; done).
    apply wp_jmem. eapply wp_set_prev; [exact Hc2'|]. stepj.
    eapply wp_load; [cbn; by rewrite lookup_insert_ne|]. cbn [n_next n_prev].
    destruct (Z.eqb_spec (lst null l1) null) as [E1|E1]; cbn [negb].
    + apply lst_null in E1 as ->; [|done]. apply wp_modify. split; [|split; [done|]].
      * eapply (Dll_remove _ _ [] jp l2) in HD; [|exact Hv|]; [by rewrite decide_True, decide_False in HD|].
        cbn. intros b x Hb Hx. rewrite (decide_False (P := b = null)) by set_solver.
        destruct (decide (b = hd null l2)) as [->|]; [rewrite lookup_insert_eq; by simplify_eq|].
        rewrite lookup_insert_ne, Hx by done. by destruct x.
      * split; [split; [done|split; [done|intros a; by apply vals_insert]]|]. cbn. by apply lookup_insert_ne.
    + rewrite (lst_null l1 Hn1) in E1. destruct (Hc1 E1) as [c1 Hc1']. specialize (Hl1 E1).
      assert (H12 : lst null l1 <> hd null l2) by (intros Eq; apply (Hd _ Hl1); rewrite Eq; done).
      assert (Hjp : lst null l1 <> jp) by (intros <-; done).
      apply wp_jmem. eapply wp_set_next; [cbn; by rewrite lookup_insert_ne|]. split; [|split; [done|]].
      * eapply (Dll_remove _ _ l1 jp l2) in HD; [|exact Hv|]; [by rewrite !decide_False in HD|].
        cbn. intros b x Hb Hx. destruct (decide (b = lst null l1)) as [->|Hb1].
        -- rewrite lookup_insert_eq, decide_False by done. by simplify_eq.
        -- rewrite lookup_insert_ne by done.
           destruct (decide (b = hd null l2)) as [->|Hb2]; [rewrite lookup_insert_eq; by simplify_eq|].
           rewrite lookup_insert_ne, Hx by done. by destruct x.
      * split; [split; [done|split; [done|]]|].
        -- intros a. cbn. rewrite !vals_insert; [done|done|by rewrite lookup_insert_ne].
        -- cbn. by rewrite !lookup_insert_ne.
Qed.

(** ** The queue as a list of jobs *)

(** The jobs of the queue, in order. *)
Definition Jobs (d : pd) (l : list Z) (q : list job) : Prop :=
  Queue d l /\ Forall2 (fun a j => vals (jobs d) a = Some j) l q.

Lemma Forall2_vals_ext (h h' : heap job) l q :
  (forall a, a ∈ l -> vals h' a = vals h a) ->
  Forall2 (fun a j => vals h a = Some j) l q -> Forall2 (fun a j => vals h' a = Some j) l q.
Proof.
  intros He H. induction H as [|a j l q Ha H IH]; constructor.
  - rewrite He; [done|set_solver].
  - apply IH. set_solver.
Qed.

Lemma pick_job_empty d l : Jobs d l [] -> wp pick_job (fun jp d' => jp = null /\ Jobs d' l [] /\ kept d d') d.
Proof.
  intros [HQ H2]. apply Forall2_nil_inv_r in H2 as ->. destruct HQ as [HD Hlk].
  unfold pick_job. apply wp_bind, lock_job_free; [done|]. stepj. cbn [jobhead set_joblock].
  rewrite (d_first _ _ _ _ HD). cbn [hd Z.eqb null]. stepj. apply wp_ret.
  split; [done|]. split; [|done]. split; [by split|constructor].
Qed.

Lemma pick_job_spec d l j q :
  Jobs d l (j :: q) ->
  wp pick_job (fun jp d' => l = jp :: tl l /\ jp <> null /\ Jobs d' (tl l) q /\ (jp ∉ tl l) /\
    kept d d' /\ vals (jobs d') jp = Some j) d.
Proof.
  intros [HQ H2]. destruct l as [|a l]; inversion H2 as [|? ? ? ? Ha Hl]; subst. clear H2. destruct HQ as [HD Hlk].
  pose proof (d_nodup _ _ _ _ HD) as Hnd. apply list.NoDup_cons in Hnd as [Hal _].
  pose proof (d_null _ _ _ _ HD) as Hnl. assert (a <> null) by set_solver.
  unfold pick_job. apply wp_bind, lock_job_free; [done|]. stepj. cbn [jobhead set_joblock].
  rewrite (d_first _ _ _ _ HD). cbn [hd]. destruct (Z.eqb_spec a null); [done|].
  eapply wp_seq; [apply (remove_job_spec _ [] a l); exact HD|cbv beta].
  intros _ d1 (HD1 & Hlk1 & (Hr & Hm & Hk) & Hcell). stepj. apply wp_ret. cbn [tl].
  assert (Hv : forall b, vals (jobs d1) b = vals (jobs d) b) by exact Hk.
  split_and!; try done; [split; [by split|]|by rewrite Hv].
  eapply Forall2_vals_ext; [|exact Hl]. intros b _. apply Hv.
Qed.

(** ** Sequences of queue operations

    What the client threads and the printer thread do to the queue: add a job,
    pick up the first one, put the one picked up back in front, or free it. *)
Inductive pqop := PAdd (rq : printreq) (id : Z) | PTake | PBack | PFree.

(** The second component of the state is the pointer [jp] of the printer
    thread, null when it has none. *)
Definition run_pqop (o : pqop) (jp : Z) : M pd Z :=
  match o with
  | PAdd rq id => add_job rq id ;;; ret jp
  | PTake => pick_job
  | PBack => replace_job jp ;;; ret null
  | PFree => jmem (dealloc jp) ;;; ret null
  end.

Fixpoint run_pqops (l : list pqop) (jp : Z) : M pd Z :=
  match l with
  | [] => ret jp
  | o :: l' => let* jp := run_pqop o jp in run_pqops l' jp
  end.

(** The same on a list; [None] when the printer thread picks up a second job
    or gives back a job it does not have. *)
Definition spec_pqop (o : pqop) (s : list job * option job) : option (list job * option job) :=
  match o, s with
  | PAdd rq id, (q, h) => Some (q ++ [Job id rq], h)
  | PTake, ([], None) => Some ([], None)
  | PTake, (j :: q, None) => Some (q, Some j)
  | PBack, (q, Some j) => Some (j :: q, None)
  | PFree, (q, Some j) => Some (q, None)
  | _, _ => None
  end.

Fixpoint spec_pqops (l : list pqop) (s : list job * option job) : option (list job * option job) :=
  match l with
  | [] => Some s
  | o :: l' => s1 ← spec_pqop o s; spec_pqops l' s1
  end.

(** The pointer of the printer thread refers to a job that is not queued. *)
Definition Held (d : pd) (l : list Z) (jp : Z) (h : option job) : Prop :=
  match h with
  | None => jp = null
  | Some j => jp <> null /\ (jp ∉ l) /\ vals (jobs d) jp = Some j
  end.

Lemma vals_cell {A} (h : heap A) a v : vals h a = Some v -> exists c, h !! a = Some c /\ n_val c = v.
Proof. unfold vals. intros H. apply fmap_Some in H as (c & ? & ?). eauto. Qed.

Lemma run_pqop_spec o d l q h jp q' h' :
  Jobs d l q -> Held d l jp h -> mallocs d = [] -> spec_pqop o (q, h) = Some (q', h') ->
  wp (run_pqop o jp) (fun jp' d' => exists l', Jobs d' l' q' /\ Held d' l' jp' h' /\
    mallocs d' = [] /\ rest d' = rest d) d.
Proof.
  intros [HQ H2] HH Hm Hs. destruct o as [rq id| | |]; cbn [run_pqop].
  - cbn in Hs. simplify_eq.
    eapply wp_seq; [apply (add_job_spec _ l); [done|unfold has_mem; by rewrite Hm]|cbv beta].
    intros _ d1 (a & Ha & Hfr & HQ1 & Hr & Hm1 & Hv & Hk). apply wp_ret.
    assert (Hal : forall b j, vals (jobs d) b = Some j -> b <> a).
    { intros b j Hb ->. unfold vals in Hb. by rewrite Hfr in Hb. }
    exists (l ++ [a]). rewrite Hm1, Hm. split_and!; try done.
    + split; [done|]. apply Forall2_app; [|by repeat constructor].
      eapply Forall2_impl; [|exact H2]. cbn. intros b j Hb. rewrite Hk; [done|by eapply Hal].
    + destruct h' as [j|]; [|done]. destruct HH as (Hj & Hjl & Hjv). split; [done|].
      pose proof (Hal _ _ Hjv). split; [set_solver|]. by rewrite Hk.
  - destruct q as [|j q], h; cbn in Hs; simplify_eq.
    + eapply wp_mono; [by apply (pick_job_empty _ l)|cbv beta]. intros r d1 (-> & HJ & Hr & Hm1 & _).
      exists l. rewrite Hm1. done.
    + eapply wp_mono; [by apply (pick_job_spec _ l)|cbv beta].
      intros r d1 (El & Hn & HJ & Hnl & (Hr & Hm1 & _) & Hv). exists (tl l). rewrite Hm1. done.
  - destruct h as [j|]; cbn in Hs; simplify_eq. destruct HH as (Hj & Hjl & Hjv).
    destruct (vals_cell _ _ _ Hjv) as (c & Hc & _).
    eapply wp_seq; [by apply (replace_job_spec _ l jp c)|cbv beta]. intros _ d1 (HQ1 & Hr & Hm1 & Hk).
    apply wp_ret. exists (jp :: l). rewrite Hm1. split_and!; try done. split; [done|].
    constructor; [by rewrite Hk|]. eapply Forall2_vals_ext; [|exact H2]. auto.
  - destruct h as [j|]; cbn in Hs; simplify_eq. destruct HH as (Hj & Hjl & Hjv).
    destruct (vals_cell _ _ _ Hjv) as (c & Hc & _).
    stepj. apply wp_dealloc; [by rewrite Hc|]. apply wp_ret. exists l. split_and!; try done.
    assert (Hne : forall a, a ∈ l -> delete jp (jobs d) !! a = jobs d !! a)
      by (intros a Ha; apply lookup_delete_ne; set_solver).
    split; [eapply Queue_ext; [exact HQ|exact Hne|done..]|].
    eapply Forall2_vals_ext; [|exact H2]. intros a Ha. unfold vals. cbn. by rewrite Hne.
Qed.

(** C14. The daemon's job list is a queue: under any sequence of adding a job,
    picking up the first one, putting it back in front and freeing it, the
    linked list holds the jobs of the list specification in order, no null or
    freed pointer is followed, [joblock] is released after every step, and
    nothing else of the daemon's state changes. *)
Theorem job_queue_refines ops d l q h jp q' h' :
  Jobs d l q -> Held d l jp h -> mallocs d = [] -> spec_pqops ops (q, h) = Some (q', h') ->
  wp (run_pqops ops jp) (fun jp' d' => exists l', Jobs d' l' q' /\ Held d' l' jp' h' /\
    rest d' = rest d) d.
Proof.
  revert d l q h jp. induction ops as [|o ops IH]; intros d l q h jp HJ HH Hm Hs; cbn in Hs.
  - simplify_eq. apply wp_ret. by exists l.
  - destruct (spec_pqop o (q, h)) as [[q1 h1]|] eqn:E1; [|done]. cbn in Hs.
    cbn [run_pqops]. eapply wp_seq; [by eapply run_pqop_spec|cbv beta].
    intros jp1 d1 (l1 & HJ1 & HH1 & Hm1 & Hr1).
    eapply wp_mono; [by eapply IH|cbv beta]. intros jp2 d2 (l2 & ? & ? & Hr2).
    exists l2. rewrite Hr2. done.
Qed.

Lemma job_queue_refines_witness :
  let r1 := Req 10 0 [] [] in let r2 := Req 20 0 [] [] in
  let d := Pd ∅ null null 0 1 false ∅ null false false false [] (World ∅ ∅ (fun _ _ => F_UNLCK) [] [] 0) ∅ [] [] [] in
  wp (run_pqops [PAdd r1 1; PAdd r2 2; PTake; PBack; PTake; PFree; PAdd r1 3] null)
    (fun jp' d' => exists l', Jobs d' l' [Job 2 r2; Job 3 r1] /\ Held d' l' jp' None /\ rest d' = rest d) d.
Proof.
  intros r1 r2 d. apply (job_queue_refines _ d [] [] None null); [|done|done|done].
  split; [split; [apply Dll_nil|done]|constructor].
Defined.

(** ** Job numbers *)

Fixpoint new_jobnos (n : nat) : M pd (list Z) :=
  match n with
  | O => ret []
  | S n' => let* id := get_newjobno in let* l := new_jobnos n' in ret (id :: l)
  end.

Definition INT_MAX : Z := 2 ^ 31 - 1.

(** The [i]th number from [k] on, in the cycle 1, ..., INT_MAX. *)
Definition jobno (k : Z) (i : nat) : Z := (k - 1 + Z.of_nat i) mod INT_MAX + 1.

Lemma jobno_range k i : 1 <= jobno k i <= INT_MAX.
Proof. unfold jobno. pose proof (Z.mod_pos_bound (k - 1 + Z.of_nat i) INT_MAX eq_refl). lia. Qed.

Lemma jobno_next k i : jobno (jobno k 1) i = jobno k (S i).
Proof.
  unfold jobno. f_equal. rewrite Z.add_simpl_r, Z.add_mod_idemp_l by done. f_equal. lia.
Qed.

Lemma get_newjobno_spec d :
  joblock d = false -> 1 <= nextjob d <= INT_MAX ->
  wp get_newjobno (fun id d' => id = nextjob d /\ d' = set_nextjob (jobno (nextjob d) 1) d) d.
Proof.
  intros Hl Hn. unfold get_newjobno. apply wp_bind, lock_job_free; [done|]. stepj. stepj. stepj.
  apply wp_ret. split; [done|]. cbn. unfold jobno, to_i32, INT_MAX in *.
  change (2 ^ 31) with 2147483648 in *. change (2 ^ 32) with 4294967296 in *.
  set (n := nextjob d) in *. assert (Hd : forall x, x = (n - 1 + Z.of_nat 1) mod (2147483648 - 1) + 1 ->
    set_joblock false (set_nextjob x (set_joblock true d)) =
    set_nextjob ((n - 1 + Z.of_nat 1) mod (2147483648 - 1) + 1) d).
  { intros x ->. destruct d; cbn in *. by subst. }
  apply Hd. clear Hd. destruct (decide (n = 2147483647)) as [->|]; [by vm_compute|].
  rewrite Z.mod_small by lia. rewrite (Z.mod_small (n - 1 + Z.of_nat 1)) by lia.
  destruct (Z.leb_spec (n + 1 + 2147483648 - 2147483648) 0); lia.
Qed.

Lemma jobno_inj k i j :
  (i < Z.to_nat INT_MAX)%nat -> (j < Z.to_nat INT_MAX)%nat -> jobno k i = jobno k j -> i = j.
Proof.
  unfold jobno. intros Hi Hj E.
  assert (Hm : (Z.of_nat i - Z.of_nat j) mod INT_MAX = 0).
  { replace (Z.of_nat i - Z.of_nat j) with ((k - 1 + Z.of_nat i) - (k - 1 + Z.of_nat j)) by lia.
    rewrite Zminus_mod. replace ((k - 1 + Z.of_nat i) mod INT_MAX) with ((k - 1 + Z.of_nat j) mod INT_MAX) by lia.
    by rewrite Z.sub_diag. }
  apply Z.mod_divide in Hm as [c Hc]; [|done].
  assert (Hb : Z.of_nat i < INT_MAX /\ Z.of_nat j < INT_MAX) by lia.
  assert (c = 0) as -> by (unfold INT_MAX in *; nia). lia.
Qed.

(** The job numbers of a run: however many clients ask, the numbers handed
    out are the cycle 1, ..., 2^31 - 1 from the stored number on.  So they are
    always positive, and two jobs have the same number only if at least
    2^31 - 1 jobs lie between them. *)
Theorem jobnos_cycle d n :
  joblock d = false -> 1 <= nextjob d <= INT_MAX ->
  wp (new_jobnos n) (fun l d' => l = jobno (nextjob d) <$> seq 0 n /\
    (forall i j id, (i < j)%nat -> l !! i = Some id -> l !! j = Some id -> INT_MAX <= Z.of_nat j - Z.of_nat i) /\
    Forall (fun id => 1 <= id <= INT_MAX) l /\
    joblock d' = false /\ 1 <= nextjob d' <= INT_MAX) d.
Proof.
  intros Hl Hn.
  assert (H : wp (new_jobnos n) (fun l d' => l = jobno (nextjob d) <$> seq 0 n /\
    joblock d' = false /\ 1 <= nextjob d' <= INT_MAX) d).
  { revert d Hl Hn. induction n as [|n IH]; intros d Hl Hn; cbn [new_jobnos]; [by apply wp_ret|].
    eapply wp_seq; [by apply get_newjobno_spec|cbv beta]. intros id d1 [-> ->].
    eapply wp_seq; [apply IH; [done|apply jobno_range]|cbv beta]. cbn [nextjob set_nextjob].
    intros l d2 (-> & ? & ?). apply wp_ret. split; [|done]. cbn [seq fmap list_fmap].
    assert (jobno (nextjob d) 0 = nextjob d) as ->.
    { unfold jobno. rewrite Z.mod_small by (unfold INT_MAX in *; lia). lia. }
    f_equal. rewrite <- fmap_S_seq, <- list_fmap_compose. apply list_fmap_ext.
    intros i x _. cbn. by rewrite jobno_next. }
  eapply wp_mono; [exact H|cbv beta]. intros l d' (-> & ? & ?). split_and!; try done.
  - intros i j id Hij Hi Hj. rewrite list_lookup_fmap in Hi, Hj.
    apply fmap_Some in Hi as (x & Hx & ->). apply fmap_Some in Hj as (y & Hy & E).
    apply lookup_seq in Hx as [-> _]. apply lookup_seq in Hy as [-> _]. cbn in E.
    destruct (decide (INT_MAX <= Z.of_nat j - Z.of_nat i)); [done|]. exfalso.
    assert (Hc : jobno (jobno (nextjob d) i) 0 = jobno (jobno (nextjob d) i) (j - i)).
    { unfold jobno in *. rewrite !Z.add_simpl_r, !Z.add_mod_idemp_l by done.
      f_equal. rewrite Z.add_0_r. rewrite Nat2Z.inj_sub by lia.
      replace (nextjob d - 1 + Z.of_nat i + (Z.of_nat j - Z.of_nat i)) with (nextjob d - 1 + Z.of_nat j) by lia. lia. }
    apply jobno_inj in Hc; lia.
  - apply Forall_fmap, Forall_true. intros i. apply jobno_range.
  - lia.
  - lia.
Qed.

Lemma jobnos_cycle_witness :
  wp (new_jobnos 3) (fun l _ => l = [2147483646; 2147483647; 1])
    (Pd ∅ null null 0 2147483646 false ∅ null false false false [] (World ∅ ∅ (fun _ _ => F_UNLCK) [] [] 0) ∅ [] [] []).
Proof.
  eapply wp_mono; [apply jobnos_cycle; [done|cbn; unfold INT_MAX; lia]|].
  cbv beta. intros l d' (-> & _). by vm_compute.
Defined.

(** ** The job-number file *)

Definition jobno_path : bytes := cstr (snprintf FILENMSZ (SPOOLDIR ++ str "/" ++ JOBFILE)).

(** The next start of the daemon: memory is gone, descriptors are closed, the
    process's locks are released; the files remain. *)
Definition restarted (d d0 : pd) : pd :=
  set_os (World (w_fs (os d)) ∅ (fun _ _ => F_UNLCK) [] [] 0) d0.

Lemma wp_sysp {A} (m : M world A) r w' Q d :
  m (os d) = (Ret r, w') -> Q r (set_os w' d) -> wp (sysp m) Q d.
Proof. intros E HQ. apply wp_zoom. by eapply wp_of_run. Qed.

(** Writing [n] over [c] leaves the digits of [n], or, when [c] is longer, the
    end of [c] after them. *)
Lemma update_jobno_spec d pos c :
  w_faults (os d) = [] -> w_fds (os d) !! jobfd d = Some (jobno_path, pos) ->
  w_fs (os d) !! jobno_path = Some c -> 0 <= nextjob d < 2 ^ 31 ->
  wp update_jobno (fun _ d' => exists w, d' = set_os w d /\
    w_fs w = <[jobno_path := overwrite 0 (dec (nextjob d)) c]> (w_fs (os d)) /\
    (exists pos', w_fds w = <[jobfd d := (jobno_path, pos')]> (w_fds (os d))) /\
    w_faults w = [] /\ w_other w = w_other (os d)) d.
Proof.
  intros Hf Hfd Hc Hn. unfold update_jobno.
  assert (Hb : cstr (snprintf 32 (dec (nextjob d))) = dec (nextjob d)).
  { pose proof (dec_length (nextjob d) 10 ltac:(lia)) as Hl. change (10 ^ Z.of_nat 10) with 10000000000 in Hl.
    change (2 ^ 31) with 2147483648 in Hn. rewrite snprintf_fits by lia. apply cstr_end.
    apply digit_nonul, dec_digits. lia. }
  apply wp_bind, wp_get. rewrite Hb. apply wp_bind.
  eapply wp_sysp; [by apply (lseek_run _ _ jobno_path pos)|]. cbn [Z.eqb]. apply wp_bind, wp_ret.
  apply wp_bind. eapply wp_sysp.
  { unfold write. rewrite attempt_ok by done. cbn [os set_os w_fds set_fds].
    rewrite lookup_insert_eq. cbn [w_fs set_fds]. rewrite Hc. reflexivity. }
  destruct (Z.ltb_spec (Z.of_nat (length (dec (nextjob d)))) 0); [lia|]. apply wp_ret.
  eexists. split; [reflexivity|]. split; [done|]. split; [|done]. eexists. cbn. by rewrite insert_insert_eq.
Qed.

Lemma init_request_spec d c :
  let w := os d in
  w_faults w = [] -> w_other w = [] -> w_fs w !! jobno_path = Some c -> (0 < length c <= FILENMSZ)%nat ->
  wp init_request (fun _ d' => nextjob d' = to_i32 (atol (overwrite 0 c (jobno_path ++ [NUL])))) d.
Proof.
  intros w Hf Ho Hc Hl. unfold init_request. fold jobno_path. apply wp_bind.
  eapply wp_sysp; [apply (open_run _ _ _ c); [done|]; fold w; by rewrite Hc|].
  set (fd := lowest_free _ _ _). set (w1 := set_fds _ _). apply wp_bind, wp_modify, wp_bind.
  eapply wp_sysp; [apply (lock_run _ _ _ _ _ _ jobno_path 0); [done|done|by apply lookup_insert_eq]|].
  cbn [Z.ltb Z.compare]. apply wp_bind, wp_ret, wp_bind.
  eapply wp_sysp; [apply (read_all_run _ _ jobno_path _ c); [done|apply lookup_insert_eq|apply lookup_insert_eq|lia]|].
  cbn [fst snd]. destruct (Z.ltb_spec (Z.of_nat (length c)) 0); [lia|]. apply wp_bind, wp_ret.
  destruct (Z.eqb_spec (Z.of_nat (length c)) 0); [lia|]. by apply wp_modify.
Qed.

Lemma jobno_path_nodigit k n : (k < 11)%nat -> atol_digits (drop k (jobno_path ++ [NUL])) n = n.
Proof. intros Hk. do 11 (destruct k as [|k]; [vm_compute; reflexivity|]). lia. Qed.

(** The job number survives a restart: if the file held the digits of a
    smaller number (or of none), then after [update_jobno] the next daemon's
    [init_request] starts with the number stored, whatever its memory was. *)
Theorem jobno_roundtrip d d0 pos c :
  w_faults (os d) = [] -> w_fds (os d) !! jobfd d = Some (jobno_path, pos) ->
  w_fs (os d) !! jobno_path = Some c -> 1 <= nextjob d <= INT_MAX ->
  (length c <= length (dec (nextjob d)))%nat ->
  wp update_jobno (fun _ d' =>
    wp init_request (fun _ d2 => nextjob d2 = nextjob d) (restarted d' d0)) d.
Proof.
  intros Hf Hfd Hc Hn Hl. unfold INT_MAX in *. change (2 ^ 31) with 2147483648 in *.
  pose proof (dec_length (nextjob d) 10 ltac:(lia)) as Hd. change (10 ^ Z.of_nat 10) with 10000000000 in Hd.
  eapply wp_mono; [apply (update_jobno_spec _ pos c Hf Hfd Hc); change (2 ^ 31) with 2147483648; lia|cbv beta].
  intros _ d1 (w & -> & Hfs & _).
  assert (Ho : overwrite 0 (dec (nextjob d)) c = dec (nextjob d)).
  { unfold overwrite. rewrite (drop_ge c) by lia. exact (app_nil_r _). }
  eapply wp_mono; [apply (init_request_spec _ (dec (nextjob d))); [done|done| |]|cbv beta].
  - cbn. by rewrite Hfs, Ho, lookup_insert_eq.
  - specialize (Hd ltac:(lia)). unfold FILENMSZ. lia.
  - intros _ d2 ->. rewrite overwrite_start by (specialize (Hd ltac:(lia)); vm_compute (length (jobno_path ++ [NUL])); lia).
    rewrite atol_dec.
    + unfold to_i32. change (2 ^ 31) with 2147483648. change (2 ^ 32) with 4294967296. rewrite Z.mod_small; lia.
    + lia.
    + specialize (Hd ltac:(lia)).
      apply jobno_path_nodigit. lia.
Qed.

Lemma jobno_roundtrip_witness :
  let d := Pd ∅ null null 5 1000 false ∅ null false false false []
    (World {[jobno_path := str "999"]} {[5 := (jobno_path, 3)]} (fun _ _ => F_UNLCK) [] [] 0) ∅ [] [] [] in
  wp update_jobno (fun _ d' => wp init_request (fun _ d2 => nextjob d2 = 1000) (restarted d' d)) d.
Proof.
  intros d. apply (jobno_roundtrip d d 3 (str "999")); [done|done|done|unfold INT_MAX; cbn; lia|].
  apply Nat.leb_le. by vm_compute.
Defined.

(** ** Worker threads *)

Lemma wp_wmem {A} (m : M (heap worker_thread) A) Q d :
  wp m (fun a h => Q a (set_wkrs h d)) (wkrs d) -> wp (wmem m) Q d.
Proof. apply wp_zoom. Qed.

Lemma lock_worker_free d Q : workerlock d = false -> Q tt (set_workerlock true d) -> wp lock_worker Q d.
Proof. intros E HQ. unfold lock_worker. apply wp_bind, wp_get. by rewrite E. Qed.

Ltac stepw := apply wp_bind; first [apply wp_get | apply wp_modify | apply wp_wmem]; cbv beta.

(** A second client makes the worker list dangle.  [add_worker] does not
    store the new cell in [workers] when the list is not empty, so the second
    worker is not found: its [client_cleanup] leaves its socket open and its
    cell allocated, and [kill_workers] does not cancel it.  When the first
    worker ends, its previous link leads to the second cell and [workers] keeps
    pointing to the cell it frees: the next traversal reads freed memory. *)
Theorem second_worker_lost d t1 t2 s1 s2 :
  t1 <> t2 -> wkrs d = ∅ -> workers d = null -> workerlock d = false -> mallocs d = [] ->
  (wp (add_worker t1 s1 ;;; add_worker t2 s2 ;;; client_cleanup t2)
     (fun _ d' => socks d' = socks d /\ size (wkrs d') = 2%nat) d) /\
  (wp (add_worker t1 s1 ;;; add_worker t2 s2 ;;; kill_workers)
     (fun _ d' => cancelled d' = cancelled d ++ [t1]) d) /\
  ((add_worker t1 s1 ;;; add_worker t2 s2 ;;; client_cleanup t1 ;;; kill_workers) d).1 = Stop Crash.
Proof.
  intros Ht Hw Hn Hl Hm.
  assert (E : exists d2, (add_worker t1 s1 ;;; add_worker t2 s2) d = (Ret true, d2) /\
    wkrs d2 = {[1 := Node 0 2 (Worker t1 s1); 2 := Node 1 0 (Worker t2 s2)]} /\
    workers d2 = 1 /\ workerlock d2 = false /\ socks d2 = socks d /\ cancelled d2 = cancelled d).
  { destruct d; cbn in *; subst. eexists. split; [by vm_compute|]. done. }
  destruct E as (d2 & E & Ew & Eh & El & Es & Ec).
  assert (Hb : forall B (k : M pd B), (add_worker t1 s1 ;;; add_worker t2 s2 ;;; k) d = k d2).
  { intros B k. unfold bind in *. destruct (add_worker t1 s1 d) as [[?|] ?]; [|done].
    by rewrite E. }
  unfold wp at 1 2. rewrite !Hb. clear Hb E. rewrite <- Es, <- Ec.
  assert (H1 : wkrs d2 !! 1 = Some (Node 0 2 (Worker t1 s1))) by by rewrite Ew.
  assert (Hsz : size (wkrs d2) = 2%nat) by by rewrite Ew; vm_compute.
  split_and!.
  - change (wp (client_cleanup t2) (fun _ d' => socks d' = socks d2 /\ size (wkrs d') = 2%nat) d2).
    unfold client_cleanup. apply wp_bind, lock_worker_free; [done|]. stepw.
    cbn [wkrs workers set_workerlock]. rewrite Hsz, Eh. cbn [cleanup_loop Z.eqb null].
    do 2 apply wp_bind. apply wp_wmem. eapply wp_load; [exact H1|]. cbn [n_val tid n_next].
    destruct (Z.eqb_spec t1 t2); [done|]. cbn [Z.eqb null]. apply wp_ret. stepw. by apply wp_ret.
  - change (wp kill_workers (fun _ d' => cancelled d' = cancelled d2 ++ [t1]) d2).
    unfold kill_workers. apply wp_bind, lock_worker_free; [done|]. stepw.
    cbn [wkrs workers set_workerlock]. rewrite Hsz, Eh. cbn [kill_loop Z.eqb null].
    do 2 apply wp_bind. apply wp_wmem. eapply wp_load; [exact H1|]. cbn [n_val tid n_next]. stepw.
    cbn [Z.eqb null]. by apply wp_ret.
  - apply bind_fst. unfold client_cleanup. apply wp_bind, lock_worker_free; [done|]. stepw.
    cbn [wkrs workers set_workerlock]. rewrite Hsz, Eh. cbn [cleanup_loop Z.eqb null].
    do 2 apply wp_bind. apply wp_wmem. eapply wp_load; [exact H1|]. cbn [n_val tid n_next n_prev].
    rewrite Z.eqb_refl. cbn [Z.eqb null negb]. apply wp_bind, wp_ret.
    apply wp_bind, wp_wmem. eapply wp_set_next; [cbn; rewrite Ew; by vm_compute|]. apply wp_ret. stepw. cbn [Z.eqb null].
    apply wp_bind, wp_wmem. eapply wp_load; [cbn; rewrite Ew; by vm_compute|]. stepw. apply wp_wmem, wp_dealloc.
    { cbn. by rewrite Ew. }
    unfold kill_workers. apply bind_fst, lock_worker_free; [done|]. apply bind_fst, wp_get.
    apply bind_stop. cbn [wkrs workers set_workerlock set_wkrs set_socks]. rewrite Eh. cbn [kill_loop Z.eqb null].
    apply bind_stop. unfold wmem, zoom, load. cbn [wkrs workers set_workerlock set_wkrs set_socks].
    by rewrite lookup_delete_eq.
Qed.

Lemma second_worker_lost_witness :
  let d := Pd ∅ null null 0 1 false ∅ null false false false []
    (World ∅ ∅ (fun _ _ => F_UNLCK) [] [] 0) ∅ [] [] [] in
  ((add_worker 101 7 ;;; add_worker 102 8 ;;; client_cleanup 101 ;;; kill_workers) d).1 = Stop Crash.
Proof. intros d. apply (second_worker_lost d 101 102 7 8); done. Defined.
