(* ===== verification/PrintThread.v ===== *)
(** * The printer thread of the spooler

    The IPP and HTTP headers, the configuration file, the connection to the
    printer, one turn of the loop of [printer_thread], the start-up scan of the
    spool directory, and the signal thread
    (src/apue.3e/printer/printd.c and util.c, src/apue.3e/sockets/clconn2.c). *)

From S2P Require Import Prelude CLib Posix Stream Dll Wire PrintStatus Printd.
Import Lockreg.

(** ** Writing into a fixed buffer *)

Definition put (off : nat) (d : bytes) : M bytes unit := fun b =>
  if (off + length d <=? length b)%nat then (Ret tt, overwrite off d b) else (Stop Crash, b).

Definition with_buf {A} (b : bytes) (m : M bytes A) : M pd (A * bytes) := fun d =>
  match m b with
  | (Ret a, b') => (Ret (a, b'), d)
  | (Stop e, _) => (Stop e, d)
  end.

(** ** The headers *)

Definition OP_PRINT_JOB : Z := 2.
Definition TAG_OPERATION_ATTR : Z := 1.
Definition TAG_END_OF_ATTR : Z := 3.
Definition TAG_NAMEWOLANG : Z := 66.
Definition TAG_URI : Z := 69.
Definition TAG_CHARSET : Z := 71.
Definition TAG_NATULANG : Z := 72.
Definition TAG_MIMETYPE : Z := 73.

Definition add_option (cp : nat) (tag : Z) (optname optval : bytes) : M bytes nat :=
  put cp [tag mod 256] ;;;
  let n := length optname in
  put (cp + 1) (le16 (htons (Z.of_nat n))) ;;;
  put (cp + 3) (optname ++ [NUL]) ;;;
  let cp := (cp + 3 + n)%nat in
  let n := length optval in
  put cp (le16 (htons (Z.of_nat n))) ;;;
  put (cp + 2) (optval ++ [NUL]) ;;;
  ret (cp + 2 + n)%nat.

(** The IPP header in [ibuf]: its length. *)
Definition ipp_header (name usernm jobnm : bytes) (id flags : Z) : M bytes nat :=
  put 0 [1; 1] ;;;
  put 2 (le16 (htons OP_PRINT_JOB)) ;;;
  put 4 (le32 (htonl id)) ;;;
  put 8 [TAG_OPERATION_ATTR] ;;;
  let* icp := add_option 9 TAG_CHARSET (str "attributes-charset") (str "utf-8") in
  let* icp := add_option icp TAG_NATULANG (str "attributes-natural-language") (str "en-us") in
  let s := cstr (snprintf 64 (str "http://" ++ name ++ str "/ipp")) in
  let* icp := add_option icp TAG_URI (str "printer-uri") s in
  let* icp := add_option icp TAG_NAMEWOLANG (str "requesting-user-name") usernm in
  let* icp := add_option icp TAG_NAMEWOLANG (str "job-name") jobnm in
  let p := if has_flag flags PR_TEXT then str "text/plain" else str "application/postscript" in
  let* icp := add_option icp TAG_MIMETYPE (str "document-format") p in
  put icp [TAG_END_OF_ATTR] ;;;
  ret (icp + 1)%nat.

Definition crlf : bytes := [13; 10].

(** [snprintf(hcp, sizeof(hbuf) - (hcp - hbuf), ...); hcp += strlen(hcp)]. *)
Definition add_line (hcp : nat) (text : bytes) : M bytes nat :=
  let t := snprintf (HBUFSZ - hcp) text in
  put hcp t ;;;
  ret (hcp + length (cstr t))%nat.

(** The HTTP header in [hbuf]: its length. *)
Definition http_header (name : bytes) (clen : Z) : M bytes nat :=
  let* hcp := add_line 0 (str "POST /ipp HTTP/1.1" ++ crlf) in
  let* hcp := add_line hcp (str "Content-Length: " ++ dec clen ++ crlf) in
  put hcp (str "Content-Type: application/ipp" ++ crlf ++ [NUL]) ;;;
  let hcp := (hcp + 31)%nat in
  let* hcp := add_line hcp (str "Host: " ++ name ++ str ":" ++ dec IPP_PORT ++ crlf) in
  put hcp [13] ;;;
  put (hcp + 1) [10] ;;;
  ret (hcp + 2)%nat.

(** ** The configuration file: util.c *)

Definition CONFIG_FILE : bytes := str "/etc/printer.conf".
Definition MAXCFGLINE : nat := 512.
Definition MAXKWLEN : nat := 16.

(** [fgets]: a line with its newline, of at most [n] - 1 characters, and the
    rest of the file. *)
Fixpoint fgets (n : nat) (s : bytes) : bytes * bytes :=
  match n, s with
  | S (S n' as m), c :: s' =>
      if c =? 10 then ([c], s') else let '(l, r) := fgets m s' in (c :: l, r)
  | _, _ => ([], s)
  end.

(** [%<n>s] of [sscanf]: at most [n] characters that are no white space, and
    the rest. *)
Fixpoint word (n : nat) (s : bytes) : bytes * bytes :=
  match n, s with
  | S n', c :: s' => if isspace c || (c =? NUL) then ([], s) else let '(w, r) := word n' s' in (c :: w, r)
  | _, _ => ([], s)
  end.

(** [sscanf(line, "%15s %511s", keybuf, valbuf)]; [None] unless it converts
    both. *)
Definition sscanf2 (line : bytes) : option (bytes * bytes) :=
  let '(k, r) := word (MAXKWLEN - 1) (skipspace line) in
  let '(v, _) := word (MAXCFGLINE - 1) (skipspace r) in
  match k, v with
  | [], _ | _, [] => None
  | _, _ => Some (k, v)
  end.

Fixpoint scan_lines (fuel : nat) (keyword s : bytes) : option bytes :=
  match fuel with
  | O => None
  | S f =>
      match fgets MAXCFGLINE s with
      | ([], _) => None
      | (line, s') =>
          match sscanf2 (cstr line) with
          | Some (k, v) => if strcmp keyword k =? 0 then Some v else scan_lines f keyword s'
          | None => scan_lines f keyword s'
          end
      end
  end.

(** The file is read through the C library, in one go here. *)
Definition scan_configfile (keyword : bytes) : M world (option bytes) := fun w =>
  match w_fs w !! CONFIG_FILE with
  | None => (Stop (Err_sys "can't open config file"), w)
  | Some c => (Ret (scan_lines (S (length c)) keyword c), w)
  end.

Definition get_printserver : M world (option bytes) := scan_configfile (str "printserver").

(** ** Connecting *)

Definition MAXSLEEP : Z := 128.

Definition socket_connect : M pd (option Z) := fun d =>
  match peers d with
  | [] | NoSocket :: _ => (Ret None, set_peers (tl (peers d)) d)
  | Refused :: l => (Ret (Some (-1)), set_peers l d)
  | Up s :: l =>
      let fd := 1 + foldr Z.max 0 (elements (dom (socks d))) in
      (Ret (Some fd), set_peers l (set_socks (<[fd := s]> (socks d)) d))
  end.

(** [numsec] doubles from 1 to [MAXSLEEP]; the fuel is never used up.  A refused
    attempt closes its socket. *)
Fixpoint connect_loop (fuel : nat) (numsec : Z) : M pd Z :=
  match fuel with
  | O => stop Hang
  | S f =>
      if numsec <=? MAXSLEEP then
        let* r := socket_connect in
        match r with
        | None => ret (-1)
        | Some fd => if 0 <=? fd then ret fd else connect_loop f (Z.shiftl numsec 1)
        end
      else ret (-1)
  end.

Definition connect_retry : M pd Z := connect_loop 9 1.

(** ** The printer thread *)

Section printer.
(** The resolver: the canonical name of a host's address, if it has one;
    [None] when there is no address.  The stack buffers before they are
    written, what [malloc] returns, and a bound on the loops over a response. *)
Context (getaddr : bytes -> option (option bytes)) (ibuf0 hbuf0 junk : bytes) (fuel : nat).

Definition get_printaddr : M world (option (option bytes)) :=
  let* p := scan_configfile (str "printer") in
  match p with
  | None => ret None
  | Some host => ret (getaddr host)
  end.

Definition init_printer : M pd unit :=
  let* a := sysp get_printaddr in
  match a with
  | None => stop (Exit 1)
  | Some None => modify (set_printer_name (str "printer"))
  | Some (Some n) => modify (set_printer_name n)
  end.

(** The C string that starts a field; it runs off the structure when there is
    no null byte. *)
Definition field_str (m : bytes) : M pd bytes :=
  if bool_decide (NUL ∈ m) then ret (cstr m) else stop Crash.

(** Send the file [fd] to the printer until its end: [false] on an error. *)
Fixpoint send_loop (n : nat) (fd sfd : Z) : M pd bool :=
  match n with
  | O => stop Hang
  | S n' =>
      let* nd := sysp (read fd IOBUFSZ) in
      if nd.1 <=? 0 then ret (0 <=? nd.1) else
      let* nw := on_sock sfd (writen nd.2) in
      if negb (nw =? nd.1) then ret false else send_loop n' fd sfd
  end.

(** More turns than the file has bytes. *)
Definition file_fuel (fd : Z) : M pd nat :=
  sysp (let* w := get in
        ret (match w_fds w !! fd with
             | Some (p, _) => S (length (default [] (w_fs w !! p)))
             | None => 1%nat
             end)).

(** From the headers to the printer's answer: was the job printed? *)
Definition send_job (j : job) (size fd sfd : Z) : M pd bool :=
  let rq := req j in
  let* d := get in
  let* usernm := field_str (rq_usernm rq ++ rq_jobnm rq) in
  let* jobnm := field_str (rq_jobnm rq) in
  let* ' (ilen, ibuf) := with_buf ibuf0 (ipp_header (printer_name d) usernm jobnm (jobid j) (rq_flags rq)) in
  let extra := if has_flag (rq_flags rq) PR_TEXT then 1 else 0 in
  let* ' (hlen, hbuf) := with_buf hbuf0 (http_header (printer_name d) (size + Z.of_nat ilen + extra)) in
  let* n := on_sock sfd (swrite (take hlen hbuf ++ take ilen ibuf)) in
  if negb (n =? Z.of_nat (hlen + ilen)) then ret false else
  let* n := (if has_flag (rq_flags rq) PR_TEXT then on_sock sfd (swrite [8]) else ret 1) in
  if negb (n =? 1) then ret false else
  let* turns := file_fuel fd in
  let* ok := send_loop turns fd sfd in
  if negb ok then ret false else
  let* turns := sock_fuel sfd in
  on_sock sfd (printer_status turns fuel junk (jobid j)).

(** The end of a turn: the label [defer]. *)
Definition finish (jp : Z) (j : job) (fd sfd : Z) (printed : bool) : M pd bool :=
  (if printed then
     sysp (unlink (spool_name DATADIR (jobid j))) ;;;
     sysp (unlink (spool_name REQDIR (jobid j))) ;;;
     jmem (dealloc jp)
   else ret tt) ;;;
  sysp (close fd) ;;;
  (if 0 <=? sfd then close_sock sfd else ret tt) ;;;
  (if printed then ret tt else replace_job jp) ;;;
  ret true.

(** A turn from the open of the data file on. *)
Definition print_picked (jp : Z) : M pd bool :=
  let* c := jmem (load jp) in
  let j := n_val c in
  let* fd := sysp (open (spool_name DATADIR (jobid j)) 0) in
  if fd <? 0 then jmem (dealloc jp) ;;; ret true else
  let* ' (r, st_size) := sysp (fstat fd) in
  if r <? 0 then jmem (dealloc jp) ;;; sysp (close fd) ;;; ret true else
  let* sfd := connect_retry in
  let* printed := (if sfd <? 0 then ret false else send_job j st_size fd sfd) in
  finish jp j fd sfd printed.

(** The check for a change of the configuration. *)
Definition check_config : M pd unit :=
  lock_config ;;;
  let* d := get in
  if reread d then
    modify (set_printer_name []) ;;;
    modify (set_reread false) ;;;
    unlock_config ;;;
    init_printer
  else unlock_config.

(** One turn of the loop; [false] when the queue is empty and the thread
    waits. *)
Definition printer_turn : M pd bool :=
  let* jp := pick_job in
  if jp =? null then ret false else
  update_jobno ;;;
  check_config ;;;
  print_picked jp.
End printer.

(** ** Start-up: the requests left in the spool directory *)

Definition req_name (ent : bytes) : bytes :=
  cstr (snprintf FILENMSZ (SPOOLDIR ++ str "/" ++ REQDIR ++ str "/" ++ ent)).
Definition data_name (ent : bytes) : bytes :=
  cstr (snprintf FILENMSZ (SPOOLDIR ++ str "/" ++ DATADIR ++ str "/" ++ ent)).

(** The entries [readdir] returns, one after the other. *)
Fixpoint build_loop (ents : list bytes) : M pd unit :=
  match ents with
  | [] => ret tt
  | e :: ents' =>
      if (strcmp e (str ".") =? 0) || (strcmp e (str "..") =? 0) then build_loop ents' else
      let* fd := sysp (open (req_name e) 0) in
      if fd <? 0 then build_loop ents' else
      let* nd := sysp (read fd REQSZ) in
      if negb (nd.1 =? Z.of_nat REQSZ) then
        sysp (close fd) ;;;
        sysp (unlink (req_name e)) ;;;
        sysp (unlink (data_name e)) ;;;
        build_loop ents'
      else
        add_job (dec_req nd.2) (to_i32 (atol e)) ;;;
        build_loop ents'
  end.

(** [dir] is what [opendir] of the request directory finds. *)
Definition build_qonstart (dir : option (list bytes)) : M pd unit :=
  match dir with
  | None => ret tt
  | Some ents => build_loop ents
  end.

(** ** Signals *)

Definition SIGHUP : Z := 1.
Definition SIGTERM : Z := 15.

(** One turn of [signal_thread], for the result of [sigwait]. *)
Definition signal_turn (err signo : Z) : M pd unit :=
  if negb (err =? 0) then log_quit "sigwait failed" else
  if signo =? SIGHUP then
    lock_config ;;; modify (set_reread true) ;;; unlock_config
  else if signo =? SIGTERM then kill_workers ;;; stop (Exit 0)
  else kill_workers ;;; log_quit "unexpected signal".
