(* ===== verification/PrintWire.v ===== *)
(** * What the spooler sends to the printer

    The IPP and HTTP headers [printer_thread] builds in its fixed-size buffers:
    when they fit, what they hold, and that the announced length is the length
    of what follows. *)

From S2P Require Import Prelude CLib Posix Stream Dll Wire PrintStatus Printd PrintThread.

Lemma le16_htons n : le16 (htons n) = be16 n.
Proof.
  unfold be16, htons. pose proof (Z.mod_pos_bound n 256 eq_refl).
  pose proof (Z.mod_pos_bound (n / 256) 256 eq_refl).
  unfold le16 at 2 3. cbn [rev app]. unfold rd_le16. cbn [nth]. unfold le16.
  set (a := n / 256 mod 256) in *. set (b := n mod 256) in *.
  assert ((a + 256 * b) mod 256 = a) as -> by (symmetry; apply (Z.mod_unique _ 256 b); lia).
  assert ((a + 256 * b) / 256 = b) as -> by (symmetry; apply (Z.div_unique _ 256 _ a); lia).
  by rewrite (Z.mod_small b) by lia.
Qed.

(** ** Filling a buffer from the left *)

(** The buffer has [n] bytes and starts with [p]. *)
Definition starts (n : nat) (p b : bytes) : Prop := length b = n /\ p `prefix_of` b.

Lemma wp_put n p d b off Q :
  starts n p b -> off = length p -> (length p + length d <= n)%nat ->
  (forall b', starts n (p ++ d) b' -> Q tt b') -> wp (put off d) Q b.
Proof.
  intros [Hl [t ->]] -> Hn HQ. unfold wp, put.
  destruct (Nat.leb_spec (length p + length d) (length (p ++ t))); [|lia]. apply HQ.
  assert (Ht : t = take (length d) t ++ drop (length d) t) by (by rewrite take_drop).
  rewrite Ht. rewrite overwrite_mid by (rewrite length_take; len).
  split; [len|]. rewrite app_assoc. by apply prefix_app_r.
Qed.

Lemma starts_app_l n p d b : starts n (p ++ d) b -> starts n p b.
Proof. intros [Hl Hp]. split; [done|]. etrans; [|exact Hp]. by apply prefix_app_r. Qed.

(** An attribute: tag, name and value with their lengths. *)
Definition attr (tag : Z) (name val : bytes) : bytes :=
  [tag] ++ be16 (Z.of_nat (length name)) ++ name ++ be16 (Z.of_nat (length val)) ++ val.

Lemma attr_length tag name val : length (attr tag name val) = (5 + length name + length val)%nat.
Proof. unfold attr. len. Qed.
#[export] Hint Rewrite attr_length : lens.

Lemma add_option_spec n p b cp tag name val Q :
  starts n p b -> cp = length p -> (length p + length (attr tag name val) < n)%nat -> 0 <= tag < 256 ->
  (forall b', starts n (p ++ attr tag name val) b' -> Q (length (p ++ attr tag name val)) b') ->
  wp (add_option cp tag name val) Q b.
Proof.
  intros Hs -> Hn Ht HQ. rewrite attr_length in Hn. unfold add_option. rewrite !le16_htons.
  rewrite (Z.mod_small tag) by lia.
  apply wp_bind, (wp_put n p); [done|done|len|]. intros b1 H1.
  apply wp_bind, (wp_put n (p ++ [tag])); [done|len|len|]. intros b2 H2.
  apply wp_bind, (wp_put n ((p ++ [tag]) ++ be16 (Z.of_nat (length name)))); [done|len|len|].
  intros b3 H3. rewrite app_assoc in H3. apply starts_app_l in H3.
  apply wp_bind, (wp_put n (((p ++ [tag]) ++ be16 (Z.of_nat (length name))) ++ name));
    [done|len|len|]. intros b4 H4.
  apply wp_bind, (wp_put n ((((p ++ [tag]) ++ be16 (Z.of_nat (length name))) ++ name) ++ be16 (Z.of_nat (length val))));
    [done|len|len|].
  intros b5 H5. rewrite app_assoc in H5. apply starts_app_l in H5. apply wp_ret.
  replace (length p + 3 + length name + 2 + length val)%nat with (length (p ++ attr tag name val)) by len.
  apply HQ. unfold attr. revert H5. by rewrite <- !app_assoc.
Qed.

(** ** The IPP header *)

Definition uri (name : bytes) : bytes := cstr (snprintf 64 (str "http://" ++ name ++ str "/ipp")).
Definition mime (flags : Z) : bytes :=
  if has_flag flags PR_TEXT then str "text/plain" else str "application/postscript".

(** A Print-Job request (RFC 8010): version 1.1, operation, request number, the
    operation attributes, end tag. *)
Definition print_job (name usernm jobnm : bytes) (id flags : Z) : bytes :=
  [1; 1] ++ be16 2 ++ be32 id ++ [1] ++
  attr 71 (str "attributes-charset") (str "utf-8") ++
  attr 72 (str "attributes-natural-language") (str "en-us") ++
  attr 69 (str "printer-uri") (uri name) ++
  attr 66 (str "requesting-user-name") usernm ++
  attr 66 (str "job-name") jobnm ++
  attr 73 (str "document-format") (mime flags) ++ [3].

Lemma print_job_length name usernm jobnm id flags :
  length (print_job name usernm jobnm id flags) =
    (149 + length (uri name) + length usernm + length jobnm + length (mime flags))%nat.
Proof.
  unfold print_job. len.
Qed.

Lemma ipp_header_spec name usernm jobnm id flags b :
  length b = IBUFSZ -> (length (print_job name usernm jobnm id flags) <= IBUFSZ)%nat ->
  wp (ipp_header name usernm jobnm id flags)
    (fun n b' => n = length (print_job name usernm jobnm id flags) /\
      starts IBUFSZ (print_job name usernm jobnm id flags) b') b.
Proof.
  intros Hb Hn. rewrite print_job_length in Hn. unfold ipp_header. fold (uri name). fold (mime flags).
  rewrite le16_htons, le32_htonl. fold (be32 id). unfold IBUFSZ in *.
  apply wp_bind, (wp_put 512 []); [split; [done|apply prefix_nil]|done|len|]. intros b1 H1.
  apply wp_bind, (wp_put 512 _ _ _ _ _ H1); [done|len|]. clear b1 H1. intros b1 H1.
  apply wp_bind, (wp_put 512 _ _ _ _ _ H1); [done|len|]. clear b1 H1. intros b1 H1.
  apply wp_bind, (wp_put 512 _ _ _ _ _ H1); [done|len|]. clear b1 H1. intros b1 H1.
  do 6 (apply wp_bind, (add_option_spec 512 _ _ _ _ _ _ _ H1); [done|len|done|]; clear b1 H1; intros b1 H1).
  apply wp_bind, (wp_put 512 _ _ _ _ _ H1); [done|len|]. clear b1 H1. intros b1 H1.
  apply wp_ret. revert H1. unfold TAG_CHARSET, TAG_NATULANG, TAG_URI, TAG_NAMEWOLANG, TAG_MIMETYPE,
    TAG_OPERATION_ATTR, TAG_END_OF_ATTR, OP_PRINT_JOB. rewrite <- !app_assoc. cbn [app]. intros H1.
  split; [rewrite print_job_length; len|exact H1].
Qed.

(** When they do not fit, the header is written past the end of the buffer. *)
Lemma put_crash {A} n p d b off (k : unit -> M bytes A) :
  starts n p b -> off = length p ->
  (forall b', starts n (p ++ d) b' -> (length (p ++ d) <= n)%nat -> (k tt b').1 = Stop Crash) ->
  (bind (put off d) k b).1 = Stop Crash.
Proof.
  intros Hs -> Hk. destruct (decide (length p + length d <= n)%nat) as [H|H].
  - apply bind_fst, (wp_put n p); [done|done|done|]. intros b' Hb'. apply Hk; [done|len].
  - apply bind_stop. unfold put. destruct Hs as [Hl _].
    destruct (Nat.leb_spec (length p + length d) (length b)); [lia|done].
Qed.

Lemma add_option_crash {A} n p b cp tag name val (k : nat -> M bytes A) :
  starts n p b -> cp = length p -> 0 <= tag < 256 ->
  (forall b', starts n (p ++ attr tag name val) b' -> (k (length (p ++ attr tag name val)) b').1 = Stop Crash) ->
  (bind (add_option cp tag name val) k b).1 = Stop Crash.
Proof.
  intros Hs -> Ht Hk. unfold add_option. rewrite !le16_htons, (Z.mod_small tag) by lia.
  rewrite bind_bind. apply (put_crash n p); [done|done|]. intros b1 H1 _.
  rewrite bind_bind. apply (put_crash n _ _ _ _ _ H1); [len|]. intros b2 H2 _.
  rewrite bind_bind. apply (put_crash n _ _ _ _ _ H2); [len|]. intros b3 H3 _.
  rewrite app_assoc in H3. apply starts_app_l in H3.
  rewrite bind_bind. apply (put_crash n _ _ _ _ _ H3); [len|]. intros b4 H4 _.
  rewrite bind_bind. apply (put_crash n _ _ _ _ _ H4); [len|]. intros b5 H5 _.
  rewrite app_assoc in H5. apply starts_app_l in H5. apply bind_fst, wp_ret.
  replace (length p + 3 + length name + 2 + length val)%nat with (length (p ++ attr tag name val)) by len.
  apply Hk. unfold attr. revert H5. by rewrite <- !app_assoc.
Qed.

Lemma ipp_header_overflow name usernm jobnm id flags b :
  length b = IBUFSZ -> (IBUFSZ < length (print_job name usernm jobnm id flags))%nat ->
  (ipp_header name usernm jobnm id flags b).1 = Stop Crash.
Proof.
  intros Hb Hn. rewrite print_job_length in Hn. unfold ipp_header. fold (uri name). fold (mime flags).
  rewrite le16_htons, le32_htonl. fold (be32 id). unfold IBUFSZ in *.
  apply (put_crash 512 []); [split; [done|apply prefix_nil]|done|]. intros b1 H1 _.
  do 3 (apply (put_crash 512 _ _ _ _ _ H1); [done|]; clear b1 H1; intros b1 H1 _).
  do 6 (apply (add_option_crash 512 _ _ _ _ _ _ _ H1); [done|done|]; clear b1 H1; intros b1 H1).
  apply (put_crash 512 _ _ _ _ _ H1); [done|]. intros b2 _ Hl. exfalso.
  len.
Qed.

(** The IPP header in its 512-byte buffer.  If the Print-Job request fits,
    [printer_thread] builds exactly its bytes; if it does not, the code writes
    past the end of [ibuf].  The request has 149 bytes plus the printer's URI,
    the user name, the job name and the document format, so the longest names
    the protocol structures admit (63 and 255 bytes) do not fit with a URI of
    more than 23 bytes. *)
Theorem ipp_header_fits name usernm jobnm id flags b :
  length b = IBUFSZ ->
  let m := print_job name usernm jobnm id flags in
  length m = (149 + length (uri name) + length usernm + length jobnm + length (mime flags))%nat /\
  ((length m <= IBUFSZ)%nat ->
     wp (ipp_header name usernm jobnm id flags) (fun n b' => take n b' = m) b) /\
  ((IBUFSZ < length m)%nat -> (ipp_header name usernm jobnm id flags b).1 = Stop Crash).
Proof.
  intros Hb m. split; [apply print_job_length|]. split; [|by apply ipp_header_overflow].
  intros Hn. eapply wp_mono; [by apply ipp_header_spec|cbv beta]. intros n b' (-> & _ & t & ->).
  by rewrite take_app_length.
Qed.

(** The longest user and job names do not fit with a printer called by a name
    of 13 or more bytes. *)
Lemma ipp_header_fits_witness :
  (ipp_header (replicate 13 97) (replicate 63 98) (replicate 255 99) 1 0 (replicate IBUFSZ 0)).1 = Stop Crash.
Proof.
  apply (ipp_header_fits (replicate 13 97) (replicate 63 98) (replicate 255 99) 1 0 (replicate IBUFSZ 0)).
  - reflexivity.
  - apply Nat.ltb_lt. vm_compute. reflexivity.
Defined.

(** ** The HTTP header *)

Definition post (name : bytes) (clen : Z) : bytes :=
  str "POST /ipp HTTP/1.1" ++ crlf ++
  str "Content-Length: " ++ dec clen ++ crlf ++
  str "Content-Type: application/ipp" ++ crlf ++
  str "Host: " ++ name ++ str ":631" ++ crlf ++ crlf.

Lemma add_line_spec p b hcp text Q :
  starts HBUFSZ p b -> hcp = length p -> nonul text -> (length p + length text < HBUFSZ)%nat ->
  (forall b', starts HBUFSZ (p ++ text) b' -> Q (length (p ++ text)) b') ->
  wp (add_line hcp text) Q b.
Proof.
  intros Hs -> Hz Hn HQ. unfold add_line. rewrite snprintf_fits by lia.
  apply wp_bind, (wp_put HBUFSZ p); [done|done|len|]. intros b' Hb'. apply wp_ret.
  rewrite cstr_end by done. rewrite <- length_app. apply HQ.
  rewrite app_assoc in Hb'. by apply starts_app_l in Hb'.
Qed.

Lemma crlf_length : length crlf = 2%nat.
Proof. done. Qed.
#[export] Hint Rewrite crlf_length : lens.

Lemma http_header_spec name clen b :
  length b = HBUFSZ -> nonul name -> (length name <= 255)%nat -> 0 <= clen < 10 ^ 20 ->
  wp (http_header name clen) (fun n b' => n = length (post name clen) /\ starts HBUFSZ (post name clen) b') b.
Proof.
  intros Hb Hz Hn Hc. pose proof (dec_length clen 20 ltac:(lia) Hc) as Hd.
  assert (Hdz : nonul (dec clen)) by (apply digit_nonul, dec_digits; lia).
  assert (Hcr : nonul crlf) by (by repeat constructor).
  unfold http_header, HBUFSZ in *.
  assert (Hs : starts 512 [] b) by (split; [done|apply prefix_nil]).
  apply wp_bind, (add_line_spec [] _ _ _ _ Hs); [done|by repeat constructor|unfold HBUFSZ; len|]. clear Hs.
  intros b1 H1. apply wp_bind, (add_line_spec _ _ _ _ _ H1); [done| |unfold HBUFSZ; len|].
  { apply nonul_app_2; [by repeat constructor|]. by apply nonul_app_2. }
  clear b1 H1. intros b1 H1. apply wp_bind, (wp_put 512 _ _ _ _ _ H1); [done|len|]. clear b1 H1. intros b1 H1.
  rewrite (app_assoc (str "Content-Type: application/ipp")), app_assoc in H1. apply starts_app_l in H1.
  apply wp_bind, (add_line_spec _ _ _ _ _ H1); [len| |unfold HBUFSZ; change (dec IPP_PORT) with (str "631"); len|].
  { apply nonul_app_2; [by repeat constructor|]. apply nonul_app_2; [done|]. by repeat constructor. }
  clear b1 H1. intros b1 H1. change (dec IPP_PORT) with (str "631") in *.
  apply wp_bind, (wp_put 512 _ _ _ _ _ H1); [done|len|]. clear b1 H1. intros b1 H1.
  apply wp_bind, (wp_put 512 _ _ _ _ _ H1); [len|len|]. clear b1 H1. intros b1 H1.
  apply wp_ret. split; [unfold post; len|]. unfold post.
  change (str ":631") with (str ":" ++ str "631"). revert H1. by rewrite <- !app_assoc.
Qed.
