(* ===== verification/PrintTurn.v ===== *)
(** * No job is lost: the turns of the printer thread

    One turn of [printer_thread] either prints the first job, puts it back in
    front of the queue with its files intact, or drops it because its data file
    cannot be read; and what a printed job put on the connection. *)

From S2P Require Import Prelude CLib Posix Stream Dll Wire PrintStatus Printd PrintQueue PrintThread PrintWire.
Import Lockreg.

(** ** Sockets *)

Lemma wp_on_sock {A} fd s (m : M sock A) Q d :
  socks d !! fd = Some s ->
  wp m (fun a s' => Q a (set_socks (<[fd := s']> (socks d)) d)) s -> wp (on_sock fd m) Q d.
Proof.
  intros Hs. unfold wp, on_sock. rewrite Hs. cbn [default from_option id].
  by destruct (m s) as [[a|e] s'].
Qed.

(** A descriptor that accepts everything takes the whole of a write. *)
Lemma writen_free d s :
  s_wr s = [] -> writen d s = (Ret (Z.of_nat (length d)), Sock (s_in s) (s_out s ++ d) [] (s_errno s)).
Proof.
  intros Hw. unfold writen. destruct d as [|c d].
  - cbn. rewrite app_nil_r. destruct s; cbn in *. by subst.
  - cbn [length writen_loop Nat.eqb]. unfold bind at 1, swrite. rewrite Hw.
    destruct (Z.ltb_spec (Z.of_nat (length (c :: d))) 0); [lia|].
    destruct (Z.eqb_spec (Z.of_nat (length (c :: d))) 0); [cbn in *; lia|].
    rewrite Nat2Z.id, drop_all. unfold ret. cbn [length Nat.eqb writen_loop]. by rewrite Nat.sub_0_r.
Qed.

(** What one side can tell about the use of a connection: the input is
    untouched, and [out] was written. *)
Record sent (s s' : sock) (out : bytes) : Prop := {
  sent_in : s_in s' = s_in s;
  sent_out : s_out s' = s_out s ++ out }.

Lemma sent_trans s s1 s2 o1 o2 : sent s s1 o1 -> sent s1 s2 o2 -> sent s s2 (o1 ++ o2).
Proof. intros [H1 H2] [H3 H4]. split; [congruence|]. by rewrite H4, H2, app_assoc. Qed.

Lemma swrite_spec d s :
  wp (swrite d) (fun n s' => exists out, sent s s' out /\ out `prefix_of` d /\
    (n = Z.of_nat (length d) -> out = d) /\
    (s_wr s = [] -> n = Z.of_nat (length d) /\ s_wr s' = [])) s.
Proof.
  unfold wp, swrite. destruct (s_wr s) as [|[k|e] l] eqn:Ew.
  - exists d. by repeat split.
  - exists (take k d). split_and!; [by split|apply prefix_take| |done].
    intros E. apply take_ge. rewrite length_take in E. lia.
  - exists []. split_and!; [split; cbn; by rewrite ?app_nil_r|apply prefix_nil| |done].
    intros E. destruct d; [done|]. cbn in E. lia.
Qed.

Lemma writen_sent d s :
  wp (writen d) (fun n s' => exists out, sent s s' out /\ out `prefix_of` d /\
    (n = Z.of_nat (length d) -> out = d) /\
    (s_wr s = [] -> n = Z.of_nat (length d) /\ s_wr s' = [])) s.
Proof.
  destruct (decide (s_wr s = [])) as [Ew|Ew].
  - eapply wp_of_run; [by apply writen_free|]. exists d. by repeat split.
  - eapply wp_mono; [apply writen_spec|cbv beta]. intros n s' (Hi & Ho & Hn).
    exists (take (accepted (s_wr s) (length d)) d). split_and!; [by split|apply prefix_take| |done].
    intros E. apply take_ge. destruct (refuses (s_wr s) && negb (length d =? 0)%nat); [lia|].
    rewrite E in Hn. lia.
Qed.

(** ** Sending the file *)

(** [d'] is [d] after using connection [sfd] and moving the offset of [fd]. *)
Definition used (d d' : pd) (fd sfd : Z) (p : bytes) (s' : sock) : Prop :=
  exists pos, d' = set_socks (<[sfd := s']> (socks d))
                    (set_os (set_fds (<[fd := (p, pos)]> (w_fds (os d))) (os d)) d).

Lemma send_loop_spec fd sfd p : forall n pre c d s,
  w_faults (os d) = [] -> w_fds (os d) !! fd = Some (p, Z.of_nat (length pre)) ->
  w_fs (os d) !! p = Some (pre ++ c) -> socks d !! sfd = Some s -> (length c < n)%nat ->
  wp (send_loop n fd sfd) (fun ok d' => exists s' out, used d d' fd sfd p s' /\ sent s s' out /\
    out `prefix_of` c /\ (ok = true -> out = c) /\ (s_wr s = [] -> ok = true /\ s_wr s' = [])) d.
Proof.
  induction n as [|n IH]; intros pre c d s Hf Hfd Hc Hs Hn; [lia|]. cbn [send_loop].
  set (x := take IOBUFSZ c). assert (Hx : (0 < length c -> 0 < length x)%nat)
    by (subst x; rewrite length_take; unfold IOBUFSZ; lia).
  assert (Hcx : c = x ++ drop IOBUFSZ c) by (subst x; by rewrite take_drop).
  apply wp_bind. eapply wp_sysp.
  { unfold read. rewrite attempt_ok, Hfd by done. rewrite Hc. cbn [default from_option id].
    rewrite Nat2Z.id. unfold sub. rewrite drop_app_length. fold x. reflexivity. }
  cbn [fst snd]. destruct (Z.leb_spec (Z.of_nat (length x)) 0) as [E|E].
  - assert (c = []) as -> by (destruct c; [done|cbn in Hx; lia]). apply wp_ret.
    exists s, []. split_and!; try done.
    + exists (Z.of_nat (length pre) + Z.of_nat (length x)). rewrite (insert_id (socks d)) by done. done.
    + split; [done|by rewrite app_nil_r].
  - apply wp_bind, (wp_on_sock _ s); [done|]. eapply wp_mono; [apply writen_sent|cbv beta].
    intros nw s1 (out & Hsent & Hpre & Heq & Hfree).
    destruct (Z.eqb_spec nw (Z.of_nat (length x))) as [->|Hne]; cbn [negb].
    + specialize (Heq eq_refl) as ->.
      eapply wp_mono; [apply (IH (pre ++ x) (drop IOBUFSZ c) _ s1)|cbv beta].
      * done.
      * cbn. rewrite lookup_insert_eq. do 2 f_equal. len.
      * cbn. rewrite Hc. by rewrite <- app_assoc, <- Hcx.
      * cbn. apply lookup_insert_eq.
      * rewrite length_drop. apply (f_equal length) in Hcx. rewrite length_app, length_drop in Hcx. lia.
      * intros ok d' (s' & out & (pos & ->) & Hs' & Hp' & Hok & Hfr). exists s', (x ++ out). split_and!.
        -- exists pos. cbn. by rewrite !insert_insert_eq.
        -- by eapply sent_trans.
        -- rewrite Hcx. by apply prefix_app.
        -- intros ->. rewrite Hok by done. done.
        -- intros Hw. apply Hfr. by apply Hfree.
    + apply wp_ret. exists s1, out. split_and!; try done.
      * eexists. cbn. reflexivity.
      * etrans; [exact Hpre|]. rewrite Hcx at 1. by apply prefix_app_r.
      * intros Hw. by destruct (Hfree Hw).
Qed.

(** ** One job *)

(** What the printer answers on a connection: a well-formed response in one
    piece, or nothing (end of file, an error, or silence until the time-out). *)
Inductive answers (s : sock) : option response -> Prop :=
| ans_some r l : s_in s = Chunk (r_bytes r) :: l -> well_formed r -> HTTP_INFO (r_code r) = false ->
    (length (r_bytes r) < IOBUFSZ)%nat -> answers s (Some r)
| ans_none : readable true (s_in s) = [] -> answers s None.

Definition verdict (o : option response) (id : Z) : bool :=
  match o with
  | Some r => HTTP_SUCCESS (r_code r) && (r_id r =? id) && (r_status r <=? 255)
  | None => false
  end.

Lemma answers_in s s' o : answers s o -> s_in s' = s_in s -> answers s' o.
Proof. intros H E. destruct H; [eapply ans_some|apply ans_none]; by rewrite ?E. Qed.

Lemma printer_status_answers s o turns fuel junk id :
  answers s o -> (0 < turns)%nat -> (IOBUFSZ <= fuel)%nat ->
  wp (printer_status turns fuel junk id) (fun ok s' => ok = verdict o id /\ s_out s' = s_out s /\ s_wr s' = s_wr s) s.
Proof.
  intros Ha Ht Hf. destruct Ha as [r l Hs W Hi Hl|Hs].
  - eapply wp_mono; [by eapply printer_status_response; [..|exact Hs]; try done; lia|].
    cbv beta. intros ok s' [-> ->]. done.
  - unfold printer_status. fold (fresh junk). destruct turns as [|turns]; [lia|]. cbn [status_loop].
    eapply wp_seq; [apply (tread_reader s (length (fresh junk)))|cbv beta].
    { rewrite fresh_length. unfold IOBUFSZ. lia. }
    intros nd s' (Ho & Hw & Hnd). rewrite decide_True in Hnd by done. subst nd. cbn [fst].
    destruct (fails true (s_in s)); by apply wp_ret.
Qed.

Lemma wp_with_buf {A} (m : M bytes A) b Q d :
  wp m (fun a b' => Q (a, b') d) b -> wp (with_buf b m) Q d.
Proof. unfold wp, with_buf. by destruct (m b) as [[a|e] b']. Qed.

Section send.
Context (ibuf0 hbuf0 junk : bytes) (fuel : nat).
Hypothesis Hib : length ibuf0 = IBUFSZ.
Hypothesis Hhb : length hbuf0 = HBUFSZ.
Hypothesis Hfuel : (IOBUFSZ <= fuel)%nat.

Definition extra (flags : Z) : bytes := if has_flag flags PR_TEXT then [8] else [].

(** The bytes of a whole print request, for a file with contents [c]. *)
Definition job_usernm (j : job) : bytes := cstr (rq_usernm (req j) ++ rq_jobnm (req j)).
Definition job_jobnm (j : job) : bytes := cstr (rq_jobnm (req j)).
Definition job_ipp (name : bytes) (j : job) : bytes :=
  print_job name (job_usernm j) (job_jobnm j) (jobid j) (rq_flags (req j)).
Definition job_body (name : bytes) (j : job) (c : bytes) : bytes :=
  job_ipp name j ++ extra (rq_flags (req j)) ++ c.
Definition job_wire (name : bytes) (j : job) (c : bytes) : bytes :=
  post name (Z.of_nat (length (job_body name j c))) ++ job_body name j c.

(** The request can be built: the names are terminated and fit. *)
Record sendable (name : bytes) (j : job) : Prop := {
  sn_name : nonul name;
  sn_len : (length name <= 255)%nat;
  sn_job : NUL ∈ rq_jobnm (req j);
  sn_fits : (length (job_ipp name j) <= IBUFSZ)%nat }.

Lemma used_trans d d1 d2 fd sfd p s1 s2 :
  used d d1 fd sfd p s1 -> used d1 d2 fd sfd p s2 -> used d d2 fd sfd p s2.
Proof.
  intros [p1 ->] [p2 ->]. exists p2. cbn. by rewrite !insert_insert_eq.
Qed.

Lemma used_sock d fd sfd p pos x :
  w_fds (os d) !! fd = Some (p, pos) -> used d (set_socks (<[sfd := x]> (socks d)) d) fd sfd p x.
Proof.
  intros Hfd. exists pos. rewrite (insert_id (w_fds (os d))) by done.
  by destruct d as [? ? ? ? ? ? ? ? ? ? ? ? [] ? ? ? ?].
Qed.

Lemma wp_file_fuel fd p pos c Q d :
  w_fds (os d) !! fd = Some (p, pos) -> w_fs (os d) !! p = Some c ->
  Q (S (length c)) d -> wp (file_fuel fd) Q d.
Proof.
  intros Hfd Hc HQ. unfold file_fuel. eapply wp_sysp; [unfold bind, get; rewrite Hfd, Hc; reflexivity|].
  by destruct d.
Qed.

Lemma wp_sock_fuel sfd s Q d :
  socks d !! sfd = Some s -> Q (S (in_weight (s_in s))) d -> wp (sock_fuel sfd) Q d.
Proof.
  intros Hs HQ. apply (wp_on_sock _ s); [done|]. apply wp_bind, wp_get, wp_ret.
  rewrite insert_id by done. by destruct d.
Qed.

(** What is promised of the part of a request [body] still to be sent. *)
Definition delivers (d : pd) (fd sfd : Z) (p body : bytes) (s : sock) (v : bool) (ok : bool) (d' : pd) : Prop :=
  exists s' out, used d d' fd sfd p s' /\ s_out s' = s_out s ++ out /\ out `prefix_of` body /\
    (ok = true -> out = body /\ v = true) /\ (s_wr s = [] -> ok = v).

(** After the headers: the byte that makes PostScript print as text, the file
    and the answer. *)
Lemma send_tail_spec d j fd sfd p c s o :
  let fl := rq_flags (req j) in
  w_faults (os d) = [] -> w_fds (os d) !! fd = Some (p, 0) -> w_fs (os d) !! p = Some c ->
  socks d !! sfd = Some s -> answers s o ->
  wp (let* n := (if has_flag fl PR_TEXT then on_sock sfd (swrite [8]) else ret 1) in
      if negb (n =? 1) then ret false else
      let* turns := file_fuel fd in
      let* ok := send_loop turns fd sfd in
      if negb ok then ret false else
      let* turns := sock_fuel sfd in
      on_sock sfd (printer_status turns fuel junk (jobid j)))
    (delivers d fd sfd p (extra fl ++ c) s (verdict o (jobid j))) d.
Proof.
  intros fl Hf Hfd Hc Hs Ha.
  apply (wp_seq _ _ (fun n d1 => exists s1 out, used d d1 fd sfd p s1 /\ w_fds (os d1) !! fd = Some (p, 0) /\
    sent s s1 out /\ out `prefix_of` extra fl /\ (n = 1 -> out = extra fl) /\
    (s_wr s = [] -> n = 1 /\ s_wr s1 = []))).
  { unfold extra. destruct (has_flag fl PR_TEXT).
    - apply (wp_on_sock _ s); [done|]. eapply wp_mono; [apply swrite_spec|cbv beta].
      intros n s1 (out & S1 & P1 & E1 & F1). exists s1, out. split_and!; try done. by eapply used_sock.
    - apply wp_ret. exists s, []. split_and!; try done.
      + pose proof (used_sock d fd sfd p 0 s Hfd) as H. rewrite insert_id in H by done. by destruct d.
      + split; [done|by rewrite app_nil_r]. }
  intros n d1 (s1 & o1 & U1 & Hfd1 & S1 & P1 & E1 & F1).
  destruct (Z.eqb_spec n 1) as [->|Hne]; cbn [negb].
  2:{ apply wp_ret. exists s1, o1. split_and!; [done|apply S1| |done|].
      - etrans; [exact P1|]. by apply prefix_app_r.
      - intros Hfr. by destruct (F1 Hfr). }
  rewrite E1 in S1 by done. assert (U1' := U1). destruct U1 as [pos1 ->].
  set (d1 := set_socks _ _) in *.
  apply wp_bind, (wp_file_fuel _ p 0 c); [done|done|].
  eapply wp_seq; [apply (send_loop_spec fd sfd p _ [] c d1 s1); [done|done|done|apply lookup_insert_eq|lia]|cbv beta].
  intros ok d2 (s2 & o2 & U2 & S2 & P2 & E2 & F2). pose proof (used_trans _ _ _ _ _ _ _ _ U1' U2) as U.
  pose proof (sent_trans _ _ _ _ _ S1 S2) as S.
  destruct ok; cbn [negb].
  2:{ apply wp_ret. exists s2, (extra fl ++ o2). split_and!; [done|apply S|by apply prefix_app|done|].
      intros Hfr. by destruct (F2 (proj2 (F1 Hfr))). }
  rewrite E2 in S by done. assert (Hs2 : socks d2 !! sfd = Some s2) by (destruct U as [? ->]; apply lookup_insert_eq).
  apply wp_bind, (wp_sock_fuel _ s2); [done|]. apply (wp_on_sock _ s2); [done|].
  eapply wp_mono; [apply (printer_status_answers _ o); [by eapply answers_in; [|apply S]|lia|done]|cbv beta].
  intros ok s3 (-> & Ho & _). exists s3, (extra fl ++ c). split_and!; try done.
  - destruct U as [pos ->]. exists pos. cbn. by rewrite insert_insert_eq.
  - rewrite Ho. apply S.
Qed.

Lemma send_job_spec d j fd sfd p c s o :
  w_faults (os d) = [] -> w_fds (os d) !! fd = Some (p, 0) -> w_fs (os d) !! p = Some c ->
  socks d !! sfd = Some s -> answers s o -> sendable (printer_name d) j ->
  Z.of_nat (length c) < 10 ^ 19 ->
  wp (send_job ibuf0 hbuf0 junk fuel j (Z.of_nat (length c)) fd sfd)
    (delivers d fd sfd p (job_wire (printer_name d) j c) s (verdict o (jobid j))) d.
Proof.
  intros Hf Hfd Hc Hs Ha [Hz Hn Hj Hfit] Hsz. unfold send_job.
  set (fl := rq_flags (req j)).
  apply wp_bind, wp_get. unfold field_str. rewrite !bool_decide_eq_true_2 by set_solver.
  apply wp_bind, wp_ret, wp_bind, wp_ret, wp_bind, wp_with_buf.
  eapply wp_mono; [by apply ipp_header_spec|cbv beta].
  intros ilen ibuf (-> & _ & ti & ->).
  change (print_job _ _ _ _ _) with (job_ipp (printer_name d) j).
  set (L := Z.of_nat (length (job_body (printer_name d) j c))).
  assert (HL : Z.of_nat (length c) + Z.of_nat (length (job_ipp (printer_name d) j)) + (if has_flag fl PR_TEXT then 1 else 0) = L).
  { unfold L, job_body, extra. fold fl. destruct (has_flag fl PR_TEXT); len. }
  cbv beta iota zeta. rewrite HL. apply wp_bind, wp_with_buf.
  eapply wp_mono; [apply http_header_spec; [done..|]|cbv beta].
  { rewrite <- HL. unfold IBUFSZ in Hfit. destruct (has_flag fl PR_TEXT); lia. }
  intros hlen hbuf (-> & _ & th & ->). cbv beta iota zeta. rewrite !take_app_length.
  set (hdr := post (printer_name d) L ++ job_ipp (printer_name d) j).
  assert (Hw : job_wire (printer_name d) j c = hdr ++ extra fl ++ c) by (unfold job_wire, job_body, hdr; by apps).
  rewrite Hw. apply wp_bind, (wp_on_sock _ s); [done|]. eapply wp_mono; [apply swrite_spec|cbv beta].
  intros n1 s1 (o1 & S1 & P1 & E1 & F1).
  assert (U1 : used d (set_socks (<[sfd := s1]> (socks d)) d) fd sfd p s1) by (by eapply used_sock).
  destruct (Z.eqb_spec n1 (Z.of_nat (length (post (printer_name d) L) + length (job_ipp (printer_name d) j)))) as [->|Hne]; cbn [negb].
  2:{ apply wp_ret. exists s1, o1. split_and!; [done|apply S1| |done|].
      - etrans; [exact P1|]. by apply prefix_app_r.
      - intros Hfr. destruct (F1 Hfr) as [-> _]. exfalso. apply Hne. unfold hdr. len. }
  rewrite E1 in S1 by (unfold hdr; len).
  eapply wp_mono; [apply (send_tail_spec _ j fd sfd p c s1 o); try done; [apply lookup_insert_eq|]|cbv beta].
  { by eapply answers_in; [|apply S1]. }
  intros ok d' (s' & out & U & Ho & Hp & Hok & Hfr). exists s', (hdr ++ out). split_and!.
  - by eapply used_trans.
  - rewrite Ho. destruct S1 as [_ ->]. by rewrite app_assoc.
  - by apply prefix_app.
  - intros H. destruct (Hok H) as [-> ->]. done.
  - intros H. apply Hfr. by destruct (F1 H).
Qed.
End send.

(** ** Connecting *)

(** The connection that [n] attempts give, if any: refused attempts are
    repeated, a failure to get a socket is not. *)
Fixpoint first_up (n : nat) (ps : list peer) : option sock :=
  match n, ps with
  | S n', Refused :: l => first_up n' l
  | S _, Up s :: _ => Some s
  | _, _ => None
  end.

(** The outcome of connecting: no other part of the state changes, and a
    refused attempt leaves no socket behind. *)
Definition connected (d : pd) (o : option sock) (fd : Z) (d' : pd) : Prop :=
  exists ps, match o with
  | None => fd = -1 /\ d' = set_peers ps d
  | Some s => 0 <= fd /\ socks d !! fd = None /\ d' = set_peers ps (set_socks (<[fd := s]> (socks d)) d)
  end.

Lemma connect_loop_spec : forall n d,
  (n <= 8)%nat -> wp (connect_loop (S n) (2 ^ (8 - Z.of_nat n))) (connected d (first_up n (peers d))) d.
Proof.
  induction n as [|n IH]; intros d Hn.
  - cbn. by exists (peers d); destruct d.
  - remember (S n) as m. cbn [connect_loop]. subst m.
    assert (Hp : 2 ^ (8 - Z.of_nat (S n)) <= MAXSLEEP).
    { change MAXSLEEP with (2 ^ 7). apply Z.pow_le_mono_r; lia. }
    destruct (Z.leb_spec (2 ^ (8 - Z.of_nat (S n))) MAXSLEEP); [|lia].
    apply wp_bind. unfold wp at 1, socket_connect. destruct (peers d) as [|[| |s] ps] eqn:Ep.
    + by exists [].
    + by exists ps.
    + cbn [Z.leb Z.compare first_up]. rewrite Z.shiftl_mul_pow2, <- Z.pow_add_r by lia.
      replace (8 - Z.of_nat (S n) + 1) with (8 - Z.of_nat n) by lia.
      eapply wp_mono; [apply IH; lia|]. cbv beta. intros fd d' [ps' Hps]. exists ps'. cbn [peers set_peers] in Hps.
      by destruct (first_up n ps).
    + set (fd := 1 + _). cbn [first_up].
      assert (Hfd : 0 <= fd /\ socks d !! fd = None).
      { unfold fd. split.
        - pose proof (foldr_max_nonneg (elements (dom (socks d)))). lia.
        - apply not_elem_of_dom. intros H'%elem_of_elements%foldr_max_ge. lia. }
      destruct (Z.leb_spec 0 fd); [|lia]. apply wp_ret. destruct Hfd. exists ps. split_and!; done.
Qed.

Lemma connect_retry_spec d : wp connect_retry (connected d (first_up 8 (peers d))) d.
Proof. apply (connect_loop_spec 8). lia. Qed.

(** ** Paths in the spool directory *)

Lemma spool_name_eq dir id :
  (length dir <= 4)%nat -> nonul dir -> 0 <= id <= INT_MAX ->
  spool_name dir id = SPOOLDIR ++ str "/" ++ dir ++ str "/" ++ dec id.
Proof.
  intros Hd Hz Hi. unfold spool_name.
  pose proof (dec_length id 10 ltac:(lia)) as Hl. change (10 ^ Z.of_nat 10) with 10000000000 in Hl.
  unfold INT_MAX in Hi. change (2 ^ 31) with 2147483648 in Hi.
  rewrite snprintf_fits.
  2:{ unfold FILENMSZ, SPOOLDIR. specialize (Hl ltac:(lia)). len. }
  apply cstr_end. apply nonul_app_2; [by repeat constructor|]. apply nonul_app_2; [by repeat constructor|].
  apply nonul_app_2; [done|]. apply nonul_app_2; [by repeat constructor|].
  apply digit_nonul, dec_digits. lia.
Qed.

(** The three kinds of spool files have different names. *)
Lemma spool_names_differ id id' :
  0 <= id <= INT_MAX -> 0 <= id' <= INT_MAX ->
  spool_name DATADIR id <> jobno_path /\ spool_name REQDIR id <> jobno_path /\
  spool_name DATADIR id <> spool_name REQDIR id'.
Proof.
  intros H1 H2. rewrite !spool_name_eq by (done || by repeat constructor).
  change jobno_path with (SPOOLDIR ++ str "/" ++ str "jobno").
  split_and!; intros E; apply (app_inv_head SPOOLDIR), (app_inv_head (str "/")) in E; discriminate.
Qed.

#[local] Opaque spool_name jobno_path.

(** ** A turn *)

(** The daemon between two turns: no system call fails, the job-number file is
    open, the number is valid, and the configuration is not being changed. *)
Record Ready (d : pd) : Prop := {
  rd_faults : w_faults (os d) = [];
  rd_fd : exists pos, w_fds (os d) !! jobfd d = Some (jobno_path, pos);
  rd_file : exists c, w_fs (os d) !! jobno_path = Some c;
  rd_next : 1 <= nextjob d <= INT_MAX;
  rd_config : configlock d = false }.

(** The files other than the job-number file. *)
Definition spool (d : pd) : gmap bytes bytes := delete jobno_path (w_fs (os d)).

Section turn.
Context (getaddr : bytes -> option (option bytes)) (ibuf0 hbuf0 junk : bytes) (fuel : nat).
Hypothesis Hib : length ibuf0 = IBUFSZ.
Hypothesis Hhb : length hbuf0 = HBUFSZ.
Hypothesis Hfuel : (IOBUFSZ <= fuel)%nat.

(** The printer's name the turn uses: the current one, or, when a SIGHUP was
    received, the one the configuration file and the resolver give now. *)
Definition effective (d : pd) (name : bytes) : Prop :=
  if reread d then
    exists c host, w_fs (os d) !! CONFIG_FILE = Some c /\
      scan_lines (S (length c)) (str "printer") c = Some host /\ getaddr host = Some (Some name)
  else printer_name d = name.

(** The configuration step. *)
Lemma config_spec d name :
  effective d name -> configlock d = false ->
  wp (check_config getaddr)
    (fun _ d' => d' = set_printer_name name (set_reread false d)) d.
Proof.
  intros He Hc. unfold check_config, lock_config. apply wp_bind, wp_bind, wp_get. rewrite Hc. apply wp_modify, wp_bind, wp_get.
  cbn [reread set_configlock]. unfold effective in He. destruct (reread d) eqn:Er.
  - destruct He as (c & host & Hf & Hs & Hg). apply wp_bind, wp_modify, wp_bind, wp_modify, wp_bind, wp_modify.
    unfold init_printer. apply wp_bind. eapply wp_sysp.
    { unfold get_printaddr, bind, scan_configfile. cbn [os set_configlock set_reread set_printer_name].
      rewrite Hf, Hs, Hg. reflexivity. }
    apply wp_modify. destruct d; cbn in *. subst. done.
  - apply wp_modify. destruct d; cbn in *. by subst.
Qed.

(** Opening a file that exists. *)
Lemma open_existing d p c Q :
  w_faults (os d) = [] -> w_fs (os d) !! p = Some c ->
  (forall fd, 0 <= fd -> w_fds (os d) !! fd = None ->
    Q fd (set_os (set_fds (<[fd := (p, 0)]> (w_fds (os d))) (os d)) d)) ->
  wp (sysp (open p 0)) Q d.
Proof.
  intros Hf Hc HQ. eapply wp_sysp; [apply (open_run _ _ _ c); [done|by rewrite Hc]|].
  rewrite (insert_id (w_fs (os d)) p c) by done.
  replace (set_fs (w_fs (os d)) (os d)) with (os d) by (by destruct (os d)).
  destruct (new_fd (w_fds (os d))). by apply HQ.
Qed.

Lemma open_missing d p Q :
  w_faults (os d) = [] -> w_fs (os d) !! p = None ->
  Q (-1) (set_os (set_errno ENOENT (os d)) d) -> wp (sysp (open p 0)) Q d.
Proof.
  intros Hf Hc HQ. eapply wp_sysp; [|exact HQ]. unfold open. rewrite attempt_ok, Hc by done. done.
Qed.

Lemma wp_close d fd p pos Q :
  w_faults (os d) = [] -> w_fds (os d) !! fd = Some (p, pos) ->
  (forall lk, Q 0 (set_os (set_fds (delete fd (w_fds (os d))) (set_locks lk (os d))) d)) ->
  wp (sysp (close fd)) Q d.
Proof.
  intros Hf Hfd HQ. eapply wp_sysp; [unfold close; rewrite attempt_ok, Hfd by done; reflexivity|]. apply HQ.
Qed.

Lemma wp_unlink d p Q :
  w_faults (os d) = [] ->
  (forall r e, Q r (set_os (set_errno e (set_fs (delete p (w_fs (os d))) (os d))) d)) ->
  wp (sysp (unlink p)) Q d.
Proof.
  intros Hf HQ. apply wp_zoom. unfold wp, unlink. rewrite attempt_ok by done.
  destruct (w_fs (os d) !! p) eqn:E.
  - specialize (HQ 0 (w_errno (os d))). by destruct (os d).
  - specialize (HQ (-1) ENOENT). rewrite delete_id in HQ by done. cbn. by destruct (os d).
Qed.

Lemma Jobs_ext d d' l q :
  Jobs d l q -> jobs d' = jobs d -> jobhead d' = jobhead d -> jobtail d' = jobtail d ->
  joblock d' = joblock d -> Jobs d' l q.
Proof.
  intros [HQ H2] Hj Hh Ht Hk. split; [|by rewrite Hj]. by eapply Queue_ext; [exact HQ|rewrite Hj|..].
Qed.

(** The part of the state a turn leaves alone. *)
Definition steady (d d' : pd) : Prop :=
  jobfd d' = jobfd d /\ nextjob d' = nextjob d /\ configlock d' = configlock d /\
  w_faults (os d') = w_faults (os d).

Lemma finish_spec d jp j fd sfd printed l q p pos :
  w_faults (os d) = [] -> w_fds (os d) !! fd = Some (p, pos) ->
  Jobs d l q -> jp <> null -> (jp ∉ l) -> vals (jobs d) jp = Some j ->
  wp (finish jp j fd sfd printed) (fun r d' => r = true /\ steady d d' /\
    w_fds (os d') = delete fd (w_fds (os d)) /\
    socks d' = (if 0 <=? sfd then delete sfd (socks d) else socks d) /\
    if printed then
      Jobs d' l q /\
      w_fs (os d') = delete (spool_name REQDIR (jobid j)) (delete (spool_name DATADIR (jobid j)) (w_fs (os d)))
    else Jobs d' (jp :: l) (j :: q) /\ w_fs (os d') = w_fs (os d)) d.
Proof.
  intros Hf Hfd HJ Hjp Hjl Hv. destruct (vals_cell _ _ _ Hv) as (c & Hc & Hcv). unfold finish.
  assert (Hsock : forall d1 (Q : unit -> pd -> Prop), Q tt (set_socks (if 0 <=? sfd then delete sfd (socks d1) else socks d1) d1) ->
    wp (if 0 <=? sfd then close_sock sfd else ret tt) Q d1).
  { intros d1 Q HQ. destruct (0 <=? sfd); [by apply wp_modify|]. apply wp_ret. by destruct d1. }
  destruct printed.
  - apply wp_bind, wp_bind, wp_unlink; [done|]. intros r1 e1. apply wp_bind, wp_unlink; [done|]. intros r2 e2.
    apply wp_jmem, wp_dealloc; [by exists c|].
    apply wp_bind. eapply (wp_close _ fd p pos); [done|done|]. intros lk. apply wp_bind, Hsock.
    apply wp_bind, wp_ret, wp_ret. split_and!; try done. destruct HJ as [HQ H2].
    assert (Hne : forall a, a ∈ l -> delete jp (jobs d) !! a = jobs d !! a)
      by (intros a Ha; apply lookup_delete_ne; set_solver).
    split; [eapply Queue_ext; [exact HQ|exact Hne|done..]|].
    eapply Forall2_vals_ext; [|exact H2]. intros a Ha. unfold vals. cbn. by rewrite Hne.
  - apply wp_bind, wp_ret, wp_bind. eapply (wp_close _ fd p pos); [done|done|]. intros lk. apply wp_bind, Hsock.
    set (d1 := set_socks _ _). assert (HJ1 : Jobs d1 l q) by (by eapply Jobs_ext). destruct HJ1 as [HQ1 H2].
    eapply wp_seq; [apply (replace_job_spec d1 l jp c HQ1 Hjp Hjl Hc)|cbv beta].
    intros _ d2 (HQ2 & Hr & Hm & Hk). apply wp_ret.
    apply rest_eq in Hr as ((E1 & E2 & E3 & E4) & (_ & E5 & _) & _). unfold steady.
    rewrite E1, E2, E3, E4, E5. split_and!; try done. split; [done|].
    constructor; [by rewrite Hk|]. eapply Forall2_vals_ext; [|exact H2]. auto.
Qed.

Lemma first_up_in n ps s : first_up n ps = Some s -> Up s ∈ ps.
Proof.
  revert ps. induction n as [|n IH]; intros ps H; [done|]. destruct ps as [|[| |x] ps]; cbn in H; try done.
  - right. by apply IH.
  - simplify_eq. left.
Qed.

(** What the printer answers is determined by the connection, as far as the
    verdict goes. *)
Lemma answers_verdict s o o' id : answers s o -> answers s o' -> verdict o id = verdict o' id.
Proof.
  intros [r l Hs W Hi Hl|Hs] [r' l' Hs' W' Hi' Hl'|Hs']; try done.
  - assert (Hf : exists f, (IOBUFSZ < f)%nat) by (exists (S IOBUFSZ); lia). destruct Hf as [f Hf].
    pose proof (printer_status_response r 1 f [] id l s W Hi Hl ltac:(lia) ltac:(lia) Hs) as H1.
    pose proof (printer_status_response r' 1 f [] id l' s W' Hi' Hl' ltac:(lia) ltac:(lia) Hs') as H2.
    apply wp_run in H1 as (x & s1 & E1 & Ex & _). apply wp_run in H2 as (y & s2 & E2 & Ey & _).
    rewrite E1 in E2. injection E2 as E2 _. cbn [verdict]. congruence.
  - rewrite Hs in Hs'. cbn in Hs'. destruct (r_bytes r) as [|b bs] eqn:E; [|done].
    exfalso. unfold r_bytes, r_line in E. apply app_nil in E as [_ E]. done.
  - rewrite Hs' in Hs. cbn in Hs. destruct (r_bytes r') as [|b bs] eqn:E; [|done].
    exfalso. unfold r_bytes, r_line in E. apply app_nil in E as [_ E]. done.
Qed.

Lemma delete_last (m : gmap bytes bytes) a b c :
  delete c (delete a (delete b m)) = delete a (delete b (delete c m)).
Proof. by rewrite (delete_delete _ c a), (delete_delete m c b). Qed.

(** What a turn on the job [j] did, [q] being the jobs behind it. *)
Inductive turn_result (d d' : pd) (j : job) (q : list job) : Prop :=
| dropped l : spool d !! spool_name DATADIR (jobid j) = None ->
    Jobs d' l q -> spool d' = spool d -> turn_result d d' j q
| printed l s o : first_up 8 (peers d) = Some s -> answers s o -> verdict o (jobid j) = true ->
    Jobs d' l q ->
    spool d' = delete (spool_name REQDIR (jobid j)) (delete (spool_name DATADIR (jobid j)) (spool d)) ->
    turn_result d d' j q
| deferred l : Jobs d' l (j :: q) -> spool d' = spool d ->
    (forall s o, first_up 8 (peers d) = Some s -> answers s o -> s_wr s = [] -> verdict o (jobid j) = false) ->
    turn_result d d' j q.

(** From the configured printer's name on: open the data file, connect, send,
    finish. *)
Lemma turn_tail_spec d jp j l q :
  w_faults (os d) = [] -> Jobs d l q -> jp <> null -> (jp ∉ l) -> vals (jobs d) jp = Some j ->
  sendable (printer_name d) j -> 0 <= jobid j <= INT_MAX ->
  (forall s, Up s ∈ peers d -> exists o, answers s o) ->
  (forall p c, w_fs (os d) !! p = Some c -> Z.of_nat (length c) < 10 ^ 19) ->
  wp (print_picked ibuf0 hbuf0 junk fuel jp) (fun r d' => r = true /\ steady d d' /\
    w_fds (os d') = w_fds (os d) /\ socks d' = socks d /\
    w_fs (os d') !! jobno_path = w_fs (os d) !! jobno_path /\ turn_result d d' j q) d.
Proof.
  intros Hf HJ Hjp Hjl Hv Hsn Hid Hans Hsz. destruct (vals_cell _ _ _ Hv) as (c & Hc & Hcv).
  unfold print_picked. apply wp_bind, wp_jmem. eapply wp_load; [exact Hc|]. rewrite Hcv.
  replace (set_jobs (jobs d) d) with d by (by destruct d).
  set (p := spool_name DATADIR (jobid j)).
  assert (Hp : spool d !! p = w_fs (os d) !! p).
  { destruct (spool_names_differ (jobid j) (jobid j) Hid Hid) as [Hne _].
    apply lookup_delete_ne. intros E. apply Hne. symmetry. exact E. }
  apply wp_bind. destruct (w_fs (os d) !! p) as [dat|] eqn:Edat.
  2:{ apply open_missing; [done..|]. cbn [Z.ltb Z.compare]. apply wp_bind, wp_jmem, wp_dealloc; [by exists c|].
      apply wp_ret. split_and!; try done. apply (dropped _ _ _ _ l); [done| |done].
      destruct HJ as [HQ H2].
      assert (Hne : forall a, a ∈ l -> delete jp (jobs d) !! a = jobs d !! a)
        by (intros a Ha; apply lookup_delete_ne; set_solver).
      split; [eapply Queue_ext; [exact HQ|exact Hne|done..]|].
      eapply Forall2_vals_ext; [|exact H2]. intros a Ha. unfold vals. cbn. by rewrite Hne. }
  apply (open_existing _ p dat); [done..|]. intros fd Hfd0 Hfree. destruct (Z.ltb_spec fd 0); [lia|].
  set (d1 := set_os _ d). assert (Hfd1 : w_fds (os d1) !! fd = Some (p, 0)) by apply lookup_insert_eq.
  apply wp_bind. eapply wp_sysp.
  { unfold fstat. rewrite attempt_ok, Hfd1 by done. unfold file_size.
    change (w_fs (os d1)) with (w_fs (os d)). rewrite Edat. reflexivity. }
  cbn [default from_option id]. replace (set_os (os d1) d1) with d1 by done.
  destruct (Z.ltb_spec 0 0); [lia|]. eapply wp_seq; [apply connect_retry_spec|cbv beta].
  change (peers d1) with (peers d).
  intros sfd d2 [ps Hcon]. apply wp_bind. destruct (first_up 8 (peers d)) as [s|] eqn:Eup.
  - destruct Hcon as (Hs0 & Hsn0 & ->). destruct (Z.ltb_spec sfd 0); [lia|]. set (d2 := set_peers _ _).
    destruct (Hans s) as [o Ho]; [by eapply first_up_in|].
    eapply wp_mono; [apply (send_job_spec _ _ _ _ Hib Hhb Hfuel d2 j fd sfd p dat s o); try done|cbv beta].
    { apply lookup_insert_eq. } { by eapply Hsz. }
    intros ok d3 (s' & out & [pos ->] & _ & _ & Hok & Hfr).
    set (d3 := set_socks _ _). assert (HJ3 : Jobs d3 l q) by (by eapply Jobs_ext).
    eapply wp_mono; [apply (finish_spec d3 jp j fd sfd ok l q p pos); try done; apply lookup_insert_eq|cbv beta].
    intros r d' (-> & Hst & Hfds & Hsk & Hres). split; [done|]. split; [done|].
    split; [rewrite Hfds; cbn; by rewrite insert_insert_eq, delete_insert_id|].
    split; [rewrite Hsk; destruct (Z.leb_spec 0 sfd); [|lia]; cbn; by rewrite insert_insert_eq, delete_insert_id|].
    destruct (spool_names_differ (jobid j) (jobid j) Hid Hid) as (Hn1 & Hn2 & _).
    destruct ok; destruct Hres as [HJ' Hfs].
    + split; [rewrite Hfs, !lookup_delete_ne by assumption; reflexivity|]. destruct (Hok eq_refl) as [_ Hver]. apply (printed _ _ _ _ l s o); [exact Eup|exact Ho|exact Hver|exact HJ'|].
      unfold spool. rewrite Hfs. apply delete_last.
    + split; [by rewrite Hfs|]. apply (deferred _ _ _ _ (jp :: l)); [done|unfold spool; by rewrite Hfs|].
      intros s0 o0 E Ho0 Hw. rewrite Eup in E. injection E as <-.
      rewrite (answers_verdict s o0 o _ Ho0 Ho). symmetry. apply Hfr. exact Hw.
  - destruct Hcon as (-> & ->). cbn [Z.ltb Z.compare]. apply wp_ret. set (d2 := set_peers _ _).
    assert (HJ2 : Jobs d2 l q) by (by eapply Jobs_ext).
    eapply wp_mono; [apply (finish_spec d2 jp j fd (-1) false l q p 0); done|cbv beta].
    intros r d' (-> & Hst & Hfds & Hsk & HJ' & Hfs). split; [done|]. split; [done|].
    split; [rewrite Hfds; cbn; by rewrite delete_insert_id|]. split; [done|]. split; [by rewrite Hfs|].
    apply (deferred _ _ _ _ (jp :: l)); [done|unfold spool; by rewrite Hfs|]. intros s0 o0 E. rewrite Eup in E. discriminate.
Qed.

Lemma effective_os d d1 w name :
  effective d name -> os d1 = os d -> reread d1 = reread d -> printer_name d1 = printer_name d ->
  (exists v, w_fs w = <[jobno_path := v]> (w_fs (os d1))) -> effective (set_os w d1) name.
Proof.
  unfold effective. intros He Eo Er En [v Hw]. cbn [reread printer_name os set_os]. rewrite Er, En.
  destruct (reread d); [|done]. destruct He as (c & host & Hc & He). exists c, host.
  rewrite Hw, Eo, lookup_insert_ne by done. done.
Qed.

(** The job-number file never grows beyond what it was, or ten digits. *)
Lemma jobno_file_small n c :
  Z.of_nat (length c) < 10 ^ 19 -> 0 <= n <= 2 ^ 31 - 1 ->
  Z.of_nat (length (overwrite 0 (dec n) c)) < 10 ^ 19.
Proof.
  intros Hc Hn. pose proof (dec_length n 10 ltac:(lia)) as Hd. change (10 ^ Z.of_nat 10) with 10000000000 in Hd.
  change (2 ^ 31) with 2147483648 in Hn. specialize (Hd ltac:(lia)).
  unfold overwrite. autorewrite with lens. cbn [length take]. lia.
Qed.

End turn.


#[local] Transparent spool_name jobno_path.

(** A job in the spool, and a printer that refuses once and then answers. *)
Definition padto (n : nat) (l : bytes) : bytes := l ++ replicate (n - length l) 0.
Definition ex_job : job := Job 7 (Req 5 1 (padto 64 (str "bob")) (padto 256 (str "notes.txt"))).
Definition ex_sock : sock := Sock [Chunk (r_bytes ok_response)] [] [] 0.
Definition ex_daemon : pd :=
  Pd {[1 := Node 0 0 ex_job]} 1 1 5 8 false ∅ null false false false (str "lp")
    (World {[jobno_path := str "7"; spool_name DATADIR 7 := str "hello"]} {[5 := (jobno_path, 0); 6 := (spool_name DATADIR 7, 0)]}
       (fun _ _ => F_UNLCK) [] [] 0) {[9 := ex_sock]} [Refused; Up ex_sock] [] [].

Lemma ex_sock_answers : answers ex_sock (Some ok_response).
Proof.
  apply (ans_some _ _ []); [done|apply ok_response_wf|done|]. apply Nat.ltb_lt. by vm_compute.
Qed.

Lemma ex_sendable : sendable (str "lp") ex_job.
Proof.
  split; [by repeat constructor|apply Nat.leb_le; by vm_compute| |apply Nat.leb_le; by vm_compute].
  cbn [ex_job req rq_jobnm]. unfold padto. apply elem_of_app. right. apply elem_of_replicate.
  split; [done|]. vm_compute. done.
Qed.

Lemma ex_sizes p c : w_fs (os ex_daemon) !! p = Some c -> Z.of_nat (length c) < 10 ^ 19.
Proof.
  cbn [os ex_daemon w_fs]. intros [[_ <-]|[_ H]]%lookup_insert_Some; [by vm_compute|].
  apply lookup_singleton_Some in H as [_ <-]. by vm_compute.
Qed.


