(* ===== verification/PrintClient.v ===== *)
(** * Accepting a job: [client_thread] of printd.c

    Whatever the network delivers and whichever system calls fail, a client is
    served in one of two ways: its job is in the queue, with the data and the
    request in the spool directory and a positive answer; or the queue is
    unchanged. *)

From S2P Require Import Prelude CLib Posix Stream Dll Wire PrintStatus Printd PrintQueue PrintThread PrintWire PrintTurn.
Import Lockreg.

(** ** System calls that may fail *)

(** No failures ahead stays so. *)
Definition quiet (w w' : world) : Prop := w_faults w = [] -> w_faults w' = [].

(** Nothing but [errno] and the failure stream changes. *)
Definition unchanged (w w' : world) : Prop :=
  w_fs w' = w_fs w /\ w_fds w' = w_fds w /\ quiet w w'.

Lemma wp_attempt {A} (bad : A) m Q w :
  (forall w', w_faults w <> [] -> unchanged w w' -> Q bad w') -> (forall w', unchanged w w' -> wp m Q w') ->
  wp (attempt bad m) Q w.
Proof.
  intros Hb Hm. unfold unchanged, quiet in *. unfold wp at 1, attempt.
  destruct (w_faults w) as [|[e|] fs] eqn:E; [by apply Hm; rewrite E|by apply Hb|by apply Hm].
Qed.

Lemma creat_spec p w :
  wp (creat p) (fun fd w' => (fd = -1 /\ w_faults w <> [] /\ unchanged w w') \/
    (0 <= fd /\ w_fds w !! fd = None /\ w_fds w' = <[fd := (p, 0)]> (w_fds w) /\
     w_fs w' = <[p := []]> (w_fs w) /\ quiet w w')) w.
Proof.
  apply wp_attempt; [auto|]. intros w1 (Hfs & Hfds & Hq).
  destruct (new_fd (w_fds w1)) as [Hge Hno]. unfold wp. cbv zeta.
  destruct (w_fs w1 !! p); cbn; right; rewrite <- ?Hfs, <- ?Hfds; done.
Qed.

Lemma write_append fd p c x w :
  w_fds w !! fd = Some (p, Z.of_nat (length c)) -> w_fs w !! p = Some c ->
  wp (write fd x) (fun n w' => (n = -1 /\ w_faults w <> [] /\ unchanged w w') \/
    (n = Z.of_nat (length x) /\ w_fs w' = <[p := c ++ x]> (w_fs w) /\
     w_fds w' = <[fd := (p, Z.of_nat (length (c ++ x)))]> (w_fds w) /\ quiet w w')) w.
Proof.
  intros Hfd Hc. apply wp_attempt; [auto|]. intros w1 (Hfs & Hfds & Hq). unfold wp. rewrite Hfds, Hfd. cbn.
  right. rewrite Hfs, Hc. cbn. rewrite Nat2Z.id, overwrite_end. split; [done|]. split; [done|].
  split; [|exact Hq]. do 2 f_equal. len.
Qed.

Lemma close_any fd w : wp (close fd) (fun _ w' => w_fs w' = w_fs w /\ quiet w w') w.
Proof.
  apply wp_attempt; [by intros w' _ (? & _ & ?)|]. intros w1 (Hfs & _ & Hq). unfold wp. by destruct (w_fds w1 !! fd) as [[]|].
Qed.

Lemma unlink_any p w : wp (unlink p) (fun _ w' => (forall x, x <> p -> w_fs w' !! x = w_fs w !! x) /\ quiet w w') w.
Proof.
  apply wp_attempt; [by intros w' _ (-> & _ & ?)|]. intros w1 (Hfs & _ & Hq). unfold wp.
  destruct (w_fs w1 !! p); cbn; (split; [|exact Hq]); intros x Hx; rewrite ?lookup_delete_ne by done; by rewrite Hfs.
Qed.

Lemma wp_sysp' {A} (m : M world A) Q d :
  wp m (fun a w => Q a (set_os w d)) (os d) -> wp (sysp m) Q d.
Proof. apply wp_zoom. Qed.

(** ** Copying the data *)

Section client.
Context (strerror : Z -> bytes) (buf0 msg0 : bytes).

(** [PR_TEXT] is set when the first piece, over what the buffer held, does not
    start like PostScript. *)
Definition text_flag (piece : bytes) (flags : Z) : Z :=
  if strncmp 4 (overwrite 0 piece buf0) (str "%!PS") =? 0 then flags else Z.lor flags PR_TEXT.

(** What the flags become when [dat] arrives: its first piece decides. *)
Definition flagged (dat : bytes) (flags flags' : Z) : Prop :=
  if decide (dat = []) then flags' = flags
  else exists piece more, dat = piece ++ more /\ piece <> [] /\ flags' = text_flag piece flags.

Lemma copy_loop_spec fd dfd p first : forall fuel flags d s c,
  socks d !! fd = Some s -> w_fds (os d) !! dfd = Some (p, Z.of_nat (length c)) ->
  w_fs (os d) !! p = Some c -> (length (readable true (s_in s)) < fuel)%nat ->
  wp (copy_loop buf0 fuel fd dfd first flags) (fun r d' => exists s' w',
    d' = set_socks (<[fd := s']> (socks d)) (set_os w' d) /\ s_out s' = s_out s /\ s_wr s' = s_wr s /\
    (forall x, x <> p -> w_fs w' !! x = w_fs (os d) !! x) /\ quiet (os d) w' /\
    match r with
    | inl _ => w_faults (os d) <> []
    | inr flags' => w_fs w' = <[p := c ++ readable true (s_in s)]> (w_fs (os d)) /\
        if first : bool then flagged (readable true (s_in s)) flags flags' else flags' = flags
    end) d.
Proof.
  intros fuel. revert first. induction fuel as [|fuel IH]; intros first flags d s c Hs Hfd Hc Hf; [lia|].
  cbn [copy_loop]. apply wp_bind, (wp_on_sock _ s); [done|].
  eapply wp_mono; [apply (tread_reader s IOBUFSZ); unfold IOBUFSZ; lia|cbv beta].
  intros nd s1 (Ho & Hw & Hcase). destruct (decide (readable true (s_in s) = [])) as [He|He].
  - subst nd. cbn [fst snd]. assert (((if fails true (s_in s) then -1 else 0) <=? 0) = true) as -> by (by destruct (fails true (s_in s))).
    apply wp_ret. exists s1, (os d). rewrite He, app_nil_r, (insert_id (w_fs (os d))) by done. split_and!; try done; [by intros ?|].
    destruct first; [|done]. unfold flagged. by rewrite decide_True.
  - destruct Hcase as (Hc1 & Hpos & Hcut & _). rewrite Hc1. destruct (Z.leb_spec (Z.of_nat (length nd.2)) 0); [lia|].
    set (fl := if first && _ then _ else _). apply wp_bind, wp_sysp'.
    eapply wp_mono; [by apply (write_append _ p c)|cbv beta]. intros nw w1 [(-> & Hbad & Hun)|(-> & Hfs & Hfds & Hq)].
    + destruct (Z.eqb_spec (-1) (Z.of_nat (length nd.2))); [lia|]. cbn [negb].
      apply wp_bind, wp_sysp', wp_bind, wp_get, wp_ret, wp_ret. exists s1, w1.
      split_and!; try done; [intros x _; by rewrite (proj1 Hun)|apply Hun].
    + rewrite Z.eqb_refl. cbn [negb].
      eapply wp_mono; [apply (IH false fl _ s1 (c ++ nd.2))|cbv beta].
      * apply lookup_insert_eq.
      * cbn. by rewrite Hfds, lookup_insert_eq.
      * cbn. by rewrite Hfs, lookup_insert_eq.
      * rewrite Hcut, length_app in Hf. lia.
      * intros r d' (s' & w' & -> & Ho' & Hw' & Hx & Hq' & Hr). cbn in Hx, Hr, Hq'. exists s', w'.
        split; [cbn; by rewrite insert_insert_eq|]. split; [congruence|]. split; [congruence|].
        split; [intros x Hne; rewrite Hx, Hfs by done; by apply lookup_insert_ne|].
        split; [intros H0; by apply Hq', Hq|].
        destruct r as [e|flags']; [intros H0; by apply Hr, Hq|]. destruct Hr as [Hfs' ->]. split.
        -- by rewrite Hfs', Hfs, insert_insert_eq, Hcut, app_assoc.
        -- subst fl. destruct first; [|done]. unfold flagged. rewrite decide_False by done.
           exists nd.2, (readable true (s_in s1)). split; [done|]. split; [intros E; rewrite E in Hpos; cbn in Hpos; lia|].
           unfold text_flag. cbn [andb]. by destruct (strncmp 4 _ _ =? 0).
Qed.

(** ** Steps that leave the queue alone *)

Abbreviation pdata id := (spool_name DATADIR id).
Abbreviation preq id := (spool_name REQDIR id).
#[local] Opaque spool_name.

(** The queue is the same, and so are all files but those of job [id]. *)
Record idle (id : Z) (d d' : pd) : Prop := {
  id_jobs : jobs d' = jobs d;
  id_head : jobhead d' = jobhead d;
  id_tail : jobtail d' = jobtail d;
  id_lock : joblock d' = joblock d;
  id_mem : mallocs d' = mallocs d;
  id_fs : forall x, x <> pdata id -> x <> preq id -> w_fs (os d') !! x = w_fs (os d) !! x;
  id_quiet : quiet (os d) (os d') }.

Lemma idle_refl id d : idle id d d.
Proof. split; try reflexivity. by intros ?. Qed.

Lemma idle_trans id d1 d2 d3 : idle id d1 d2 -> idle id d2 d3 -> idle id d1 d3.
Proof.
  intros [] []. split; try congruence; [|unfold quiet in *; auto]. intros x H1 H2. rewrite id_fs1 by assumption. apply id_fs0; assumption.
Qed.

Lemma idle_Jobs id d d' l q : idle id d d' -> Jobs d l q -> Jobs d' l q.
Proof. intros [] HJ. by eapply Jobs_ext. Qed.

Lemma idle_os id d w :
  (forall x, x <> pdata id -> x <> preq id -> w_fs w !! x = w_fs (os d) !! x) -> quiet (os d) w ->
  idle id d (set_os w d).
Proof. by split. Qed.

Lemma idle_socks id d x : idle id d (set_socks x d).
Proof. split; try reflexivity. by intros ?. Qed.

Lemma reply_spec id fd s rc jid msg d :
  socks d !! fd = Some s ->
  wp (reply msg0 fd rc jid msg) (fun _ d' => idle id d d' /\ os d' = os d /\ nextjob d' = nextjob d /\
    exists s', socks d' = <[fd := s']> (socks d) /\
    (s_wr s = [] -> s_out s' = s_out s ++ enc_resp (Resp rc jid (overwrite 0 (snprintf MSGLEN_MAX msg) msg0)))) d.
Proof.
  intros Hs. unfold reply. apply wp_bind, (wp_on_sock _ s); [done|].
  eapply wp_mono; [apply writen_sent|cbv beta]. intros n s' (out & Hsent & _ & Hall & Hfree). apply wp_ret.
  split; [apply idle_socks|]. split; [done|]. split; [done|]. exists s'. split; [done|]. intros Hw.
  destruct (Hfree Hw) as [-> _]. rewrite Hall in Hsent by done. apply Hsent.
Qed.

(** An error answer and the removal of files, in any order, end with 1. *)
Lemma fail_spec id fd s e d (k : M pd Z) :
  socks d !! fd = Some s ->
  (forall d1, idle id d d1 -> wp k (fun r d' => r = 1 /\ idle id d d') d1) ->
  wp (reply_err strerror msg0 fd e ;;; k) (fun r d' => r = 1 /\ idle id d d') d.
Proof.
  intros Hs Hk. eapply wp_seq; [by apply (reply_spec id _ s)|cbv beta]. intros _ d1 (Hi & _). by apply Hk.
Qed.

Lemma unlink_step id d d0 (k : M pd Z) p :
  p = pdata id \/ p = preq id -> idle id d0 d ->
  (forall d1, idle id d0 d1 -> wp k (fun r d' => r = 1 /\ idle id d0 d') d1) ->
  wp (sysp (unlink p) ;;; k) (fun r d' => r = 1 /\ idle id d0 d') d.
Proof.
  intros Hp Hi Hk. apply wp_bind, wp_sysp'. eapply wp_mono; [apply unlink_any|cbv beta].
  intros _ w1 [Hw Hq]. apply Hk. eapply idle_trans; [exact Hi|]. apply idle_os; [|exact Hq]. intros x H1 H2.
  apply Hw. destruct Hp as [->| ->]; assumption.
Qed.

Lemma fail_ret id d d0 : idle id d0 d -> wp (ret 1) (fun r d' => r = 1 /\ idle id d0 d') d.
Proof. intros. by apply wp_ret. Qed.

Lemma wp_os_errno Q d : Q (w_errno (os d)) d -> wp os_errno Q d.
Proof. intros. apply wp_sysp', wp_bind, wp_get, wp_ret. by destruct d. Qed.

Lemma wp_sock_errno fd s Q d : socks d !! fd = Some s -> Q (s_errno s) d -> wp (sock_errno fd) Q d.
Proof.
  intros Hs HQ. apply (wp_on_sock _ s); [done|]. apply wp_bind, wp_get, wp_ret.
  rewrite insert_id by done. by destruct d.
Qed.

(** ** The request *)

Lemma dec_req_lengths b :
  length b = REQSZ -> length (rq_usernm (dec_req b)) = USERNM_MAX /\ length (rq_jobnm (dec_req b)) = JOBNM_MAX.
Proof. intros H. cbn. unfold sub. unfold REQSZ, USERNM_MAX, JOBNM_MAX in *. split; len. Qed.

Lemma enc_req_length r :
  length (rq_usernm r) = USERNM_MAX -> length (rq_jobnm r) = JOBNM_MAX -> length (enc_req r) = REQSZ.
Proof. intros H1 H2. unfold enc_req. rewrite !length_app, H1, H2. done. Qed.

(** The job that the bytes [b] of a request ask for, with flags [flags]. *)
Definition requested (b : bytes) (flags : Z) : printreq :=
  Req (ntohl (rq_size (dec_req b))) flags (rq_usernm (dec_req b)) (rq_jobnm (dec_req b)).

(** What serving a client did: [in_] is what it sent. *)
Inductive service (d : pd) (fd : Z) (s : sock) (l : list Z) (q : list job) (r : Z) (d' : pd) : Prop :=
| refused : r = 1 -> Jobs d' l q ->
    (length (readable true (s_in s)) < REQSZ)%nat \/ w_faults (os d) <> [] ->
    (forall x, x <> pdata (nextjob d) -> x <> preq (nextjob d) -> w_fs (os d') !! x = w_fs (os d) !! x) ->
    service d fd s l q r d'
| accepted_job b dat flags jp s' : r = 0 ->
    readable true (s_in s) = b ++ dat -> length b = REQSZ ->
    flagged dat (ntohl (rq_flags (dec_req b))) flags ->
    Jobs d' (l ++ [jp]) (q ++ [Job (nextjob d) (requested b flags)]) ->
    w_fs (os d') = <[preq (nextjob d) := enc_req (requested b flags)]> (<[pdata (nextjob d) := dat]> (w_fs (os d))) ->
    socks d' = <[fd := s']> (socks d) ->
    (s_wr s = [] -> s_out s' = s_out s ++ enc_resp (Resp 0 (htonl (nextjob d))
       (overwrite 0 (snprintf MSGLEN_MAX (str "request ID " ++ dec (nextjob d))) msg0))) ->
    service d fd s l q r d'.

Lemma idle_service d d1 fd s l q (m : M pd Z) :
  Jobs d l q -> idle (nextjob d) d d1 ->
  (length (readable true (s_in s)) < REQSZ)%nat \/ w_faults (os d1) <> [] ->
  wp m (fun r d' => r = 1 /\ idle (nextjob d) d1 d') d1 -> wp m (service d fd s l q) d1.
Proof.
  intros HJ Hi Hbad Hm. eapply wp_mono; [exact Hm|cbv beta]. intros r d' [-> Hi'].
  pose proof (idle_trans _ _ _ _ Hi Hi') as H. apply refused; [done|by eapply idle_Jobs| |apply H].
  destruct Hbad as [Hbad|Hbad]; [by left|right]. intros E. apply Hbad, (id_quiet _ _ _ Hi), E.
Qed.

Lemma fail_after d0 d w fd s l q (m : M pd Z) :
  Jobs d0 l q -> idle (nextjob d0) d0 d -> w_faults (os d) <> [] ->
  (forall x, w_fs w !! x = w_fs (os d) !! x) -> quiet (os d) w ->
  wp m (fun r d' => r = 1 /\ idle (nextjob d0) (set_os w d) d') (set_os w d) ->
  wp m (service d0 fd s l q) (set_os w d).
Proof.
  intros HJ Hi Hbad Hfs Hq Hm. eapply wp_mono; [exact Hm|cbv beta]. intros r d' [-> Hi'].
  assert (Hi1 : idle (nextjob d0) d (set_os w d)) by (apply idle_os; [intros; apply Hfs|exact Hq]).
  pose proof (idle_trans _ _ _ _ Hi (idle_trans _ _ _ _ Hi1 Hi')) as H.
  apply refused; [done|by eapply idle_Jobs| |apply H]. right. intros E. apply Hbad, (id_quiet _ _ _ Hi), E.
Qed.

(** A close in between changes nothing that matters. *)
Lemma close_then id d fd (k : M pd Z) Q :
  (forall w, idle id d (set_os w d) -> wp k Q (set_os w d)) -> wp (sysp (close fd) ;;; k) Q d.
Proof.
  intros Hk. apply wp_bind, wp_sysp'. eapply wp_mono; [apply close_any|cbv beta]. intros _ w [Hf Hq].
  apply Hk, idle_os; [|exact Hq]. intros x _ _. by rewrite Hf.
Qed.

Lemma preq_pdata id : 0 <= id <= INT_MAX -> preq id <> pdata id.
Proof. intros H E. destruct (spool_names_differ id id H H) as (_ & _ & Hne). apply Hne. symmetry. exact E. Qed.

Lemma write_control_spec d0 fd s0 s l q b dat flags d :
  let id := nextjob d0 in
  1 <= id <= INT_MAX -> Jobs d0 l q -> idle id d0 d -> mallocs d0 = [] ->
  readable true (s_in s0) = b ++ dat -> length b = REQSZ -> flagged dat (ntohl (rq_flags (dec_req b))) flags ->
  w_fs (os d) = <[pdata id := dat]> (w_fs (os d0)) ->
  socks d = <[fd := s]> (socks d0) -> s_out s = s_out s0 -> s_wr s = s_wr s0 ->
  wp (write_control strerror msg0 fd id (requested b flags)) (service d0 fd s0 l q) d.
Proof.
  intros id Hid HJ Hi Hm HR Hb Hfl Hfs Hsk Ho Hw. unfold write_control.
  assert (Hs : socks d !! fd = Some s) by (rewrite Hsk; apply lookup_insert_eq).
  assert (Hlen : length (enc_req (requested b flags)) = REQSZ).
  { destruct (dec_req_lengths b Hb) as [H1 H2]. apply enc_req_length; [exact H1|exact H2]. }
  apply wp_bind, wp_sysp'. eapply wp_mono; [apply creat_spec|cbv beta].
  intros cfd w1 [(-> & Hbad & Hf1 & Hd1 & Hq1)|(Hc0 & _ & Hfd1 & Hf1 & Hq1)].
  { cbn [Z.ltb Z.compare]. eapply (fail_after d0 d); [exact HJ|exact Hi|exact Hbad|intros; by rewrite Hf1|exact Hq1|].
    apply wp_bind, wp_os_errno. apply (fail_spec id _ s); [exact Hs|]. intros d1 Hi1.
    apply unlink_step; [by left|exact Hi1|]. intros d2 Hi2. by apply fail_ret. }
  destruct (Z.ltb_spec cfd 0); [lia|].
  assert (Hi1 : idle id d0 (set_os w1 d)).
  { eapply idle_trans; [exact Hi|]. apply idle_os; [|exact Hq1]. intros x H1 H2. rewrite Hf1. apply lookup_insert_ne. congruence. }
  apply wp_bind, wp_sysp'. eapply wp_mono; [apply (write_append _ (preq id) [])|cbv beta].
  { cbn. by rewrite Hfd1, lookup_insert_eq. } { cbn. by rewrite Hf1, lookup_insert_eq. }
  intros nw w2 [(-> & Hbad & Hf2 & _ & Hq2)|(-> & Hf2 & _ & Hq2)].
  { destruct (Z.eqb_spec (-1) (Z.of_nat REQSZ)); [lia|]. cbn [negb Z.ltb Z.compare].
    eapply (fail_after d0 (set_os w1 d)); [exact HJ|exact Hi1|exact Hbad|intros; by rewrite Hf2|exact Hq2|].
    apply wp_bind, wp_os_errno. apply (close_then id). intros w3 Hi3. eapply wp_mono; [apply (fail_spec id _ s)|cbv beta].
    - exact Hs.
    - intros d1 Hi4. apply unlink_step; [by right|exact Hi4|]. intros d2 Hi5.
      apply unlink_step; [by left|exact Hi5|]. intros d3 Hi6. by apply fail_ret.
    - intros r d' [-> Hi4]. split; [done|]. by eapply idle_trans. }
  rewrite Hlen, Z.eqb_refl. cbn [negb]. apply wp_bind, wp_sysp'. eapply wp_mono; [apply close_any|cbv beta].
  intros _ w3 [Hf3 Hq3]. set (d3 := set_os w3 _).
  assert (Hfs3 : w_fs (os d3) = <[preq id := enc_req (requested b flags)]> (<[pdata id := dat]> (w_fs (os d0)))).
  { change (w_fs (os d3)) with (w_fs w3). rewrite Hf3. cbn [os set_os app] in *. by rewrite Hf2, Hf1, insert_insert_eq, Hfs. }
  assert (Hi3 : idle id d0 d3).
  { destruct Hi1. split; try assumption; [|intros E; by apply Hq3, Hq2, id_quiet0]. intros x H1 H2.
    rewrite Hfs3, !lookup_insert_ne by congruence. reflexivity. }
  eapply wp_seq; [apply (reply_spec id _ s); exact Hs|cbv beta].
  intros _ d4 (Hi4 & Ho4 & _ & s' & Hsk4 & Hout). pose proof (idle_trans _ _ _ _ Hi3 Hi4) as Hi5.
  pose proof (idle_Jobs _ _ _ _ _ Hi5 HJ) as [HQ4 H24].
  eapply wp_seq; [apply (add_job_spec _ l); [exact HQ4|unfold has_mem; by rewrite (id_mem _ _ _ Hi5), Hm]|cbv beta].
  intros _ d5 (jp & Hjp & Hfr & HQ5 & Hr & _ & Hv & Hk). apply wp_ret.
  apply rest_eq in Hr as ((_ & _ & E3 & E4) & _).
  apply (accepted_job _ _ _ _ _ _ _ b dat flags jp s'); try assumption; try reflexivity.
  - split; [exact HQ5|]. apply Forall2_app; [|constructor; [exact Hv|constructor]].
    eapply Forall2_impl; [|exact H24]. cbn. intros a j Ha. rewrite Hk; [exact Ha|].
    intros ->. unfold vals in Ha. rewrite Hfr in Ha. discriminate.
  - rewrite E3, Ho4. exact Hfs3.
  - rewrite E4, Hsk4. cbn. rewrite Hsk. apply insert_insert_eq.
  - intros Hw0. rewrite <- Hw in Hw0. rewrite <- Ho. apply Hout. exact Hw0.
Qed.

Lemma readable_weight timed l : (length (readable timed l) <= in_weight l)%nat.
Proof.
  induction l as [|[[|c d]|e|] l IH]; cbn [readable in_weight]; try (cbn; lia).
  - rewrite length_app. lia.
  - destruct timed; cbn; lia.
Qed.

(** After the request was read: the data, then the control file. *)
Lemma client_data_spec d0 d fd s0 s l q b dat :
  let id := nextjob d0 in
  1 <= id <= INT_MAX -> Jobs d0 l q -> mallocs d0 = [] ->
  idle id d0 d -> os d = os d0 -> socks d = <[fd := s]> (socks d0) ->
  readable true (s_in s0) = b ++ dat -> length b = REQSZ -> readable true (s_in s) = dat ->
  s_out s = s_out s0 -> s_wr s = s_wr s0 ->
  wp (client_data strerror buf0 msg0 fd id (requested b (ntohl (rq_flags (dec_req b)))))
    (service d0 fd s0 l q) d.
Proof.
  intros id Hid HJ Hm Hi Hos Hsk HR Hb Hdat Ho Hw. unfold client_data.
  assert (Hs : socks d !! fd = Some s) by (rewrite Hsk; apply lookup_insert_eq).
  apply wp_bind, wp_sysp'. eapply wp_mono; [apply creat_spec|cbv beta].
  intros dfd w1 [(-> & Hbad & Hf1 & _ & Hq1)|(Hc0 & _ & Hfd1 & Hf1 & Hq1)].
  { cbn [Z.ltb Z.compare]. eapply (fail_after d0 d); [exact HJ|exact Hi|exact Hbad|intros; by rewrite Hf1|exact Hq1|].
    apply wp_bind, wp_os_errno. apply (fail_spec id _ s); [exact Hs|]. intros d1 Hi1. by apply fail_ret. }
  destruct (Z.ltb_spec dfd 0); [lia|]. apply wp_bind, (wp_sock_fuel _ s); [exact Hs|]. apply wp_bind.
  eapply wp_mono; [apply (copy_loop_spec _ dfd (pdata id) true _ _ _ s [])|cbv beta].
  { exact Hs. } { cbn. by rewrite Hfd1, lookup_insert_eq. } { cbn. by rewrite Hf1, lookup_insert_eq. }
  { pose proof (readable_weight true (s_in s)). lia. }
  intros r d1 (s1 & w2 & -> & Ho1 & Hw1 & Hx & Hq2 & Hr). cbn [os set_os] in Hx, Hr, Hq2.
  set (d1 := set_socks _ _).
  assert (Hs1 : socks d1 !! fd = Some s1) by apply lookup_insert_eq.
  assert (Hi1 : idle id d0 d1).
  { destruct Hi. split; try assumption; [|intros E; by apply Hq2, Hq1, id_quiet0]. intros x H1 H2. change (w_fs (os d1)) with (w_fs w2).
    rewrite Hx, Hf1, lookup_insert_ne by congruence. by rewrite Hos. }
  destruct r as [e|flags].
  - eapply wp_mono.
    + apply (close_then id). intros w3 Hi3. eapply wp_mono; [apply (fail_spec id _ s1)|cbv beta].
      * exact Hs1.
      * intros d2 Hi4. apply unlink_step; [by left|exact Hi4|]. intros d3 Hi5. by apply fail_ret.
      * intros r d' Hend. exact (conj (proj1 Hend) (idle_trans _ _ _ _ Hi1 (idle_trans _ _ _ _ Hi3 (proj2 Hend)))).
    + cbv beta. intros r d' [-> Hi4]. apply refused; [done|by eapply idle_Jobs| |apply Hi4].
      right. intros E. by apply Hr, Hq1, (id_quiet _ _ _ Hi).
  - destruct Hr as [Hfs Hfl]. apply wp_bind, wp_sysp'. eapply wp_mono; [apply close_any|cbv beta].
    intros _ w3 [Hf3 Hq3]. cbn [app] in *. rewrite Hdat in *.
    apply (write_control_spec d0 fd s0 s1 l q b dat flags); try assumption.
    + eapply idle_trans; [exact Hi1|]. apply idle_os; [|exact Hq3]. intros x _ _. by rewrite Hf3.
    + change (w_fs w3 = <[pdata id := dat]> (w_fs (os d0))). rewrite Hf3. change (w_fs (os d1)) with (w_fs w2).
      by rewrite Hfs, Hf1, insert_insert_eq, Hos.
    + change (<[fd := s1]> (socks d) = <[fd := s1]> (socks d0)). by rewrite Hsk, insert_insert_eq.
    + congruence.
    + congruence.
Qed.

Lemma client_body_spec d fd s l q :
  Jobs d l q -> socks d !! fd = Some s -> 1 <= nextjob d <= INT_MAX -> mallocs d = [] ->
  wp (client_body strerror buf0 msg0 fd) (service d fd s l q) d.
Proof.
  intros HJ Hs Hid Hm. unfold client_body. apply wp_bind, (wp_on_sock _ s); [exact Hs|].
  eapply wp_mono; [apply treadn_spec|cbv beta]. intros nd s1 (Ho & Hw & Hnd & Hrest).
  set (R := readable true (s_in s)) in *.
  set (d1 := set_socks (<[fd := s1]> (socks d)) d).
  assert (Hs1 : socks d1 !! fd = Some s1) by apply lookup_insert_eq.
  assert (Hi1 : idle (nextjob d) d d1) by apply idle_socks.
  destruct (decide (REQSZ <= length R)%nat) as [HR|HR].
  - destruct (Hrest HR) as [Hr1 _].
    rewrite decide_False in Hnd by (intros [E _]; rewrite E in HR; unfold REQSZ in HR; cbn in HR; lia).
    rewrite length_take, Nat.min_l in Hnd by exact HR. subst nd. cbn [fst snd]. rewrite Z.eqb_refl. cbn [negb].
    eapply wp_seq; [apply get_newjobno_spec; [apply (q_free _ _ (proj1 HJ))|exact Hid]|cbv beta].
    intros id d2 [-> ->]. change (nextjob d1) with (nextjob d).
    apply (client_data_spec d _ fd s s1 l q (take REQSZ R) (drop REQSZ R)); try assumption; try reflexivity.
    + split; try reflexivity. by intros ?.
    + by rewrite take_drop.
    + rewrite length_take. lia.
  - assert (Hne : nd.1 <> Z.of_nat REQSZ).
    { subst nd. destruct (decide _) as [[E _]|_]; cbn [fst].
      - destruct (fails true (s_in s)); discriminate.
      - rewrite length_take. lia. }
    destruct (Z.eqb_spec nd.1 (Z.of_nat REQSZ)); [done|]. cbn [negb].
    apply (idle_service d); [exact HJ|exact Hi1|left; change (length R < REQSZ)%nat; lia|].
    apply wp_bind, (wp_sock_errno _ s1); [exact Hs1|]. apply (fail_spec _ _ s1); [exact Hs1|].
    intros d2 Hi2. by apply fail_ret.
Qed.

(** C21. A client is served completely or not at all.  Whatever pieces its
    connection delivers and whichever of the system calls on the spool files
    fail, the body of [client_thread] returns.  Either the queue and the files
    of all other jobs are unchanged, which happens only if the request was cut
    short or a system call failed; or the client sent a whole request [b]
    followed by [dat].  Then a job with the next number and the request of [b]
    is appended to the queue, the two spool files hold exactly [dat] and the
    request, no other file is touched, and (if the connection takes it) the
    client was sent the answer 0 with the job's number. *)
Theorem client_served d fd s l q :
  Jobs d l q -> socks d !! fd = Some s -> 1 <= nextjob d <= INT_MAX -> mallocs d = [] ->
  wp (client_body strerror buf0 msg0 fd) (fun r d' => service d fd s l q r d') d.
Proof. apply client_body_spec. Qed.
End client.

(** A PostScript job that arrives in two pieces and a time-out. *)
Definition ex_request : bytes :=
  le32 (htonl 9) ++ le32 (htonl 0) ++ padto 64 (str "bob") ++ padto 256 (str "a.ps").
Definition ex_client : sock := Sock [Chunk (take 100 ex_request); Chunk (drop 100 ex_request); Chunk (str "%!PS 1 2"); Tmo] [] [] 0.
Definition ex_server : pd :=
  Pd ∅ null null 5 41 false ∅ null false false false (str "lp")
    (World ∅ ∅ (fun _ _ => F_UNLCK) [] [] 0) {[4 := ex_client]} [] [] [].

Lemma client_served_witness :
  wp (client_body (fun _ => []) [] [] 4) (fun r d' => service [] [] ex_server 4 ex_client [] [] r d') ex_server.
Proof.
  apply (client_served (fun _ => []) [] [] ex_server 4 ex_client [] []).
  - split; [split; [apply Dll_nil|done]|constructor].
  - done.
  - unfold INT_MAX. cbn. lia.
  - done.
Defined.
