(* ===== verification/PrintCmd.v ===== *)
(** * The print command: src/apue.3e/printer/print.c

    [submit_file], which sends a file to the daemon, and the way of a job from
    the command through the daemon's [client_thread] into its queue and spool
    directory, and back. *)

From S2P Require Import Prelude CLib Posix Stream Dll Wire PrintStatus Printd PrintQueue PrintThread PrintWire PrintTurn PrintClient.

(** The command's files and its connection to the daemon. *)
Record pc := Pc { c_os : world; c_sock : sock }.
Definition set_cos x p := Pc x (c_sock p).
Definition set_csock x p := Pc (c_os p) x.
Definition cfile {A} (m : M world A) : M pc A := zoom c_os set_cos m.
Definition csock {A} (m : M sock A) : M pc A := zoom c_sock set_csock m.

Section print.
(** What the fields of the request hold on the stack before they are set. *)
Context (junku junkj : bytes).

(** [pw] is the name of the user in the password file. *)
Definition user_field (pw : option bytes) : bytes :=
  match pw with
  | None => overwrite 0 (str "unknown" ++ [NUL]) junku
  | Some n => overwrite (USERNM_MAX - 1) [NUL]
                (overwrite 0 (padto (USERNM_MAX - 1) (take (USERNM_MAX - 1) n)) junku)
  end.

(** The name of the job: the end of a long file name. *)
Definition job_title (fname : bytes) : bytes :=
  let len := length fname in
  if (JOBNM_MAX <=? len)%nat then str "... " ++ drop (len - JOBNM_MAX + 5) fname else fname.

Definition name_field (fname : bytes) : bytes :=
  overwrite 0 (snprintf JOBNM_MAX (job_title fname)) junkj.

Definition build_request (pw : option bytes) (fname : bytes) (nbytes : Z) (text : bool) : printreq :=
  Req (htonl nbytes) (if text then htonl PR_TEXT else 0) (user_field pw) (name_field fname).

(** [writen] that must take everything. *)
Definition must_write (d : bytes) : M pc unit :=
  let* nw := csock (writen d) in
  if nw =? Z.of_nat (length d) then ret tt
  else if nw <? 0 then stop (Err_sys "can't write to print server")
  else stop (Err_quit "short write to print server").

(** The loop that sends the file.  When [read] fails, its -1 is passed on as the
    length of [buf]. *)
Fixpoint send_file (fuel : nat) (fd : Z) : M pc unit :=
  match fuel with
  | O => stop Hang
  | S f =>
      let* nd := cfile (read fd IOBUFSZ) in
      if nd.1 =? 0 then ret tt
      else if nd.1 <? 0 then stop Crash
      else must_write nd.2 ;;; send_file f fd
  end.

Definition send_request (fd : Z) (pw : option bytes) (fname : bytes) (nbytes : Z) (text : bool) : M pc unit :=
  must_write (enc_req (build_request pw fname nbytes text)) ;;;
  let* p := get in
  let fuel := match w_fds (c_os p) !! fd with
              | Some (f, _) => S (length (default [] (w_fs (c_os p) !! f)))
              | None => 1%nat
              end in
  send_file fuel fd.

(** The job's number, as printed. *)
Definition read_answer : M pc Z :=
  let* nd := csock (readn RESPSZ) in
  if negb (nd.1 =? Z.of_nat RESPSZ) then stop (Err_sys "can't read response from server") else
  let retcode := rd_le32 nd.2 in
  if negb (retcode =? 0) then stop (Exit 1) else ret (ntohl (rd_le32 (drop 4 nd.2))).

Definition submit_file (fd : Z) (pw : option bytes) (fname : bytes) (nbytes : Z) (text : bool) : M pc Z :=
  send_request fd pw fname nbytes text ;;;
  read_answer.

(** ** What is sent *)

Lemma must_write_free d Q p :
  s_wr (c_sock p) = [] ->
  Q tt (Pc (c_os p) (Sock (s_in (c_sock p)) (s_out (c_sock p) ++ d) [] (s_errno (c_sock p)))) ->
  wp (must_write d) Q p.
Proof.
  intros Hw HQ. unfold must_write. apply wp_bind, wp_zoom. eapply wp_of_run; [by apply writen_free|].
  rewrite Z.eqb_refl. exact HQ.
Qed.

Lemma send_file_spec fd f : forall fuel pre c p,
  w_faults (c_os p) = [] -> w_fds (c_os p) !! fd = Some (f, Z.of_nat (length pre)) ->
  w_fs (c_os p) !! f = Some (pre ++ c) -> s_wr (c_sock p) = [] -> (length c < fuel)%nat ->
  wp (send_file fuel fd) (fun _ p' => s_out (c_sock p') = s_out (c_sock p) ++ c) p.
Proof.
  induction fuel as [|fuel IH]; intros pre c p Hf Hfd Hc Hw Hfu; [lia|]. cbn [send_file].
  set (x := take IOBUFSZ c). assert (Hx : (0 < length c -> 0 < length x)%nat)
    by (subst x; rewrite length_take; unfold IOBUFSZ; lia).
  assert (Hcx : c = x ++ drop IOBUFSZ c) by (subst x; by rewrite take_drop).
  apply wp_bind, wp_zoom. eapply wp_of_run.
  { unfold read. rewrite attempt_ok, Hfd by done. rewrite Hc. cbn [default from_option id].
    rewrite Nat2Z.id. unfold sub. rewrite drop_app_length. fold x. reflexivity. }
  cbn [fst snd]. destruct (Z.eqb_spec (Z.of_nat (length x)) 0) as [E|E].
  - assert (c = []) as -> by (destruct c; [done|cbn in Hx; lia]). apply wp_ret. cbn. by rewrite app_nil_r.
  - destruct (Z.ltb_spec (Z.of_nat (length x)) 0); [lia|]. apply wp_bind, must_write_free; [done|].
    eapply wp_mono; [apply (IH (pre ++ x) (drop IOBUFSZ c))|cbv beta].
    + done.
    + cbn. rewrite lookup_insert_eq. do 2 f_equal. len.
    + cbn. rewrite Hc. by rewrite <- app_assoc, <- Hcx.
    + done.
    + apply (f_equal length) in Hcx. rewrite length_app in Hcx. lia.
    + cbn. intros _ p' ->. by rewrite <- app_assoc, <- Hcx.
Qed.

Lemma send_request_spec fd f c pw fname nbytes text p :
  w_faults (c_os p) = [] -> w_fds (c_os p) !! fd = Some (f, 0) -> w_fs (c_os p) !! f = Some c ->
  s_wr (c_sock p) = [] ->
  wp (send_request fd pw fname nbytes text) (fun _ p' =>
    s_out (c_sock p') = s_out (c_sock p) ++ enc_req (build_request pw fname nbytes text) ++ c) p.
Proof.
  intros Hf Hfd Hc Hw. unfold send_request. apply wp_bind, must_write_free; [done|].
  apply wp_bind, wp_get. cbn [c_os]. rewrite Hfd, Hc. cbn [default from_option id].
  eapply wp_mono; [apply (send_file_spec fd f _ [] c); try done; lia|cbv beta].
  intros _ p' ->. cbn. by rewrite <- app_assoc.
Qed.

(** ** The fields of the request *)
Hypothesis Hju : length junku = USERNM_MAX.
Hypothesis Hjj : length junkj = JOBNM_MAX.

(** The user's name as the daemon will see it. *)
Definition user_name (pw : option bytes) : bytes :=
  match pw with None => str "unknown" | Some n => take (USERNM_MAX - 1) n end.

Lemma cstr_app_nul s t : nonul s -> cstr (s ++ NUL :: t) = s.
Proof. apply cstr_end. Qed.

Lemma user_field_shape pw :
  (forall n, pw = Some n -> nonul n) ->
  exists t, user_field pw = user_name pw ++ NUL :: t /\ length (user_field pw) = USERNM_MAX /\ nonul (user_name pw).
Proof.
  intros Hn. destruct pw as [n|]; cbn [user_field user_name]; unfold USERNM_MAX in *.
  - specialize (Hn n eq_refl). change (64 - 1)%nat with 63%nat.
    set (u := take 63 n). assert (Hu : (length u <= 63)%nat) by (subst u; len).
    assert (Hz : nonul u) by (by apply Forall_take).
    assert (Hp : length (padto 63 u) = 63%nat) by (unfold padto; len).
    rewrite overwrite_start by lia.
    destruct (drop (length (padto 63 u)) junku) as [|x t] eqn:E.
    { apply (f_equal length) in E. rewrite length_drop, Hju, Hp in E. cbn in E. lia. }
    assert (t = []) as ->.
    { apply (f_equal length) in E. rewrite length_drop, Hju, Hp in E. destruct t; [done|cbn in E; lia]. }
    rewrite (overwrite_eq 63 (padto 63 u) [x] [NUL] []) by done.
    exists (replicate (63 - length u) 0). unfold padto.
    assert (Ec : forall k, replicate k 0 ++ [NUL] = NUL :: replicate k 0).
    { intros k. symmetry. exact (replicate_S_end k 0). }
    split; [by rewrite <- app_assoc, app_nil_r, Ec|]. split; [len|done].
  - rewrite overwrite_start by len. eexists. split; [by rewrite <- app_assoc|]. split; [len|by repeat constructor].
Qed.

Lemma job_title_length fname : (length (job_title fname) < JOBNM_MAX)%nat.
Proof. unfold job_title, JOBNM_MAX. destruct (Nat.leb_spec 256 (length fname)); len. Qed.

Lemma job_title_nonul fname : nonul fname -> nonul (job_title fname).
Proof.
  intros H. unfold job_title. destruct (JOBNM_MAX <=? length fname)%nat; [|done].
  apply nonul_app_2; [by repeat constructor|by apply Forall_drop].
Qed.

Lemma name_field_shape fname :
  nonul fname -> exists t, name_field fname = job_title fname ++ NUL :: t /\ length (name_field fname) = JOBNM_MAX.
Proof.
  intros H. unfold name_field. pose proof (job_title_length fname). rewrite snprintf_fits by done.
  rewrite overwrite_start by len. eexists. split; [by rewrite <- app_assoc|]. unfold JOBNM_MAX in *. len.
Qed.

Lemma dec_enc_req r x :
  0 <= rq_size r < 2 ^ 32 -> 0 <= rq_flags r < 2 ^ 32 ->
  length (rq_usernm r) = USERNM_MAX -> length (rq_jobnm r) = JOBNM_MAX -> dec_req (enc_req r ++ x) = r.
Proof.
  intros H1 H2 H3 H4. destruct r as [sz fl u j]. cbn [rq_size rq_flags rq_usernm rq_jobnm] in *.
  unfold dec_req, enc_req. cbn [rq_size rq_flags rq_usernm rq_jobnm]. f_equal.
  - rewrite <- app_assoc. by apply rd_le32_le32.
  - rewrite (drop_eq (le32 sz) (le32 fl ++ u ++ j ++ x)); [by apply rd_le32_le32|by apps|done].
  - unfold sub. rewrite (drop_eq (le32 sz ++ le32 fl) (u ++ j ++ x)); [|by apps|done].
    rewrite <- H3. apply take_app_length.
  - unfold sub. rewrite (drop_eq (le32 sz ++ le32 fl ++ u) (j ++ x)); [|by apps|].
    + rewrite <- H4. apply take_app_length.
    + rewrite !length_app, H3. done.
Qed.

Lemma read_answer_spec id msg p :
  1 <= id <= INT_MAX -> length msg = MSGLEN_MAX ->
  readable false (s_in (c_sock p)) = enc_resp (Resp 0 (htonl id) msg) ->
  wp read_answer (fun r _ => r = id) p.
Proof.
  intros Hid Hm HR. unfold read_answer. apply wp_bind, wp_zoom.
  assert (Hl : length (enc_resp (Resp 0 (htonl id) msg)) = RESPSZ).
  { unfold enc_resp. cbn [rs_retcode rs_jobid rs_msg]. rewrite !length_app, Hm. done. }
  eapply wp_mono; [apply readn_spec|cbv beta]. intros nd s' (_ & _ & Hnd & _).
  rewrite HR in Hnd. rewrite decide_False in Hnd by (intros [E _]; rewrite E in Hl; discriminate).
  rewrite take_ge, Hl in Hnd by lia. subst nd. cbn [fst snd]. rewrite Z.eqb_refl. cbn [negb].
  unfold enc_resp. cbn [rs_retcode rs_jobid rs_msg].
  rewrite rd_le32_le32 by done. cbn [Z.eqb negb].
  rewrite (drop_eq (le32 0) (le32 (htonl id) ++ msg)) by done.
  rewrite rd_le32_le32 by apply htonl_range. apply wp_ret. apply ntohl_htonl.
  unfold INT_MAX in Hid. change (2 ^ 31) with 2147483648 in Hid. change (2 ^ 32) with 4294967296. lia.
Qed.

(** C13. From the command to the queue and back.  What [print] sends for a file
    with contents [c] makes the daemon, however the network cuts it into pieces
    and when no system call fails, append a job whose user name, title and size
    are those of the command, with exactly [c] in the spool directory; and
    reading the daemon's answer gives the number of that job. *)
Theorem print_end_to_end strerror buf0 msg0 fd f c pw fname nbytes text p d sfd s l q :
  length msg0 = MSGLEN_MAX -> nonul fname -> (forall n, pw = Some n -> nonul n) -> 0 <= nbytes < 2 ^ 32 ->
  w_faults (c_os p) = [] -> w_fds (c_os p) !! fd = Some (f, 0) -> w_fs (c_os p) !! f = Some c ->
  s_wr (c_sock p) = [] -> s_out (c_sock p) = [] ->
  Jobs d l q -> socks d !! sfd = Some s -> 1 <= nextjob d <= INT_MAX -> mallocs d = [] ->
  w_faults (os d) = [] -> s_wr s = [] -> s_out s = [] ->
  wp (send_request fd pw fname nbytes text) (fun _ p' =>
    readable true (s_in s) = s_out (c_sock p') ->
    wp (client_body strerror buf0 msg0 sfd) (fun r d' => r = 0 /\
      exists l' rq s', Jobs d' l' (q ++ [Job (nextjob d) rq]) /\
        cstr (rq_usernm rq) = user_name pw /\ cstr (rq_jobnm rq) = job_title fname /\ rq_size rq = nbytes /\
        flagged buf0 c (if text then PR_TEXT else 0) (rq_flags rq) /\
        w_fs (os d') !! spool_name DATADIR (nextjob d) = Some c /\
        socks d' !! sfd = Some s' /\
        forall p2, readable false (s_in (c_sock p2)) = s_out s' ->
          wp read_answer (fun id _ => id = nextjob d) p2) d) p.
Proof.
  intros Hm Hfn Hpw Hnb Hf Hfd Hc Hw Hout HJ Hs Hid Hmal Hfd' Hws Hos.
  eapply wp_mono; [by apply (send_request_spec fd f c)|cbv beta]. intros _ p' Hp' HR.
  rewrite Hp', Hout in HR. cbn [app] in HR. set (rq0 := build_request pw fname nbytes text) in *.
  destruct (user_field_shape pw Hpw) as (tu & Eu & Lu & Nu). destruct (name_field_shape fname Hfn) as (tj & Ej & Lj).
  assert (Hb : length (enc_req rq0) = REQSZ) by (by apply enc_req_length).
  assert (Hdec : dec_req (enc_req rq0) = rq0).
  { rewrite <- (app_nil_r (enc_req rq0)). apply dec_enc_req; [apply htonl_range| |exact Lu|exact Lj].
    cbn. destruct text; [apply htonl_range|done]. }
  eapply wp_mono; [by apply (client_body_spec strerror buf0 msg0 d sfd s l q)|cbv beta].
  intros r d' [Hr _ [Hbad|Hbad] _|b dat flags jp s' Hr HR' Hb' Hfl HJ' Hfs Hsk Hso].
  { rewrite HR, length_app in Hbad. lia. } { done. }
  split; [exact Hr|]. rewrite HR in HR'. apply app_inj_1 in HR' as [<- <-]; [|congruence].
  unfold requested in *. rewrite Hdec in *. exists (l ++ [jp]). eexists _, s'. split; [exact HJ'|].
  cbn [rq_usernm rq_jobnm rq_size rq_flags rq0 build_request] in *. split_and!.
  - rewrite Eu. by apply cstr_end.
  - rewrite Ej. apply cstr_end. by apply job_title_nonul.
  - by apply ntohl_htonl.
  - by destruct text.
  - rewrite Hfs, lookup_insert_ne; [apply lookup_insert_eq|]. apply preq_pdata. lia.
  - by rewrite Hsk, lookup_insert_eq.
  - intros p2 Hp2. eapply read_answer_spec; [exact Hid| |rewrite Hp2, Hso, Hos by exact Hws; reflexivity].
    pose proof (dec_length (nextjob d) 10 ltac:(lia)) as Hl. change (10 ^ Z.of_nat 10) with 10000000000 in Hl.
    unfold INT_MAX in Hid. change (2 ^ 31) with 2147483648 in Hid. specialize (Hl ltac:(lia)).
    rewrite snprintf_fits by (unfold MSGLEN_MAX; len). rewrite overwrite_start; unfold MSGLEN_MAX in *; len.
Qed.
End print.

Lemma print_end_to_end_witness :
  let p := Pc (World {[str "notes" := str "hello"]} {[3 := (str "notes", 0)]} (fun _ _ => F_UNLCK) [] [] 0)
              (Sock [] [] [] 0) in
  let req := enc_req (build_request (replicate 64 7) (replicate 256 7) (Some (str "bob")) (str "notes") 5 true) in
  let s := Sock [Chunk req; Chunk (str "hel"); Chunk (str "lo"); Tmo] [] [] 0 in
  let d := Pd ∅ null null 5 41 false ∅ null false false false (str "lp")
    (World ∅ ∅ (fun _ _ => F_UNLCK) [] [] 0) {[4 := s]} [] [] [] in
  wp (send_request (replicate 64 7) (replicate 256 7) 3 (Some (str "bob")) (str "notes") 5 true) (fun _ p' =>
    readable true (s_in s) = s_out (c_sock p') ->
    wp (client_body (fun _ => []) [] (replicate 512 0) 4) (fun r d' => r = 0) d) p.
Proof.
  intros p req s d.
  eapply wp_mono; [apply (print_end_to_end (replicate 64 7) (replicate 256 7) eq_refl eq_refl (fun _ => []) [] (replicate 512 0)
    3 (str "notes") (str "hello") (Some (str "bob")) (str "notes") 5 true p d 4 s [] [])|].
  - reflexivity.
  - by repeat constructor.
  - intros n [= <-]. by repeat constructor.
  - lia.
  - reflexivity.
  - reflexivity.
  - reflexivity.
  - reflexivity.
  - reflexivity.
  - split; [split; [apply Dll_nil|reflexivity]|constructor].
  - reflexivity.
  - unfold INT_MAX. cbn. lia.
  - reflexivity.
  - reflexivity.
  - reflexivity.
  - reflexivity.
  - cbv beta. intros _ p' H HR. eapply wp_mono; [exact (H HR)|]. cbv beta. intros r d' [Hr _]. exact Hr.
Defined.

(** ** Restart *)

(** What [client_thread] stores of a job can be read back. *)
Record storable (j : job) : Prop := {
  st_id : 1 <= jobid j <= INT_MAX;
  st_size : 0 <= rq_size (req j) < 2 ^ 32;
  st_flags : 0 <= rq_flags (req j) < 2 ^ 32;
  st_user : length (rq_usernm (req j)) = USERNM_MAX;
  st_name : length (rq_jobnm (req j)) = JOBNM_MAX }.

Lemma req_name_dec id : req_name (dec id) = spool_name REQDIR id.
Proof. done. Qed.

Lemma atol_dec_nul n : 0 <= n -> atol (dec n) = n.
Proof. intros H. pose proof (atol_dec n [] H eq_refl) as E. by rewrite app_nil_r in E. Qed.

Lemma dec_not_dot n : 0 <= n -> (strcmp (dec n) (str ".") =? 0) || (strcmp (dec n) (str "..") =? 0) = false.
Proof.
  intros H. pose proof (dec_isdigit n H) as Hd. destruct (dec_cons n H) as (x & ds & -> & Hx).
  change (str ".") with [46]. change (str "..") with [46; 46]. cbn [strcmp].
  unfold isdigit in Hx. destruct (Z.eqb_spec x 46); [lia|]. cbn [andb]. lia.
Qed.

#[local] Opaque spool_name.

Lemma build_loop_spec js : forall d l q,
  Jobs d l q -> mallocs d = [] -> w_faults (os d) = [] -> Forall storable js ->
  (forall j, j ∈ js -> w_fs (os d) !! spool_name REQDIR (jobid j) = Some (enc_req (req j))) ->
  wp (build_loop (dec ∘ jobid <$> js)) (fun _ d' => exists l', Jobs d' l' (q ++ js) /\
    w_fs (os d') = w_fs (os d) /\ size (w_fds (os d')) = (size (w_fds (os d)) + length js)%nat) d.
Proof.
  induction js as [|j js IH]; intros d l q HJ Hm Hf Hst Hfs.
  - apply wp_ret. exists l. rewrite app_nil_r. split; [done|]. split; [done|]. cbn. lia.
  - apply Forall_cons_iff in Hst as [[Hid Hsz Hfl Hu Hn] Hst]. cbn [fmap list_fmap build_loop compose].
    rewrite dec_not_dot by lia. apply wp_bind. rewrite req_name_dec.
    apply (open_existing _ _ (enc_req (req j))); [done|apply Hfs; by left|]. intros fd Hfd0 Hfree.
    destruct (Z.ltb_spec fd 0); [lia|]. set (d1 := set_os _ d).
    assert (Hl : length (enc_req (req j)) = REQSZ) by (by apply enc_req_length).
    apply wp_bind. eapply wp_sysp.
    { apply (read_all_run _ fd (spool_name REQDIR (jobid j)) REQSZ (enc_req (req j))).
      - done.
      - apply lookup_insert_eq.
      - cbn [os set_os w_fs set_fds d1]. apply Hfs. by left.
      - by rewrite Hl. }
    cbn [fst snd]. rewrite Hl, Z.eqb_refl. cbn [negb].
    assert (Ed : dec_req (enc_req (req j)) = req j).
    { rewrite <- (app_nil_r (enc_req (req j))). by apply dec_enc_req. }
    rewrite Ed, atol_dec_nul, to_i32_small by (unfold INT_MAX in *; lia). set (d2 := set_os _ d1).
    assert (HJ2 : Jobs d2 l q) by (by eapply Jobs_ext). destruct HJ2 as [HQ2 H2].
    eapply wp_seq; [apply (add_job_spec d2 l); [done|unfold has_mem; cbn; by rewrite Hm]|cbv beta].
    intros _ d3 (jp & Hjp & Hfr & HQ3 & Hr & Hm3 & Hv & Hk).
    apply rest_eq in Hr as ((_ & _ & E3 & _) & _).
    assert (HJ3 : Jobs d3 (l ++ [jp]) (q ++ [j])).
    { split; [done|]. apply Forall2_app; [|constructor; [by destruct j|constructor]].
      eapply Forall2_impl; [|exact H2]. cbn. intros a x Ha. rewrite Hk; [exact Ha|].
      intros ->. unfold vals in Ha. change (jobs d2) with (jobs d) in *. by rewrite Hfr in Ha. }
    eapply wp_mono; [apply (IH d3 _ _ HJ3)|cbv beta].
    + by rewrite Hm3; cbn; rewrite Hm.
    + by rewrite E3.
    + done.
    + intros x Hx. rewrite E3. apply Hfs. by right.
    + intros _ d' (l' & HJ' & Hfs' & Hsz'). exists l'. rewrite <- app_assoc in HJ'. split; [done|].
      split; [by rewrite Hfs', E3|]. rewrite Hsz', E3. cbn. rewrite insert_insert_eq, map_size_insert_None by done. lia.
Qed.

(** C38. A restart recovers the queue.  If the request directory holds, besides
    its two standard entries, the requests of the jobs [js], as [client_thread]
    stored them, then [build_qonstart] appends exactly these jobs, in the order
    of the directory, with the numbers of their files, and leaves the files
    alone.  It also leaves one descriptor open for every job it adds. *)
Theorem restart_recovers js d l q :
  Jobs d l q -> mallocs d = [] -> w_faults (os d) = [] -> Forall storable js ->
  (forall j, j ∈ js -> w_fs (os d) !! spool_name REQDIR (jobid j) = Some (enc_req (req j))) ->
  wp (build_qonstart (Some (str "." :: str ".." :: (dec ∘ jobid <$> js)))) (fun _ d' =>
    exists l', Jobs d' l' (q ++ js) /\ w_fs (os d') = w_fs (os d) /\
      size (w_fds (os d')) = (size (w_fds (os d)) + length js)%nat) d.
Proof. intros. by eapply build_loop_spec. Qed.

Lemma restart_recovers_witness :
  let j := Job 7 (Req 5 1 (padto 64 (str "bob")) (padto 256 (str "a"))) in
  let d := Pd ∅ null null 5 41 false ∅ null false false false (str "lp")
    (World {[spool_name REQDIR 7 := enc_req (req j)]} ∅ (fun _ _ => F_UNLCK) [] [] 0) ∅ [] [] [] in
  wp (build_qonstart (Some [str "."; str ".."; str "7"])) (fun _ d' => exists l', Jobs d' l' [j]) d.
Proof.
  intros j d. eapply wp_mono; [apply (restart_recovers [j] d [] [])|].
  - split; [split; [apply Dll_nil|done]|constructor].
  - done.
  - done.
  - repeat constructor; cbn; unfold INT_MAX; lia.
  - intros x Hx. apply list_elem_of_singleton in Hx as ->. apply lookup_singleton_eq.
  - cbv beta. intros _ d' (l' & HJ & _). by exists l'.
Defined.
