(* ===== verification/Errlog.v ===== *)
(** * The error routines: lib/error.c and lib/errorlog.c

    [err_doit] and [log_doit] build one line in a buffer of [MAXLINE] bytes on
    the stack: the caller's text, the text of the error number if it is asked
    for, a newline.  The model keeps the buffer: its initial contents are
    arbitrary, every [snprintf] writes where the code computes, and a write
    past the end is [Crash].  The format and its arguments enter as the text
    they print.  The streams are modelled with stdout's buffer, so that the
    order in which the output reaches a terminal is visible. *)

From S2P Require Import Prelude CLib.

Module Errlog.

Definition MAXLINE : Z := 4096.
Definition LOG_ERR : Z := 3.

Inductive stream := Stdout | Stderr.

(** The process as the routines see it: what is pending in stdout's buffer,
    what was written to the two streams in order, the system log, [errno],
    [log_to_stderr], and the identity [openlog] was told. *)
Record proc := Proc {
  pending : bytes;
  written : list (stream * bytes);
  sys_log : list (Z * bytes);
  errno : Z;
  log_to_stderr : bool;
  opened : option (bytes * Z * Z) }.

Definition set_io (pend : bytes) (wr : list (stream * bytes)) (p : proc) : proc :=
  Proc pend wr (sys_log p) (errno p) (log_to_stderr p) (opened p).

(** [fflush(stdout)], and [fflush(nullptr)]: only stdout can have pending output. *)
Definition fflush_stdout : M proc unit :=
  modify (fun p => set_io [] (written p ++ [(Stdout, pending p)]) p).
Definition fputs_stderr (s : bytes) : M proc unit :=
  modify (fun p => set_io (pending p) (written p ++ [(Stderr, s)]) p).
Definition syslog (priority : Z) (s : bytes) : M proc unit :=
  modify (fun p => Proc (pending p) (written p) (sys_log p ++ [(priority, s)]) (errno p)
                        (log_to_stderr p) (opened p)).
Definition exit {A} (code : Z) : M proc A := fflush_stdout ;;; stop (Exit code).
Definition abort : M proc unit := stop Abort.

(** ** The line buffer *)

(** [strlen(buf)]: a buffer without a null byte is read past its end. *)
Definition buf_strlen : M bytes Z :=
  let* b := get in
  if bool_decide (0 ∈ b) then ret (strlen b) else stop Crash.

(** [snprintf(buf + off, size, ...)] of the text [s]; [size] is a [size_t]. *)
Definition buf_print (off size : Z) (s : bytes) : M bytes unit :=
  let* b := get in
  let t := snprintf (Z.to_nat (to_u64 size)) s in
  if off + Z.of_nat (length t) <=? Z.of_nat (length b)
  then modify (overwrite (Z.to_nat off) t) else stop Crash.

Section errors.
(** The text of an error number. *)
Variable strerror : Z -> bytes.

(** The part [err_doit] and [log_doit] share, on the uninitialised buffer
    [junk]; the result is the line. *)
Definition build_line (junk : bytes) (errnoflag : bool) (error : Z) (text : bytes) : M bytes bytes :=
  modify (fun _ => junk) ;;;
  buf_print 0 (MAXLINE - 1) text ;;;
  (if errnoflag
   then let* n := buf_strlen in
        buf_print n (MAXLINE - n - 1) (str ": " ++ strerror error)
   else ret tt) ;;;
  let* n := buf_strlen in
  buf_print n (MAXLINE - n) [10] ;;;
  let* b := get in
  ret (cstr b).

Definition in_buffer {A} (m : M bytes A) : M proc A := fun p => ((m []).1, p).

(** The callers' stack array. *)
Variable junk : bytes.

Definition err_doit (errnoflag : bool) (error : Z) (text : bytes) : M proc unit :=
  let* line := in_buffer (build_line junk errnoflag error text) in
  fflush_stdout ;;; fputs_stderr line ;;; fflush_stdout.

Definition err_ret (text : bytes) : M proc unit :=
  let* p := get in err_doit true (errno p) text.
Definition err_sys (text : bytes) : M proc unit :=
  let* p := get in err_doit true (errno p) text ;;; exit 1.
Definition err_cont (error : Z) (text : bytes) : M proc unit :=
  err_doit true error text.
Definition err_exit (error : Z) (text : bytes) : M proc unit :=
  err_doit true error text ;;; exit 1.
Definition err_dump (text : bytes) : M proc unit :=
  let* p := get in err_doit true (errno p) text ;;; abort ;;; exit 1.
Definition err_msg (text : bytes) : M proc unit :=
  err_doit false 0 text.
Definition err_quit (text : bytes) : M proc unit :=
  err_doit false 0 text ;;; exit 1.

Definition log_doit (errnoflag : bool) (error priority : Z) (text : bytes) : M proc unit :=
  let* line := in_buffer (build_line junk errnoflag error text) in
  let* p := get in
  if log_to_stderr p then fflush_stdout ;;; fputs_stderr line
  else syslog priority line.

Definition log_open (ident : bytes) (option_ facility : Z) : M proc unit :=
  let* p := get in
  if log_to_stderr p then ret tt
  else modify (fun p => Proc (pending p) (written p) (sys_log p) (errno p) (log_to_stderr p)
                             (Some (ident, option_, facility))).
Definition log_ret (text : bytes) : M proc unit :=
  let* p := get in log_doit true (errno p) LOG_ERR text.
Definition log_sys (text : bytes) : M proc unit :=
  let* p := get in log_doit true (errno p) LOG_ERR text ;;; exit 2.
Definition log_msg (text : bytes) : M proc unit :=
  log_doit false 0 LOG_ERR text.
Definition log_quit (text : bytes) : M proc unit :=
  log_doit false 0 LOG_ERR text ;;; exit 2.
Definition log_exit (error : Z) (text : bytes) : M proc unit :=
  log_doit true error LOG_ERR text ;;; exit 2.

(** ** What is reported *)

(** The line: the text with the error's, cut to leave room for the newline
    and the null byte. *)
Definition line (errnoflag : bool) (error : Z) (text : bytes) : bytes :=
  take (Z.to_nat (MAXLINE - 2)) (text ++ if errnoflag then str ": " ++ strerror error else []) ++ [10].

(** stdout's pending output first, then the line. *)
Definition reported (l : bytes) (p : proc) : proc :=
  set_io [] (written p ++ [(Stdout, pending p); (Stderr, l); (Stdout, [])]) p.
Definition logged (l : bytes) (p : proc) : proc :=
  if log_to_stderr p then set_io [] (written p ++ [(Stdout, pending p); (Stderr, l)]) p
  else Proc (pending p) (written p) (sys_log p ++ [(LOG_ERR, l)]) (errno p) (log_to_stderr p) (opened p).
Definition flushed (p : proc) : proc := set_io [] (written p ++ [(Stdout, pending p)]) p.

(** ** The line fits *)

(** The buffer holds the string [s]. *)
Definition holds (s b : bytes) : Prop :=
  Z.of_nat (length b) = MAXLINE /\ nonul s /\ exists rest, b = s ++ 0 :: rest.

Lemma strlen_holds s b : holds s b -> wp buf_strlen (fun n b' => n = Z.of_nat (length s) /\ b' = b) b.
Proof.
  intros (_ & Hs & rest & ->). unfold buf_strlen. apply wp_bind, wp_get.
  rewrite bool_decide_eq_true_2 by set_solver. apply wp_ret.
  unfold strlen. by rewrite cstr_end.
Qed.

(** Printing at the end of the string, within what is left of the buffer. *)
Lemma print_holds s b size t :
  holds s b -> nonul t -> 1 <= size -> Z.of_nat (length s) + size <= MAXLINE ->
  wp (buf_print (Z.of_nat (length s)) size t)
     (fun _ b' => holds (s ++ take (Z.to_nat (size - 1)) t) b') b.
Proof.
  intros (Hb & Hs & rest & ->) Ht H1 H2. unfold buf_print, MAXLINE in *. apply wp_bind, wp_get.
  cbv zeta. unfold to_u64. rewrite Z.mod_small by lia.
  replace (Z.to_nat size) with (S (Z.to_nat (size - 1))) by lia. cbn [snprintf].
  assert (Hle : Z.of_nat (length s) + Z.of_nat (length (take (Z.to_nat (size - 1)) t ++ [0])) <=
                Z.of_nat (length (s ++ 0 :: rest))) by len.
  unfold NUL. rewrite (proj2 (Z.leb_le _ _) Hle). apply wp_modify.
  assert (Hn : nonul (take (Z.to_nat (size - 1)) t)) by (by apply Forall_take).
  remember (take (Z.to_nat (size - 1)) t) as u eqn:Hu. clear Hu Ht H1 H2.
  rewrite Nat2Z.id. split_and!; [|by apply nonul_app|].
  - rewrite overwrite_length; [done|len].
  - exists (drop (length u) rest). rewrite (overwrite_eq _ s (take (S (length u)) (0 :: rest)) _ (drop (length u) rest)).
    + by rewrite <- !app_assoc.
    + f_equal. cbn. by rewrite take_drop.
    + done.
    + len.
Qed.

Lemma print_first b size t :
  Z.of_nat (length b) = MAXLINE -> nonul t -> 1 <= size <= MAXLINE ->
  wp (buf_print 0 size t) (fun _ b' => holds (take (Z.to_nat (size - 1)) t) b') b.
Proof.
  intros Hb Ht H. unfold buf_print, MAXLINE in *. apply wp_bind, wp_get.
  cbv zeta. unfold to_u64. rewrite Z.mod_small by lia.
  replace (Z.to_nat size) with (S (Z.to_nat (size - 1))) by lia. cbn [snprintf].
  assert (Hle : 0 + Z.of_nat (length (take (Z.to_nat (size - 1)) t ++ [0])) <= Z.of_nat (length b)) by len.
  unfold NUL. rewrite (proj2 (Z.leb_le _ _) Hle). apply wp_modify.
  assert (Hn : nonul (take (Z.to_nat (size - 1)) t)) by (by apply Forall_take).
  split_and!; [rewrite overwrite_length; [done|len]|done|].
  eexists. unfold overwrite. cbn [take app]. rewrite <- app_assoc. reflexivity.
Qed.

Hypothesis strerror_nonul : forall e, nonul (strerror e).
Hypothesis junk_length : Z.of_nat (length junk) = MAXLINE.

Lemma build_line_spec flag error text :
  nonul text -> (build_line junk flag error text []).1 = Ret (line flag error text).
Proof.
  intros Ht. enough (H : wp (build_line junk flag error text) (fun l _ => l = line flag error text) []).
  { apply wp_run in H as (a & s' & -> & ->). done. }
  unfold build_line. apply wp_bind, wp_modify.
  eapply wp_seq; [apply print_first; [done|done|unfold MAXLINE; lia]|]. cbv beta. intros _ b Hb.
  set (u := take (Z.to_nat (MAXLINE - 2)) (text ++ if flag then str ": " ++ strerror error else [])).
  assert (Hu : (length u <= 4094)%nat) by (unfold u, MAXLINE; len).
  eapply (wp_seq _ _ (fun _ b' => holds u b')).
  { destruct flag.
    - eapply wp_seq; [by apply strlen_holds|]. cbv beta. intros n b' [-> ->].
      eapply wp_mono; [apply print_holds; [done| | |]|].
      + apply nonul_app. split; [by repeat constructor|apply strerror_nonul].
      + unfold MAXLINE; len.
      + lia.
      + cbv beta. intros _ b' H. unfold u. rewrite take_app.
        unfold MAXLINE in *. replace (Z.to_nat (4096 - 1 - 1)) with (Z.to_nat (4096 - 2)) in H by lia.
        replace (Z.to_nat (4096 - 2) - length text)%nat with
          (Z.to_nat (4096 - Z.of_nat (length (take (Z.to_nat (4096 - 2)) text)) - 1 - 1))
          by (rewrite length_take; lia). done.
    - apply wp_ret. unfold u. rewrite app_nil_r. done. }
  intros _ b' Hb'. eapply wp_seq; [by apply strlen_holds|]. cbv beta. intros n b'' [-> ->].
  eapply wp_seq; [apply print_holds; [done|by repeat constructor|unfold MAXLINE; lia|lia]|].
  cbv beta. intros _ b'' (_ & Hz & rest & ->). apply wp_bind, wp_get, wp_ret. rewrite cstr_end by done.
  unfold line. fold u. f_equal. apply take_ge. unfold MAXLINE. cbn [length]. lia.
Qed.

Lemma err_doit_spec flag error text p :
  nonul text -> err_doit flag error text p = (Ret tt, reported (line flag error text) p).
Proof.
  intros Ht. unfold err_doit, bind, in_buffer. rewrite build_line_spec by done.
  unfold fflush_stdout, fputs_stderr, modify, reported, set_io. cbn. by rewrite <- !app_assoc.
Qed.

Lemma log_doit_spec flag error text p :
  nonul text -> log_doit flag error LOG_ERR text p = (Ret tt, logged (line flag error text) p).
Proof.
  intros Ht. unfold log_doit, bind, in_buffer. rewrite build_line_spec by done. unfold get, logged.
  destruct (log_to_stderr p) eqn:E; [|by unfold syslog, modify; rewrite E].
  unfold fflush_stdout, fputs_stderr, modify, set_io. cbn. by rewrite <- !app_assoc.
Qed.

Lemma after_err {B} flag error text (k : unit -> M proc B) p :
  nonul text -> bind (err_doit flag error text) k p = k tt (reported (line flag error text) p).
Proof. intros Ht. unfold bind. by rewrite err_doit_spec. Qed.

Lemma after_log {B} flag error text (k : unit -> M proc B) p :
  nonul text -> bind (log_doit flag error LOG_ERR text) k p = k tt (logged (line flag error text) p).
Proof. intros Ht. unfold bind. by rewrite log_doit_spec. Qed.

(** C33. The error routines stay inside their line buffer whatever its initial
    contents and however long the text: each one reports exactly one line,
    which is the text with the error's text, cut to [MAXLINE - 2] bytes, and a
    newline, after everything stdout had pending; then it returns, exits with
    the documented status (1 for the [err_] routines, 2 for the [log_] ones)
    or aborts.  The [log_] routines report to stderr or to the system log as
    [log_to_stderr] says. *)
Theorem error_routines (text : bytes) (error : Z) (p : proc) :
  nonul text ->
  let e := line true (errno p) text in
  let g := line true error text in
  let m := line false 0 text in
  (forall flag n, (length (line flag n text) <= 4095)%nat /\ exists l, line flag n text = l ++ [10]) /\
  err_ret text p = (Ret tt, reported e p) /\
  err_sys text p = (Stop (Exit 1), flushed (reported e p)) /\
  err_cont error text p = (Ret tt, reported g p) /\
  err_exit error text p = (Stop (Exit 1), flushed (reported g p)) /\
  err_dump text p = (Stop Abort, reported e p) /\
  err_msg text p = (Ret tt, reported m p) /\
  err_quit text p = (Stop (Exit 1), flushed (reported m p)) /\
  log_ret text p = (Ret tt, logged e p) /\
  log_sys text p = (Stop (Exit 2), flushed (logged e p)) /\
  log_msg text p = (Ret tt, logged m p) /\
  log_quit text p = (Stop (Exit 2), flushed (logged m p)) /\
  log_exit error text p = (Stop (Exit 2), flushed (logged g p)).
Proof.
  intros Ht e g m. split.
  { intros flag n. unfold line, MAXLINE. split; [len|eauto]. }
  unfold err_ret, err_sys, err_cont, err_exit, err_dump, err_msg, err_quit,
    log_ret, log_sys, log_msg, log_quit, log_exit.
  assert (G : forall (k : proc -> M proc unit), bind get k p = k p p) by done.
  rewrite !G, !after_err, !after_log, !err_doit_spec, !log_doit_spec by done.
  by split_and!.
Qed.

End errors.

(** The longest text that is not cut, and one that is. *)
Lemma error_routines_witness :
  let strerror := fun _ : Z => str "No such file or directory" in
  let junk := replicate 4096 255 in
  let text := replicate 4090 97 in
  let p := Proc (str "partial") [] [] 2 false None in
  nonul text /\
  err_sys strerror junk text p =
    (Stop (Exit 1), Proc [] [(Stdout, str "partial"); (Stderr, text ++ str ": No" ++ [10]); (Stdout, []); (Stdout, [])]
                         [] 2 false None).
Proof.
  cbv zeta. set (text := replicate 4090 97). set (p := Proc (str "partial") [] [] 2 false None).
  set (se := fun _ : Z => str "No such file or directory").
  assert (Ht : nonul text) by (apply Forall_replicate; lia).
  split; [exact Ht|].
  destruct (error_routines se (replicate 4096 255) ltac:(intros; by repeat constructor) eq_refl text 0 p Ht)
    as (_ & _ & H & _).
  rewrite H. vm_compute. reflexivity.
Defined.

End Errlog.
