(* ===== verification/Ttymodes.v ===== *)
(** * Terminal modes: lib/ttymodes.c

    [tty_cbreak], [tty_raw], [tty_reset] and [tty_atexit] with the file-scope
    variables they share.  The terminal is its current settings and the
    descriptors that refer to it; what the driver makes of a request is a
    parameter, because [tcsetattr] may succeed with only some of the changes
    made, which is what the routines check for.  [tcgetattr] can also fail at
    any call. *)

From S2P Require Import Prelude CLib.

Module Ttymodes.

(** ** struct termios, with the flags of musl's bits/termios.h *)

Record termios := Termios {
  c_iflag : Z; c_oflag : Z; c_cflag : Z; c_lflag : Z; c_cc : list Z }.

Definition BRKINT : Z := 2.
Definition INPCK : Z := 16.
Definition ISTRIP : Z := 32.
Definition ICRNL : Z := 256.
Definition IXON : Z := 1024.
Definition OPOST : Z := 1.
Definition CSIZE : Z := 48.
Definition CS8 : Z := 48.
Definition PARENB : Z := 256.
Definition ISIG : Z := 1.
Definition ICANON : Z := 2.
Definition ECHO : Z := 8.
Definition IEXTEN : Z := 32768.
Definition VTIME : nat := 5.
Definition VMIN : nat := 6.
Definition EINVAL : Z := 22.
Definition ENOTTY : Z := 25.

Inductive ttymode := RESET | RAW | CBREAK.
#[global] Instance ttymode_eq_dec : EqDecision ttymode.
Proof. solve_decision. Defined.

(** The terminal's settings, the variables of the file, [errno], and the
    outcomes of the [tcgetattr] calls to come: an error number or success;
    success when the list is used up. *)
Record tty := Tty {
  term : termios;
  save_termios : termios;
  ttysavefd : Z;
  ttystate : ttymode;
  errno : Z;
  get_faults : list (option Z) }.

Definition set_term t s := Tty t (save_termios s) (ttysavefd s) (ttystate s) (errno s) (get_faults s).
Definition set_save t s := Tty (term s) t (ttysavefd s) (ttystate s) (errno s) (get_faults s).
Definition set_errno e s := Tty (term s) (save_termios s) (ttysavefd s) (ttystate s) e (get_faults s).
Definition set_state m s := Tty (term s) (save_termios s) (ttysavefd s) m (errno s) (get_faults s).
Definition set_mode m fd s := Tty (term s) (save_termios s) fd m (errno s) (get_faults s).
Definition set_faults l s := Tty (term s) (save_termios s) (ttysavefd s) (ttystate s) (errno s) l.

(** [flag & ~bits] of a [tcflag_t]. *)
Definition clear (flag bits : Z) : Z := Z.land flag (Z.lnot bits).
Definition cc (t : termios) (i : nat) : Z := nth i (c_cc t) 0.

Section tty.
(** Which descriptors refer to the terminal, and the settings the driver
    arrives at when it has [old] and is asked for [new]. *)
Variable is_tty : Z -> bool.
Variable driver : termios -> termios -> termios.

Definition tcgetattr (fd : Z) : M tty (option termios) :=
  let* s := get in
  if negb (is_tty fd) then modify (set_errno ENOTTY) ;;; ret None
  else match get_faults s with
       | Some e :: l => modify (set_errno e) ;;; modify (set_faults l) ;;; ret None
       | None :: l => modify (set_faults l) ;;; ret (Some (term s))
       | [] => ret (Some (term s))
       end.

Definition tcsetattr (fd : Z) (t : termios) : M tty Z :=
  if negb (is_tty fd) then modify (set_errno ENOTTY) ;;; ret (-1)
  else modify (fun s => set_term (driver (term s) t) s) ;;; ret 0.

(** The settings the two routines ask for. *)
Definition cbreak_request (buf : termios) : termios :=
  Termios (c_iflag buf) (c_oflag buf) (c_cflag buf) (clear (c_lflag buf) (Z.lor ECHO ICANON))
          (<[VTIME := 0]> (<[VMIN := 1]> (c_cc buf))).

Definition raw_request (buf : termios) : termios :=
  Termios (clear (c_iflag buf) (Z.lor (Z.lor (Z.lor (Z.lor BRKINT ICRNL) INPCK) ISTRIP) IXON))
          (clear (c_oflag buf) OPOST)
          (Z.lor (clear (c_cflag buf) (Z.lor CSIZE PARENB)) CS8)
          (clear (c_lflag buf) (Z.lor (Z.lor (Z.lor ECHO ICANON) IEXTEN) ISIG))
          (<[VTIME := 0]> (<[VMIN := 1]> (c_cc buf))).

(** The checks that the changes stuck: true when some did not. *)
Definition cbreak_missing (buf : termios) : bool :=
  negb (Z.land (c_lflag buf) (Z.lor ECHO ICANON) =? 0) ||
  negb (cc buf VMIN =? 1) || negb (cc buf VTIME =? 0).

Definition raw_missing (buf : termios) : bool :=
  negb (Z.land (c_lflag buf) (Z.lor (Z.lor (Z.lor ECHO ICANON) IEXTEN) ISIG) =? 0) ||
  negb (Z.land (c_iflag buf) (Z.lor (Z.lor (Z.lor (Z.lor BRKINT ICRNL) INPCK) ISTRIP) IXON) =? 0) ||
  negb (Z.land (c_cflag buf) (Z.lor (Z.lor CSIZE PARENB) CS8) =? CS8) ||
  negb (Z.land (c_oflag buf) OPOST =? 0) ||
  negb (cc buf VMIN =? 1) || negb (cc buf VTIME =? 0).

(** The body [tty_cbreak] and [tty_raw] share: they differ in the request, the
    check and the final state. *)
Definition tty_set (request : termios -> termios) (missing : termios -> bool) (mode : ttymode)
    (fd : Z) : M tty Z :=
  let* s := get in
  if bool_decide (ttystate s <> RESET) then modify (set_errno EINVAL) ;;; ret (-1) else
  let* r := tcgetattr fd in
  match r with
  | None => ret (-1)
  | Some buf =>
      modify (set_save buf) ;;;
      let* n := tcsetattr fd (request buf) in
      if n <? 0 then ret (-1) else
      let* r := tcgetattr fd in
      match r with
      | None =>
          let* s := get in
          tcsetattr fd (save_termios s) ;;; modify (set_errno (errno s)) ;;; ret (-1)
      | Some buf =>
          if missing buf
          then let* s := get in
               tcsetattr fd (save_termios s) ;;; modify (set_errno EINVAL) ;;; ret (-1)
          else modify (set_mode mode fd) ;;; ret 0
      end
  end.

Definition tty_cbreak (fd : Z) : M tty Z := tty_set cbreak_request cbreak_missing CBREAK fd.
Definition tty_raw (fd : Z) : M tty Z := tty_set raw_request raw_missing RAW fd.

Definition tty_reset (fd : Z) : M tty Z :=
  let* s := get in
  if bool_decide (ttystate s = RESET) then ret 0 else
  let* n := tcsetattr fd (save_termios s) in
  if n <? 0 then ret (-1) else
  modify (set_state RESET) ;;; ret 0.

Definition tty_atexit : M tty unit :=
  let* s := get in
  if 0 <=? ttysavefd s then tty_reset (ttysavefd s) ;;; ret tt else ret tt.

Definition tty_termios : M tty termios := let* s := get in ret (save_termios s).

(** ** Sessions *)

Inductive call := Cbreak (fd : Z) | Raw (fd : Z) | Reset (fd : Z).

Definition run_call (c : call) : M tty Z :=
  match c with Cbreak fd => tty_cbreak fd | Raw fd => tty_raw fd | Reset fd => tty_reset fd end.

Fixpoint run_calls (cs : list call) : M tty (list Z) :=
  match cs with
  | [] => ret []
  | c :: cs' => let* r := run_call c in let* rs := run_calls cs' in ret (r :: rs)
  end.

(** What the modes mean for the terminal that started with [orig]. *)
Definition in_mode (orig : termios) (s : tty) : Prop :=
  match ttystate s with
  | RESET => term s = orig
  | CBREAK => save_termios s = orig /\ cbreak_missing (term s) = false
  | RAW => save_termios s = orig /\ raw_missing (term s) = false
  end /\
  (ttystate s <> RESET -> 0 <= ttysavefd s /\ is_tty (ttysavefd s) = true).

(** What one call does: the modes are entered from [RESET] only, a call that
    fails leaves the terminal and the mode as they were, a reset leads to
    [RESET]. *)
Definition obeys (c : call) (s : tty) (r : Z) (s' : tty) : Prop :=
  (r = -1 /\ ttystate s' = ttystate s /\ term s' = term s) \/
  (r = 0 /\ match c with
            | Cbreak fd => ttystate s = RESET /\ ttystate s' = CBREAK /\ ttysavefd s' = fd
            | Raw fd => ttystate s = RESET /\ ttystate s' = RAW /\ ttysavefd s' = fd
            | Reset _ => ttystate s' = RESET
            end).

(** ** The terminal driver

    A request for settings the terminal supports is granted in full; what
    happens to another request is open. *)
Variable supported : termios -> Prop.
Hypothesis driver_grants : forall old new, supported new -> driver old new = new.
Hypothesis tty_nonneg : forall fd, is_tty fd = true -> 0 <= fd.

Lemma tcgetattr_spec fd s :
  wp (tcgetattr fd) (fun r s' => exists e l, s' = set_errno e (set_faults l s) /\
    (r = None \/ is_tty fd = true /\ r = Some (term s))) s.
Proof.
  unfold tcgetattr. apply wp_bind, wp_get. destruct (is_tty fd); cbn [negb].
  - destruct (get_faults s) as [|[x|] l] eqn:E.
    + apply wp_ret. exists (errno s), []. destruct s; cbn in *; subst. auto.
    + apply wp_bind, wp_modify, wp_bind, wp_modify, wp_ret. eexists _, _. split; [reflexivity|auto].
    + apply wp_bind, wp_modify, wp_ret. exists (errno s), l. auto.
  - apply wp_bind, wp_modify, wp_ret. exists ENOTTY, (get_faults s). auto.
Qed.

Lemma tcsetattr_tty fd t s :
  is_tty fd = true -> tcsetattr fd t s = (Ret 0, set_term (driver (term s) t) s).
Proof. intros H. unfold tcsetattr. by rewrite H. Qed.

Section calls.
Variable orig : termios.
Hypothesis orig_supported : supported orig.

(** The settings are restored and the mode is as before. *)
Lemma tty_set_spec request missing mode fd s :
  in_mode orig s -> mode <> RESET ->
  (forall s', ttystate s' = mode -> save_termios s' = orig -> missing (term s') = false ->
     0 <= ttysavefd s' /\ is_tty (ttysavefd s') = true -> in_mode orig s') ->
  wp (tty_set request missing mode fd) (fun r s' => in_mode orig s' /\
    (r = -1 /\ ttystate s' = ttystate s /\ term s' = term s \/
     r = 0 /\ ttystate s = RESET /\ ttystate s' = mode /\ ttysavefd s' = fd)) s.
Proof.
  intros Hs Hm Hok. unfold tty_set. apply wp_bind, wp_get.
  case_bool_decide as E; [apply wp_bind, wp_modify, wp_ret; auto|].
  assert (Es : ttystate s = RESET) by (destruct (ttystate s); naive_solver). clear E.
  assert (Ho : term s = orig) by (destruct Hs as [H _]; by rewrite Es in H).
  assert (Hback : forall t e l, in_mode orig (set_errno e (set_term orig (set_faults l (set_save t s))))).
  { intros. unfold in_mode. cbn. rewrite Es. done. }
  eapply wp_seq; [apply tcgetattr_spec|]. cbv beta. intros r s1 (e & l & -> & [->|(Hfd & ->)]).
  { apply wp_ret. split; [unfold in_mode; cbn; by rewrite Es|left; done]. }
  cbv iota. apply wp_bind, wp_modify, wp_bind. eapply wp_of_run; [by apply tcsetattr_tty|].
  change (0 <? 0) with false. cbv iota.
  eapply wp_seq; [apply tcgetattr_spec|]. cbv beta. intros r s2 (e' & l' & -> & Hr).
  assert (Hrest : forall old, driver old (term s) = orig) by (intros; rewrite Ho; auto).
  destruct Hr as [->|(_ & ->)]; cbv iota.
  { apply wp_bind, wp_get, wp_bind. eapply wp_of_run; [by apply tcsetattr_tty|].
    apply wp_bind, wp_modify, wp_ret. cbn. rewrite Hrest.
    split; [apply (Hback (term s) _ l')|left; by rewrite Ho]. }
  destruct (missing _) eqn:Em.
  { apply wp_bind, wp_get, wp_bind. eapply wp_of_run; [by apply tcsetattr_tty|].
    apply wp_bind, wp_modify, wp_ret. cbn. rewrite Hrest.
    split; [apply (Hback (term s) _ l')|left; by rewrite Ho]. }
  apply wp_bind, wp_modify, wp_ret. split; [apply Hok; cbn in *; auto|right; auto].
Qed.

Lemma tty_reset_spec fd s :
  in_mode orig s -> wp (tty_reset fd) (fun r s' => in_mode orig s' /\
    obeys (Reset fd) s r s' /\ (is_tty fd = true -> r = 0)) s.
Proof.
  intros Hs. unfold tty_reset. apply wp_bind, wp_get.
  case_bool_decide as E; [apply wp_ret; split; [done|]; split; [right|]; auto|].
  assert (Ho : save_termios s = orig) by (destruct Hs as [H _]; destruct (ttystate s); tauto).
  unfold tcsetattr. destruct (is_tty fd); cbn [negb].
  - apply wp_bind, wp_bind, wp_modify, wp_ret. change (0 <? 0) with false.
    apply wp_bind, wp_modify, wp_ret. rewrite Ho, driver_grants by done.
    split_and!; [split; cbn; done|right; done|done].
  - apply wp_bind, wp_bind, wp_modify, wp_ret. change (-1 <? 0) with true. apply wp_ret.
    split_and!; [exact Hs|left; done|done].
Qed.

Lemma run_call_spec c s :
  in_mode orig s -> wp (run_call c) (fun r s' => in_mode orig s' /\ obeys c s r s') s.
Proof.
  intros Hs. destruct c as [fd|fd|fd]; cbn [run_call].
  - apply tty_set_spec; [done|done|]. intros s' E ? ? ?. unfold in_mode. by rewrite E.
  - apply tty_set_spec; [done|done|]. intros s' E ? ? ?. unfold in_mode. by rewrite E.
  - eapply wp_mono; [by apply tty_reset_spec|]. cbv beta. tauto.
Qed.

Lemma run_calls_spec cs s :
  in_mode orig s -> wp (run_calls cs) (fun _ s' => in_mode orig s') s.
Proof.
  revert s. induction cs as [|c cs IH]; intros s Hs; cbn; [by apply wp_ret|].
  eapply wp_seq; [by apply run_call_spec|]. cbv beta. intros r s' [H _].
  eapply wp_seq; [by apply IH|]. cbv beta. intros rs s'' ?. by apply wp_ret.
Qed.

Lemma tty_atexit_spec s :
  in_mode orig s -> wp tty_atexit (fun _ s' => term s' = orig /\ ttystate s' = RESET) s.
Proof.
  intros Hs. unfold tty_atexit. apply wp_bind, wp_get.
  destruct (decide (ttystate s = RESET)) as [E|E].
  - assert (term s = orig) by (destruct Hs as [H _]; by rewrite E in H).
    destruct (0 <=? _); [|by apply wp_ret].
    apply wp_bind. unfold tty_reset. apply wp_bind, wp_get. rewrite bool_decide_eq_true_2 by done.
    by apply wp_ret, wp_ret.
  - destruct (proj2 Hs E) as [H0 H1]. rewrite (proj2 (Z.leb_le _ _) H0).
    eapply wp_seq; [by apply tty_reset_spec|]. cbv beta. intros r s' ([Hi _] & Ho & Hr).
    apply wp_ret. destruct Ho as [Ho|[_ Ho]]; [destruct Ho as [Ho _]; by rewrite Hr in Ho|].
    by rewrite Ho in Hi.
Qed.
End calls.


End tty.

(** A terminal that cannot leave canonical mode: the request is refused and
    undone, the session goes on. *)
Definition canonical_only (old new : termios) : termios :=
  Termios (c_iflag new) (c_oflag new) (c_cflag new) (Z.lor (c_lflag new) ICANON) (c_cc new).
Definition supported_canonical (t : termios) : Prop := Z.lor (c_lflag t) ICANON = c_lflag t.
Definition tty0 : tty :=
  Tty (Termios 256 1 48 11 (replicate 32 0)) (Termios 0 0 0 0 []) (-1) RESET 0 [Some 4; None; None].


End Ttymodes.
