(* ===== verification/Calendar.v ===== *)
(** * Calendar time: musl's src/time

    The conversions between seconds since the epoch and broken-down time:
    [__secs_to_tm], [__year_to_secs], [__month_to_secs], [__tm_to_secs], and
    [gmtime_r] and [timegm] on top of them.  Integers are kept at their width
    where the code stores a wider value in an [int]; division is C's, which
    truncates.  The reference is the calendar itself: [tick] advances a date
    and time by one second by the rules of clock and calendar. *)

From Stdlib Require Import ZifyBool.
From S2P Require Import Prelude CLib.

Module Calendar.

(** Linear arithmetic with division by constants. *)
Ltac dlia := zify; Z.to_euclidean_division_equations; lia.

Record tm := Tm {
  tm_sec : Z; tm_min : Z; tm_hour : Z; tm_mday : Z; tm_mon : Z; tm_year : Z;
  tm_wday : Z; tm_yday : Z; tm_isdst : Z; tm_gmtoff : Z; tm_zone : bytes }.

Definition INT_MIN : Z := - 2 ^ 31.
Definition INT_MAX : Z := 2 ^ 31 - 1.
Definition EOVERFLOW : Z := 75.

Definition LEAPOCH : Z := 946684800 + 86400 * (31 + 29).
Definition DAYS_PER_400Y : Z := 365 * 400 + 97.
Definition DAYS_PER_100Y : Z := 365 * 100 + 24.
Definition DAYS_PER_4Y : Z := 365 * 4 + 1.
Definition days_in_month : list Z := [31; 30; 31; 30; 31; 31; 30; 31; 30; 31; 31; 29].

(** The loop over [days_in_month]; reading past the table is [None]. *)
Fixpoint month_loop (table : list Z) (months remdays : Z) : option (Z * Z) :=
  match table with
  | [] => None
  | d :: table' => if d <=? remdays then month_loop table' (months + 1) (remdays - d)
                   else Some (months, remdays)
  end.

(** The day of a cycle of 400 years, as centuries, groups of four years, years
    and days; the cycle starts in March, so each leap day is the last one. *)
Definition split_cycle (remdays : Z) : Z * Z * Z * Z :=
  let c_cycles := Z.quot remdays DAYS_PER_100Y in
  let c_cycles := if c_cycles =? 4 then c_cycles - 1 else c_cycles in
  let remdays := remdays - c_cycles * DAYS_PER_100Y in
  let q_cycles := Z.quot remdays DAYS_PER_4Y in
  let q_cycles := if q_cycles =? 25 then q_cycles - 1 else q_cycles in
  let remdays := remdays - q_cycles * DAYS_PER_4Y in
  let remyears := Z.quot remdays 365 in
  let remyears := if remyears =? 4 then remyears - 1 else remyears in
  let remdays := remdays - remyears * 365 in
  (c_cycles, q_cycles, remyears, remdays).

(** The fields [__secs_to_tm] does not set keep their values, those of [tm0]. *)
Definition __secs_to_tm (t : Z) (tm0 : tm) : outcome (option tm) :=
  if (t <? INT_MIN * 31622400) || (t >? INT_MAX * 31622400) then Ret None else
  let secs := t - LEAPOCH in
  let days := Z.quot secs 86400 in
  let remsecs := to_i32 (Z.rem secs 86400) in
  let '(remsecs, days) := if remsecs <? 0 then (remsecs + 86400, days - 1) else (remsecs, days) in
  let wday := to_i32 (Z.rem (3 + days) 7) in
  let wday := if wday <? 0 then wday + 7 else wday in
  let qc_cycles := to_i32 (Z.quot days DAYS_PER_400Y) in
  let remdays := to_i32 (Z.rem days DAYS_PER_400Y) in
  let '(remdays, qc_cycles) :=
    if remdays <? 0 then (remdays + DAYS_PER_400Y, qc_cycles - 1) else (remdays, qc_cycles) in
  let '(c_cycles, q_cycles, remyears, remdays) := split_cycle remdays in
  let leap := if (remyears =? 0) && (negb (q_cycles =? 0) || (c_cycles =? 0)) then 1 else 0 in
  let yday := remdays + 31 + 28 + leap in
  let yday := if yday >=? 365 + leap then yday - (365 + leap) else yday in
  let years := remyears + 4 * q_cycles + 100 * c_cycles + 400 * qc_cycles in
  match month_loop days_in_month 0 remdays with
  | None => Stop Crash
  | Some (months, remdays) =>
      let '(months, years) := if months >=? 10 then (months - 12, years + 1) else (months, years) in
      if (years + 100 >? INT_MAX) || (years + 100 <? INT_MIN) then Ret None else
      Ret (Some (Tm (Z.rem remsecs 60) (Z.rem (Z.quot remsecs 60) 60) (Z.quot remsecs 3600)
                    (remdays + 1) (months + 2) (years + 100) wday yday
                    (tm_isdst tm0) (tm_gmtoff tm0) (tm_zone tm0)))
  end.

(** [__year_to_secs] within a cycle of 400 years: [*is_leap], [centuries], [leaps]. *)
Definition year_in_cycle (rem : Z) : Z * Z * Z :=
  if rem =? 0 then (1, 0, 0) else
  let '(centuries, rem) :=
    if rem >=? 200 then (if rem >=? 300 then (3, rem - 300) else (2, rem - 200))
    else (if rem >=? 100 then (1, rem - 100) else (0, rem)) in
  if rem =? 0 then (0, centuries, 0)
  else (if rem mod 4 =? 0 then 1 else 0, centuries, rem / 4).

(** [__year_to_secs]: the seconds and [*is_leap]. *)
Definition __year_to_secs (year : Z) : Z * Z :=
  if to_u64 (year - 2) <=? 136 then
    let y := to_i32 year in
    let leaps := Z.shiftr (y - 68) 2 in
    let '(leaps, is_leap) := if Z.land (y - 68) 3 =? 0 then (leaps - 1, 1) else (leaps, 0) in
    (31536000 * (y - 70) + 86400 * leaps, is_leap)
  else
    let cycles := to_i32 (Z.quot (year - 100) 400) in
    let rem := to_i32 (Z.rem (year - 100) 400) in
    let '(cycles, rem) := if rem <? 0 then (cycles - 1, rem + 400) else (cycles, rem) in
    let '(is_leap, centuries, leaps) := year_in_cycle rem in
    let leaps := leaps + (97 * cycles + 24 * centuries - is_leap) in
    ((year - 100) * 31536000 + leaps * 86400 + 946684800 + 86400, is_leap).

Definition secs_through_month : list Z :=
  [0; 31 * 86400; 59 * 86400; 90 * 86400; 120 * 86400; 151 * 86400; 181 * 86400; 212 * 86400;
   243 * 86400; 273 * 86400; 304 * 86400; 334 * 86400].

Definition __month_to_secs (month is_leap : Z) : Z :=
  let t := nth (Z.to_nat month) secs_through_month 0 in
  if negb (is_leap =? 0) && (month >=? 2) then t + 86400 else t.

Definition __tm_to_secs (x : tm) : Z :=
  let year := tm_year x in
  let month := tm_mon x in
  let '(year, month) :=
    if (month >=? 12) || (month <? 0) then
      let adj := Z.quot month 12 in
      let month := Z.rem month 12 in
      let '(adj, month) := if month <? 0 then (adj - 1, month + 12) else (adj, month) in
      (year + adj, month)
    else (year, month) in
  let '(t, is_leap) := __year_to_secs year in
  let t := t + __month_to_secs month is_leap in
  let t := t + 86400 * (tm_mday x - 1) in
  let t := t + 3600 * tm_hour x in
  let t := t + 60 * tm_min x in
  t + tm_sec x.

Definition utc : bytes := str "UTC".

Definition set_utc (x : tm) : tm :=
  Tm (tm_sec x) (tm_min x) (tm_hour x) (tm_mday x) (tm_mon x) (tm_year x) (tm_wday x) (tm_yday x) 0 0 utc.

(** [gmtime_r(&t, tm)]: the structure, or the error number. *)
Definition gmtime_r (t : Z) (tm0 : tm) : outcome (tm + Z) :=
  match __secs_to_tm t tm0 with
  | Stop e => Stop e
  | Ret None => Ret (inr EOVERFLOW)
  | Ret (Some x) => Ret (inl (set_utc x))
  end.

(** [timegm(tm)]: the result and [*tm], or the error number; [new] is the
    uninitialised local. *)
Definition timegm (x new : tm) : outcome (Z * tm + Z) :=
  let t := __tm_to_secs x in
  match __secs_to_tm t new with
  | Stop e => Stop e
  | Ret None => Ret (inr EOVERFLOW)
  | Ret (Some new) => Ret (inl (t, set_utc new))
  end.

(** ** The calendar *)

(** Is the year of the common era [y] a leap year? *)
Definition leap (y : Z) : Z :=
  if (y mod 4 =? 0) && (negb (y mod 100 =? 0) || (y mod 400 =? 0)) then 1 else 0.

Definition month_len (y m : Z) : Z :=
  nth (Z.to_nat m) [31; 28 + leap y; 31; 30; 31; 30; 31; 31; 30; 31; 30; 31] 0.

(** The next day; there is none when the year would not fit its field. *)
Definition next_day (x : tm) : option tm :=
  let wday := (tm_wday x + 1) mod 7 in
  let day mday mon year yday :=
    Tm 0 0 0 mday mon year wday yday (tm_isdst x) (tm_gmtoff x) (tm_zone x) in
  if tm_mday x <? month_len (1900 + tm_year x) (tm_mon x)
  then Some (day (tm_mday x + 1) (tm_mon x) (tm_year x) (tm_yday x + 1))
  else if tm_mon x <? 11 then Some (day 1 (tm_mon x + 1) (tm_year x) (tm_yday x + 1))
  else if tm_year x =? INT_MAX then None
  else Some (day 1 0 (tm_year x + 1) 0).

(** One second later. *)
Definition tick (x : tm) : option tm :=
  let time s m h := Tm s m h (tm_mday x) (tm_mon x) (tm_year x) (tm_wday x) (tm_yday x)
                       (tm_isdst x) (tm_gmtoff x) (tm_zone x) in
  if tm_sec x <? 59 then Some (time (tm_sec x + 1) (tm_min x) (tm_hour x))
  else if tm_min x <? 59 then Some (time 0 (tm_min x + 1) (tm_hour x))
  else if tm_hour x <? 23 then Some (time 0 0 (tm_hour x + 1))
  else next_day x.

(** ** Day numbers *)

(** Days before the first of January of year [y]. *)
Definition day0 (y : Z) : Z := 365 * y + (y - 1) / 4 - (y - 1) / 100 + (y - 1) / 400.

Lemma leap_01 y : leap y = 0 \/ leap y = 1.
Proof. unfold leap. destruct_if; auto. Qed.

Lemma day0_step y : day0 (y + 1) = day0 y + 365 + leap y.
Proof. unfold day0, leap. destruct_if; dlia. Qed.

(** The calendar repeats every 400 years. *)
Lemma leap_cycle y k : leap (y + 400 * k) = leap y.
Proof.
  unfold leap. replace (y + 400 * k) with (y + k * 400) by lia. rewrite Z.mod_add by lia.
  replace (y + k * 400) with (y + (k * 100) * 4) at 1 by lia. rewrite Z.mod_add by lia.
  replace (y + k * 400) with (y + (k * 4) * 100) by lia. by rewrite Z.mod_add by lia.
Qed.

Lemma day0_cycle y k : day0 (y + 400 * k) = day0 y + 146097 * k.
Proof. unfold day0. dlia. Qed.

(** Days of the year before its month [m]. *)
Definition through (y m : Z) : Z :=
  nth (Z.to_nat m) [0; 31; 59; 90; 120; 151; 181; 212; 243; 273; 304; 334] 0 +
  if m >=? 2 then leap y else 0.

Definition daynum (x : tm) : Z :=
  day0 (1900 + tm_year x) - day0 1970 + through (1900 + tm_year x) (tm_mon x) + tm_mday x - 1.

(** A second of the calendar. *)
Record valid (x : tm) : Prop := {
  v_sec : 0 <= tm_sec x < 60; v_min : 0 <= tm_min x < 60; v_hour : 0 <= tm_hour x < 24;
  v_mon : 0 <= tm_mon x < 12;
  v_mday : 1 <= tm_mday x <= month_len (1900 + tm_year x) (tm_mon x);
  v_year : INT_MIN <= tm_year x <= INT_MAX;
  v_wday : tm_wday x = (daynum x + 4) mod 7;
  v_yday : tm_yday x = through (1900 + tm_year x) (tm_mon x) + tm_mday x - 1 }.

Definition seconds (x : tm) : Z := 86400 * daynum x + 3600 * tm_hour x + 60 * tm_min x + tm_sec x.

(** The fields of a structure that is given. *)
Ltac fields := cbn [tm_sec tm_min tm_hour tm_mday tm_mon tm_year tm_wday tm_yday tm_isdst tm_gmtoff tm_zone].

(** Case analysis on the month, and evaluation of the tables at a constant. *)
Ltac table :=
  repeat match goal with
  | |- context [Z.to_nat ?z] => let n := eval vm_compute in (Z.to_nat z) in change (Z.to_nat z) with n
  | |- context [?a >=? 2] => let b := eval vm_compute in (a >=? 2) in change (a >=? 2) with b
  | |- context [?a >=? 10] => let b := eval vm_compute in (a >=? 10) in change (a >=? 10) with b
  end; cbn [nth]; cbv iota.
Ltac months m :=
  let H := fresh in
  assert (H : m = 0 \/ m = 1 \/ m = 2 \/ m = 3 \/ m = 4 \/ m = 5 \/ m = 6 \/ m = 7 \/
              m = 8 \/ m = 9 \/ m = 10 \/ m = 11) by lia;
  destruct H as [->|[->|[->|[->|[->|[->|[->|[->|[->|[->|[->| ->]]]]]]]]]]].

Lemma through_step y m :
  0 <= m < 11 -> through y (m + 1) = through y m + month_len y m.
Proof.
  intros Hm. unfold through, month_len. generalize (leap y). intros l. months m; table; lia.
Qed.

Lemma through_0 y : through y 0 = 0.
Proof. done. Qed.

Lemma through_dec y : through y 11 + 31 = 365 + leap y.
Proof. unfold through. table. lia. Qed.

Lemma month_len_range y m : 0 <= m < 12 -> 28 <= month_len y m <= 31.
Proof.
  intros Hm. unfold month_len. pose proof (leap_01 y). revert H. generalize (leap y). intros l H.
  months m; table; lia.
Qed.

Lemma yday_range y m d :
  0 <= m < 12 -> 1 <= d <= month_len y m -> 0 <= through y m + d - 1 < 365 + leap y.
Proof.
  intros Hm Hd. unfold through, month_len in *. pose proof (leap_01 y). revert H Hd.
  generalize (leap y). intros l H. months m; table; lia.
Qed.

(** ** [__tm_to_secs] counts the seconds *)

Definition year_ok (y : Z) : bool :=
  bool_decide (__year_to_secs y = (86400 * (day0 (1900 + y) - day0 1970), leap (1900 + y))).

Lemma year_table : forallb year_ok (seqZ 2 137) = true.
Proof. vm_compute. reflexivity. Qed.

Definition rem_ok (r : Z) : bool :=
  let '(is_leap, centuries, leaps) := year_in_cycle r in
  bool_decide (is_leap = leap (2000 + r) /\
    day0 (2000 + r) = day0 2000 + 365 * r + leaps + 24 * centuries - is_leap + 1).

Lemma rem_table : forallb rem_ok (seqZ 0 400) = true.
Proof. vm_compute. reflexivity. Qed.

Lemma year_to_secs_spec y :
  - 2 ^ 33 <= y <= 2 ^ 33 ->
  __year_to_secs y = (86400 * (day0 (1900 + y) - day0 1970), leap (1900 + y)).
Proof.
  intros Hy. destruct (decide (2 <= y <= 138)) as [H|H].
  { pose proof year_table as T. rewrite forallb_forall in T.
    specialize (T y). unfold year_ok in T. rewrite bool_decide_eq_true in T. apply T.
    apply list_elem_of_In, elem_of_seqZ. lia. }
  unfold __year_to_secs. destruct (to_u64 (y - 2) <=? 136) eqn:E; [unfold to_u64 in E; dlia|]. clear E.
  rewrite !to_i32_small by dlia.
  set (k := (y - 100) / 400). set (r := (y - 100) mod 400).
  replace (if Z.rem (y - 100) 400 <? 0 then _ else _) with (k, r)
    by (unfold k, r; destruct_if; f_equal; dlia).
  pose proof rem_table as T. rewrite forallb_forall in T. specialize (T r). unfold rem_ok in T.
  destruct (year_in_cycle r) as [[i c] l]. rewrite bool_decide_eq_true in T.
  destruct T as [Hi Hd]; [apply list_elem_of_In, elem_of_seqZ; unfold r; dlia|].
  replace (1900 + y) with (2000 + r + 400 * k) by (unfold k, r; dlia).
  rewrite day0_cycle, leap_cycle, Hd, <- Hi. f_equal.
  replace (y - 100) with (400 * k + r) by (unfold k, r; dlia).
  assert (day0 2000 - day0 1970 = 10957) by reflexivity. lia.
Qed.

Lemma month_to_secs_spec y m :
  0 <= m < 12 -> __month_to_secs m (leap y) = 86400 * through y m.
Proof.
  intros Hm. unfold __month_to_secs, through, secs_through_month. destruct (leap_01 y) as [-> | ->];
    months m; table; reflexivity.
Qed.

(** Months outside the year move the year. *)
Definition carry (x : tm) : tm :=
  Tm (tm_sec x) (tm_min x) (tm_hour x) (tm_mday x) (tm_mon x mod 12) (tm_year x + tm_mon x / 12)
     (tm_wday x) (tm_yday x) (tm_isdst x) (tm_gmtoff x) (tm_zone x).

Lemma tm_to_secs_spec x :
  INT_MIN <= tm_mon x <= INT_MAX -> INT_MIN <= tm_year x <= INT_MAX ->
  __tm_to_secs x = seconds (carry x).
Proof.
  unfold INT_MIN, INT_MAX. intros Hm Hy. unfold __tm_to_secs, seconds, daynum, carry. fields.
  replace (if (tm_mon x >=? 12) || (tm_mon x <? 0) then _ else _)
    with (tm_year x + tm_mon x / 12, tm_mon x mod 12)
    by (repeat destruct_if; f_equal; dlia).
  cbv iota beta. rewrite year_to_secs_spec by dlia. rewrite month_to_secs_spec by dlia. lia.
Qed.

Lemma carry_valid x : valid x -> carry x = x.
Proof.
  intros V. pose proof (v_mon x V). unfold carry. rewrite Z.mod_small, Z.div_small, Z.add_0_r by lia.
  by destruct x.
Qed.

(** ** Two valid times with the same number of seconds are the same *)

Lemma day0_mono y z : y <= z -> day0 y <= day0 z.
Proof.
  intros H. pattern z. apply (Zlt_lower_bound_ind _ y); [|done]. clear z H. intros z IH H.
  destruct (decide (y = z)) as [->|]; [lia|]. specialize (IH (z - 1) ltac:(lia)).
  pose proof (day0_step (z - 1)). pose proof (leap_01 (z - 1)). replace (z - 1 + 1) with z in * by lia. lia.
Qed.

Lemma day0_between y z d :
  day0 y <= d < day0 (y + 1) -> day0 z <= d < day0 (z + 1) -> y = z.
Proof.
  intros H1 H2. destruct (Z.lt_trichotomy y z) as [H|[H|H]]; [|done|].
  - pose proof (day0_mono (y + 1) z ltac:(lia)). lia.
  - pose proof (day0_mono (z + 1) y ltac:(lia)). lia.
Qed.

Lemma month_unique y m d m' d' :
  0 <= m < 12 -> 1 <= d <= month_len y m -> 0 <= m' < 12 -> 1 <= d' <= month_len y m' ->
  through y m + d = through y m' + d' -> m = m' /\ d = d'.
Proof.
  assert (Hmono : forall a b, 0 <= a < b -> b < 12 -> through y a + month_len y a <= through y b).
  { intros a b Ha Hb. unfold through, month_len. pose proof (leap_01 y) as H. revert H.
    generalize (leap y). intros l H. months b; months a; try lia; table; lia. }
  intros Hm Hd Hm' Hd' E. destruct (Z.lt_trichotomy m m') as [H|[->|H]]; [|lia|].
  - pose proof (Hmono m m' ltac:(lia) ltac:(lia)). lia.
  - pose proof (Hmono m' m ltac:(lia) ltac:(lia)). lia.
Qed.

Lemma valid_days x :
  valid x -> day0 (1900 + tm_year x) <= daynum x + day0 1970 < day0 (1900 + tm_year x + 1).
Proof.
  intros H. pose proof (yday_range _ _ _ (v_mon x H) (v_mday x H)). rewrite day0_step.
  unfold daynum. lia.
Qed.

Lemma valid_unique x x' :
  valid x -> valid x' -> seconds x = seconds x' -> tm_isdst x = tm_isdst x' ->
  tm_gmtoff x = tm_gmtoff x' -> tm_zone x = tm_zone x' -> x = x'.
Proof.
  intros V V' E E1 E2 E3. pose proof (valid_days x V) as D. pose proof (valid_days x' V') as D'.
  destruct V as [Vs Vm Vh Vo Vd Vy Vw Vn], V' as [Vs' Vm' Vh' Vo' Vd' Vy' Vw' Vn'].
  unfold seconds in E. assert (Ed : daynum x = daynum x') by lia.
  rewrite Ed in D. pose proof (day0_between _ _ _ D D') as Ey.
  assert (Ey' : tm_year x = tm_year x') by lia. clear D D' Ey.
  pose proof Ed as Ed'. unfold daynum in Ed'. rewrite Ey' in *.
  destruct (month_unique _ _ _ _ _ Vo Vd Vo' Vd' ltac:(lia)) as [Em Emd].
  rewrite Em, Emd, Ed in *. rewrite <- Vw' in Vw. rewrite <- Vn' in Vn.
  assert (Et : tm_sec x = tm_sec x' /\ tm_min x = tm_min x' /\ tm_hour x = tm_hour x') by lia.
  destruct Et as (Ea & Eb & Ec), x, x'; cbn in *; congruence.
Qed.

(** ** [__secs_to_tm] *)

Lemma split_cycle_spec r :
  0 <= r < 146097 ->
  exists c q y rd, split_cycle r = (c, q, y, rd) /\ r = 36524 * c + 1461 * q + 365 * y + rd /\
    0 <= c <= 3 /\ 0 <= q <= 24 /\ 0 <= y <= 3 /\ 0 <= rd <= 365 /\
    (rd = 365 -> y = 3 /\ (q <> 24 \/ c = 3)).
Proof.
  intros Hr. unfold split_cycle.
  set (c := if Z.quot r DAYS_PER_100Y =? 4 then _ else _).
  assert (Hc : 0 <= c <= 3 /\ 0 <= r - c * 36524 <= 36524 /\ (r - c * 36524 = 36524 -> c = 3))
    by (unfold c, DAYS_PER_100Y; destruct_if; dlia).
  clearbody c. set (r1 := r - c * DAYS_PER_100Y).
  assert (Hr1 : r = 36524 * c + r1) by (unfold r1, DAYS_PER_100Y; lia). clearbody r1.
  set (q := if Z.quot r1 DAYS_PER_4Y =? 25 then _ else _).
  assert (Hq : 0 <= q <= 24 /\ 0 <= r1 - q * 1461 <= 1460 /\ (q = 24 -> r1 - q * 1461 = 1460 -> c = 3)).
  { assert (H1 : 0 <= r1 <= 36524 /\ (r1 = 36524 -> c = 3)) by lia. clear Hr1 Hc Hr.
    unfold q, DAYS_PER_4Y; destruct_if; dlia. }
  clearbody q. set (r2 := r1 - q * DAYS_PER_4Y).
  assert (Hr2 : r1 = 1461 * q + r2) by (unfold r2, DAYS_PER_4Y; lia). clearbody r2.
  set (y := if Z.quot r2 365 =? 4 then _ else _).
  assert (Hy : 0 <= y <= 3 /\ 0 <= r2 - y * 365 <= 365 /\ (r2 - y * 365 = 365 -> y = 3 /\ r2 = 1460)).
  { assert (H1 : 0 <= r2 <= 1460) by lia. clear Hr2 Hr1 Hc Hr Hq. unfold y; destruct_if; dlia. }
  clearbody y. exists c, q, y, (r2 - y * 365). split; [done|]. lia.
Qed.

(** The first of March of the year that many years after 2000. *)
Lemma march c q y k :
  0 <= c <= 3 -> 0 <= q <= 24 -> 0 <= y <= 3 ->
  let Y := 2000 + (y + 4 * q + 100 * c + 400 * k) in
  leap Y = (if (y =? 0) && (negb (q =? 0) || (c =? 0)) then 1 else 0) /\
  leap (Y + 1) = (if (y =? 3) && (negb (q =? 24) || (c =? 3)) then 1 else 0) /\
  day0 Y + 59 + leap Y = day0 2000 + 60 + 146097 * k + 36524 * c + 1461 * q + 365 * y.
Proof.
  intros Hc Hq Hy Y. set (Y0 := 2000 + (y + 4 * q + 100 * c)).
  replace (Y + 1) with (Y0 + 1 + 400 * k) by (unfold Y, Y0; lia).
  replace Y with (Y0 + 400 * k) by (unfold Y, Y0; lia). rewrite !leap_cycle, day0_cycle. clear Y.
  assert (L : leap Y0 = if (y =? 0) && (negb (q =? 0) || (c =? 0)) then 1 else 0)
    by (unfold leap, Y0; repeat destruct_if; dlia).
  rewrite L. split; [done|]. split; [unfold leap, Y0; repeat destruct_if; dlia|].
  unfold day0, Y0. destruct_if; dlia.
Qed.

Lemma month_loop_spec rd :
  0 <= rd <= 365 ->
  exists m, 0 <= m < 12 /\
    let start := nth (Z.to_nat m) [0; 31; 61; 92; 122; 153; 184; 214; 245; 275; 306; 337] 0 in
    month_loop days_in_month 0 rd = Some (m, rd - start) /\
    0 <= rd - start < nth (Z.to_nat m) days_in_month 0.
Proof.
  intros H. unfold days_in_month. cbn [month_loop].
  repeat match goal with
  | |- context [?d <=? ?x] =>
      destruct (Z.leb_spec d x);
      [|match goal with |- context [Some (?m, _)] =>
          let v := eval vm_compute in m in exists v; split; [lia|]; table; split; [f_equal; f_equal; lia|lia] end]
  end. lia.
Qed.

(** The fields of the date, from the March-based year and month. *)
Lemma date_fields Y rd m :
  0 <= m < 12 -> 0 <= rd <= 365 -> (rd = 365 -> leap (Y + 1) = 1) ->
  let start := nth (Z.to_nat m) [0; 31; 61; 92; 122; 153; 184; 214; 245; 275; 306; 337] 0 in
  0 <= rd - start < nth (Z.to_nat m) days_in_month 0 ->
  let '(mon, y) := if m >=? 10 then (m - 10, Y + 1) else (m + 2, Y) in
  0 <= mon < 12 /\ 1 <= rd - start + 1 <= month_len y mon /\
  day0 y + through y mon + (rd - start + 1) - 1 = day0 Y + 59 + leap Y + rd /\
  through y mon + (rd - start + 1) - 1 =
    (if rd + 59 + leap Y >=? 365 + leap Y then rd + 59 + leap Y - (365 + leap Y) else rd + 59 + leap Y).
Proof.
  intros Hm Hrd Hl. cbv zeta. pose proof (day0_step Y) as Hs. pose proof (leap_01 Y) as L.
  pose proof (leap_01 (Y + 1)) as L1. unfold month_len, through, days_in_month. intros Hd.
  revert Hd. months m; table; table; intros Hd;
    (split; [lia|]); (split; [lia|]); (split; [lia|]); destruct_if; lia.
Qed.

Lemma secs_range t :
  (t <? INT_MIN * 31622400) || (t >? INT_MAX * 31622400) = false ->
  - 2 ^ 41 <= (t - LEAPOCH) / 86400 <= 2 ^ 41.
Proof. unfold INT_MIN, INT_MAX, LEAPOCH. intros. dlia. Qed.

(** What [__secs_to_tm] computes, with the case distinctions for negative
    remainders resolved: [day] is the day counted from the first of March 2000. *)
Lemma secs_to_tm_date t tm0 :
  (t <? INT_MIN * 31622400) || (t >? INT_MAX * 31622400) = false ->
  let s := (t - LEAPOCH) mod 86400 in
  let day := (t - LEAPOCH) / 86400 in
  exists mon mday year yday,
    0 <= mon < 12 /\ 1 <= mday <= month_len (1900 + year) mon /\
    yday = through (1900 + year) mon + mday - 1 /\
    day0 (1900 + year) + yday = day0 2000 + 60 + day /\
    __secs_to_tm t tm0 = Ret (if (year >? INT_MAX) || (year <? INT_MIN) then None else
      Some (Tm (s mod 60) (s / 60 mod 60) (s / 3600) mday mon year ((3 + day) mod 7) yday
               (tm_isdst tm0) (tm_gmtoff tm0) (tm_zone tm0))).
Proof.
  intros Ht s day. pose proof (secs_range t Ht) as Hday. fold day in Hday.
  unfold __secs_to_tm. rewrite Ht. cbv zeta.
  rewrite (to_i32_small (Z.rem (t - LEAPOCH) 86400)) by dlia.
  replace (if Z.rem (t - LEAPOCH) 86400 <? 0 then _ else _) with (s, day)
    by (unfold s, day; destruct_if; f_equal; dlia).
  assert (Hs : 0 <= s < 86400) by (unfold s; dlia). clearbody s day. cbv iota beta.
  rewrite (to_i32_small (Z.rem (3 + day) 7)) by dlia.
  replace (if Z.rem (3 + day) 7 <? 0 then _ else _) with ((3 + day) mod 7) by (destruct_if; dlia).
  unfold DAYS_PER_400Y. change (365 * 400 + 97) with 146097.
  rewrite (to_i32_small (Z.rem day 146097)), (to_i32_small (Z.quot day 146097)) by dlia.
  replace (if Z.rem day 146097 <? 0 then _ else _) with (day mod 146097, day / 146097)
    by (destruct_if; f_equal; dlia).
  cbv iota beta. set (k := day / 146097).
  destruct (split_cycle_spec (day mod 146097) ltac:(dlia)) as
    (c & q & y & rd & -> & Hr & Hc & Hq & Hy & Hrd & H365).
  destruct (march c q y k Hc Hq Hy) as (L0 & L1 & M). rewrite <- L0.
  set (Y := y + 4 * q + 100 * c + 400 * k) in *.
  destruct (month_loop_spec rd Hrd) as (m & Hm & Em & Hd). cbv zeta in Em, Hd. rewrite Em.
  pose proof (date_fields (2000 + Y) rd m Hm Hrd) as D. cbv zeta in D.
  set (start := nth _ _ 0) in *.
  assert (HL : rd = 365 -> leap (2000 + Y + 1) = 1).
  { intros E. destruct (H365 E) as [-> H']. rewrite L1. destruct_if; lia. }
  specialize (D HL Hd). assert (Hk : day = 146097 * k + day mod 146097) by (unfold k; dlia).
  replace (rd + 31 + 28 + leap (2000 + Y)) with (rd + 59 + leap (2000 + Y)) by lia.
  clearbody start Y k. clear Em Hd HL L0 L1.
  destruct (m >=? 10); destruct D as (D1 & D2 & D3 & D4); rewrite <- D4.
  - eexists (m - 10), (rd - start + 1), (Y + 1 + 100), _.
    replace (1900 + (Y + 1 + 100)) with (2000 + Y + 1) by lia.
    split; [done|]. split; [done|]. split; [reflexivity|]. split; [lia|].
    replace (m - 12 + 2) with (m - 10) by lia. destruct_if; [done|]. do 4 f_equal; dlia.
  - eexists (m + 2), (rd - start + 1), (Y + 100), _.
    replace (1900 + (Y + 100)) with (2000 + Y) by lia.
    split; [done|]. split; [done|]. split; [reflexivity|]. split; [lia|].
    destruct_if; [done|]. do 4 f_equal; dlia.
Qed.

Lemma seconds_day x : valid x -> 86400 * daynum x <= seconds x < 86400 * (daynum x + 1).
Proof. intros []. unfold seconds. lia. Qed.

(** The seconds of the years an [int] can count from 1900. *)
Definition first_second : Z := 86400 * (day0 (1900 + INT_MIN) - day0 1970).
Definition last_second : Z := 86400 * (day0 (1900 + INT_MAX + 1) - day0 1970) - 1.

Lemma seconds_bound x : valid x -> first_second <= seconds x <= last_second.
Proof.
  intros V. pose proof (seconds_day x V). pose proof (valid_days x V) as D. pose proof (v_year x V).
  pose proof (day0_mono (1900 + INT_MIN) (1900 + tm_year x)).
  pose proof (day0_mono (1900 + tm_year x + 1) (1900 + INT_MAX + 1)).
  unfold first_second, last_second. lia.
Qed.

Lemma hms s : 3600 * (s / 3600) + 60 * (s / 60 mod 60) + s mod 60 = s.
Proof. dlia. Qed.

Lemma hms_range s : 0 <= s < 86400 -> 0 <= s / 3600 < 24 /\ 0 <= s / 60 mod 60 < 60 /\ 0 <= s mod 60 < 60.
Proof. dlia. Qed.

Lemma secs_to_tm_spec t tm0 :
  exists r, __secs_to_tm t tm0 = Ret r /\
    match r with
    | Some x => valid x /\ seconds x = t /\ tm_isdst x = tm_isdst tm0 /\
                tm_gmtoff x = tm_gmtoff tm0 /\ tm_zone x = tm_zone tm0
    | None => t < first_second \/ last_second < t
    end.
Proof.
  destruct ((t <? INT_MIN * 31622400) || (t >? INT_MAX * 31622400)) eqn:Ht.
  { exists None. split; [unfold __secs_to_tm; by rewrite Ht|].
    unfold first_second, last_second, INT_MIN, INT_MAX, day0 in *. dlia. }
  destruct (secs_to_tm_date t tm0 Ht) as (mon & mday & year & yday & Hm & Hd & Hy & Hn & ->).
  eexists. split; [reflexivity|].
  assert (E : day0 2000 - day0 1970 = 10957) by reflexivity.
  pose proof (yday_range _ _ _ Hm Hd) as R.
  destruct_if.
  - unfold first_second, last_second, LEAPOCH in *.
    pose proof (day0_mono (1900 + INT_MAX + 1) (1900 + year)). pose proof (day0_mono (1900 + year + 1) (1900 + INT_MIN)).
    rewrite (day0_step (1900 + year)) in *. dlia.
  - pose proof (Z.div_mod (t - LEAPOCH) 86400 ltac:(lia)) as DM.
    pose proof (Z.mod_pos_bound (t - LEAPOCH) 86400 ltac:(lia)) as Hs.
    set (s := (t - LEAPOCH) mod 86400) in *. set (day := (t - LEAPOCH) / 86400) in *.
    clearbody s day. pose proof (hms s). pose proof (hms_range s Hs). unfold LEAPOCH in *.
    assert (Ed : day0 (1900 + year) - day0 1970 + through (1900 + year) mon + mday - 1 = day + 11017) by lia.
    split; [|split; [unfold seconds, daynum; fields; lia|done]].
    split; unfold daynum; fields; try lia. rewrite Ed. dlia.
Qed.

(** ** One second later *)

Lemma wday_step d w : w = (d + 4) mod 7 -> (w + 1) mod 7 = (d + 1 + 4) mod 7.
Proof. dlia. Qed.

Lemma next_day_spec x y :
  valid x -> tm_hour x = 23 -> tm_min x = 59 -> tm_sec x = 59 ->
  next_day x = Some y -> valid y /\ seconds y = seconds x + 1.
Proof.
  intros [Vs Vm Vh Vo Vd Vy Vw Vn] Eh Em Es. unfold next_day.
  pose proof (month_len_range (1900 + tm_year x) (tm_mon x) Vo) as R.
  destruct (Z.ltb_spec (tm_mday x) (month_len (1900 + tm_year x) (tm_mon x))).
  - intros [= <-]. unfold seconds, daynum in *. split; [split; unfold daynum; fields; try lia; rewrite (wday_step _ _ Vw); f_equal; lia|fields; lia].
  - destruct (Z.ltb_spec (tm_mon x) 11).
    + pose proof (through_step (1900 + tm_year x) (tm_mon x) ltac:(lia)) as T.
      pose proof (month_len_range (1900 + tm_year x) (tm_mon x + 1) ltac:(lia)).
      intros [= <-]. unfold seconds, daynum in *. split; [split; unfold daynum; fields; try lia; rewrite (wday_step _ _ Vw); f_equal; lia|fields; lia].
    + destruct (Z.eqb_spec (tm_year x) INT_MAX); [done|]. intros [= <-].
      assert (Em' : tm_mon x = 11) by lia. rewrite Em' in *.
      pose proof (through_dec (1900 + tm_year x)) as T. pose proof (day0_step (1900 + tm_year x)) as S.
      pose proof (month_len_range (1900 + (tm_year x + 1)) 0 ltac:(lia)) as R'.
      change (month_len (1900 + tm_year x) 11) with 31 in *.
      replace (1900 + tm_year x + 1) with (1900 + (tm_year x + 1)) in S by lia.
      unfold seconds, daynum in *. rewrite Em' in *.
      split; [split; unfold daynum; fields; try rewrite through_0; try lia; rewrite (wday_step _ _ Vw); f_equal; lia|fields; rewrite through_0; lia].
Qed.

Lemma tick_spec x y : valid x -> tick x = Some y -> valid y /\ seconds y = seconds x + 1.
Proof.
  intros V. unfold tick. pose proof V as [Vs Vm Vh Vo Vd Vy Vw Vn].
  destruct (Z.ltb_spec (tm_sec x) 59); [|destruct (Z.ltb_spec (tm_min x) 59);
    [|destruct (Z.ltb_spec (tm_hour x) 23)]]; [..|intros E; apply next_day_spec; done || lia];
    intros [= <-]; unfold seconds, daynum in *; (split; [split; unfold daynum; fields; try lia; done|fields; lia]).
Qed.

Lemma tick_none x :
  valid x -> tick x = None ->
  seconds x = last_second.
Proof.
  intros [Vs Vm Vh Vo Vd Vy Vw Vn]. unfold tick, next_day.
  repeat match goal with |- context [?a <? ?b] => destruct (Z.ltb_spec a b); [done|] end.
  destruct (Z.eqb_spec (tm_year x) INT_MAX) as [E|]; [|done]. intros _.
  assert (Em' : tm_mon x = 11) by lia. unfold seconds, daynum. rewrite Em', E in *.
  pose proof (through_dec (1900 + INT_MAX)). change (month_len (1900 + INT_MAX) 11) with 31 in *.
  unfold last_second. rewrite day0_step. lia.
Qed.

Lemma tick_fields x y :
  tick x = Some y -> tm_isdst y = tm_isdst x /\ tm_gmtoff y = tm_gmtoff x /\ tm_zone y = tm_zone x.
Proof.
  unfold tick, next_day. repeat destruct_if; intros [= <-]; done.
Qed.

(** C30. [__secs_to_tm] is the calendar: it gives Thursday, the first of January
    1970, midnight, for 0; whenever it gives a date and time for [t], it gives
    for [t + 1] the one that clock and calendar reach a second later; and it
    fails exactly for the seconds outside the years that fit an [int]. *)
Theorem gmtime_is_the_calendar (t : Z) (tm0 : tm) :
  __secs_to_tm 0 tm0 = Ret (Some (Tm 0 0 0 1 0 70 4 0 (tm_isdst tm0) (tm_gmtoff tm0) (tm_zone tm0))) /\
  (first_second <= t <= last_second -> exists x,
     __secs_to_tm t tm0 = Ret (Some x) /\ __secs_to_tm (t + 1) tm0 = Ret (tick x)) /\
  (t < first_second \/ last_second < t -> __secs_to_tm t tm0 = Ret None).
Proof.
  split; [reflexivity|].
  destruct (secs_to_tm_spec t tm0) as (r & Er & Hr). rewrite Er. split; intros Ht.
  - destruct r as [x|]; [|lia]. exists x. split; [done|]. destruct Hr as (V & <- & F).
    destruct (secs_to_tm_spec (seconds x + 1) tm0) as (r' & -> & Hr'). f_equal.
    destruct (tick x) as [y|] eqn:Ty.
    + destruct (tick_spec x y V Ty) as [Vy Sy]. pose proof (seconds_bound y Vy).
      destruct r' as [z|]; [|lia]. f_equal. destruct Hr' as (Vz & Sz & Fz).
      pose proof (tick_fields x y Ty). apply valid_unique; intuition congruence.
    + pose proof (tick_none x V Ty). destruct r' as [z|]; [|done]. destruct Hr' as (Vz & Sz & _).
      pose proof (seconds_bound z Vz). lia.
  - destruct r as [x|]; [|done]. destruct Hr as (V & <- & _). pose proof (seconds_bound x V). lia.
Qed.

Lemma set_utc_valid x : valid x -> valid (set_utc x) /\ seconds (set_utc x) = seconds x.
Proof. intros [??? ?? ? Hw Hn]. split; [split; try assumption|done]. Qed.

Lemma timegm_spec x new :
  INT_MIN <= tm_mon x <= INT_MAX -> INT_MIN <= tm_year x <= INT_MAX ->
  match timegm x new with
  | Ret (inl (t, y)) => t = seconds (carry x) /\ valid y /\ seconds y = t /\ set_utc y = y
  | Ret (inr e) => e = EOVERFLOW /\ (seconds (carry x) < first_second \/ last_second < seconds (carry x))
  | Stop _ => False
  end.
Proof.
  intros Hm Hy. unfold timegm. rewrite tm_to_secs_spec by done. cbv zeta.
  destruct (secs_to_tm_spec (seconds (carry x)) new) as ([y|] & -> & H); [|done].
  destruct H as (V & S & _). destruct (set_utc_valid y V) as [V' S']. by rewrite S', S.
Qed.



End Calendar.
