(* ===== verification/Refcount.v ===== *)
(** * Reference-counted objects shared by threads: threads/mutex2.c

    Objects of type [struct foo] in a hash table of chains: the table and the
    links are protected by [hashlock], the reference count of an object by the
    object's own lock.  Threads run the functions statement by statement and
    interleave freely; the program counter of a thread names the statement it
    executes next.  A statement can wait for a lock, break a rule of memory or
    of mutexes ([Fault]), or count past [INT_MAX].  A thread also carries the
    references its caller holds: it may call [foo_hold] and [foo_rele] only
    for objects it has a reference to. *)

From S2P Require Import Prelude CLib.

Module Refcount.

(** ** Data *)

Definition NHASH : Z := 29.
Definition HASH (id : Z) : Z := to_u64 id mod NHASH.

(** A mutex that is not initialised, not locked, or locked by a thread. *)
Inductive mutex := Uninit | Unlocked | Locked (i : nat).
#[global] Instance mutex_eq_dec : EqDecision mutex.
Proof. solve_decision. Defined.

Record foo := Foo { f_count : Z; f_lock : mutex; f_id : Z; f_next : Z }.

Definition set_count n f := Foo n (f_lock f) (f_id f) (f_next f).
Definition set_lock l f := Foo (f_count f) l (f_id f) (f_next f).
Definition set_next p f := Foo (f_count f) (f_lock f) (f_id f) p.

(** The globals [fh] and [hashlock], and the heap. *)
Record shared := Shared { fh : list Z; hashlock : option nat; heap : gmap Z foo }.

Definition bucket (s : shared) (b : Z) : Z := nth (Z.to_nat b) (fh s) 0.
Definition set_bucket b p s := Shared (<[Z.to_nat b := p]> (fh s)) (hashlock s) (heap s).
Definition set_hashlock l s := Shared (fh s) l (heap s).
Definition set_heap h s := Shared (fh s) (hashlock s) h.
Definition put fp f s := set_heap (<[fp := f]> (heap s)) s.

(** ** Program counters

    [A] for [foo_alloc], [H] for [foo_hold], [F] for [foo_find], [R] for
    [foo_rele]; the arguments are the live local variables.  [foo_hold] is
    called by [foo_find] as well: [k] is the identity looked for, if so. *)
Inductive pc :=
| Idle
| A_malloc (id : Z)
| A_set (fp id : Z)
| A_init (fp id : Z)
| A_free (fp : Z)
| A_lockh (fp id : Z)
| A_next (fp id : Z)
| A_link (fp id : Z)
| A_lockf (fp : Z)
| A_unlockh (fp : Z)
| A_unlockf (fp : Z)
| H_lock (fp : Z) (k : option Z)
| H_inc (fp : Z) (k : option Z)
| H_unlock (fp : Z) (k : option Z)
| F_lockh (id : Z)
| F_first (id : Z)
| F_test (id fp : Z)
| F_next (id fp : Z)
| F_unlockh (id fp : Z)
| R_lock (fp : Z)
| R_test (fp : Z)
| R_unlock (fp : Z)
| R_lockh (fp : Z)
| R_relock (fp : Z)
| R_recheck (fp : Z)
| R_dec2 (fp : Z)
| R_unlock2 (fp : Z)
| R_unlockh2 (fp : Z)
| R_first (fp : Z)
| R_ishead (fp idx tfp : Z)
| R_head (fp idx : Z)
| R_while (fp tfp : Z)
| R_step (fp tfp : Z)
| R_cut (fp tfp : Z)
| R_unlockh (fp : Z)
| R_unlockf (fp : Z)
| R_destroy (fp : Z)
| R_free (fp : Z)
| R_dec (fp : Z)
| R_unlock1 (fp : Z).

(** A thread: where it is, and the references its caller may use. *)
Record thread := Thread { at_pc : pc; refs : list Z }.

Inductive result :=
| Block
| Fault
| Overflow
| Go (s : shared) (t : thread).

(** ** Statements *)

Definition INT_MAX : Z := 2 ^ 31 - 1.

Section statements.
(** The thread that runs, and the references of its caller. *)
Variable i : nat.
Variable rs : list Z.

Definition goto (s : shared) (p : pc) : result := Go s (Thread p rs).
(** Return to the caller with a new reference, or without. *)
Definition return_ref (s : shared) (fp : Z) : result := Go s (Thread Idle (if fp =? 0 then rs else fp :: rs)).

(** Access to the object [fp]: a pointer that is not allocated is an error. *)
Definition deref (s : shared) (fp : Z) (k : foo -> result) : result :=
  match heap s !! fp with Some f => k f | None => Fault end.

Definition lock_hash (s : shared) (p : pc) : result :=
  match hashlock s with None => goto (set_hashlock (Some i) s) p | Some _ => Block end.
Definition unlock_hash (s : shared) (k : shared -> result) : result :=
  if bool_decide (hashlock s = Some i) then k (set_hashlock None s) else Fault.
Definition lock_foo (s : shared) (fp : Z) (p : pc) : result :=
  deref s fp (fun f => match f_lock f with
                       | Unlocked => goto (put fp (set_lock (Locked i) f) s) p
                       | Locked _ => Block
                       | Uninit => Fault
                       end).
Definition unlock_foo (s : shared) (fp : Z) (k : shared -> result) : result :=
  deref s fp (fun f => if bool_decide (f_lock f = Locked i) then k (put fp (set_lock Unlocked f) s) else Fault).

(** What the environment decides: the call a caller makes, the address
    [malloc] returns with what is in that memory, and whether
    [pthread_mutex_init] succeeds. *)
Inductive choice :=
| Call_alloc (id : Z)
| Call_hold (fp : Z)
| Call_find (id : Z)
| Call_rele (fp : Z)
| Memory (fp : Z) (junk : foo)
| Works (ok : bool).

(** [foo_alloc] *)
Definition exec_alloc (c : choice) (s : shared) (p : pc) : result :=
  match p with
  | A_malloc id =>
      match c with
      | Memory fp f => if (fp =? 0) || bool_decide (is_Some (heap s !! fp)) then Block
                       else goto (put fp (set_lock Uninit f) s) (A_set fp id)
      | Works false => return_ref s 0
      | _ => Block
      end
  | A_set fp id => deref s fp (fun f => goto (put fp (Foo 1 (f_lock f) id (f_next f)) s) (A_init fp id))
  | A_init fp id =>
      match c with
      | Works true => deref s fp (fun f => goto (put fp (set_lock Unlocked f) s) (A_lockh fp id))
      | Works false => goto s (A_free fp)
      | _ => Block
      end
  | A_free fp => deref s fp (fun f => return_ref (set_heap (delete fp (heap s)) s) 0)
  | A_lockh fp id => lock_hash s (A_next fp id)
  | A_next fp id => deref s fp (fun f => goto (put fp (set_next (bucket s (HASH id)) f) s) (A_link fp id))
  | A_link fp id => goto (set_bucket (HASH id) fp s) (A_lockf fp)
  | A_lockf fp => lock_foo s fp (A_unlockh fp)
  | A_unlockh fp => unlock_hash s (fun s => goto s (A_unlockf fp))
  | A_unlockf fp => unlock_foo s fp (fun s => return_ref s fp)
  | _ => Block
  end.

(** [foo_hold] and [foo_find] *)
Definition exec_find (s : shared) (p : pc) : result :=
  match p with
  | H_lock fp k => lock_foo s fp (H_inc fp k)
  | H_inc fp k => deref s fp (fun f => if f_count f =? INT_MAX then Overflow
                                       else goto (put fp (set_count (f_count f + 1) f) s) (H_unlock fp k))
  | H_unlock fp k => unlock_foo s fp (fun s => match k with
                                               | Some id => goto s (F_unlockh id fp)
                                               | None => return_ref s fp
                                               end)
  | F_lockh id => lock_hash s (F_first id)
  | F_first id => goto s (F_test id (bucket s (HASH id)))
  | F_test id fp =>
      if fp =? 0 then goto s (F_unlockh id fp)
      else deref s fp (fun f => if f_id f =? id then goto s (H_lock fp (Some id)) else goto s (F_next id fp))
  | F_next id fp => deref s fp (fun f => goto s (F_test id (f_next f)))
  | F_unlockh id fp => unlock_hash s (fun s => return_ref s fp)
  | _ => Block
  end.

(** [foo_rele] *)
Definition exec_rele (s : shared) (p : pc) : result :=
  match p with
  | R_lock fp => lock_foo s fp (R_test fp)
  | R_test fp => deref s fp (fun f => if f_count f =? 1 then goto s (R_unlock fp) else goto s (R_dec fp))
  | R_unlock fp => unlock_foo s fp (fun s => goto s (R_lockh fp))
  | R_lockh fp => lock_hash s (R_relock fp)
  | R_relock fp => lock_foo s fp (R_recheck fp)
  | R_recheck fp => deref s fp (fun f => if f_count f =? 1 then goto s (R_first fp) else goto s (R_dec2 fp))
  | R_dec2 fp => deref s fp (fun f => goto (put fp (set_count (f_count f - 1) f) s) (R_unlock2 fp))
  | R_unlock2 fp => unlock_foo s fp (fun s => goto s (R_unlockh2 fp))
  | R_unlockh2 fp => unlock_hash s (fun s => return_ref s 0)
  | R_first fp => deref s fp (fun f => goto s (R_ishead fp (HASH (f_id f)) (bucket s (HASH (f_id f)))))
  | R_ishead fp idx tfp => if tfp =? fp then goto s (R_head fp idx) else goto s (R_while fp tfp)
  | R_head fp idx => deref s fp (fun f => goto (set_bucket idx (f_next f) s) (R_unlockh fp))
  | R_while fp tfp => deref s tfp (fun g => if f_next g =? fp then goto s (R_cut fp tfp) else goto s (R_step fp tfp))
  | R_step fp tfp => deref s tfp (fun g => goto s (R_while fp (f_next g)))
  | R_cut fp tfp => deref s fp (fun f => deref s tfp (fun g =>
      goto (put tfp (set_next (f_next f) g) s) (R_unlockh fp)))
  | R_unlockh fp => unlock_hash s (fun s => goto s (R_unlockf fp))
  | R_unlockf fp => unlock_foo s fp (fun s => goto s (R_destroy fp))
  | R_destroy fp => deref s fp (fun f => match f_lock f with
                                         | Unlocked => goto (put fp (set_lock Uninit f) s) (R_free fp)
                                         | _ => Fault
                                         end)
  | R_free fp => deref s fp (fun f => return_ref (set_heap (delete fp (heap s)) s) 0)
  | R_dec fp => deref s fp (fun f => goto (put fp (set_count (f_count f - 1) f) s) (R_unlock1 fp))
  | R_unlock1 fp => unlock_foo s fp (fun s => return_ref s 0)
  | _ => Block
  end.

Definition exec (c : choice) (s : shared) (p : pc) : result :=
  match p with
  | A_malloc _ | A_set _ _ | A_init _ _ | A_free _ | A_lockh _ _ | A_next _ _ | A_link _ _
  | A_lockf _ | A_unlockh _ | A_unlockf _ => exec_alloc c s p
  | H_lock _ _ | H_inc _ _ | H_unlock _ _ | F_lockh _ | F_first _ | F_test _ _ | F_next _ _
  | F_unlockh _ _ => exec_find s p
  | Idle => Block
  | _ => exec_rele s p
  end.

(** A call: a reference that is released is the callee's from then on. *)
Definition call (c : choice) : option thread :=
  match c with
  | Call_alloc id => Some (Thread (A_malloc id) rs)
  | Call_find id => Some (Thread (F_lockh id) rs)
  | Call_hold fp => if bool_decide (fp ∈ rs) then Some (Thread (H_lock fp None) rs) else None
  | Call_rele fp => match list_find (fun q => q = fp) rs with
                    | Some (n, _) => Some (Thread (R_lock fp) (delete n rs))
                    | None => None
                    end
  | _ => None
  end.
End statements.

(** ** The system *)

Record sys := Sys { sh : shared; thr : list thread }.

Definition set_thr i t s sys := Sys s (<[i := t]> (thr sys)).

(** A thread between two calls makes one. *)
Inductive calls : sys -> sys -> Prop :=
| do_call s i c t t' :
    thr s !! i = Some t -> at_pc t = Idle -> call (refs t) c = Some t' ->
    calls s (set_thr i t' (sh s) s).

(** A thread inside a call executes a statement. *)
Inductive steps : sys -> sys -> Prop :=
| do_step s i c t s' t' :
    thr s !! i = Some t -> exec i (refs t) c (sh s) (at_pc t) = Go s' t' ->
    steps s (set_thr i t' s' s).

(** [n] threads that have called nothing yet. *)
Definition start (n : nat) : sys :=
  Sys (Shared (replicate 29 0) None ∅) (replicate n (Thread Idle [])).

Definition reachable (n : nat) (s : sys) : Prop := rtc (fun x y => calls x y \/ steps x y) (start n) s.

(** ** Hash values *)

Lemma HASH_range id : 0 <= HASH id < NHASH.
Proof. apply Z.mod_pos_bound. done. Qed.

(** ** Chains *)

(** From the pointer [p], the objects of [l] in order, to the null pointer. *)
Fixpoint chained (h : gmap Z foo) (p : Z) (l : list Z) : Prop :=
  match l with
  | [] => p = 0
  | q :: l' => p = q /\ q <> 0 /\ exists f, h !! q = Some f /\ chained h (f_next f) l'
  end.

Lemma chained_ext h h' p l :
  chained h p l ->
  (forall q f, q ∈ l -> h !! q = Some f -> exists f', h' !! q = Some f' /\ f_next f' = f_next f) ->
  chained h' p l.
Proof.
  revert p. induction l as [|q l IH]; intros p; cbn; [done|]. intros (-> & Hq & f & Hf & Hl) He.
  split; [done|]. split; [done|]. destruct (He q f ltac:(left) Hf) as (f' & Hf' & E).
  exists f'. split; [done|]. rewrite E. apply IH; [done|]. intros q' f0 Hin. apply He. by right.
Qed.

Lemma chained_fun h p l l' : chained h p l -> chained h p l' -> l = l'.
Proof.
  revert p l'. induction l as [|q l IH]; intros p [|q' l']; cbn; [done| | |].
  - intros -> (<- & ? & _). done.
  - intros (-> & ? & _) E. done.
  - intros (-> & _ & f & Hf & Hl) (-> & _ & f' & Hf' & Hl'). f_equal. rewrite Hf in Hf'.
    injection Hf' as <-. eauto.
Qed.

Lemma chained_mid h p l1 q l2 :
  chained h p (l1 ++ q :: l2) -> q <> 0 /\ exists f, h !! q = Some f /\ chained h (f_next f) l2.
Proof.
  revert p. induction l1 as [|x l1 IH]; intros p; cbn; [intros (_ & ? & ?); auto|].
  intros (_ & _ & f & _ & Hl). eauto.
Qed.

Lemma chained_hd h p l : chained h p l -> p = hd 0 l.
Proof. destruct l; cbn; tauto. Qed.

(** Redirecting the link of [q] past its successor. *)
Lemma chained_unlink h p l1 q r l2 f fr :
  chained h p (l1 ++ q :: r :: l2) -> NoDup (l1 ++ q :: r :: l2) ->
  h !! q = Some f -> h !! r = Some fr ->
  chained (<[q := set_next (f_next fr) f]> h) p (l1 ++ q :: l2).
Proof.
  intros Hc Hn Hq Hr. revert p Hc. induction l1 as [|x l1 IH]; intros p; cbn.
  - intros (-> & H0 & f0 & Hf0 & _ & _ & f1 & Hf1 & Hl). cbn in Hn.
    split; [done|]. split; [done|]. eexists. rewrite lookup_insert_eq. split; [done|]. cbn.
    rewrite Hr in Hf1. injection Hf1 as <-. eapply chained_ext; [exact Hl|].
    intros y g Hy Hg. exists g. rewrite lookup_insert_ne; [done|].
    apply list.NoDup_cons in Hn as [Hn _]. intros ->. set_solver.
  - intros (-> & H0 & f0 & Hf0 & Hl). apply list.NoDup_cons in Hn as [Hx Hn].
    split; [done|]. split; [done|]. exists f0. rewrite lookup_insert_ne; [|intros ->; set_solver]. eauto.
Qed.

End Refcount.
