(* ===== verification/RefcountInv.v ===== *)
(** * The invariant of the reference-counted objects

    What a program counter holds (locks, a reference, an object nobody else
    can reach), what a thread knows at each statement, the invariant that ties
    them to the shared state, and the effect on the invariant of each kind of
    statement. *)

From S2P Require Import Prelude CLib Refcount.
Import Refcount.

Module RefcountInv.

(** ** What the statements hold *)

Definition hash_held (p : pc) : bool :=
  match p with
  | A_next _ _ | A_link _ _ | A_lockf _ | A_unlockh _
  | F_first _ | F_test _ _ | F_next _ _ | F_unlockh _ _
  | R_relock _ | R_recheck _ | R_dec2 _ | R_unlock2 _ | R_unlockh2 _ | R_first _ | R_ishead _ _ _
  | R_head _ _ | R_while _ _ | R_step _ _ | R_cut _ _ | R_unlockh _ => true
  | H_lock _ k | H_inc _ k | H_unlock _ k => bool_decide (is_Some k)
  | _ => false
  end.

Definition foo_held (p : pc) : option Z :=
  match p with
  | A_unlockh fp | A_unlockf fp | H_inc fp _ | H_unlock fp _ | R_test fp | R_unlock fp
  | R_recheck fp | R_dec2 fp | R_unlock2 fp | R_first fp | R_ishead fp _ _ | R_head fp _
  | R_while fp _ | R_step fp _ | R_cut fp _ | R_unlockh fp | R_unlockf fp | R_dec fp | R_unlock1 fp => Some fp
  | _ => None
  end.

(** The reference that belongs to the call in progress. *)
Definition holds_ref (p : pc) : option Z :=
  match p with
  | A_init fp _ | A_free fp | A_lockh fp _ | A_next fp _ | A_link fp _ | A_lockf fp | A_unlockh fp
  | A_unlockf fp | H_unlock fp _
  | R_lock fp | R_test fp | R_unlock fp | R_lockh fp | R_relock fp | R_recheck fp | R_dec2 fp | R_first fp
  | R_ishead fp _ _ | R_head fp _ | R_while fp _ | R_step fp _ | R_cut fp _ | R_unlockh fp | R_unlockf fp
  | R_destroy fp | R_free fp | R_dec fp => Some fp
  | F_unlockh _ fp => if fp =? 0 then None else Some fp
  | _ => None
  end.

(** The object only this thread can reach: not yet in the table, or taken out. *)
Definition private (p : pc) : option Z :=
  match p with
  | A_set fp _ | A_init fp _ | A_free fp | A_lockh fp _ | A_next fp _ | A_link fp _
  | R_unlockh fp | R_unlockf fp | R_destroy fp | R_free fp => Some fp
  | _ => None
  end.

Definition newborn (p : pc) : option Z :=
  match p with A_set fp _ => Some fp | _ => None end.
Definition unready (p : pc) : option Z :=
  match p with A_set fp _ | A_init fp _ | A_free fp | R_free fp => Some fp | _ => None end.

(** References to [fp], of a thread and of all. *)
Definition cnt (fp : Z) (t : thread) : Z :=
  Z.of_nat (count_occ Z.eq_dec (refs t) fp) + (if bool_decide (holds_ref (at_pc t) = Some fp) then 1 else 0).
Abbreviation total fp := (Prelude.total (cnt fp)).

Lemma cnt_nonneg fp t : 0 <= cnt fp t.
Proof. unfold cnt. destruct_if; lia. Qed.

Lemma refs_total_nonneg fp l : 0 <= total fp l.
Proof. induction l as [|t l IH]; cbn; [lia|]. pose proof (cnt_nonneg fp t). lia. Qed.

Lemma total_le fp l i t : l !! i = Some t -> cnt fp t <= total fp l.
Proof.
  revert i. induction l as [|u l IH]; intros [|i] H; cbn in *; try done.
  - injection H as ->. pose proof (refs_total_nonneg fp l). lia.
  - pose proof (IH _ H). pose proof (cnt_nonneg fp u). lia.
Qed.

Lemma total_le2 fp l i j t u :
  l !! i = Some t -> l !! j = Some u -> i <> j -> cnt fp t + cnt fp u <= total fp l.
Proof.
  revert i j. induction l as [|x l IH]; intros [|i] [|j] Hi Hj Hne; cbn in *; try done.
  - injection Hi as ->. pose proof (total_le fp l j u Hj). lia.
  - injection Hj as ->. pose proof (total_le fp l i t Hi). lia.
  - pose proof (IH i j Hi Hj ltac:(lia)). pose proof (cnt_nonneg fp x). lia.
Qed.

Lemma total_pos fp l : 0 < total fp l -> exists i t, l !! i = Some t /\ 0 < cnt fp t.
Proof.
  induction l as [|u l IH]; cbn; [lia|]. intros H. destruct (decide (0 < cnt fp u)) as [Hu|Hu].
  - by exists 0%nat, u.
  - destruct IH as (i & t & Hi & Ht); [lia|]. by exists (S i), t.
Qed.

Lemma cnt_holds fp t : holds_ref (at_pc t) = Some fp -> 1 <= cnt fp t.
Proof. intros H. unfold cnt. rewrite bool_decide_eq_true_2 by done. lia. Qed.

Lemma cnt_refs fp t : fp ∈ refs t -> 1 <= cnt fp t.
Proof.
  intros H%list_elem_of_In. apply (count_occ_In Z.eq_dec) in H. unfold cnt. destruct_if; lia.
Qed.

(** ** What a thread knows *)

Definition chains := Z -> list Z.

Definition obj (s : shared) (fp : Z) (P : foo -> Prop) : Prop :=
  exists f, heap s !! fp = Some f /\ P f.

Definition facts (ch : chains) (s : shared) (t : thread) : Prop :=
  match at_pc t with
  | A_set fp _ => obj s fp (fun f => f_lock f = Uninit)
  | A_init fp id => obj s fp (fun f => f_count f = 1 /\ f_lock f = Uninit /\ f_id f = id)
  | A_free fp => obj s fp (fun f => f_count f = 1 /\ f_lock f = Uninit)
  | A_lockh fp id | A_next fp id => obj s fp (fun f => f_count f = 1 /\ f_lock f = Unlocked /\ f_id f = id)
  | A_link fp id => obj s fp (fun f => f_count f = 1 /\ f_lock f = Unlocked /\ f_id f = id /\
                                       f_next f = bucket s (HASH id))
  | H_lock fp (Some id) | H_inc fp (Some id) | H_unlock fp (Some id) =>
      fp ∈ ch (HASH id) /\ obj s fp (fun f => f_id f = id)
  | H_lock fp None | H_inc fp None => fp ∈ refs t
  | F_test id fp => exists l1 l2, ch (HASH id) = l1 ++ l2 /\ fp = hd 0 l2 /\
      Forall (fun q => obj s q (fun f => f_id f <> id)) l1
  | F_next id fp => exists l1 l2, ch (HASH id) = l1 ++ fp :: l2 /\
      Forall (fun q => obj s q (fun f => f_id f <> id)) (l1 ++ [fp])
  | F_unlockh id fp =>
      (fp = 0 -> Forall (fun q => obj s q (fun f => f_id f <> id)) (ch (HASH id))) /\
      (fp <> 0 -> fp ∈ ch (HASH id) /\ obj s fp (fun f => f_id f = id))
  | R_dec fp | R_dec2 fp => obj s fp (fun f => f_count f <> 1)
  | R_first fp => obj s fp (fun f => f_count f = 1)
  | R_ishead fp idx tfp => obj s fp (fun f => f_count f = 1 /\ idx = HASH (f_id f)) /\ tfp = bucket s idx
  | R_head fp idx => obj s fp (fun f => f_count f = 1 /\ idx = HASH (f_id f)) /\ fp = bucket s idx
  | R_while fp tfp => obj s fp (fun f => f_count f = 1 /\
      exists l1 l2, ch (HASH (f_id f)) = l1 ++ tfp :: l2 /\ fp ∈ l2)
  | R_step fp tfp => obj s fp (fun f => f_count f = 1 /\
      exists l1 q l2, ch (HASH (f_id f)) = l1 ++ tfp :: q :: l2 /\ fp ∈ l2)
  | R_cut fp tfp => obj s fp (fun f => f_count f = 1 /\
      exists l1 l2, ch (HASH (f_id f)) = l1 ++ tfp :: fp :: l2)
  | R_unlockh fp | R_unlockf fp => obj s fp (fun f => f_count f = 1)
  | R_destroy fp => obj s fp (fun f => f_count f = 1 /\ f_lock f = Unlocked)
  | R_free fp => obj s fp (fun f => f_count f = 1 /\ f_lock f = Uninit)
  | _ => True
  end.

(** What other threads leave alone: the table and its links for the holder of
    [hashlock], the count of an object for the holder of its lock, everything
    of a private object. *)
Record rely (ch : chains) (s : shared) (ch' : chains) (s' : shared) (p : pc) : Prop := {
  rely_hash : hash_held p = true -> ch' = ch /\ fh s' = fh s;
  rely_link : hash_held p = true -> forall b fp f, fp ∈ ch b -> heap s !! fp = Some f ->
    exists f', heap s' !! fp = Some f' /\ f_id f' = f_id f /\ f_next f' = f_next f;
  rely_foo : forall fp f, foo_held p = Some fp -> heap s !! fp = Some f ->
    exists f', heap s' !! fp = Some f' /\ f_id f' = f_id f /\ f_count f' = f_count f;
  rely_private : forall fp, private p = Some fp -> heap s' !! fp = heap s !! fp }.

Lemma ids_stable ch s ch' s' p id l b :
  rely ch s ch' s' p -> hash_held p = true -> (forall q, q ∈ l -> q ∈ ch b) ->
  Forall (fun q => obj s q (fun f => f_id f <> id)) l ->
  Forall (fun q => obj s' q (fun f => f_id f <> id)) l.
Proof.
  intros R Hh Hl. rewrite !list.Forall_forall. intros H q Hq. destruct (H q Hq) as (f & Hf & E).
  destruct (rely_link _ _ _ _ _ R Hh b q f (Hl q Hq) Hf) as (f' & Hf' & E' & _). exists f'. by rewrite E'.
Qed.

Lemma facts_stable ch s ch' s' t :
  rely ch s ch' s' (at_pc t) -> facts ch s t -> facts ch' s' t.
Proof.
  intros R. pose proof (rely_hash _ _ _ _ _ R) as Rh. pose proof (rely_link _ _ _ _ _ R) as Rl.
  pose proof (rely_foo _ _ _ _ _ R) as Rf. pose proof (rely_private _ _ _ _ _ R) as Rp.
  pose proof (fun id l b => ids_stable _ _ _ _ _ id l b R) as Ri.
  assert (Rm : hash_held (at_pc t) = true -> forall id fp, fp ∈ ch (HASH id) /\ obj s fp (fun f => f_id f = id) ->
    fp ∈ ch' (HASH id) /\ obj s' fp (fun f => f_id f = id)).
  { intros Hh id fp [Hin (f & Hf & E)]. destruct (Rh Hh) as [-> _]. split; [done|].
    destruct (Rl Hh _ _ _ Hin Hf) as (f' & Hf' & E' & _). exists f'. by rewrite E'. }
  unfold facts, bucket. destruct (at_pc t); cbn [hash_held foo_held private] in *; try done;
    try (unfold obj; rewrite (Rp _ eq_refl); try (destruct (Rh eq_refl) as [_ ->]); done);
    try (destruct (Rh eq_refl) as [-> Ef]; try rewrite Ef);
    try (destruct k; [exact (Rm eq_refl _ _)|done]);
    try (intros (f & Hf & H); destruct (Rf _ _ eq_refl Hf) as (f' & Hf' & E1 & E2);
         exists f'; rewrite E1, E2; done);
    try (intros (f & Hf & H); destruct (Rf _ _ eq_refl Hf) as (f' & Hf' & E1 & E2);
         exists f'; rewrite E2; done);
    try (intros [(f & Hf & H) ->]; destruct (Rf _ _ eq_refl Hf) as (f' & Hf' & E1 & E2);
         split; [exists f'; rewrite E1, E2; done|done]).
  - intros (l1 & l2 & E & Hhd & H). exists l1, l2. split; [done|]. split; [done|].
    apply (Ri id l1 (HASH id)); [done| |done]. rewrite E. set_solver.
  - intros (l1 & l2 & E & H). exists l1, l2. split; [done|].
    apply (Ri id (l1 ++ [fp]) (HASH id)); [done| |done]. rewrite E. set_solver.
  - intros [H1 H2]. split; [|intros; apply (Rm eq_refl); auto].
    intros ->. apply (Ri id _ (HASH id)); auto.
Qed.

(** ** The invariant *)

Record Inv (ch : chains) (s : shared) (l : list thread) : Prop := {
  i_fh : length (fh s) = 29%nat;
  i_null : heap s !! 0 = None;
  i_hash1 : forall i t, l !! i = Some t -> hash_held (at_pc t) = true -> hashlock s = Some i;
  i_hash2 : forall i, hashlock s = Some i -> exists t, l !! i = Some t /\ hash_held (at_pc t) = true;
  i_lock1 : forall i t fp, l !! i = Some t -> foo_held (at_pc t) = Some fp ->
    obj s fp (fun f => f_lock f = Locked i);
  i_lock2 : forall fp f i, heap s !! fp = Some f -> f_lock f = Locked i ->
    exists t, l !! i = Some t /\ foo_held (at_pc t) = Some fp;
  i_uninit : forall fp f, heap s !! fp = Some f -> f_lock f = Uninit ->
    exists i t, l !! i = Some t /\ unready (at_pc t) = Some fp;
  i_count0 : forall fp, heap s !! fp = None -> total fp l = 0;
  i_count : forall fp f, heap s !! fp = Some f ->
    (exists i t, l !! i = Some t /\ newborn (at_pc t) = Some fp) \/
    (f_count f = total fp l /\ 1 <= f_count f);
  i_newborn : forall i t fp, l !! i = Some t -> newborn (at_pc t) = Some fp -> total fp l = 0;
  i_chain : forall b, 0 <= b < NHASH -> chained (heap s) (bucket s b) (ch b);
  i_hashed : forall b fp, fp ∈ ch b -> obj s fp (fun f => HASH (f_id f) = b);
  i_nodup : forall b, NoDup (ch b);
  i_where : forall fp f, heap s !! fp = Some f ->
    fp ∈ ch (HASH (f_id f)) \/ exists i t, l !! i = Some t /\ private (at_pc t) = Some fp;
  i_priv : forall i t fp, l !! i = Some t -> private (at_pc t) = Some fp ->
    is_Some (heap s !! fp) /\ forall b, fp ∉ ch b;
  i_priv1 : forall i j t u fp, l !! i = Some t -> l !! j = Some u ->
    private (at_pc t) = Some fp -> private (at_pc u) = Some fp -> i = j;
  i_facts : forall i t, l !! i = Some t -> facts ch s t }.

(** Facts about program counters. *)
Lemma unready_private p fp : unready p = Some fp -> private p = Some fp.
Proof. by destruct p. Qed.
Lemma newborn_unready p fp : newborn p = Some fp -> unready p = Some fp.
Proof. by destruct p. Qed.
Lemma private_ref p fp : private p = Some fp -> newborn p = Some fp \/ holds_ref p = Some fp.
Proof. destruct p; cbn; auto. Qed.
Lemma private_one ch s t fp :
  facts ch s t -> private (at_pc t) = Some fp -> newborn (at_pc t) = Some fp \/ obj s fp (fun f => f_count f = 1).
Proof.
  unfold facts, obj. destruct (at_pc t); intros Hf [= <-]; cbn; auto; right;
    destruct Hf as (f & Hf & H); exists f; (split; [done|]); tauto.
Qed.

Section consequences.
Context {ch : chains} {s : shared} {l : list thread} (I : Inv ch s l).

Lemma ref_obj i t fp :
  l !! i = Some t -> 1 <= cnt fp t -> obj s fp (fun f => f_count f = total fp l /\ 1 <= f_count f).
Proof.
  intros Hi Hc. pose proof (total_le fp l i t Hi) as Ht.
  destruct (heap s !! fp) as [f|] eqn:Hf; [|pose proof (i_count0 _ _ _ I fp Hf); lia].
  exists f. split; [done|]. destruct (i_count _ _ _ I fp f Hf) as [(j & u & Hj & Hu)|H]; [|done].
  pose proof (i_newborn _ _ _ I j u fp Hj Hu). lia.
Qed.

Lemma ref_private i j t u fp :
  l !! i = Some t -> 1 <= cnt fp t -> l !! j = Some u -> private (at_pc u) = Some fp -> i = j.
Proof.
  intros Hi Hc Hj Hu. destruct (decide (i = j)) as [|Hne]; [done|exfalso].
  pose proof (total_le2 fp l i j t u Hi Hj Hne). pose proof (cnt_nonneg fp u).
  destruct (private_one ch s u fp (i_facts _ _ _ I j u Hj) Hu) as [Hb|(f & Hf & H1)].
  - pose proof (i_newborn _ _ _ I j u fp Hj Hb). lia.
  - destruct (ref_obj i t fp Hi Hc) as (f' & Hf' & Ef & _). rewrite Hf in Hf'. injection Hf' as <-.
    destruct (private_ref _ _ Hu) as [Hb|Hr]; [pose proof (i_newborn _ _ _ I j u fp Hj Hb); lia|].
    pose proof (cnt_holds fp u Hr). lia.
Qed.

Lemma ref_ready i t fp f :
  l !! i = Some t -> 1 <= cnt fp t -> unready (at_pc t) <> Some fp -> heap s !! fp = Some f -> f_lock f <> Uninit.
Proof.
  intros Hi Hc Hr Hf E. destruct (i_uninit _ _ _ I fp f Hf E) as (j & u & Hj & Hu).
  pose proof (ref_private i j t u fp Hi Hc Hj (unready_private _ _ Hu)) as <-.
  rewrite Hi in Hj. injection Hj as <-. done.
Qed.

Lemma chain_obj b fp :
  fp ∈ ch b -> obj s fp (fun f => HASH (f_id f) = b /\ f_count f = total fp l /\ 1 <= f_count f /\ f_lock f <> Uninit).
Proof.
  intros Hin. destruct (i_hashed _ _ _ I b fp Hin) as (f & Hf & E). exists f. split; [done|]. split; [done|].
  assert (N : forall j u, l !! j = Some u -> private (at_pc u) = Some fp -> False).
  { intros j u Hj Hu. by apply (proj2 (i_priv _ _ _ I j u fp Hj Hu) b). }
  destruct (i_count _ _ _ I fp f Hf) as [(j & u & Hj & Hu)|[H1 H2]].
  - destruct (N j u Hj). by apply unready_private, newborn_unready.
  - split_and!; [done..|]. intros E'. destruct (i_uninit _ _ _ I fp f Hf E') as (j & u & Hj & Hu).
    destruct (N j u Hj). by apply unready_private.
Qed.

Lemma lock_excl i j t u fp :
  l !! i = Some t -> l !! j = Some u -> foo_held (at_pc t) = Some fp -> foo_held (at_pc u) = Some fp -> i = j.
Proof.
  intros Hi Hj Ht Hu. destruct (i_lock1 _ _ _ I i t fp Hi Ht) as (f & Hf & E).
  destruct (i_lock1 _ _ _ I j u fp Hj Hu) as (f' & Hf' & E'). congruence.
Qed.
End consequences.

(** ** Effects of statements *)

Lemma upd_cases {A} (l : list A) i j t t' u :
  l !! i = Some t -> <[i := t']> l !! j = Some u -> (j = i /\ u = t') \/ (j <> i /\ l !! j = Some u).
Proof.
  intros Hi [(-> & -> & _)|[Hne Hu]]%list_lookup_insert_Some; auto.
Qed.

Lemma upd_ex {A} (P : A -> Prop) (l : list A) i t t' :
  l !! i = Some t -> (P t -> P t') -> (exists j u, l !! j = Some u /\ P u) ->
  exists j u, <[i := t']> l !! j = Some u /\ P u.
Proof.
  intros Hi HP (j & u & Hj & Hu). destruct (decide (i = j)) as [<-|Hne].
  - exists i, t'. rewrite list_lookup_insert_eq by (by eapply lookup_lt_Some). split; [done|].
    apply HP. rewrite Hi in Hj. by injection Hj as ->.
  - exists j, u. by rewrite list_lookup_insert_ne.
Qed.

Section effects.
Context (ch : chains) (s : shared) (l : list thread) (I : Inv ch s l).
Context (i : nat) (t t' : thread) (Hi : l !! i = Some t).

(** The statement touches at most locks and counts. *)
Record touched (q : Z) (f f' : foo) : Prop := {
  t_id : f_id f' = f_id f;
  t_next : f_next f' = f_next f;
  t_count : f_count f' - f_count f = cnt q t' - cnt q t;
  t_pos : 1 <= f_count f -> 1 <= f_count f';
  t_own : f_lock f' = Locked i <-> foo_held (at_pc t') = Some q;
  t_other : forall j, j <> i -> f_lock f' = Locked j <-> f_lock f = Locked j;
  t_uninit : f_lock f' = Uninit <-> f_lock f = Uninit }.

Lemma effect_quiet s' :
  fh s' = fh s ->
  (hash_held (at_pc t') = true <-> hashlock s' = Some i) ->
  (forall j, j <> i -> hashlock s' = Some j <-> hashlock s = Some j) ->
  (forall q f, heap s !! q = Some f -> exists f', heap s' !! q = Some f' /\ touched q f f') ->
  (forall q, heap s !! q = None -> heap s' !! q = None /\ foo_held (at_pc t') <> Some q /\ cnt q t' = cnt q t) ->
  (forall q j u, l !! j = Some u -> newborn (at_pc u) = Some q -> cnt q t' = cnt q t) ->
  private (at_pc t') = private (at_pc t) -> newborn (at_pc t') = newborn (at_pc t) ->
  unready (at_pc t') = unready (at_pc t) ->
  (forall j u, j <> i -> l !! j = Some u -> rely ch s ch s' (at_pc u)) ->
  facts ch s' t' ->
  Inv ch s' (<[i := t']> l).
Proof.
  intros Hfh Hh1 Hh2 Hheap Hnone Hnew Ep En Eu Hrely Hfacts.
  assert (Hback : forall q f', heap s' !! q = Some f' -> exists f, heap s !! q = Some f /\ touched q f f').
  { intros q f' Hf'. destruct (heap s !! q) as [f|] eqn:Hf.
    - destruct (Hheap q f Hf) as (f'' & Hf'' & H). exists f. split; [done|]. congruence.
    - destruct (Hnone q Hf) as [Hn _]. congruence. }
  assert (Hil : (i < length l)%nat) by (by eapply lookup_lt_Some).
  assert (Hi' : <[i := t']> l !! i = Some t') by (by apply list_lookup_insert_eq).
  split.
  - rewrite Hfh. apply I.
  - apply Hnone, I.
  - intros j u [(-> & ->)|[Hne Hj]]%(upd_cases _ _ _ t); [tauto| |done]. intros Hu. apply Hh2; [done|]. by eapply I.
  - intros j Hj. destruct (decide (j = i)) as [->|Hne]; [exists t'; tauto|]. apply Hh2 in Hj; [|done].
    destruct (i_hash2 _ _ _ I j Hj) as (u & Hu & H). exists u. by rewrite list_lookup_insert_ne.
  - intros j u fp [(-> & ->)|[Hne Hj]]%(upd_cases _ _ _ t) Hu; [| |done].
    + destruct (heap s !! fp) as [f|] eqn:Hf; [|by destruct (Hnone fp Hf) as (_ & Hn & _)].
      destruct (Hheap fp f Hf) as (f' & Hf' & T). exists f'. split; [done|]. by apply (t_own _ _ _ T).
    + destruct (i_lock1 _ _ _ I j u fp Hj Hu) as (f & Hf & E). destruct (Hheap fp f Hf) as (f' & Hf' & T).
      exists f'. split; [done|]. by apply (t_other _ _ _ T).
  - intros fp f' j (f & Hf & T)%Hback E. destruct (decide (j = i)) as [->|Hne].
    + exists t'. split; [done|]. by apply (t_own _ _ _ T).
    + destruct (i_lock2 _ _ _ I fp f j Hf) as (u & Hu & H); [by apply (t_other _ _ _ T)|].
      exists u. by rewrite list_lookup_insert_ne.
  - intros fp f' (f & Hf & T)%Hback E. apply (upd_ex (fun u => unready (at_pc u) = Some fp) l i t t' Hi); [cbv beta; congruence|].
    apply (i_uninit _ _ _ I fp f Hf). by apply (t_uninit _ _ _ T).
  - intros q Hq. rewrite (total_insert _ _ _ t) by done. destruct (heap s !! q) as [f|] eqn:Hf.
    + destruct (Hheap q f Hf) as (f' & Hf' & _). congruence.
    + destruct (Hnone q Hf) as (_ & _ & ->). rewrite (i_count0 _ _ _ I q Hf). lia.
  - intros fp f' (f & Hf & T)%Hback. destruct (i_count _ _ _ I fp f Hf) as [H|[H1 H2]].
    + left. apply (upd_ex (fun u => newborn (at_pc u) = Some fp) l i t t' Hi); [cbv beta; congruence|done].
    + right. rewrite (total_insert _ _ _ t) by done. pose proof (t_count _ _ _ T). pose proof (t_pos _ _ _ T). lia.
  - intros j u fp Hj Hu. rewrite (total_insert _ _ _ t) by done.
    assert (H : exists j u, l !! j = Some u /\ newborn (at_pc u) = Some fp).
    { destruct (upd_cases _ _ _ t _ _ Hi Hj) as [(-> & ->)|[Hne Hj']]; [|by eauto].
      exists i, t. by rewrite <- En. }
    destruct H as (k & v & Hk & Hv). rewrite (Hnew _ _ _ Hk Hv).
    pose proof (i_newborn _ _ _ I k v fp Hk Hv). lia.
  - intros b Hb. unfold bucket. rewrite Hfh. eapply chained_ext; [by apply I|].
    intros q f _ Hf. destruct (Hheap q f Hf) as (f' & Hf' & T). exists f'. split; [done|apply (t_next _ _ _ T)].
  - intros b fp Hin. destruct (i_hashed _ _ _ I b fp Hin) as (f & Hf & E).
    destruct (Hheap fp f Hf) as (f' & Hf' & T). exists f'. split; [done|]. rewrite (t_id _ _ _ T). done.
  - apply I.
  - intros fp f' (f & Hf & T)%Hback. rewrite (t_id _ _ _ T).
    destruct (i_where _ _ _ I fp f Hf) as [H|H]; [by left|right].
    apply (upd_ex (fun u => private (at_pc u) = Some fp) l i t t' Hi); [cbv beta; congruence|done].
  - intros j u fp Hj Hu. assert (H : exists j u, l !! j = Some u /\ private (at_pc u) = Some fp).
    { destruct (upd_cases _ _ _ t _ _ Hi Hj) as [(-> & ->)|[Hne Hj']]; [|by eauto].
      exists i, t. by rewrite <- Ep. }
    destruct H as (k & v & Hk & Hv). destruct (i_priv _ _ _ I k v fp Hk Hv) as [[f Hf] H].
    destruct (Hheap fp f Hf) as (f' & Hf' & _). split; [by exists f'|done].
  - intros j k u v fp Hj Hk Hu Hv.
    destruct (upd_cases _ _ _ t _ _ Hi Hj) as [(-> & ->)|[Hne Hj']],
      (upd_cases _ _ _ t _ _ Hi Hk) as [(-> & ->)|[Hne' Hk']]; rewrite ?Ep in *; try done; by eapply I.
  - intros j u Hj. destruct (upd_cases _ _ _ t _ _ Hi Hj) as [(-> & ->)|[Hne Hj']]; [done|].
    eapply facts_stable; [by eapply Hrely|]. by eapply I.
Qed.

(** The statement changes an object nobody else can reach: it creates it, sets
    it up, or frees it. *)
Lemma effect_private s' fp :
  fh s' = fh s -> hashlock s' = hashlock s -> hash_held (at_pc t') = hash_held (at_pc t) -> fp <> 0 ->
  (forall q, q <> fp -> heap s' !! q = heap s !! q) ->
  (forall b, fp ∉ ch b) ->
  (forall j u, j <> i -> l !! j = Some u -> private (at_pc u) <> Some fp /\ foo_held (at_pc u) <> Some fp) ->
  (forall q, private (at_pc t) = Some q -> q = fp) -> (forall q, private (at_pc t') = Some q -> q = fp) ->
  foo_held (at_pc t) = None -> foo_held (at_pc t') = None ->
  (forall q, q <> fp -> cnt q t' = cnt q t) ->
  match heap s' !! fp with
  | None => private (at_pc t') = None /\ total fp l - cnt fp t + cnt fp t' = 0
  | Some f' => private (at_pc t') = Some fp /\ (forall j, f_lock f' <> Locked j) /\
      (f_lock f' = Uninit -> unready (at_pc t') = Some fp) /\
      (newborn (at_pc t') = Some fp /\ total fp l - cnt fp t + cnt fp t' = 0 \/
       newborn (at_pc t') = None /\ f_count f' = total fp l - cnt fp t + cnt fp t' /\ 1 <= f_count f')
  end ->
  facts ch s' t' ->
  Inv ch s' (<[i := t']> l).
Proof.
  intros Hfh Hhl Hh H0 Hq Hch Hoth Hp Hp' Hf0 Hf0' Hcnt Hfp Hfacts.
  assert (Hil : (i < length l)%nat) by (by eapply lookup_lt_Some).
  assert (Hi' : <[i := t']> l !! i = Some t') by (by apply list_lookup_insert_eq).
  assert (Hu : forall q, unready (at_pc t) = Some q -> q = fp) by (intros q Hu; by apply Hp, unready_private).
  assert (Hn : forall q, newborn (at_pc t) = Some q -> q = fp) by (intros q Hn; by apply Hu, newborn_unready).
  assert (Hother : forall P : thread -> Prop, ~ P t -> (exists j u, l !! j = Some u /\ P u) ->
    exists j u, <[i := t']> l !! j = Some u /\ P u).
  { intros P HP. by apply (upd_ex P l i t t' Hi). }
  split.
  - rewrite Hfh. apply I.
  - rewrite Hq by done. apply I.
  - intros j u [(-> & ->)|[Hne Hj]]%(upd_cases _ _ _ t); [| |done]; rewrite Hhl, ?Hh; by apply (i_hash1 _ _ _ I).
  - intros j. rewrite Hhl. intros (u & Hj & H)%(i_hash2 _ _ _ I). destruct (decide (j = i)) as [->|Hne].
    + exists t'. rewrite Hh. split; [done|]. congruence.
    + exists u. by rewrite list_lookup_insert_ne.
  - intros j u q [(-> & ->)|[Hne Hj]]%(upd_cases _ _ _ t) E; [congruence| |done].
    assert (q <> fp) by (intros ->; by apply (Hoth j u)). unfold obj. rewrite Hq by done. by eapply I.
  - intros q f j. destruct (decide (q = fp)) as [->|Hne].
    + intros Hf. rewrite Hf in Hfp. intros E. by destruct (proj1 (proj2 Hfp) _ E).
    + rewrite Hq by done. intros Hf E. destruct (i_lock2 _ _ _ I q f j Hf E) as (u & Hj & Hu').
      exists u. rewrite list_lookup_insert_ne; [done|]. intros <-. congruence.
  - intros q f. destruct (decide (q = fp)) as [->|Hne].
    + intros Hf E. rewrite Hf in Hfp. exists i, t'. split; [done|]. by apply Hfp.
    + rewrite Hq by done. intros Hf E. apply (Hother (fun u => unready (at_pc u) = Some q)); [naive_solver|].
      by eapply I.
  - intros q Hn'. rewrite (total_insert _ _ _ t) by done. destruct (decide (q = fp)) as [->|Hne].
    + rewrite Hn' in Hfp. by destruct Hfp.
    + rewrite Hcnt by done. rewrite Hq in Hn' by done. rewrite (i_count0 _ _ _ I q Hn'). lia.
  - intros q f. rewrite (total_insert _ _ _ t) by done. destruct (decide (q = fp)) as [->|Hne].
    + intros Hf. rewrite Hf in Hfp. destruct Hfp as (_ & _ & _ & [[Hb _]|[_ H]]); [left; by eauto|by right].
    + rewrite Hq, Hcnt by done. intros Hf. destruct (i_count _ _ _ I q f Hf) as [H|H]; [left|right; lia].
      apply (Hother (fun u => newborn (at_pc u) = Some q)); [naive_solver|done].
  - intros j u q Hj Hb. rewrite (total_insert _ _ _ t) by done.
    destruct (upd_cases _ _ _ t _ _ Hi Hj) as [(-> & ->)|[Hne Hj']].
    + assert (q = fp) as -> by (by apply Hp', unready_private, newborn_unready).
      destruct (heap s' !! fp) as [f'|]; [destruct Hfp as (_ & _ & _ & [[_ H]|[H _]]); congruence|].
      by destruct Hfp as [_ ?].
    + assert (q <> fp) by (intros ->; by apply (proj1 (Hoth j u Hne Hj')), unready_private, newborn_unready).
      rewrite Hcnt by done. rewrite (i_newborn _ _ _ I j u q Hj' Hb). lia.
  - intros b Hb. unfold bucket. rewrite Hfh. eapply chained_ext; [by apply I|].
    intros q f Hin Hf. exists f. rewrite Hq; [done|]. intros ->. by apply (Hch b).
  - intros b q Hin. unfold obj. rewrite Hq; [by apply I|]. intros ->. by apply (Hch b).
  - apply I.
  - intros q f. destruct (decide (q = fp)) as [->|Hne].
    + intros Hf. rewrite Hf in Hfp. right. exists i, t'. by split; [|apply Hfp].
    + rewrite Hq by done. intros Hf. destruct (i_where _ _ _ I q f Hf) as [H|H]; [by left|right].
      apply (Hother (fun u => private (at_pc u) = Some q)); [naive_solver|done].
  - intros j u q Hj Hu'. destruct (upd_cases _ _ _ t _ _ Hi Hj) as [(-> & ->)|[Hne Hj']].
    + pose proof (Hp' q Hu') as ->. split; [|done]. destruct (heap s' !! fp); [done|]. destruct Hfp; congruence.
    + assert (q <> fp) by (intros ->; by apply (proj1 (Hoth j u Hne Hj'))). rewrite Hq by done. by apply (i_priv _ _ _ I j u).
  - intros j k u v q Hj Hk Hju Hkv.
    destruct (upd_cases _ _ _ t _ _ Hi Hj) as [(-> & ->)|[Hne Hj']],
      (upd_cases _ _ _ t _ _ Hi Hk) as [(-> & ->)|[Hne' Hk']]; [done| | |by eapply I].
    + pose proof (Hp' q Hju) as ->. by destruct (Hoth k v Hne' Hk').
    + pose proof (Hp' q Hkv) as ->. by destruct (Hoth j u Hne Hj').
  - intros j u Hj. destruct (upd_cases _ _ _ t _ _ Hi Hj) as [(-> & ->)|[Hne Hj']]; [done|].
    destruct (Hoth j u Hne Hj') as [Ho1 Ho2]. eapply facts_stable; [|by eapply I]. split.
    + done.
    + intros _ b q f Hin Hf. exists f. rewrite Hq; [done|]. intros ->. by apply (Hch b).
    + intros q f Hfh' Hf. exists f. rewrite Hq; [done|congruence].
    + intros q Hpq. apply Hq. congruence.
Qed.

(** The holder of [hashlock] changes the table: an object of its own goes into
    a chain, or one leaves a chain and becomes its own. *)
Lemma effect_table ch' s' :
  hashlock s' = hashlock s -> hash_held (at_pc t) = true -> hash_held (at_pc t') = true ->
  length (fh s') = 29%nat ->
  (forall q f, heap s !! q = Some f -> exists f', heap s' !! q = Some f' /\ f_id f' = f_id f /\
     f_count f' = f_count f /\ f_lock f' = f_lock f /\ (f_next f' = f_next f \/ exists b, q ∈ ch b)) ->
  (forall q, heap s !! q = None -> heap s' !! q = None) ->
  (forall b, 0 <= b < NHASH -> chained (heap s') (bucket s' b) (ch' b)) -> (forall b, NoDup (ch' b)) ->
  (forall b q, q ∈ ch' b -> q ∈ ch b \/ private (at_pc t) = Some q /\ obj s q (fun f => HASH (f_id f) = b)) ->
  (forall b q, q ∈ ch b -> q ∈ ch' b \/ private (at_pc t') = Some q) ->
  (forall q f, private (at_pc t) = Some q -> heap s !! q = Some f -> q ∈ ch' (HASH (f_id f))) ->
  (forall q, private (at_pc t') = Some q -> (exists b, q ∈ ch b) /\ forall b, q ∉ ch' b) ->
  foo_held (at_pc t') = foo_held (at_pc t) -> (forall q, cnt q t' = cnt q t) ->
  unready (at_pc t) = None -> unready (at_pc t') = None ->
  facts ch' s' t' ->
  Inv ch' s' (<[i := t']> l).
Proof.
  intros Hhl Hh Hh' Hfh Hheap Hnone Hch Hnd Hin Hout Hp Hp' Hf Hcnt Hu Hu' Hfacts.
  assert (Hil : (i < length l)%nat) by (by eapply lookup_lt_Some).
  assert (Hi' : <[i := t']> l !! i = Some t') by (by apply list_lookup_insert_eq).
  assert (Hown : hashlock s = Some i) by (by apply (i_hash1 _ _ _ I i t)).
  assert (Hnh : forall j u, j <> i -> l !! j = Some u -> hash_held (at_pc u) = false).
  { intros j u Hne Hj. destruct (hash_held (at_pc u)) eqn:E; [|done].
    pose proof (i_hash1 _ _ _ I j u Hj E). congruence. }
  assert (Hn : newborn (at_pc t) = None /\ newborn (at_pc t') = None).
  { split; [destruct (newborn (at_pc t)) eqn:E|destruct (newborn (at_pc t')) eqn:E]; try done;
      apply newborn_unready in E; congruence. }
  assert (Hback : forall q f', heap s' !! q = Some f' -> exists f, heap s !! q = Some f /\ f_id f' = f_id f /\
     f_count f' = f_count f /\ f_lock f' = f_lock f).
  { intros q f' Hf'. destruct (heap s !! q) as [f|] eqn:E; [|by rewrite Hnone in Hf'].
    destruct (Hheap q f E) as (f'' & E' & ?). exists f. split; [done|]. rewrite Hf' in E'.
    injection E' as <-. tauto. }
  assert (Hsame : forall q, (forall b, q ∉ ch b) -> heap s' !! q = heap s !! q).
  { intros q Hq. destruct (heap s !! q) as [f|] eqn:E; [|by apply Hnone].
    destruct (Hheap q f E) as (f' & -> & E1 & E2 & E3 & [E4|[b Hb]]); [|by destruct (Hq b)].
    f_equal. destruct f, f'; cbn in *; congruence. }
  assert (Hold : forall j u q, j <> i -> l !! j = Some u -> private (at_pc u) = Some q -> forall b, q ∉ ch' b).
  { intros j u q Hne Hj Hq b [Hb|[Hb _]]%Hin; [by apply (proj2 (i_priv _ _ _ I j u q Hj Hq) b)|].
    by apply Hne, (i_priv1 _ _ _ I j i u t q). }
  assert (Htot : forall q, total q (<[i := t']> l) = total q l).
  { intros q. rewrite (total_insert _ _ _ t) by done. rewrite Hcnt. lia. }
  split.
  - done.
  - apply Hnone, I.
  - intros j u Hj E. destruct (upd_cases _ _ _ t _ _ Hi Hj) as [(-> & ->)|[Hne Hj']]; [congruence|].
    rewrite (Hnh j u Hne Hj') in E. done.
  - intros j. rewrite Hhl. intros E. assert (j = i) as -> by congruence. by exists t'.
  - intros j u q Hj E. assert (H : obj s q (fun f => f_lock f = Locked j)).
    { destruct (upd_cases _ _ _ t _ _ Hi Hj) as [(-> & ->)|[Hne Hj']]; [rewrite Hf in E|]; by eapply (i_lock1 _ _ _ I). }
    destruct H as (f & Hq & El). destruct (Hheap q f Hq) as (f' & ? & _ & _ & E3 & _). exists f'. by rewrite E3.
  - intros q f' j (f & Hq & _ & _ & E3)%Hback. rewrite E3. intros (u & Hj & Hju)%(i_lock2 _ _ _ I q f j Hq).
    destruct (decide (j = i)) as [->|Hne]; [exists t'; rewrite Hf; split; [done|congruence]|].
    exists u. by rewrite list_lookup_insert_ne.
  - intros q f' (f & Hq & _ & _ & E3)%Hback. rewrite E3. intros E.
    apply (upd_ex (fun u => unready (at_pc u) = Some q) l i t t' Hi); [cbv beta; congruence|]. by eapply I.
  - intros q Hq. rewrite Htot. apply (i_count0 _ _ _ I). destruct (heap s !! q) as [f|] eqn:E; [|done].
    destruct (Hheap q f E) as (f' & ? & _). congruence.
  - intros q f' (f & Hq & _ & E2 & _)%Hback. rewrite Htot, E2.
    destruct (i_count _ _ _ I q f Hq) as [H|H]; [left|by right].
    apply (upd_ex (fun u => newborn (at_pc u) = Some q) l i t t' Hi); [cbv beta; destruct Hn; congruence|done].
  - intros j u q Hj Hb. rewrite Htot. destruct (upd_cases _ _ _ t _ _ Hi Hj) as [(-> & ->)|[Hne Hj']];
      [destruct Hn; congruence|by apply (i_newborn _ _ _ I j u)].
  - done.
  - intros b q [Hb|[_ Hb]]%Hin; [apply (i_hashed _ _ _ I) in Hb|]; destruct Hb as (f & Hq & E);
      destruct (Hheap q f Hq) as (f' & ? & E1 & _); exists f'; by rewrite E1.
  - done.
  - intros q f' (f & Hq & E1 & _)%Hback. rewrite E1.
    destruct (i_where _ _ _ I q f Hq) as [[H|H]%Hout|(j & u & Hj & Hju)].
    + by left.
    + right. by exists i, t'.
    + destruct (decide (j = i)) as [->|Hne].
      * left. apply Hp; [congruence|done].
      * right. exists j, u. by rewrite list_lookup_insert_ne.
  - intros j u q Hj Hq. destruct (upd_cases _ _ _ t _ _ Hi Hj) as [(-> & ->)|[Hne Hj']].
    + destruct (Hp' q Hq) as [[b Hb] H]. split; [|done]. destruct (i_hashed _ _ _ I b q Hb) as (f & Hf' & _).
      destruct (Hheap q f Hf') as (f' & ? & _). by exists f'.
    + split; [|by eapply Hold]. destruct (i_priv _ _ _ I j u q Hj' Hq) as [? H]. by rewrite Hsame.
  - intros j k u v q Hj Hk Hju Hkv.
    destruct (upd_cases _ _ _ t _ _ Hi Hj) as [(-> & ->)|[Hne Hj']],
      (upd_cases _ _ _ t _ _ Hi Hk) as [(-> & ->)|[Hne' Hk']]; [done| | |by eapply I].
    + destruct (Hp' q Hju) as [[b Hb] _]. by destruct (proj2 (i_priv _ _ _ I k v q Hk' Hkv) b).
    + destruct (Hp' q Hkv) as [[b Hb] _]. by destruct (proj2 (i_priv _ _ _ I j u q Hj' Hju) b).
  - intros j u Hj. destruct (upd_cases _ _ _ t _ _ Hi Hj) as [(-> & ->)|[Hne Hj']]; [done|].
    eapply facts_stable; [|by eapply I]. pose proof (Hnh j u Hne Hj'). split; [congruence|congruence| |].
    + intros q f _ Hq. destruct (Hheap q f Hq) as (f' & ? & ? & ? & _). by exists f'.
    + intros q Hq. apply Hsame. by apply (i_priv _ _ _ I j u).
Qed.

End effects.
End RefcountInv.
