(* ===== verification/RefcountSafe.v ===== *)
(** * The threads never break the rules

    Every statement of every thread preserves the invariant, whatever the
    interleaving, and in a state of the invariant no statement can fault. *)

From S2P Require Import Prelude CLib Refcount RefcountInv.
Import Refcount RefcountInv.

Module RefcountSafe.

(** ** The work left

    An upper bound on the statements a call still executes: a walk along a
    chain is bounded by what is left of it, a walk to come by the number of
    objects there are or are being allocated. *)

(** The length of the part of a chain that starts at [q]. *)
Fixpoint from (q : Z) (l : list Z) : Z :=
  match l with [] => 0 | x :: l' => if q =? x then Z.of_nat (length l) else from q l' end.

Definition bucket_of (s : shared) (fp : Z) : Z :=
  match heap s !! fp with Some f => HASH (f_id f) | None => 0 end.

Definition rank (ch : chains) (s : shared) (N : Z) (p : pc) : Z :=
  match p with
  | Idle => 0
  | A_malloc _ => 20 | A_set _ _ => 19 | A_init _ _ => 18 | A_lockh _ _ => 17 | A_next _ _ => 16
  | A_link _ _ => 15 | A_lockf _ => 14 | A_unlockh _ => 13 | A_unlockf _ => 12 | A_free _ => 11
  | F_lockh _ => 3 * N + 14 | F_first id => 3 * Z.of_nat (length (ch (HASH id))) + 13
  | F_test id fp => 3 * from fp (ch (HASH id)) + 12 | F_next id fp => 3 * from fp (ch (HASH id)) + 11
  | H_lock _ _ => 10 | H_inc _ _ => 9 | H_unlock _ _ => 8 | F_unlockh _ _ => 7
  | R_lock _ => 3 * N + 30 | R_test _ => 3 * N + 29 | R_unlock _ => 3 * N + 28 | R_lockh _ => 3 * N + 27
  | R_relock _ => 3 * N + 26 | R_recheck _ => 3 * N + 25 | R_first _ => 3 * N + 24
  | R_ishead _ _ _ => 3 * N + 23
  | R_while fp tfp => 3 * from tfp (ch (bucket_of s fp)) + 12
  | R_step fp tfp => 3 * from tfp (ch (bucket_of s fp)) + 11
  | R_cut _ _ | R_head _ _ => 10 | R_unlockh _ => 9 | R_unlockf _ => 8 | R_destroy _ => 7 | R_free _ => 6
  | R_dec2 _ => 5 | R_unlock2 _ => 4 | R_unlockh2 _ => 3 | R_dec _ => 2 | R_unlock1 _ => 1
  end.

Definition allocating (p : pc) : Z := match p with A_malloc _ => 1 | _ => 0 end.

Fixpoint pending (l : list thread) : Z :=
  match l with [] => 0 | t :: l' => allocating (at_pc t) + pending l' end.

(** Objects that exist or are asked for. *)
Definition objects (s : shared) (l : list thread) : Z :=
  Z.of_nat (size (heap s)) + pending l.

(** A statement of thread [i] leads closer to the end of its call, and leaves
    what the others' ranks are computed from. *)
Record closer (ch : chains) (s : shared) (l : list thread) (ch' : chains) (s' : shared) (l' : list thread)
    (t t' : thread) : Prop := {
  c_rank : rank ch' s' (objects s' l') (at_pc t') < rank ch s (objects s l) (at_pc t);
  c_objects : objects s' l' <= objects s l;
  c_chains : ch' = ch \/ hash_held (at_pc t) = true;
  c_ids : forall q f f', heap s !! q = Some f -> heap s' !! q = Some f' ->
    f_id f' = f_id f \/ newborn (at_pc t) = Some q }.

(** What a statement may do in a state of the invariant. *)
Definition safe (ch : chains) (s : shared) (l : list thread) (i : nat) (t : thread) (r : result) : Prop :=
  match r with
  | Block => True
  | Fault => False
  | Overflow => exists fp, obj s fp (fun f => f_count f = INT_MAX /\ total fp l = INT_MAX)
  | Go s' t' => exists ch', Inv ch' s' (<[i := t']> l) /\ closer ch s l ch' s' (<[i := t']> l) t t'
  end.

Section statements.
Context (ch : chains) (s : shared) (l : list thread) (I : Inv ch s l).
Context (i : nat) (t : thread) (Hi : l !! i = Some t).

(** The statement moves on, with the same things held. *)
Record same (p : pc) : Prop := {
  sm_hash : hash_held p = hash_held (at_pc t);
  sm_foo : foo_held p = foo_held (at_pc t);
  sm_ref : holds_ref p = holds_ref (at_pc t);
  sm_private : private p = private (at_pc t);
  sm_newborn : newborn p = newborn (at_pc t);
  sm_unready : unready p = unready (at_pc t) }.

Lemma cnt_same q p : holds_ref p = holds_ref (at_pc t) -> cnt q (Thread p (refs t)) = cnt q t.
Proof. intros H. unfold cnt. cbn. by rewrite H. Qed.

Lemma rely_refl p : rely ch s ch s p.
Proof. split; eauto 10. Qed.

(** The lock of an object as its holder sees it. *)
Lemma own_lock q f : heap s !! q = Some f -> f_lock f = Locked i <-> foo_held (at_pc t) = Some q.
Proof.
  intros Hf. split.
  - intros E. destruct (i_lock2 _ _ _ I q f i Hf E) as (u & Hu & H). congruence.
  - intros E. destruct (i_lock1 _ _ _ I i t q Hi E) as (f' & Hf' & H). congruence.
Qed.

Lemma own_hash : hash_held (at_pc t) = true <-> hashlock s = Some i.
Proof.
  split; [by apply (i_hash1 _ _ _ I i t)|].
  intros E. destruct (i_hash2 _ _ _ I i E) as (u & Hu & H). congruence.
Qed.

Lemma not_held q : heap s !! q = None -> foo_held (at_pc t) <> Some q.
Proof. intros Hq E. destruct (i_lock1 _ _ _ I i t q Hi E) as (f & Hf & _). congruence. Qed.

Lemma move p : same p -> facts ch s (Thread p (refs t)) -> Inv ch s (<[i := Thread p (refs t)]> l).
Proof.
  intros [] Hf. apply (effect_quiet ch s l I i t _ Hi); cbn [at_pc]; auto using rely_refl.
  - rewrite sm_hash0. apply own_hash.
  - intros q f Hq. exists f. split; [done|]. split; auto; [rewrite cnt_same by done; lia|].
    cbn. rewrite sm_foo0. by apply own_lock.
  - intros q Hq. rewrite sm_foo0, cnt_same by done. split_and!; [done|by apply not_held|done].
  - intros. by apply cnt_same.
Qed.

(** Taking and releasing [hashlock]; [rs] are the caller's references after a
    return. *)
Lemma move_hash p rs (h : option nat) :
  (hash_held p = true <-> h = Some i) -> (forall j, j <> i -> h = Some j <-> hashlock s = Some j) ->
  foo_held p = foo_held (at_pc t) -> private p = private (at_pc t) ->
  newborn p = newborn (at_pc t) -> unready p = unready (at_pc t) ->
  (forall q, cnt q (Thread p rs) = cnt q t) ->
  facts ch (set_hashlock h s) (Thread p rs) ->
  Inv ch (set_hashlock h s) (<[i := Thread p rs]> l).
Proof.
  intros H1 H2 E1 E2 E3 E4 Hc Hf.
  apply (effect_quiet ch s l I i t _ Hi (set_hashlock h s)); cbn [at_pc hashlock set_hashlock heap fh]; auto.
  - intros q f Hq. exists f. split; [done|]. split; auto; [rewrite Hc; lia|].
    cbn. rewrite E1. by apply own_lock.
  - intros q Hq. rewrite E1. split_and!; [done|by apply not_held|done].
  - intros j u _ _. split; cbn; eauto 10.
Qed.

(** A change of the lock or the count of an object that no other thread has
    for itself. *)
Lemma move_obj p rs fp f f' :
  heap s !! fp = Some f -> f_id f' = f_id f -> f_next f' = f_next f ->
  (f_lock f' = Locked i <-> foo_held p = Some fp) ->
  (forall j, j <> i -> f_lock f' = Locked j <-> f_lock f = Locked j) ->
  (f_lock f' = Uninit <-> f_lock f = Uninit) ->
  (forall q, q <> fp -> foo_held p = Some q <-> foo_held (at_pc t) = Some q) ->
  f_count f' - f_count f = cnt fp (Thread p rs) - cnt fp t -> (1 <= f_count f -> 1 <= f_count f') ->
  (forall q, q <> fp -> cnt q (Thread p rs) = cnt q t) ->
  (f_count f' = f_count f \/ foo_held (at_pc t) = Some fp) ->
  (forall j u, j <> i -> l !! j = Some u -> private (at_pc u) <> Some fp) ->
  hash_held p = hash_held (at_pc t) -> private p = private (at_pc t) ->
  newborn p = newborn (at_pc t) -> newborn p <> Some fp -> unready p = unready (at_pc t) ->
  facts ch (put fp f' s) (Thread p rs) ->
  Inv ch (put fp f' s) (<[i := Thread p rs]> l).
Proof.
  intros Hf E1 E2 L1 L2 L3 L4 C1 C2 C3 C4 Hoth Hh Ep En En' Eu Hfacts.
  apply (effect_quiet ch s l I i t _ Hi (put fp f' s)); cbn [at_pc put set_heap hashlock heap fh]; auto.
  - rewrite Hh. apply own_hash.
  - intros q g Hq. destruct (decide (q = fp)) as [->|Hne].
    + exists f'. rewrite lookup_insert_eq. split; [done|]. rewrite Hf in Hq. injection Hq as <-. split; auto.
    + exists g. rewrite lookup_insert_ne by done. split; [done|]. split; auto; [rewrite C3 by done; lia|].
      cbn. rewrite L4 by done. by apply own_lock.
  - intros q Hq. assert (q <> fp) by congruence. rewrite lookup_insert_ne by done.
    rewrite L4, C3 by done. split_and!; [done|by apply not_held|done].
  - intros q j u Hj Hu. apply C3. intros ->. destruct (decide (j = i)) as [->|Hne]; [congruence|].
    apply (Hoth j u Hne Hj). by apply unready_private, newborn_unready.
  - intros j u Hne Hj. split; cbn; [done| | |].
    + intros _ b q g _ Hq. destruct (decide (q = fp)) as [->|]; [|exists g; by rewrite lookup_insert_ne].
      exists f'. rewrite lookup_insert_eq. rewrite Hf in Hq. by injection Hq as <-.
    + intros q g Hh' Hq. destruct (decide (q = fp)) as [->|]; [|exists g; by rewrite lookup_insert_ne].
      exists f'. rewrite lookup_insert_eq. rewrite Hf in Hq. injection Hq as <-.
      destruct C4 as [C4|C4]; [done|]. by destruct Hne; eapply (lock_excl I).
    + intros q Hq. rewrite lookup_insert_ne; [done|]. intros <-. by apply (Hoth j u).
Qed.

(** Nobody else has an object for itself that this thread has locked, has a
    reference to, or sees in the table. *)
Lemma held_private j u fp :
  foo_held (at_pc t) = Some fp -> j <> i -> l !! j = Some u -> private (at_pc u) <> Some fp.
Proof.
  intros Ht Hne Hj Hu. destruct (i_lock1 _ _ _ I i t fp Hi Ht) as (f & Hf & E).
  assert (Hl : foo_held (at_pc u) = Some fp \/ obj s fp (fun g => f_lock g = Uninit \/ f_lock g = Unlocked)).
  { pose proof (i_facts _ _ _ I j u Hj) as F. unfold facts in F. destruct (at_pc u); cbn in *; try done;
      injection Hu as <-; auto; right; destruct F as (g & Hg & F); exists g; tauto. }
  destruct Hl as [Hl|(g & Hg & Hl)].
  - by apply Hne, (lock_excl I j i u t fp).
  - rewrite Hf in Hg. injection Hg as <-. destruct Hl; congruence.
Qed.

Lemma ref_not_private j u fp :
  1 <= cnt fp t -> j <> i -> l !! j = Some u -> private (at_pc u) <> Some fp.
Proof. intros Hc Hne Hj Hu. by apply Hne; symmetry; eapply (ref_private I). Qed.

Lemma chain_not_private b j u fp : fp ∈ ch b -> l !! j = Some u -> private (at_pc u) <> Some fp.
Proof. intros Hin Hj Hu. by apply (proj2 (i_priv _ _ _ I j u fp Hj Hu) b). Qed.

(** ** Bookkeeping of [closer] *)

Lemma objects_insert s' t' :
  objects s' (<[i := t']> l) =
  objects s l - Z.of_nat (size (heap s)) + Z.of_nat (size (heap s')) - allocating (at_pc t) + allocating (at_pc t').
Proof.
  clear I. unfold objects.
  enough (H : pending (<[i := t']> l) = pending l - allocating (at_pc t) + allocating (at_pc t')) by lia.
  revert i Hi. induction l as [|u k IH]; intros [|j] Hj; cbn in *; [done|done| |].
  - injection Hj as ->. lia.
  - change (allocating (at_pc u) + pending (<[j := t']> k) =
      allocating (at_pc u) + pending k - allocating (at_pc t) + allocating (at_pc t')). rewrite (IH j Hj). lia.
Qed.

(** A statement that changes neither the table nor any identity. *)
Lemma closer_step s' t' :
  size (heap s') = size (heap s) -> allocating (at_pc t) = 0 -> allocating (at_pc t') = 0 ->
  (forall q f f', heap s !! q = Some f -> heap s' !! q = Some f' -> f_id f' = f_id f \/ newborn (at_pc t) = Some q) ->
  rank ch s' (objects s l) (at_pc t') < rank ch s (objects s l) (at_pc t) ->
  closer ch s l ch s' (<[i := t']> l) t t'.
Proof.
  intros H1 H2 H3 H4 H5. assert (E : objects s' (<[i := t']> l) = objects s l) by (rewrite objects_insert; lia).
  split; rewrite ?E; auto. lia.
Qed.

Lemma size_put fp f f' : heap s !! fp = Some f -> size (heap (put fp f' s)) = size (heap s).
Proof.
  intros H. cbn. rewrite map_size_insert, H. done.
Qed.

Lemma ids_put fp f f' q g g' :
  heap s !! fp = Some f -> f_id f' = f_id f -> heap s !! q = Some g -> heap (put fp f' s) !! q = Some g' ->
  f_id g' = f_id g.
Proof.
  intros Hf E Hg. cbn. destruct (decide (q = fp)) as [->|Hne].
  - rewrite lookup_insert_eq. intros [= <-]. congruence.
  - rewrite lookup_insert_ne by done. intros. congruence.
Qed.

(** ** Kinds of statements *)

#[local] Abbreviation N := (objects s l).

Lemma go_local p :
  same p -> allocating (at_pc t) = 0 -> allocating p = 0 -> facts ch s (Thread p (refs t)) ->
  rank ch s N p < rank ch s N (at_pc t) ->
  safe ch s l i t (goto (refs t) s p).
Proof.
  intros Hs Ha Ha' Hf Hr. exists ch. split; [by apply move|]. apply closer_step; auto.
  intros q f f' E E'. left. congruence.
Qed.

Lemma go_hash p rs h :
  (hash_held p = true <-> h = Some i) -> (forall j, j <> i -> h = Some j <-> hashlock s = Some j) ->
  foo_held p = foo_held (at_pc t) -> private p = private (at_pc t) ->
  newborn p = newborn (at_pc t) -> unready p = unready (at_pc t) ->
  (forall q, cnt q (Thread p rs) = cnt q t) ->
  allocating (at_pc t) = 0 -> allocating p = 0 ->
  facts ch (set_hashlock h s) (Thread p rs) ->
  rank ch (set_hashlock h s) N p < rank ch s N (at_pc t) ->
  safe ch s l i t (Go (set_hashlock h s) (Thread p rs)).
Proof.
  intros. exists ch. split; [by apply move_hash|]. apply closer_step; auto.
  intros q f f' E E'. left. cbn in E'. congruence.
Qed.

Lemma go_lockh p :
  hash_held p = true -> hash_held (at_pc t) = false -> foo_held p = foo_held (at_pc t) ->
  private p = private (at_pc t) -> newborn p = newborn (at_pc t) -> unready p = unready (at_pc t) ->
  holds_ref p = holds_ref (at_pc t) -> allocating (at_pc t) = 0 -> allocating p = 0 ->
  facts ch (set_hashlock (Some i) s) (Thread p (refs t)) ->
  rank ch (set_hashlock (Some i) s) N p < rank ch s N (at_pc t) ->
  safe ch s l i t (lock_hash i (refs t) s p).
Proof.
  intros H1 H2. intros. unfold lock_hash. destruct (hashlock s) eqn:E; [done|].
  apply go_hash; auto using cnt_same; [split; auto|]. intros j Hne. rewrite E. split; congruence.
Qed.

Lemma go_unlockh p rs k :
  (forall s', k s' = Go s' (Thread p rs)) ->
  hash_held p = false -> hash_held (at_pc t) = true -> foo_held p = foo_held (at_pc t) ->
  private p = private (at_pc t) -> newborn p = newborn (at_pc t) -> unready p = unready (at_pc t) ->
  (forall q, cnt q (Thread p rs) = cnt q t) -> allocating (at_pc t) = 0 -> allocating p = 0 ->
  facts ch (set_hashlock None s) (Thread p rs) ->
  rank ch (set_hashlock None s) N p < rank ch s N (at_pc t) ->
  safe ch s l i t (unlock_hash i s k).
Proof.
  intros Hk H1 H2. intros. assert (E : hashlock s = Some i) by (by apply own_hash).
  unfold unlock_hash. rewrite bool_decide_eq_true_2, Hk by done.
  apply go_hash; auto; [split; congruence|]. intros j Hne. rewrite E. split; congruence.
Qed.

Lemma go_put p rs fp f f' :
  heap s !! fp = Some f -> f_id f' = f_id f -> Inv ch (put fp f' s) (<[i := Thread p rs]> l) ->
  allocating (at_pc t) = 0 -> allocating p = 0 ->
  rank ch (put fp f' s) N p < rank ch s N (at_pc t) ->
  safe ch s l i t (Go (put fp f' s) (Thread p rs)).
Proof.
  intros Hf E HI Ha Ha' Hr. exists ch. split; [done|]. apply closer_step; auto; [by eapply size_put|].
  intros q g g' Hg Hg'. left. by apply (ids_put fp f f' q).
Qed.

(** Locking an object that the thread has a reference to or that is in the table. *)
Lemma go_lockf fp p :
  (1 <= cnt fp t /\ unready (at_pc t) <> Some fp \/ exists b, fp ∈ ch b) ->
  foo_held (at_pc t) = None -> foo_held p = Some fp -> hash_held p = hash_held (at_pc t) ->
  private p = private (at_pc t) -> newborn (at_pc t) = None -> newborn p = None -> unready p = unready (at_pc t) ->
  holds_ref p = holds_ref (at_pc t) -> allocating (at_pc t) = 0 -> allocating p = 0 ->
  (forall f, heap s !! fp = Some f -> facts ch (put fp (set_lock (Locked i) f) s) (Thread p (refs t))) ->
  (forall f, heap s !! fp = Some f -> rank ch (put fp (set_lock (Locked i) f) s) N p < rank ch s N (at_pc t)) ->
  safe ch s l i t (lock_foo i (refs t) s fp p).
Proof.
  intros Hl H1 H2 H3 H4 H5 H5' H6 H7 H8 H9 Hf Hr. unfold lock_foo, deref.
  assert (Ho : exists f, heap s !! fp = Some f /\ f_lock f <> Uninit /\
    forall j u, j <> i -> l !! j = Some u -> private (at_pc u) <> Some fp).
  { destruct Hl as [[Hc Hu]|[b Hb]].
    - destruct (ref_obj I i t fp Hi Hc) as (f & Hff & _). exists f. split_and!; [done|by eapply (ref_ready I)|].
      intros. by apply ref_not_private with (j := j).
    - destruct (chain_obj I b fp Hb) as (f & Hff & _ & _ & _ & E). exists f. split_and!; [done..|].
      intros. by apply chain_not_private with (b := b) (j := j). }
  destruct Ho as (f & Hff & E & Hoth). rewrite Hff. destruct (f_lock f) eqn:El; [done| |done].
  eapply go_put; eauto. eapply move_obj; eauto; cbn; rewrite ?cnt_same, ?El; auto; try lia; try congruence;
    try (intros; rewrite cnt_same by done; lia); try (split; congruence); try (intros; split; congruence).
Qed.

Lemma go_unlockf fp p rs k :
  (forall s', k s' = Go s' (Thread p rs)) ->
  foo_held (at_pc t) = Some fp -> foo_held p = None -> hash_held p = hash_held (at_pc t) ->
  private p = private (at_pc t) -> newborn (at_pc t) = None -> newborn p = None -> unready p = unready (at_pc t) ->
  (forall q, cnt q (Thread p rs) = cnt q t) -> allocating (at_pc t) = 0 -> allocating p = 0 ->
  (forall f, heap s !! fp = Some f -> facts ch (put fp (set_lock Unlocked f) s) (Thread p rs)) ->
  (forall f, heap s !! fp = Some f -> rank ch (put fp (set_lock Unlocked f) s) N p < rank ch s N (at_pc t)) ->
  safe ch s l i t (unlock_foo i s fp k).
Proof.
  intros Hk H1 H2 H3 H4 H5 H5' H6 H7 H8 H9 Hf Hr. unfold unlock_foo, deref.
  destruct (i_lock1 _ _ _ I i t fp Hi H1) as (f & Hff & El). rewrite Hff, bool_decide_eq_true_2, Hk by done.
  eapply go_put; eauto. eapply move_obj; eauto; cbn; rewrite ?H7, ?El; auto; try lia; try congruence;
    try (split; congruence); try (intros; split; congruence).
  intros j u Hne Hj. by apply held_private with (j := j).
Qed.

(** Changing the count of the object the thread has locked. *)
Lemma go_count fp f n p :
  heap s !! fp = Some f -> foo_held (at_pc t) = Some fp -> foo_held p = Some fp ->
  hash_held p = hash_held (at_pc t) -> private p = private (at_pc t) -> newborn (at_pc t) = None ->
  newborn p = None -> unready p = unready (at_pc t) ->
  n - f_count f = cnt fp (Thread p (refs t)) - cnt fp t -> (1 <= f_count f -> 1 <= n) ->
  (forall q, q <> fp -> cnt q (Thread p (refs t)) = cnt q t) -> allocating (at_pc t) = 0 -> allocating p = 0 ->
  facts ch (put fp (set_count n f) s) (Thread p (refs t)) ->
  rank ch (put fp (set_count n f) s) N p < rank ch s N (at_pc t) ->
  safe ch s l i t (goto (refs t) (put fp (set_count n f) s) p).
Proof.
  intros Hf H1 H2 H3 H4 H5 H5' H6 Hn Hn1 Hc H8 H9 Hfa Hr.
  assert (El : f_lock f = Locked i) by (by apply (own_lock fp f)).
  eapply go_put; eauto. eapply move_obj; eauto; cbn; rewrite ?El; auto; try congruence;
    try (split; congruence); try (intros; split; congruence).
  intros j u Hne Hj. by apply held_private with (j := j).
Qed.

(** ** The functions, statement by statement *)

(** The value of an object the thread has locked. *)
Lemma held_obj fp : foo_held (at_pc t) = Some fp -> exists f, heap s !! fp = Some f.
Proof. intros H. destruct (i_lock1 _ _ _ I i t fp Hi H) as (f & Hf & _). eauto. Qed.

(** What the walks along a chain need. *)
Lemma refs_chain_nonzero b fp : fp ∈ ch b -> fp <> 0.
Proof.
  intros Hin ->. destruct (i_hashed _ _ _ I b 0 Hin) as (f & Hf & _). by rewrite (i_null _ _ _ I) in Hf.
Qed.

Lemma chain_at id l1 fp l2 :
  ch (HASH id) = l1 ++ fp :: l2 -> exists f, heap s !! fp = Some f /\ f_next f = hd 0 l2.
Proof.
  intros E. pose proof (i_chain _ _ _ I (HASH id) (HASH_range id)) as C. rewrite E in C.
  apply chained_mid in C as (_ & f & Hf & C). exists f. split; [done|]. by apply chained_hd in C.
Qed.

Lemma from_suffix b l1 l2 : ch b = l1 ++ l2 -> from (hd 0 l2) (ch b) = Z.of_nat (length l2).
Proof.
  intros E. pose proof (i_nodup _ _ _ I b) as Hn.
  assert (Hz : 0 ∉ ch b) by (intros H; by apply (refs_chain_nonzero b 0)).
  rewrite E in *. clear E. induction l1 as [|x l1 IH]; cbn in *.
  - destruct l2 as [|q l2]; cbn; [done|]. by rewrite Z.eqb_refl.
  - apply list.NoDup_cons in Hn as [Hx Hn].
    destruct (Z.eqb_spec (hd 0 l2) x) as [Ex|]; [|apply IH; set_solver].
    exfalso. destruct l2 as [|q l2]; cbn in *; subst; set_solver.
Qed.

Lemma refs_chain_length b : Z.of_nat (length (ch b)) <= N.
Proof.
  assert (H : (length (ch b) <= size (heap s))%nat).
  { rewrite <- size_dom, <- (size_list_to_set (C := gset Z) (ch b)) by apply I.
    apply subseteq_size. intros q Hq%elem_of_list_to_set.
    destruct (i_hashed _ _ _ I b q Hq) as (f & Hf & _). by apply elem_of_dom_2 in Hf. }
  unfold objects. assert (0 <= pending l) by (clear; induction l as [|u k IH]; cbn; [lia|];
    destruct (at_pc u); cbn; lia). lia.
Qed.

Lemma obj_put fp f (P : foo -> Prop) : P f -> obj (put fp f s) fp P.
Proof. intros H. exists f. cbn. by rewrite lookup_insert_eq. Qed.

Ltac ready := cbn [hash_held foo_held holds_ref private newborn unready allocating at_pc refs].

Lemma safe_hold_lock fp k :
  at_pc t = H_lock fp k -> safe ch s l i t (lock_foo i (refs t) s fp (H_inc fp k)).
Proof.
  intros Hp. pose proof (i_facts _ _ _ I i t Hi) as F. unfold facts in F. rewrite Hp in F.
  apply go_lockf; rewrite ?Hp; ready; auto; try (intros; cbn; lia).
  - destruct k as [id|]; [right; exists (HASH id); tauto|left; split; [by apply cnt_refs|done]].
  - intros f Hf. unfold facts. cbn [at_pc]. destruct k as [id|]; [|done]. destruct F as [F1 (g & Hg & F2)].
    split; [done|]. apply obj_put. cbn. congruence.
Qed.

Lemma cnt_gain fp p q :
  holds_ref (at_pc t) = None -> holds_ref p = Some fp ->
  cnt q (Thread p (refs t)) = cnt q t + (if q =? fp then 1 else 0).
Proof.
  intros H1 H2. unfold cnt. cbn. rewrite H1, H2. destruct (Z.eqb_spec q fp) as [->|].
  - rewrite bool_decide_eq_true_2, bool_decide_eq_false_2 by done. lia.
  - rewrite !bool_decide_eq_false_2 by congruence. lia.
Qed.

Lemma cnt_lose fp p q :
  holds_ref (at_pc t) = Some fp -> holds_ref p = None ->
  cnt q (Thread p (refs t)) = cnt q t - (if q =? fp then 1 else 0).
Proof.
  intros H1 H2. unfold cnt. cbn. rewrite H1, H2. destruct (Z.eqb_spec q fp) as [->|].
  - rewrite bool_decide_eq_false_2, bool_decide_eq_true_2 by done. lia.
  - rewrite !bool_decide_eq_false_2 by congruence. lia.
Qed.

(** The call's reference becomes the caller's. *)
Lemma cnt_return fp q : holds_ref (at_pc t) = Some fp -> cnt q (Thread Idle (fp :: refs t)) = cnt q t.
Proof.
  intros H1. unfold cnt. cbn [at_pc holds_ref refs]. rewrite H1.
  rewrite (bool_decide_eq_false_2 (None = Some q)) by done. destruct (decide (q = fp)) as [->|Hne].
  - rewrite count_occ_cons_eq, bool_decide_eq_true_2 by done. lia.
  - rewrite count_occ_cons_neq, bool_decide_eq_false_2 by congruence. lia.
Qed.

Lemma safe_hold_inc fp k :
  at_pc t = H_inc fp k ->
  safe ch s l i t (deref s fp (fun f => if f_count f =? INT_MAX then Overflow
    else goto (refs t) (put fp (set_count (f_count f + 1) f) s) (H_unlock fp k))).
Proof.
  intros Hp. pose proof (i_facts _ _ _ I i t Hi) as F. unfold facts in F. rewrite Hp in F.
  destruct (held_obj fp) as [f Hf]; [by rewrite Hp|]. unfold deref. rewrite Hf.
  assert (Hc : f_count f = total fp l /\ 1 <= f_count f).
  { destruct (i_count _ _ _ I fp f Hf) as [(j & u & Hj & Hu)|H]; [|done].
    apply newborn_unready, unready_private in Hu. exfalso. destruct (decide (j = i)) as [->|Hne].
    - rewrite Hi in Hj. injection Hj as <-. by rewrite Hp in Hu.
    - eapply held_private; eauto. by rewrite Hp. }
  destruct (Z.eqb_spec (f_count f) INT_MAX) as [E|E].
  - exists fp, f. split; [done|]. lia.
  - assert (G : forall q, cnt q (Thread (H_unlock fp k) (refs t)) = cnt q t + (if q =? fp then 1 else 0)).
    { intros q. apply cnt_gain; by rewrite ?Hp. }
    apply go_count; rewrite ?Hp, ?G; ready; auto; try (cbn; lia).
    + rewrite Z.eqb_refl. lia.
    + intros q Hq. rewrite G. destruct (Z.eqb_spec q fp); [done|lia].
    + unfold facts. cbn [at_pc]. destruct k as [id|]; [|done]. destruct F as [F1 (g & Hg & F2)].
      split; [done|]. apply obj_put. cbn. congruence.
Qed.

Lemma safe_hold_unlock fp k :
  at_pc t = H_unlock fp k ->
  safe ch s l i t (unlock_foo i s fp (fun s => match k with
    | Some id => goto (refs t) s (F_unlockh id fp) | None => return_ref (refs t) s fp end)).
Proof.
  intros Hp. pose proof (i_facts _ _ _ I i t Hi) as F. unfold facts in F. rewrite Hp in F.
  destruct (held_obj fp) as [f Hf]; [by rewrite Hp|].
  assert (H0 : fp <> 0) by (intros ->; by rewrite (i_null _ _ _ I) in Hf).
  destruct k as [id|].
  - apply (go_unlockf fp (F_unlockh id fp) (refs t)); rewrite ?Hp; ready; auto; try (intros; cbn; lia).
    + intros q. apply cnt_same. rewrite Hp. cbn. by destruct (Z.eqb_spec fp 0).
    + intros g Hg. unfold facts. cbn [at_pc]. split; [done|]. intros _. destruct F as [F1 (g' & Hg' & F2)].
      split; [done|]. apply obj_put. cbn. congruence.
  - apply (go_unlockf fp Idle (fp :: refs t)); rewrite ?Hp; ready; auto; try (intros; cbn; lia).
    + intros s'. unfold return_ref. by destruct (Z.eqb_spec fp 0).
    + intros q. apply cnt_return. by rewrite Hp.
Qed.

Ltac plain Hp := rewrite ?Hp; ready; auto; try (intros; cbn; lia).
Ltac same_tac Hp := split; rewrite ?Hp; reflexivity.
(** A move, up to the facts at the next statement. *)
Ltac local_tac Hp :=
  apply go_local; [same_tac Hp|by rewrite Hp|done| |rewrite Hp; cbn [rank hd length] in *; lia].

Lemma safe_find_test id fp :
  at_pc t = F_test id fp ->
  safe ch s l i t (if fp =? 0 then goto (refs t) s (F_unlockh id fp)
    else deref s fp (fun f => if f_id f =? id then goto (refs t) s (H_lock fp (Some id)) else goto (refs t) s (F_next id fp))).
Proof.
  intros Hp. pose proof (i_facts _ _ _ I i t Hi) as F. unfold facts in F. rewrite Hp in F.
  destruct F as (l1 & l2 & E & -> & F). pose proof (from_suffix (HASH id) l1 l2 E) as R.
  destruct (Z.eqb_spec (hd 0 l2) 0) as [E0|E0].
  - rewrite E0 in Hp, R |- *. local_tac Hp.
    unfold facts. cbn [at_pc]. split; [|done]. intros _. rewrite E.
    destruct l2 as [|q l2]; [by rewrite app_nil_r|]. cbn in E0. exfalso.
    apply (refs_chain_nonzero (HASH id) q); [rewrite E; set_solver|done].
  - destruct l2 as [|q l2]; [done|]. cbn [hd] in *.
    destruct (chain_at id l1 q l2 E) as (f & Hf & _). unfold deref. rewrite Hf.
    assert (Hin : q ∈ ch (HASH id)) by (rewrite E; set_solver).
    destruct (Z.eqb_spec (f_id f) id) as [Ei|Ei].
    + local_tac Hp. unfold facts. cbn [at_pc]. split; [done|]. by exists f.
    + local_tac Hp.
      exists l1, l2. split; [done|]. apply Forall_app. split; [done|]. repeat constructor. by exists f.
Qed.

Lemma safe_find_next id fp :
  at_pc t = F_next id fp ->
  safe ch s l i t (deref s fp (fun f => goto (refs t) s (F_test id (f_next f)))).
Proof.
  intros Hp. pose proof (i_facts _ _ _ I i t Hi) as F. unfold facts in F. rewrite Hp in F.
  destruct F as (l1 & l2 & E & F). destruct (chain_at id l1 fp l2 E) as (f & Hf & En).
  unfold deref. rewrite Hf. pose proof (from_suffix (HASH id) l1 (fp :: l2) E) as R.
  assert (E' : ch (HASH id) = (l1 ++ [fp]) ++ l2) by (by rewrite <- app_assoc).
  pose proof (from_suffix (HASH id) _ l2 E') as R'.
  rewrite En. local_tac Hp. exists (l1 ++ [fp]), l2. split; [done|]. by split.
Qed.

Lemma safe_find_unlockh id fp :
  at_pc t = F_unlockh id fp -> safe ch s l i t (unlock_hash i s (fun s => return_ref (refs t) s fp)).
Proof.
  intros Hp. apply (go_unlockh Idle (if fp =? 0 then refs t else fp :: refs t)); plain Hp.
  intros q. destruct (Z.eqb_spec fp 0) as [->|H0].
  - apply cnt_same. by rewrite Hp.
  - apply cnt_return. rewrite Hp. cbn. by destruct (Z.eqb_spec fp 0).
Qed.

Lemma safe_find_first id :
  at_pc t = F_first id -> safe ch s l i t (goto (refs t) s (F_test id (bucket s (HASH id)))).
Proof.
  intros Hp. pose proof (chained_hd _ _ _ (i_chain _ _ _ I (HASH id) (HASH_range id))) as Hb.
  pose proof (from_suffix (HASH id) [] (ch (HASH id)) eq_refl) as R. rewrite <- Hb in R.
  local_tac Hp. exists [], (ch (HASH id)). split; [done|]. by split.
Qed.

Lemma safe_find_lockh id : at_pc t = F_lockh id -> safe ch s l i t (lock_hash i (refs t) s (F_first id)).
Proof.
  intros Hp. pose proof (refs_chain_length (HASH id)). apply go_lockh; plain Hp.
Qed.

(** [foo_rele] *)

Lemma safe_rele_test fp :
  at_pc t = R_test fp ->
  safe ch s l i t (deref s fp (fun f => if f_count f =? 1 then goto (refs t) s (R_unlock fp) else goto (refs t) s (R_dec fp))).
Proof.
  intros Hp. destruct (held_obj fp) as [f Hf]; [by rewrite Hp|]. unfold deref. rewrite Hf.
  pose proof (refs_chain_length 0). destruct (Z.eqb_spec (f_count f) 1); local_tac Hp; [done|by exists f].
Qed.

Lemma safe_rele_recheck fp :
  at_pc t = R_recheck fp ->
  safe ch s l i t (deref s fp (fun f => if f_count f =? 1 then goto (refs t) s (R_first fp) else goto (refs t) s (R_dec2 fp))).
Proof.
  intros Hp. destruct (held_obj fp) as [f Hf]; [by rewrite Hp|]. unfold deref. rewrite Hf.
  pose proof (refs_chain_length 0). destruct (Z.eqb_spec (f_count f) 1); local_tac Hp; by exists f.
Qed.

(** The two statements that give up a reference that is not the last. *)
Lemma safe_rele_dec fp p :
  holds_ref (at_pc t) = Some fp -> foo_held (at_pc t) = Some fp -> obj s fp (fun f => f_count f <> 1) ->
  foo_held p = Some fp -> holds_ref p = None -> hash_held p = hash_held (at_pc t) ->
  private (at_pc t) = None -> private p = None -> allocating (at_pc t) = 0 -> allocating p = 0 ->
  (forall s', facts ch s' (Thread p (refs t))) -> (forall s' n, rank ch s' n p < rank ch s n (at_pc t)) ->
  safe ch s l i t (deref s fp (fun f => goto (refs t) (put fp (set_count (f_count f - 1) f) s) p)).
Proof.
  intros Hr Hh (f & Hf & Hn) Hh' Hr' E1 E2 E3 Ha Ha' Hfa Hrk. unfold deref. rewrite Hf.
  destruct (ref_obj I i t fp Hi (cnt_holds fp t Hr)) as (g & Hg & _ & Hc). rewrite Hf in Hg. injection Hg as <-.
  assert (G : forall q, cnt q (Thread p (refs t)) = cnt q t - (if q =? fp then 1 else 0)).
  { intros q. by apply cnt_lose. }
  assert (U : forall p, private p = None -> newborn p = None /\ unready p = None) by (by intros []).
  destruct (U _ E2) as [U1 U2], (U _ E3) as [U3 U4].
  apply go_count; rewrite ?G; auto; try congruence; try lia.
  - rewrite Z.eqb_refl. lia.
  - intros q Hq. rewrite G. destruct (Z.eqb_spec q fp); [done|lia].
Qed.

Lemma safe_rele_first fp :
  at_pc t = R_first fp ->
  safe ch s l i t (deref s fp (fun f => goto (refs t) s (R_ishead fp (HASH (f_id f)) (bucket s (HASH (f_id f)))))).
Proof.
  intros Hp. pose proof (i_facts _ _ _ I i t Hi) as F. unfold facts in F. rewrite Hp in F.
  destruct F as (f & Hf & F). unfold deref. rewrite Hf. local_tac Hp. split; [by exists f|done].
Qed.

(** The object whose last reference is given up is in the table. *)
Lemma last_linked fp f :
  holds_ref (at_pc t) = Some fp -> private (at_pc t) = None -> heap s !! fp = Some f -> fp ∈ ch (HASH (f_id f)).
Proof.
  intros Hr Hp Hf. destruct (i_where _ _ _ I fp f Hf) as [H|(j & u & Hj & Hu)]; [done|exfalso].
  pose proof (ref_private I i j t u fp Hi (cnt_holds fp t Hr) Hj Hu) as <-. congruence.
Qed.

Lemma safe_rele_ishead fp idx tfp :
  at_pc t = R_ishead fp idx tfp ->
  safe ch s l i t (if tfp =? fp then goto (refs t) s (R_head fp idx) else goto (refs t) s (R_while fp tfp)).
Proof.
  intros Hp. pose proof (i_facts _ _ _ I i t Hi) as F. unfold facts in F. rewrite Hp in F.
  destruct F as ((f & Hf & Hc & ->) & ->). pose proof (refs_chain_length (HASH (f_id f))) as Hl.
  pose proof (chained_hd _ _ _ (i_chain _ _ _ I (HASH (f_id f)) (HASH_range _))) as Hb.
  destruct (Z.eqb_spec (bucket s (HASH (f_id f))) fp) as [E|E].
  - local_tac Hp. split; [by exists f|done].
  - assert (Hin : fp ∈ ch (HASH (f_id f))) by (apply last_linked; by rewrite ?Hp).
    pose proof (from_suffix (HASH (f_id f)) [] _ eq_refl) as R. rewrite <- Hb in R.
    assert (B : bucket_of s fp = HASH (f_id f)) by (unfold bucket_of; by rewrite Hf). rewrite <- B in R at 2.
    local_tac Hp. exists f. split; [done|]. split; [done|].
    destruct (ch (HASH (f_id f))) as [|q l2] eqn:Ec; [by apply elem_of_nil in Hin|].
    exists [], l2. cbn in Hb. rewrite Hb. split; [done|]. apply elem_of_cons in Hin as [->|Hin]; [congruence|done].
Qed.

Lemma safe_rele_while fp tfp :
  at_pc t = R_while fp tfp ->
  safe ch s l i t (deref s tfp (fun g => if f_next g =? fp then goto (refs t) s (R_cut fp tfp) else goto (refs t) s (R_step fp tfp))).
Proof.
  intros Hp. pose proof (i_facts _ _ _ I i t Hi) as F. unfold facts in F. rewrite Hp in F.
  destruct F as (f & Hf & Hc & l1 & l2 & E & Hin). destruct (chain_at _ _ _ _ E) as (g & Hg & En).
  unfold deref. rewrite Hg. pose proof (from_suffix _ _ _ E) as R. cbn [hd] in R.
  assert (B : bucket_of s fp = HASH (f_id f)) by (unfold bucket_of; by rewrite Hf). rewrite <- B in R.
  destruct l2 as [|q l2]; [by apply elem_of_nil in Hin|]. cbn in En. rewrite En.
  destruct (Z.eqb_spec q fp) as [->|Hne]; local_tac Hp; exists f; (split; [done|]); (split; [done|]).
  - by exists l1, l2.
  - exists l1, q, l2. split; [done|]. apply elem_of_cons in Hin as [->|Hin]; done.
Qed.

Lemma safe_rele_step fp tfp :
  at_pc t = R_step fp tfp -> safe ch s l i t (deref s tfp (fun g => goto (refs t) s (R_while fp (f_next g)))).
Proof.
  intros Hp. pose proof (i_facts _ _ _ I i t Hi) as F. unfold facts in F. rewrite Hp in F.
  destruct F as (f & Hf & Hc & l1 & q & l2 & E & Hin). destruct (chain_at _ _ _ _ E) as (g & Hg & En).
  unfold deref. rewrite Hg. pose proof (from_suffix _ _ _ E) as R. cbn [hd] in R, En. rewrite En.
  assert (E' : ch (HASH (f_id f)) = (l1 ++ [tfp]) ++ q :: l2) by (by rewrite <- app_assoc).
  pose proof (from_suffix _ _ _ E') as R'. cbn [hd] in R'.
  assert (B : bucket_of s fp = HASH (f_id f)) by (unfold bucket_of; by rewrite Hf). rewrite <- B in R, R'.
  local_tac Hp. exists f. split; [done|]. split; [done|]. by exists (l1 ++ [tfp]), l2.
Qed.

(** ** Changes of the table *)

Definition upd_ch (b : Z) (c : list Z) : chains := fun b' => if b' =? b then c else ch b'.

Lemma chain_disjoint b b' q : q ∈ ch b -> q ∈ ch b' -> b = b'.
Proof.
  intros (f & Hf & E)%(i_hashed _ _ _ I) (f' & Hf' & E')%(i_hashed _ _ _ I). congruence.
Qed.

(** Other chains do not notice a change of the link of an object of chain [b]. *)
Lemma other_chain s' b b' :
  0 <= b' < NHASH -> b' <> b -> bucket s' b' = bucket s b' ->
  (forall q f, heap s !! q = Some f -> q ∉ ch b -> heap s' !! q = Some f) ->
  chained (heap s') (bucket s' b') (ch b').
Proof.
  intros Hb Hne -> Hh. eapply chained_ext; [by apply I|]. intros q f Hq Hf. exists f. split; [|done].
  apply Hh; [done|]. intros Hq'. by apply Hne, (chain_disjoint b' b q).
Qed.

Lemma go_unlink fp f s' l1 l2 :
  hash_held (at_pc t) = true -> foo_held (at_pc t) = Some fp -> holds_ref (at_pc t) = Some fp ->
  private (at_pc t) = None -> allocating (at_pc t) = 0 -> 9 < rank ch s N (at_pc t) ->
  heap s !! fp = Some f -> f_count f = 1 -> ch (HASH (f_id f)) = l1 ++ fp :: l2 ->
  hashlock s' = hashlock s -> length (fh s') = 29%nat ->
  (forall b, 0 <= b < NHASH -> b <> HASH (f_id f) -> bucket s' b = bucket s b) ->
  chained (heap s') (bucket s' (HASH (f_id f))) (l1 ++ l2) ->
  (forall q g, heap s !! q = Some g -> exists g', heap s' !! q = Some g' /\ f_id g' = f_id g /\
     f_count g' = f_count g /\ f_lock g' = f_lock g /\ (g' = g \/ q ∈ ch (HASH (f_id f)))) ->
  (forall q, heap s !! q = None -> heap s' !! q = None) ->
  safe ch s l i t (Go s' (Thread (R_unlockh fp) (refs t))).
Proof.
  intros Hh Hf Hr Hp Ha Hrk Hfp Hc E Hl Hlen Hb Hch Hheap Hnone. set (b := HASH (f_id f)) in *.
  pose proof (i_nodup _ _ _ I b) as Hn. rewrite E in Hn.
  assert (Hfl : fp ∉ l1 ++ l2).
  { apply list.NoDup_app in Hn as (_ & Hd & [Hx _]%list.NoDup_cons). set_solver. }
  assert (Hin : fp ∈ ch b) by (rewrite E; set_solver).
  assert (Hmem : forall q, q ∈ ch b <-> q ∈ l1 ++ l2 \/ q = fp) by (intros q; rewrite E; set_solver).
  assert (Hun : unready (at_pc t) = None).
  { destruct (unready (at_pc t)) eqn:Eu; [|done]. apply unready_private in Eu. congruence. }
  exists (upd_ch b (l1 ++ l2)). split.
  - apply (effect_table ch s l I i t _ Hi); auto; unfold upd_ch.
    + intros q g Hg. destruct (Hheap q g Hg) as (g' & Hg' & E1 & E2 & E3 & E4). exists g'.
      split_and!; auto. destruct E4 as [->|E4]; eauto.
    + intros b' Hb'. destruct (Z.eqb_spec b' b) as [->|Hne]; [done|].
      apply (other_chain s' b); auto. intros q g Hg Hq. destruct (Hheap q g Hg) as (g' & Hg' & _ & _ & _ & [->|?]); done.
    + intros b'. destruct (b' =? b); [|apply I]. apply list.NoDup_app in Hn as (N1 & N2 & [_ N3]%list.NoDup_cons).
      apply list.NoDup_app. split_and!; [done| |done]. set_solver.
    + intros b' q. destruct (Z.eqb_spec b' b) as [->|]; [|by left]. intros Hq. left. apply Hmem. by left.
    + intros b' q Hq. destruct (Z.eqb_spec b' b) as [->|]; [|by left]. apply Hmem in Hq as [Hq| ->]; auto.
    + intros q g Hq. congruence.
    + intros q [= <-]. split; [by exists b|]. intros b'. destruct (Z.eqb_spec b' b) as [->|Hne]; [done|].
      intros Hq. by apply Hne, (chain_disjoint b' b fp).
    + intros q. by apply cnt_same.
    + cbn. destruct (Hheap fp f Hfp) as (g & Hg & _ & E2 & _). exists g. split; [done|congruence].
  - assert (Hs : dom (heap s') = dom (heap s)).
    { apply set_eq. intros q. rewrite !elem_of_dom. split; intros [g Hg].
      - destruct (heap s !! q) eqn:Eq; [done|]. by rewrite Hnone in Hg.
      - destruct (Hheap q g Hg) as (g' & ? & _). by exists g'. }
    split.
    + done.
    + rewrite objects_insert, <- !size_dom, Hs, Ha. cbn. lia.
    + by right.
    + intros q g g' Hg Hg'. left. destruct (Hheap q g Hg) as (g'' & Hg'' & E1 & _). congruence.
Qed.

Lemma bucket_set b b' p :
  0 <= b < NHASH -> 0 <= b' < NHASH -> bucket (set_bucket b p s) b' = if b' =? b then p else bucket s b'.
Proof.
  unfold NHASH. intros Hb Hb'. pose proof (i_fh _ _ _ I) as Hl. unfold bucket, set_bucket. cbn [fh].
  rewrite !nth_lookup. destruct (Z.eqb_spec b' b) as [->|Hne].
  - by rewrite list_lookup_insert_eq by lia.
  - by rewrite list_lookup_insert_ne by lia.
Qed.

Lemma safe_rele_head fp idx :
  at_pc t = R_head fp idx ->
  safe ch s l i t (deref s fp (fun f => goto (refs t) (set_bucket idx (f_next f) s) (R_unlockh fp))).
Proof.
  intros Hp. pose proof (i_facts _ _ _ I i t Hi) as F. unfold facts in F. rewrite Hp in F.
  destruct F as ((f & Hf & Hc & ->) & Hb). unfold deref. rewrite Hf.
  pose proof (i_chain _ _ _ I _ (HASH_range (f_id f))) as C. rewrite <- Hb in C.
  destruct (ch (HASH (f_id f))) as [|q l2] eqn:E.
  { cbn in C. by rewrite C, (i_null _ _ _ I) in Hf. }
  destruct C as (<- & _ & g & Hg & C). rewrite Hf in Hg. injection Hg as <-.
  apply (go_unlink fp f _ [] l2); rewrite ?Hp; auto; try (cbn; lia).
  - cbn. rewrite length_insert. apply I.
  - intros b Hb0 Hne. rewrite bucket_set by (done || apply HASH_range). by destruct (Z.eqb_spec b (HASH (f_id f))).
  - rewrite bucket_set by apply HASH_range. by rewrite Z.eqb_refl.
  - intros q g Hg. exists g. by split_and!; auto.
Qed.

Lemma safe_rele_cut fp tfp :
  at_pc t = R_cut fp tfp ->
  safe ch s l i t (deref s fp (fun f => deref s tfp (fun g =>
    goto (refs t) (put tfp (set_next (f_next f) g) s) (R_unlockh fp)))).
Proof.
  intros Hp. pose proof (i_facts _ _ _ I i t Hi) as F. unfold facts in F. rewrite Hp in F.
  destruct F as (f & Hf & Hc & l1 & l2 & E). destruct (chain_at _ _ _ _ E) as (g & Hg & _).
  unfold deref. rewrite Hf, Hg.
  apply (go_unlink fp f _ (l1 ++ [tfp]) l2); rewrite ?Hp; auto; try (cbn; lia).
  - by rewrite <- app_assoc.
  - apply I.
  - rewrite <- app_assoc. cbn [app]. change (bucket (put _ _ s)) with (bucket s).
    eapply chained_unlink; eauto; [rewrite <- E; apply (i_chain _ _ _ I), HASH_range|rewrite <- E; apply I].
  - intros q g' Hg'. cbn. destruct (decide (q = tfp)) as [->|Hne].
    + rewrite lookup_insert_eq. eexists. split; [done|]. rewrite Hg in Hg'. injection Hg' as <-. cbn.
      split_and!; auto. right. rewrite E. set_solver.
    + rewrite lookup_insert_ne by done. exists g'. split_and!; auto.
  - intros q Hq. cbn. rewrite lookup_insert_ne by congruence. done.
Qed.

(** [foo_alloc] puts its object into the table. *)
Lemma safe_alloc_link fp id :
  at_pc t = A_link fp id -> safe ch s l i t (goto (refs t) (set_bucket (HASH id) fp s) (A_lockf fp)).
Proof.
  intros Hp. pose proof (i_facts _ _ _ I i t Hi) as F. unfold facts in F. rewrite Hp in F.
  destruct F as (f & Hf & Hc & Hl & Hid & Hn). destruct (i_priv _ _ _ I i t fp Hi) as [_ Hfp]; [by rewrite Hp|].
  exists (upd_ch (HASH id) (fp :: ch (HASH id))). split.
  - apply (effect_table ch s l I i t _ Hi); rewrite ?Hp; auto; unfold upd_ch.
    + cbn. rewrite length_insert. apply I.
    + intros q g Hg. exists g. cbn. by split_and!; auto.
    + intros b Hb. rewrite bucket_set by (done || apply HASH_range).
      destruct (Z.eqb_spec b (HASH id)) as [->|Hne]; [|by apply I]. cbn. split; [done|].
      split; [intros ->; by rewrite (i_null _ _ _ I) in Hf|]. exists f. split; [done|]. rewrite Hn. by apply I.
    + intros b. destruct (Z.eqb_spec b (HASH id)) as [->|Hne]; [|apply I].
      apply list.NoDup_cons. split; [apply Hfp|apply I].
    + intros b q. destruct (Z.eqb_spec b (HASH id)) as [->|Hne]; [|by left].
      intros [->|Hq]%elem_of_cons; [right|by left]. split; [done|]. exists f. by rewrite Hid.
    + intros b q Hq. left. destruct (Z.eqb_spec b (HASH id)) as [->|Hne]; [by right|done].
    + intros q g [= <-] Hg. rewrite Hf in Hg. injection Hg as <-. rewrite Hid, Z.eqb_refl. by left.
    + done.
    + intros q. apply cnt_same. by rewrite Hp.
    + done.
  - split.
    + rewrite Hp. cbn. lia.
    + rewrite objects_insert, Hp. cbn. lia.
    + right. by rewrite Hp.
    + intros q g g' Hg Hg'. left. cbn in Hg'. congruence.
Qed.

(** ** Objects of the thread's own *)

Lemma private_alone fp f j u :
  private (at_pc t) = Some fp -> heap s !! fp = Some f -> (forall k, f_lock f <> Locked k) ->
  j <> i -> l !! j = Some u -> private (at_pc u) <> Some fp /\ foo_held (at_pc u) <> Some fp.
Proof.
  intros Hp Hf Hl Hne Hj. split; intros Hu.
  - by apply Hne, (i_priv1 _ _ _ I j i u t fp).
  - destruct (i_lock1 _ _ _ I j u fp Hj Hu) as (g & Hg & E). rewrite Hf in Hg. injection Hg as <-. by apply (Hl j).
Qed.

(** Setting up or tearing down the own object [fp]. *)
Lemma go_private fp f f' p :
  private (at_pc t) = Some fp -> private p = Some fp -> newborn p = None ->
  foo_held (at_pc t) = None -> foo_held p = None -> hash_held p = hash_held (at_pc t) ->
  heap s !! fp = Some f -> (forall k, f_lock f <> Locked k) -> (forall k, f_lock f' <> Locked k) ->
  (f_lock f' = Uninit -> unready p = Some fp) -> f_count f' = 1 -> holds_ref p = Some fp ->
  (f_id f' = f_id f \/ newborn (at_pc t) = Some fp) -> allocating (at_pc t) = 0 -> allocating p = 0 ->
  facts ch (put fp f' s) (Thread p (refs t)) ->
  rank ch (put fp f' s) N p < rank ch s N (at_pc t) ->
  safe ch s l i t (goto (refs t) (put fp f' s) p).
Proof.
  intros Hp Hp' Hn Hf Hf' Hh Hfp Hl Hl' Hu Hc Hr Hid Ha Ha' Hfa Hrk.
  destruct (i_priv _ _ _ I i t fp Hi Hp) as [_ Hch].
  assert (Hcnt : total fp l - cnt fp t + cnt fp (Thread p (refs t)) = 1 /\
    forall q, q <> fp -> cnt q (Thread p (refs t)) = cnt q t).
  { destruct (private_ref _ _ Hp) as [Hb|Hr0].
    - pose proof (i_newborn _ _ _ I i t fp Hi Hb) as H0. pose proof (total_le fp l i t Hi).
      pose proof (cnt_nonneg fp t). assert (Hr0 : holds_ref (at_pc t) = None) by (destruct (at_pc t); done).
      split; [rewrite (cnt_gain fp) by done; rewrite Z.eqb_refl; lia|].
      intros q Hq. rewrite (cnt_gain fp) by done. destruct (Z.eqb_spec q fp); [done|lia].
    - assert (Hsm : holds_ref p = holds_ref (at_pc t)) by congruence.
      split; [|intros q _; by apply cnt_same]. rewrite cnt_same by done.
      destruct (private_one ch s t fp (i_facts _ _ _ I i t Hi) Hp) as [Hb|(g & Hg & H1)]; [destruct (at_pc t); done|].
      destruct (ref_obj I i t fp Hi (cnt_holds fp t Hr0)) as (g' & Hg' & H2 & _). rewrite Hg in Hg'.
      injection Hg' as <-. lia. }
  exists ch. split.
  - apply (effect_private ch s l I i t _ Hi _ fp); cbn [at_pc put set_heap heap fh hashlock]; auto; try congruence.
    + intros ->. by rewrite (i_null _ _ _ I) in Hfp.
    + intros q Hq. by rewrite lookup_insert_ne.
    + intros j u Hne Hj. by eapply private_alone.
    + apply Hcnt.
    + rewrite lookup_insert_eq. split_and!; auto. right. split; [done|]. rewrite Hc, (proj1 Hcnt). lia.
  - apply closer_step; auto; [by eapply size_put|]. intros q g g' Hg. cbn.
    destruct (decide (q = fp)) as [->|Hne]; [rewrite lookup_insert_eq|rewrite lookup_insert_ne by done].
    + intros [= <-]. destruct Hid; [left; congruence|by right].
    + intros. left. congruence.
Qed.

Lemma go_free fp f :
  private (at_pc t) = Some fp -> holds_ref (at_pc t) = Some fp -> foo_held (at_pc t) = None ->
  hash_held (at_pc t) = false -> heap s !! fp = Some f -> f_count f = 1 -> (forall k, f_lock f <> Locked k) ->
  allocating (at_pc t) = 0 -> 0 < rank ch s N (at_pc t) ->
  safe ch s l i t (Go (set_heap (delete fp (heap s)) s) (Thread Idle (refs t))).
Proof.
  intros Hp Hr Hf Hh Hfp Hc Hl Ha Hrk. destruct (i_priv _ _ _ I i t fp Hi Hp) as [_ Hch].
  assert (G : forall q, cnt q (Thread Idle (refs t)) = cnt q t - (if q =? fp then 1 else 0)).
  { intros q. by apply cnt_lose. }
  destruct (ref_obj I i t fp Hi (cnt_holds fp t Hr)) as (g & Hg & H2 & _).
  rewrite Hfp in Hg. injection Hg as <-. exists ch. split.
  - apply (effect_private ch s l I i t _ Hi _ fp); cbn [at_pc set_heap heap fh hashlock]; auto; try congruence.
    + intros ->. by rewrite (i_null _ _ _ I) in Hfp.
    + intros q Hq. by rewrite lookup_delete_ne.
    + intros j u Hne Hj. by eapply private_alone.
    + done.
    + intros q Hq. rewrite G. destruct (Z.eqb_spec q fp); [done|lia].
    + rewrite lookup_delete_eq, G, Z.eqb_refl. split; [done|lia].
    + done.
  - assert (E : objects (set_heap (delete fp (heap s)) s) (<[i := Thread Idle (refs t)]> l) = N - 1).
    { rewrite objects_insert, Ha. cbn [heap set_heap at_pc allocating].
      pose proof (map_size_delete fp (heap s)) as D. rewrite Hfp in D.
      assert (size (heap s) <> 0%nat) by (rewrite map_size_non_empty_iff; intros E0; by rewrite E0, lookup_empty in Hfp).
      cbn in D. lia. }
    split; rewrite ?E; [cbn; lia|lia|by left|].
    intros q g g' Hg. cbn. destruct (decide (q = fp)) as [->|Hne]; [by rewrite lookup_delete_eq|].
    rewrite lookup_delete_ne by done. intros. left. congruence.
Qed.

Lemma safe_malloc c id :
  at_pc t = A_malloc id -> safe ch s l i t (exec_alloc i (refs t) c s (A_malloc id)).
Proof.
  intros Hp. cbn [exec_alloc]. destruct c as [| | | |fp f|ok]; try done.
  - destruct (Z.eqb_spec fp 0); [done|]. case_bool_decide as Hs; [done|]. cbn [orb].
    apply eq_None_not_Some in Hs. exists ch.
    assert (Hc : forall q, cnt q (Thread (A_set fp id) (refs t)) = cnt q t) by (intros q; apply cnt_same; by rewrite Hp).
    split.
    + apply (effect_private ch s l I i t _ Hi _ fp); rewrite ?Hp; cbn [at_pc put set_heap heap fh hashlock]; auto; try congruence.
      * intros q Hq. by rewrite lookup_insert_ne.
      * intros b Hb. destruct (i_hashed _ _ _ I b fp Hb) as (g & Hg & _). congruence.
      * intros j u Hne Hj. split; intros Hu.
        -- destruct (i_priv _ _ _ I j u fp Hj Hu) as [[g Hg] _]. congruence.
        -- destruct (i_lock1 _ _ _ I j u fp Hj Hu) as (g & Hg & _). congruence.
      * done.
      * intros q [= <-]. done.
      * rewrite lookup_insert_eq, Hc. pose proof (i_count0 _ _ _ I fp Hs). split_and!; [done..|]. left. split; [done|lia].
      * by apply obj_put.
    + assert (E : objects (put fp (set_lock Uninit f) s) (<[i := Thread (A_set fp id) (refs t)]> l) = N).
      { rewrite objects_insert, Hp. cbn [heap put set_heap at_pc allocating]. rewrite map_size_insert, Hs. lia. }
      split; rewrite ?E, ?Hp; [cbn; lia|lia|by left|]. intros q g g' Hg. cbn.
      rewrite lookup_insert_ne by congruence. intros. left. congruence.
  - destruct ok; [done|]. exists ch. split.
    + apply move; [by split; rewrite Hp|done].
    + assert (E : objects s (<[i := Thread Idle (refs t)]> l) = N - 1) by (rewrite objects_insert, Hp; cbn; lia).
      split; cbn; rewrite ?E, ?Hp; [cbn; lia|lia|by left|]. intros. left. congruence.
Qed.

(** ** Every statement *)

Ltac facts_at Hp := let F := fresh "F" in
  pose proof (i_facts _ _ _ I i t Hi) as F; unfold facts in F; rewrite Hp in F.

Lemma lockf_ref fp p :
  holds_ref (at_pc t) = Some fp -> private (at_pc t) = None -> foo_held (at_pc t) = None ->
  foo_held p = Some fp -> hash_held p = hash_held (at_pc t) -> private p = None ->
  holds_ref p = holds_ref (at_pc t) -> allocating (at_pc t) = 0 -> allocating p = 0 ->
  (forall s', facts ch s' (Thread p (refs t))) -> (forall s', rank ch s' N p < rank ch s N (at_pc t)) ->
  safe ch s l i t (lock_foo i (refs t) s fp p).
Proof.
  intros Hr Hp Hf Hf' Hh Hp'. intros. assert (U : forall p, private p = None -> newborn p = None /\ unready p = None) by (by intros []).
  destruct (U _ Hp) as [U1 U2], (U _ Hp') as [U3 U4].
  apply go_lockf; auto; try congruence. left. split; [by apply cnt_holds|congruence].
Qed.

Lemma safe_alloc c p :
  at_pc t = p -> safe ch s l i t (exec_alloc i (refs t) c s p).
Proof.
  intros Hp. destruct p; try done; [by apply safe_malloc|..]; cbn [exec_alloc].
  - facts_at Hp. destruct F as (f & Hf & El). unfold deref. rewrite Hf.
    apply (go_private fp f); plain Hp; cbn; try congruence. apply obj_put. cbn. auto.
  - facts_at Hp. destruct F as (f & Hf & Hc & El & Ei). destruct c as [| | | | |[|]]; try done.
    + unfold deref. rewrite Hf. apply (go_private fp f); plain Hp; cbn; try congruence. apply obj_put. cbn. auto.
    + local_tac Hp. by exists f.
  - facts_at Hp. destruct F as (f & Hf & Hc & El). unfold deref, return_ref. rewrite Hf.
    apply (go_free fp f); plain Hp. congruence.
  - facts_at Hp. apply go_lockh; plain Hp.
  - facts_at Hp. destruct F as (f & Hf & Hc & El & Ei). unfold deref. rewrite Hf.
    apply (go_private fp f); plain Hp; cbn; try congruence. apply obj_put. cbn. auto.
  - by apply safe_alloc_link.
  - apply lockf_ref; plain Hp.
  - apply (go_unlockh (A_unlockf fp) (refs t)); plain Hp. intros q. apply cnt_same. by rewrite Hp.
  - destruct (held_obj fp) as [f Hf]; [by rewrite Hp|].
    assert (H0 : fp <> 0) by (intros ->; by rewrite (i_null _ _ _ I) in Hf).
    apply (go_unlockf fp Idle (fp :: refs t)); plain Hp.
    + intros s'. unfold return_ref. by destruct (Z.eqb_spec fp 0).
    + intros q. apply cnt_return. by rewrite Hp.
Qed.

Lemma safe_rele p :
  at_pc t = p -> safe ch s l i t (exec_rele i (refs t) s p).
Proof.
  intros Hp. pose proof (refs_chain_length 0) as HN.
  destruct p; try done; cbn [exec_rele].
  - apply lockf_ref; plain Hp.
  - by apply safe_rele_test.
  - apply (go_unlockf fp (R_lockh fp) (refs t)); plain Hp. intros q. apply cnt_same. by rewrite Hp.
  - apply go_lockh; plain Hp.
  - apply lockf_ref; plain Hp.
  - by apply safe_rele_recheck.
  - facts_at Hp. apply safe_rele_dec; plain Hp.
  - apply (go_unlockf fp (R_unlockh2 fp) (refs t)); plain Hp. intros q. apply cnt_same. by rewrite Hp.
  - apply (go_unlockh Idle (refs t)); plain Hp. intros q. apply cnt_same. by rewrite Hp.
  - by apply safe_rele_first.
  - by apply safe_rele_ishead.
  - by apply safe_rele_head.
  - by apply safe_rele_while.
  - by apply safe_rele_step.
  - by apply safe_rele_cut.
  - facts_at Hp. apply (go_unlockh (R_unlockf fp) (refs t)); plain Hp. intros q. apply cnt_same. by rewrite Hp.
  - facts_at Hp. apply (go_unlockf fp (R_destroy fp) (refs t)); plain Hp.
    + intros q. apply cnt_same. by rewrite Hp.
    + intros f Hf. destruct F as (f' & Hf' & Hc). apply obj_put. cbn. split; [congruence|done].
  - facts_at Hp. destruct F as (f & Hf & Hc & El). unfold deref. rewrite Hf, El.
    apply (go_private fp f); plain Hp; cbn; try congruence. apply obj_put. cbn. auto.
  - facts_at Hp. destruct F as (f & Hf & Hc & El). unfold deref, return_ref. rewrite Hf.
    apply (go_free fp f); plain Hp. congruence.
  - facts_at Hp. apply safe_rele_dec; plain Hp.
  - apply (go_unlockf fp Idle (refs t)); plain Hp. intros q. apply cnt_same. by rewrite Hp.
Qed.

Lemma exec_safe c : safe ch s l i t (exec i (refs t) c s (at_pc t)).
Proof.
  destruct (at_pc t) eqn:Hp; cbn [exec]; try (by apply safe_alloc); try (by apply safe_rele); [done|..];
    cbn [exec_find].
  - by eapply safe_hold_lock.
  - by eapply safe_hold_inc.
  - by eapply safe_hold_unlock.
  - by eapply safe_find_lockh.
  - by eapply safe_find_first.
  - by eapply safe_find_test.
  - by eapply safe_find_next.
  - by eapply safe_find_unlockh.
Qed.

End statements.
End RefcountSafe.
