(* ===== verification/RefcountThms.v ===== *)
(** * Reference-counted objects: what all interleavings have in common

    The invariant holds in every reachable state; from it follow the safety of
    every statement, the meaning of the reference counts and of what
    [foo_find] returns, and that every call returns: no interleaving deadlocks
    and none goes on for ever without new calls. *)

From S2P Require Import Prelude CLib Refcount RefcountInv RefcountSafe.
Import Refcount RefcountInv RefcountSafe.

Module RefcountThms.

(** ** Reachable states *)

Lemma start_inv n : Inv (fun _ => []) (sh (start n)) (thr (start n)).
Proof.
  assert (H : forall i t, replicate n (Thread Idle []) !! i = Some t -> t = Thread Idle []).
  { intros i t [? _]%lookup_replicate. done. }
  assert (Ht : forall fp, total fp (replicate n (Thread Idle [])) = 0).
  { intros fp. induction n as [|m IH]; cbn; [done|]. rewrite IH; [done|].
    intros i t Hi. apply (H (S i)). done. }
  split; cbn [start sh thr heap fh hashlock].
  - done.
  - done.
  - intros i t ->%H. done.
  - done.
  - intros i t fp ->%H. done.
  - done.
  - done.
  - intros fp _. apply Ht.
  - done.
  - intros i t fp ->%H. done.
  - intros b Hb. unfold chained, bucket. cbn [fh]. rewrite nth_lookup, lookup_replicate_2; [done|].
    unfold NHASH in Hb. lia.
  - intros b fp Hin. by apply elem_of_nil in Hin.
  - intros b. constructor.
  - done.
  - intros i t fp ->%H. done.
  - intros i j t u fp ->%H. done.
  - intros i t ->%H. done.
Qed.

Lemma call_inv ch s l i t c t' :
  Inv ch s l -> l !! i = Some t -> at_pc t = Idle -> call (refs t) c = Some t' ->
  Inv ch s (<[i := t']> l).
Proof.
  intros I Hi Hp Hc.
  assert (G : forall p rs, t' = Thread p rs -> hash_held p = false -> foo_held p = None -> private p = None ->
    facts ch s (Thread p rs) -> (forall q, cnt q t' = cnt q t) -> Inv ch s (<[i := t']> l)).
  { intros p rs -> Hh Hf Hpr Hfa Hcnt.
    assert (U : newborn p = None /\ unready p = None) by (by destruct p). destruct U as [U1 U2].
    apply (effect_quiet ch s l I i t _ Hi); cbn [at_pc]; rewrite ?Hp, ?Hf; auto.
    - pose proof (own_hash ch s l I i t Hi) as E. rewrite Hp in E. rewrite Hh. exact E.
    - intros q f Hq. exists f. split; [done|]. split; auto; [rewrite Hcnt; lia|].
      cbn [at_pc]. rewrite Hf. pose proof (own_lock ch s l I i t Hi q f Hq) as E. by rewrite Hp in E.
    - intros. apply rely_refl. }
  destruct c as [id|fp|id|fp|fp f|ok]; cbn [call] in Hc; try done.
  - injection Hc as <-. eapply G; eauto; [done|]. intros q. apply cnt_same. by rewrite Hp.
  - case_bool_decide as Hin; [|done]. injection Hc as <-. eapply G; eauto. intros q. apply cnt_same. by rewrite Hp.
  - injection Hc as <-. eapply G; eauto; [done|]. intros q. apply cnt_same. by rewrite Hp.
  - destruct (list_find _ _) as [[k q]|] eqn:E; [|done]. injection Hc as <-.
    apply list_find_Some in E as (E & -> & _). eapply G; eauto; [done|]. intros q. unfold cnt. cbn. rewrite Hp. cbn.
    pose proof (delete_Permutation _ _ _ E) as P. rewrite (proj1 (Permutation_count_occ Z.eq_dec _ _) P q).
    destruct (decide (q = fp)) as [->|Hne].
    + rewrite count_occ_cons_eq, bool_decide_eq_true_2, bool_decide_eq_false_2 by done. lia.
    + rewrite count_occ_cons_neq, !bool_decide_eq_false_2 by congruence. lia.
Qed.

Lemma step_inv ch s s' :
  Inv ch (sh s) (thr s) -> steps s s' -> exists i t t' ch',
    thr s !! i = Some t /\ thr s' = <[i := t']> (thr s) /\ Inv ch' (sh s') (thr s') /\
    closer ch (sh s) (thr s) ch' (sh s') (thr s') t t'.
Proof.
  intros I H. destruct H as [s i c t s' t' Hi He].
  pose proof (exec_safe ch (sh s) (thr s) I i t Hi c) as S. rewrite He in S.
  destruct S as (ch' & I' & C). by exists i, t, t', ch'.
Qed.

Lemma reachable_inv n s : reachable n s -> exists ch, Inv ch (sh s) (thr s).
Proof.
  unfold reachable. intros H. revert s H. apply rtc_ind_r; [eexists; apply start_inv|].
  intros s s' _ [Hc|Hs] [ch I].
  - destruct Hc as [s i c t t' Hi Hp Hc]. exists ch. by eapply call_inv.
  - destruct (step_inv ch s s' I Hs) as (i & t & t' & ch' & _ & _ & I' & _). by exists ch'.
Qed.

(** ** Progress *)

Lemma from_nonneg q l : 0 <= from q l.
Proof. induction l as [|x l IH]; cbn [from]; [lia|]. destruct_if; lia. Qed.

Lemma rank_nonneg ch s N p : 0 <= N -> 0 <= rank ch s N p.
Proof.
  intros HN. destruct p; cbn [rank]; try lia;
    match goal with |- context [from ?q ?l] => pose proof (from_nonneg q l) end; lia.
Qed.

Fixpoint ranks (ch : chains) (s : shared) (N : Z) (l : list thread) : Z :=
  match l with [] => 0 | t :: l' => rank ch s N (at_pc t) + ranks ch s N l' end.

Lemma ranks_nonneg ch s N l : 0 <= N -> 0 <= ranks ch s N l.
Proof. intros HN. induction l as [|t l IH]; cbn; [lia|]. pose proof (rank_nonneg ch s N (at_pc t) HN). lia. Qed.

(** Only the rank of thread [i] goes down, no other goes up. *)
Lemma ranks_less ch s N ch' s' N' l i t t' :
  l !! i = Some t -> rank ch' s' N' (at_pc t') < rank ch s N (at_pc t) ->
  (forall j u, j <> i -> l !! j = Some u -> rank ch' s' N' (at_pc u) <= rank ch s N (at_pc u)) ->
  ranks ch' s' N' (<[i := t']> l) < ranks ch s N l.
Proof.
  assert (L : forall l, (forall j u, l !! j = Some u -> rank ch' s' N' (at_pc u) <= rank ch s N (at_pc u)) ->
    ranks ch' s' N' l <= ranks ch s N l).
  { clear. induction l as [|u l IH]; cbn; intros H; [lia|].
    pose proof (H 0%nat u eq_refl). specialize (IH (fun j v Hj => H (S j) v Hj)). lia. }
  revert i. induction l as [|u l IH]; intros [|i] Hi Hr Ho; cbn in Hi; try done.
  - injection Hi as ->. change (rank ch' s' N' (at_pc t') + ranks ch' s' N' l < rank ch s N (at_pc t) + ranks ch s N l).
    pose proof (L l (fun j v Hj => Ho (S j) v ltac:(lia) Hj)). lia.
  - change (rank ch' s' N' (at_pc u) + ranks ch' s' N' (<[i := t']> l) < rank ch s N (at_pc u) + ranks ch s N l).
    pose proof (Ho 0%nat u ltac:(lia) eq_refl).
    specialize (IH i Hi Hr (fun j v Hne Hj => Ho (S j) v ltac:(lia) Hj)). lia.
Qed.

Lemma objects_nonneg s l : 0 <= objects s l.
Proof.
  unfold objects. enough (0 <= pending l) by lia. induction l as [|u l IH]; cbn; [lia|]. destruct (at_pc u); cbn; lia.
Qed.

Lemma rank_other ch s l ch' s' l' i j t t' u :
  Inv ch s l -> l !! i = Some t -> l' = <[i := t']> l -> Inv ch' s' l' -> closer ch s l ch' s' l' t t' ->
  j <> i -> l !! j = Some u -> rank ch' s' (objects s' l') (at_pc u) <= rank ch s (objects s l) (at_pc u).
Proof.
  intros I Hi El I' [_ Hn Hch Hid] Hne Hj.
  assert (Hj' : l' !! j = Some u) by (subst l'; by rewrite list_lookup_insert_ne).
  assert (Ec : hash_held (at_pc u) = true -> ch' = ch).
  { intros Hu. destruct Hch as [|Ht]; [done|]. pose proof (i_hash1 _ _ _ I i t Hi Ht).
    pose proof (i_hash1 _ _ _ I j u Hj Hu). congruence. }
  assert (Eb : forall fp, foo_held (at_pc u) = Some fp -> bucket_of s' fp = bucket_of s fp).
  { intros fp Hu. destruct (i_lock1 _ _ _ I j u fp Hj Hu) as (f & Hf & El').
    destruct (i_lock1 _ _ _ I' j u fp Hj' Hu) as (f' & Hf' & _). unfold bucket_of. rewrite Hf, Hf'.
    destruct (Hid fp f f' Hf Hf') as [->|Hb]; [done|].
    by destruct (held_private ch s l I j u Hj i t fp Hu (not_eq_sym Hne) Hi); apply unready_private, newborn_unready. }
  destruct (at_pc u); cbn [rank hash_held foo_held] in *; try lia; rewrite (Ec eq_refl), ?(Eb _ eq_refl); lia.
Qed.

Definition work (ch : chains) (s : sys) : Z := ranks ch (sh s) (objects (sh s) (thr s)) (thr s).

Lemma step_work ch s s' :
  Inv ch (sh s) (thr s) -> steps s s' -> exists ch', Inv ch' (sh s') (thr s') /\ work ch' s' < work ch s.
Proof.
  intros I H. destruct (step_inv ch s s' I H) as (i & t & t' & ch' & Hi & El & I' & C). exists ch'. split; [done|].
  unfold work. rewrite El at 2. eapply ranks_less; [done|by apply C|].
  intros j u Hne Hj. by apply (rank_other ch (sh s) (thr s) ch' (sh s') (thr s') i j t t' u).
Qed.

(** The lock a statement acquires. *)
Definition wants_hash (p : pc) : bool :=
  match p with A_lockh _ _ | F_lockh _ | R_lockh _ => true | _ => false end.
Definition wants_foo (p : pc) : option Z :=
  match p with A_lockf fp | H_lock fp _ | R_lock fp | R_relock fp => Some fp | _ => None end.

(** The environment lets every request fail or succeed at once. *)
Definition now : choice := Works false.

Lemma lockf_blocks i rs s fp p :
  lock_foo i rs s fp p = Block -> exists f j, heap s !! fp = Some f /\ f_lock f = Locked j.
Proof. unfold lock_foo, deref. destruct (heap s !! fp) as [f|]; [|done]. destruct (f_lock f) eqn:E; try done. eauto. Qed.

Lemma blocked i rs s p :
  exec i rs now s p = Block -> p <> Idle ->
  (wants_hash p = true /\ is_Some (hashlock s)) \/
  (exists fp f j, wants_foo p = Some fp /\ heap s !! fp = Some f /\ f_lock f = Locked j).
Proof.
  destruct p; cbn; try done; intros He _;
    try (right; apply lockf_blocks in He as (f & j & Hf & E); by exists fp, f, j);
    try (left; unfold lock_hash in He; destruct (hashlock s); [by eauto|done]);
    exfalso; revert He; unfold unlock_hash, unlock_foo, deref, goto, return_ref;
    repeat (case_match; try done).
Qed.

(** A thread that has an object locked but not the table does not wait. *)
Lemma holder_runs ch s l i t fp :
  Inv ch s l -> l !! i = Some t -> foo_held (at_pc t) = Some fp -> hash_held (at_pc t) = false ->
  exec i (refs t) now s (at_pc t) <> Block.
Proof.
  intros I Hi Hf Hh He. destruct (blocked _ _ _ _ He) as [[Hw _]|(q & _ & _ & Hw & _)];
    destruct (at_pc t); done.
Qed.

(** In a state where some call is in progress, some thread can go on. *)
Lemma some_thread_runs ch s l :
  Inv ch s l -> (exists i t, l !! i = Some t /\ at_pc t <> Idle) ->
  exists i t, l !! i = Some t /\ at_pc t <> Idle /\ exec i (refs t) now s (at_pc t) <> Block.
Proof.
  intros I (i & t & Hi & Hp).
  assert (W : forall fp f j, heap s !! fp = Some f -> f_lock f = Locked j -> (hashlock s <> Some j) ->
    exists i t, l !! i = Some t /\ at_pc t <> Idle /\ exec i (refs t) now s (at_pc t) <> Block).
  { intros fp f j Hf E Hn. destruct (i_lock2 _ _ _ I fp f j Hf E) as (u & Hj & Hu). exists j, u.
    split; [done|]. split; [by intros Eq; rewrite Eq in Hu|]. apply (holder_runs ch s l j u fp I Hj Hu).
    destruct (hash_held (at_pc u)) eqn:Eh; [|done]. by pose proof (i_hash1 _ _ _ I j u Hj Eh). }
  assert (D : forall r : result, {r = Block} + {r <> Block}) by (intros []; auto).
  destruct (hashlock s) as [h|] eqn:Hl.
  - destruct (i_hash2 _ _ _ I h Hl) as (u & Hh & Hu).
    assert (Hpu : at_pc u <> Idle) by (by intros E; rewrite E in Hu).
    destruct (D (exec h (refs u) now s (at_pc u))) as [He|He]; [|by exists h, u].
    destruct (blocked _ _ _ _ He Hpu) as [[Hw _]|(fp & f & j & Hw & Hf & E)]; [by destruct (at_pc u)|].
    apply (W fp f j Hf E). intros [= <-]. destruct (i_lock2 _ _ _ I fp f h Hf E) as (v & Hv & Hfv).
    rewrite Hh in Hv. injection Hv as <-. by destruct (at_pc u).
  - destruct (D (exec i (refs t) now s (at_pc t))) as [He|He]; [|by exists i, t].
    destruct (blocked _ _ _ _ He Hp) as [[_ [x Hx]]|(fp & f & j & Hw & Hf & E)]; [congruence|].
    by apply (W fp f j Hf E).
Qed.

Lemma all_idle l : Forall (fun t => at_pc t = Idle) l \/ exists i t, l !! i = Some t /\ at_pc t <> Idle.
Proof.
  induction l as [|t l [IH|(i & u & Hi & Hu)]]; [by left| |right; by exists (S i), u].
  destruct (at_pc t) eqn:E; [left; by constructor|..]; right; exists 0%nat, t; by rewrite E.
Qed.

(** ** The properties *)

(** A chain of the table as the program would walk it. *)
Definition table_chain (s : shared) (id : Z) (c : list Z) : Prop := chained (heap s) (bucket s (HASH id)) c.

(** C7. Whatever the interleaving of any number of threads: no statement of
    [foo_alloc], [foo_hold], [foo_find] or [foo_rele] touches freed memory,
    unlocks a mutex it does not own or uses an uninitialised one; the count of
    every object is the number of references to it, at least one; the two locks
    exclude each other's holders; and when [foo_find] is about to return, it
    has either an object of the table with the identity asked for, or none
    exists in the table.  A count overflows only when [INT_MAX] references to
    an object are out. *)
Theorem refcount_safe (n : nat) (s : sys) :
  reachable n s ->
  (forall i t c, thr s !! i = Some t ->
     exec i (refs t) c (sh s) (at_pc t) <> Fault /\
     (exec i (refs t) c (sh s) (at_pc t) = Overflow -> exists fp, total fp (thr s) = INT_MAX)) /\
  (forall fp f, heap (sh s) !! fp = Some f ->
     (exists i t id, thr s !! i = Some t /\ at_pc t = A_set fp id) \/
     (f_count f = total fp (thr s) /\ 1 <= f_count f)) /\
  (forall i j t u, thr s !! i = Some t -> thr s !! j = Some u ->
     (hash_held (at_pc t) = true /\ hash_held (at_pc u) = true \/
      exists fp, foo_held (at_pc t) = Some fp /\ foo_held (at_pc u) = Some fp) -> i = j) /\
  (forall i t id fp c, thr s !! i = Some t -> at_pc t = F_unlockh id fp -> table_chain (sh s) id c ->
     (fp <> 0 -> fp ∈ c /\ obj (sh s) fp (fun f => f_id f = id)) /\
     (fp = 0 -> Forall (fun q => obj (sh s) q (fun f => f_id f <> id)) c)).
Proof.
  intros Hr. destruct (reachable_inv n s Hr) as [ch I]. split_and!.
  - intros i t c Hi. pose proof (exec_safe ch (sh s) (thr s) I i t Hi c) as S.
    destruct (exec _ _ _ _ _); cbn in S; try done. split; [done|]. intros _. destruct S as (fp & f & _ & _ & S). eauto.
  - intros fp f Hf. destruct (i_count _ _ _ I fp f Hf) as [(i & t & Hi & Hb)|H]; [left|by right].
    destruct (at_pc t) eqn:E; try done. injection Hb as ->. by exists i, t, id.
  - intros i j t u Hi Hj [[H1 H2]|(fp & H1 & H2)]; [|by eapply (lock_excl I)].
    pose proof (i_hash1 _ _ _ I i t Hi H1). pose proof (i_hash1 _ _ _ I j u Hj H2). congruence.
  - intros i t id fp c Hi Hp Hc. pose proof (i_facts _ _ _ I i t Hi) as F. unfold facts in F. rewrite Hp in F.
    rewrite (chained_fun _ _ _ _ Hc (i_chain _ _ _ I _ (HASH_range id))). tauto.
Qed.

(** C17. Every call returns.  From any reachable state the statements that can
    be executed without a new call are bounded in number, whatever the
    schedule, and as long as a call is in progress some thread inside a call
    can execute its next statement: no interleaving deadlocks, none runs for
    ever. *)
Theorem refcount_calls_return (n : nat) (s : sys) :
  reachable n s ->
  (exists m, forall k s', nsteps steps k s s' -> (k <= m)%nat) /\
  (forall s', rtc steps s s' ->
     Forall (fun t => at_pc t = Idle) (thr s') \/
     (exists i t, thr s' !! i = Some t /\ at_pc t <> Idle /\
        exec i (refs t) now (sh s') (at_pc t) <> Block /\ exec i (refs t) now (sh s') (at_pc t) <> Fault)).
Proof.
  intros Hr. destruct (reachable_inv n s Hr) as [ch I]. split.
  - exists (Z.to_nat (work ch s)). intros k s' Hk. revert ch I. induction Hk as [s|k s s1 s2 H1 H2 IH]; intros ch I; [lia|].
    destruct (step_work ch s s1 I H1) as (ch1 & I1 & Hw).
    specialize (IH ltac:(eapply rtc_r; [exact Hr|by right]) ch1 I1).
    assert (0 <= work ch1 s1) by (apply ranks_nonneg, objects_nonneg). lia.
  - intros s' Hs.
    assert (Hr' : reachable n s').
    { unfold reachable in *. etrans; [exact Hr|]. clear -Hs. induction Hs; [constructor|]. eapply rtc_l; [by right|done]. }
    destruct (reachable_inv n s' Hr') as [ch' I'].
    destruct (all_idle (thr s')) as [Ha|(i & t & Hi & Hp)]; [by left|right].
    destruct (some_thread_runs ch' (sh s') (thr s') I') as (j & u & Hj & Hpu & He); [by eauto|].
    exists j, u. split_and!; [done..|]. pose proof (exec_safe ch' (sh s') (thr s') I' j u Hj now) as S.
    by destruct (exec _ _ _ _ _).
Qed.

(** ** A run *)

(** One turn of thread [i], and a schedule of turns. *)
Definition turn (i : nat) (c : choice) (s : sys) : option sys :=
  match thr s !! i with
  | None => None
  | Some t =>
      match at_pc t with
      | Idle => match call (refs t) c with Some t' => Some (set_thr i t' (sh s) s) | None => None end
      | p => match exec i (refs t) c (sh s) p with Go s' t' => Some (set_thr i t' s' s) | _ => None end
      end
  end.

Fixpoint run (l : list (nat * choice)) (s : sys) : option sys :=
  match l with
  | [] => Some s
  | (i, c) :: l' => match turn i c s with Some s' => run l' s' | None => None end
  end.

Lemma turn_step i c s s' : turn i c s = Some s' -> calls s s' \/ steps s s'.
Proof.
  unfold turn. destruct (thr s !! i) as [t|] eqn:Hi; [|done].
  destruct (at_pc t) eqn:Hp; rewrite <- ?Hp;
    try (destruct (exec _ _ _ _ _) eqn:E; try done; intros [= <-]; right; by eapply do_step).
  destruct (call _ _) eqn:E; [|done]. intros [= <-]. left. by eapply do_call.
Qed.

Lemma run_reachable n l s s' : reachable n s -> run l s = Some s' -> reachable n s'.
Proof.
  revert s. induction l as [|[i c] l IH]; intros s Hr; cbn; [by intros [= <-]|].
  destruct (turn i c s) as [s1|] eqn:E; [|done]. apply IH. eapply rtc_r; [exact Hr|]. by eapply turn_step.
Qed.

(** Thread 0 creates object 5; thread 1 finds it while thread 0 is releasing it. *)
Definition ex_schedule : list (nat * choice) :=
  (0%nat, Call_alloc 5) :: (0%nat, Memory 8 (Foo 77 Unlocked 77 77)) :: replicate 8 (0%nat, Works true) ++
  (0%nat, Call_rele 8) :: (1%nat, Call_find 5) :: replicate 2 (1%nat, now) ++
  replicate 3 (0%nat, now) ++ replicate 4 (1%nat, now).
Definition ex_state : sys := default (start 2) (run ex_schedule (start 2)).

Lemma ex_reachable : reachable 2 ex_state.
Proof. apply (run_reachable 2 ex_schedule (start 2)); [constructor|]. vm_compute. reflexivity. Qed.

Lemma refcount_safe_witness :
  reachable 2 ex_state /\
  (exists f, heap (sh ex_state) !! 8 = Some f /\ f_count f = 2) /\ total 8 (thr ex_state) = 2.
Proof.
  split; [exact ex_reachable|].
  assert (H : exists f, heap (sh ex_state) !! 8 = Some f /\ f_count f = 2 /\
    2 = f_count f) by (vm_compute; eauto).
  destruct H as (f & Hf & Hc & _). split; [exact (ex_intro _ f (conj Hf Hc))|].
  destruct (refcount_safe 2 ex_state ex_reachable) as (_ & H & _).
  destruct (H 8 f Hf) as [(i & u & id & Hi & Hu)|[E _]]; [|rewrite <- E; exact Hc].
  exfalso. revert Hi Hu. clear. destruct i as [|[|i]]; vm_compute; [intros [= <-]|intros [= <-]|]; done.
Defined.

Lemma refcount_calls_return_witness :
  reachable 2 ex_state /\ exists m, forall k s', nsteps steps k ex_state s' -> (k <= m)%nat.
Proof. split; [exact ex_reachable|]. apply (refcount_calls_return 2 ex_state ex_reachable). Defined.

End RefcountThms.
