(* ===== verification/Bufargs.v ===== *)
(** * Splitting a request into arguments: lib/bufargs.c

    [buf_args] with the [strtok] of musl (src/musl/src/string), on a buffer
    that the calls modify in place; [argv] holds offsets into the buffer, and
    the arguments are the strings found there when the user's function is
    called.  The reference is [words], the maximal runs of characters that are
    not white space. *)

From S2P Require Import Prelude CLib.

Module Bufargs.

Definition MAXARGC : nat := 50.

(** White space for tokenizing arguments: blank, tab, newline. *)
Definition WHITE : bytes := [32; 9; 10].

(** ** The string functions *)

Definition mem (c : Z) (set : bytes) : bool := existsb (Z.eqb c) set.

(** [strspn] and [strcspn]: the length of the longest prefix of characters that
    are in the set, or are not; both stop at the null byte. *)
Fixpoint strspn (s set : bytes) : nat :=
  match s with
  | c :: s' => if negb (c =? NUL) && mem c set then S (strspn s' set) else 0
  | [] => 0
  end.
Fixpoint strcspn (s set : bytes) : nat :=
  match s with
  | c :: s' => if negb (c =? NUL) && negb (mem c set) then S (strcspn s' set) else 0
  | [] => 0
  end.

(** [strtok]: the buffer and the static pointer [p] are its state; [s] is the
    argument, [None] for the null pointer.  The result is the offset of the
    token. *)
Definition strtok (s : option nat) (set : bytes) (buf : bytes) (p : option nat)
    : option nat * bytes * option nat :=
  match (match s with Some o => Some o | None => p end) with
  | None => (None, buf, p)
  | Some o =>
      let o := (o + strspn (drop o buf) set)%nat in
      if nth o buf 0 =? NUL then (None, buf, None) else
      let q := (o + strcspn (drop o buf) set)%nat in
      if nth q buf 0 =? NUL then (Some o, buf, None)
      else (Some o, <[q := NUL]> buf, Some (S q))
  end.

(** The loop of [buf_args]: [argc] is the index of the last argument so far;
    the result is the final buffer and [argv], or nothing when there are too
    many arguments.  [fuel] bounds the rounds; there are at most [MAXARGC]. *)
Fixpoint args_loop (fuel : nat) (buf : bytes) (p : option nat) (argc : nat) (argv : list nat)
    : option (bytes * list nat) :=
  match fuel with
  | O => None
  | S fuel' =>
      match strtok None WHITE buf p with
      | (None, buf, _) => Some (buf, argv)
      | (Some ptr, buf, p) =>
          let argc := S argc in
          if (MAXARGC - 1 <=? argc)%nat then None
          else args_loop fuel' buf p argc (argv ++ [ptr])
      end
  end.

Definition arg_string (buf : bytes) (o : nat) : bytes := cstr (drop o buf).

(** [buf_args(buf, optfunc)]: [None] is the return value -1 of the parser
    itself; otherwise what [optfunc] returns. *)
Definition buf_args {A} (buf : bytes) (optfunc : nat -> list bytes -> A) : option A :=
  match strtok (Some 0%nat) WHITE buf None with
  | (None, _, _) => None
  | (Some _, buf, p) =>
      match args_loop MAXARGC buf p 0 [0%nat] with
      | None => None
      | Some (buf, argv) => Some (optfunc (length argv) (map (arg_string buf) argv))
      end
  end.

(** ** Words *)

Definition white (c : Z) : bool := mem c WHITE.
#[global] Arguments white : simpl never.
#[global] Arguments mem : simpl never.

(** The maximal runs of characters that are not white, [w] being the run in
    progress. *)
Fixpoint split (s w : bytes) : list bytes :=
  match s with
  | [] => match w with [] => [] | _ => [w] end
  | c :: s' => if white c then match w with [] => split s' [] | _ => w :: split s' [] end
               else split s' (w ++ [c])
  end.
Definition words (s : bytes) : list bytes := split s [].

(** Blanks at the start stay part of the first argument. *)
Definition arguments (s : bytes) : list bytes :=
  match words s with
  | [] => []
  | w :: ws => (take (strspn s WHITE) s ++ w) :: ws
  end.

Lemma split_nonul s : forall w, nonul s -> nonul w -> Forall nonul (split s w).
Proof.
  induction s as [|c s IH]; intros w Hs Hw; cbn [split].
  - destruct w; [by apply Forall_nil|]. by apply Forall_singleton.
  - apply Forall_cons_iff in Hs as [Hc Hs]. destruct (white c).
    + destruct w; [by apply IH|]. apply Forall_cons; [done|]. apply IH; [done|by apply Forall_nil].
    + apply IH; [done|]. apply nonul_app. split; [done|]. by apply Forall_singleton.
Qed.

Lemma arguments_nonul s : nonul s -> Forall nonul (arguments s).
Proof.
  intros Hs. pose proof (split_nonul s [] Hs (Forall_nil _)) as H. unfold arguments, words in *.
  destruct (split s []) as [|w ws]; [done|]. apply Forall_cons_iff in H as [Hw Hws].
  constructor; [|done]. apply nonul_app. split; [by apply Forall_take|done].
Qed.

(** ** Tokens *)

Lemma split_word s w : Forall (fun c => white c = false) w -> forall r,
  split (w ++ s) r = split s (r ++ w).
Proof.
  intros Hw. induction Hw as [|c w Hc Hw IH]; intros r; cbn; [by rewrite app_nil_r|].
  rewrite Hc, IH, <- app_assoc. done.
Qed.

Lemma split_white s b : Forall (fun c => white c = true) b -> split (b ++ s) [] = split s [].
Proof. intros Hb. induction Hb as [|c b Hc Hb IH]; cbn; [done|]. by rewrite Hc. Qed.

Lemma white_nonul c : white c = true -> c <> 0.
Proof. intros H ->. done. Qed.

(** A string is blanks, a word, and the rest, which is empty or starts with a
    blank; or only blanks. *)
Lemma next_word s :
  nonul s -> exists b w r, s = b ++ w ++ r /\ Forall (fun c => white c = true) b /\
    Forall (fun c => white c = false) w /\ (w = [] -> r = []) /\
    match r with [] => True | c :: _ => white c = true end.
Proof.
  induction s as [|c s IH]; intros Hz.
  - by exists [], [], [].
  - apply Forall_cons_iff in Hz as [Hc Hz]. destruct (IH Hz) as (b & w & r & -> & Hb & Hw & Hwr & Hr).
    destruct (white c) eqn:Ec.
    + exists (c :: b), w, r. split_and!; auto.
    + destruct b as [|c' b].
      * exists [], (c :: w), r. split_and!; auto. done.
      * exists [], [c], ((c' :: b) ++ w ++ r). apply Forall_cons_iff in Hb as [Hc' Hb]. split_and!; auto. done.
Qed.

Lemma strspn_app b s :
  Forall (fun c => white c = true) b -> match s with [] => True | c :: _ => white c = false end ->
  strspn (b ++ s) WHITE = length b.
Proof.
  intros Hb Hs. induction Hb as [|c b Hc Hb IH]; cbn.
  - destruct s as [|c s]; cbn; [done|]. unfold white in Hs. rewrite Hs, andb_false_r. done.
  - rewrite (proj2 (Z.eqb_neq c NUL)) by (by apply white_nonul). unfold white in Hc. by rewrite Hc, IH.
Qed.

Lemma strcspn_app w s :
  nonul w -> Forall (fun c => white c = false) w ->
  match s with [] => True | c :: _ => c = 0 \/ white c = true end -> strcspn (w ++ s) WHITE = length w.
Proof.
  intros Hz Hw Hs. induction Hw as [|c w Hc Hw IH]; cbn.
  - destruct s as [|c s]; cbn; [done|]. unfold white in Hs. destruct Hs as [->|Hs]; [done|].
    by rewrite Hs, andb_false_r.
  - apply Forall_cons_iff in Hz as [Hc0 Hz]. rewrite (proj2 (Z.eqb_neq c NUL)) by done.
    unfold white in Hc. by rewrite Hc, IH.
Qed.
(** One call of [strtok] on a buffer that holds the string [b ++ w ++ r] behind
    [pre]: it finds the word [w], and separates it from what follows. *)
Lemma strtok_spec s p pre b w r post :
  match s with Some o => Some o | None => p end = Some (length pre) ->
  nonul (b ++ w ++ r) -> Forall (fun c => white c = true) b -> Forall (fun c => white c = false) w ->
  (w = [] -> r = []) -> match r with [] => True | c :: _ => white c = true end ->
  strtok s WHITE (pre ++ (b ++ w ++ r) ++ 0 :: post) p =
  match w, r with
  | [], _ => (None, pre ++ (b ++ w ++ r) ++ 0 :: post, None)
  | _, [] => (Some (length (pre ++ b)), pre ++ (b ++ w ++ r) ++ 0 :: post, None)
  | _, _ :: r' => (Some (length (pre ++ b)), pre ++ (b ++ w ++ 0 :: r') ++ 0 :: post, Some (length (pre ++ b ++ w ++ [0])))
  end.
Proof.
  intros Hs Hz Hb Hw Hwr Hr. unfold strtok. rewrite Hs. cbv zeta.
  apply nonul_app in Hz as [Hzb Hz]. apply nonul_app in Hz as [Hzw Hzr].
  rewrite (drop_eq pre ((b ++ w ++ r) ++ 0 :: post)) by done.
  assert (E1 : strspn ((b ++ w ++ r) ++ 0 :: post) WHITE = length b).
  { rewrite <- !app_assoc. apply strspn_app; [done|].
    destruct w as [|c w]; [rewrite Hwr by done; done|]. cbn. by apply Forall_cons_iff in Hw as [Hc _]. }
  rewrite E1, <- length_app.
  replace (pre ++ (b ++ w ++ r) ++ 0 :: post) with ((pre ++ b) ++ w ++ r ++ 0 :: post) by (by apps).
  rewrite (drop_eq (pre ++ b) (w ++ r ++ 0 :: post)) by done.
  rewrite app_nth2, Nat.sub_diag by lia.
  destruct w as [|c w].
  { rewrite Hwr by done. cbn. by apps. }
  apply Forall_cons_iff in Hzw as [Hc0 Hzw]. cbn [nth app]. rewrite (proj2 (Z.eqb_neq c NUL)) by done.
  assert (E2 : strcspn ((c :: w) ++ r ++ 0 :: post) WHITE = length (c :: w)).
  { apply strcspn_app; [by constructor|done|]. destruct r as [|x r]; cbn; auto. }
  cbn [app] in E2. rewrite E2.
  replace ((pre ++ b) ++ c :: w ++ r ++ 0 :: post) with (((pre ++ b) ++ c :: w) ++ r ++ 0 :: post) by (by apps).
  rewrite <- length_app, app_nth2, Nat.sub_diag by lia.
  destruct r as [|x r]; [cbn; f_equal; f_equal; by apps|]. cbn [nth app].
  rewrite (proj2 (Z.eqb_neq x NUL)) by (by apply white_nonul).
  f_equal; [f_equal|f_equal; len].
  rewrite insert_app_r_alt, Nat.sub_diag by lia. cbn. by apps.
Qed.

Lemma words_split b w r :
  Forall (fun c => white c = true) b -> Forall (fun c => white c = false) w -> w <> [] ->
  match r with [] => True | c :: _ => white c = true end -> words (b ++ w ++ r) = w :: words (tl r).
Proof.
  intros Hb Hw Hne Hr. unfold words. rewrite split_white, split_word by done. cbn [app].
  destruct r as [|c r]; cbn; [by destruct w|]. rewrite Hr. by destruct w.
Qed.

Lemma words_blank b : Forall (fun c => white c = true) b -> words b = [].
Proof. intros Hb. unfold words. rewrite <- (app_nil_r b). by rewrite split_white. Qed.

Lemma arg_string_at pre w post : nonul w -> arg_string (pre ++ w ++ 0 :: post) (length pre) = w.
Proof. intros Hw. unfold arg_string. rewrite drop_app_length. by apply cstr_end. Qed.

(** The loop collects the words of the string behind [pre]. *)
Lemma args_loop_spec n : forall s pre post fuel argc argv p,
  (length s < n)%nat -> nonul s -> (p = Some (length pre) \/ p = None /\ s = []) ->
  (fuel + argc = MAXARGC)%nat -> (argc < MAXARGC - 1)%nat ->
  if (argc + length (words s) <? MAXARGC - 1)%nat
  then exists s' offs, args_loop fuel (pre ++ s ++ 0 :: post) p argc argv = Some (pre ++ s' ++ 0 :: post, argv ++ offs) /\
         length s' = length s /\ map (arg_string (pre ++ s' ++ 0 :: post)) offs = words s
  else args_loop fuel (pre ++ s ++ 0 :: post) p argc argv = None.
Proof.
  unfold MAXARGC. induction n as [|n IH]; intros s pre post fuel argc argv p Hn Hz Hp Hf Ha; [lia|].
  destruct fuel as [|fuel]; [lia|]. cbn [args_loop]. cbv zeta. destruct Hp as [Hp|[-> ->]].
  2: { change (words []) with (@nil bytes). cbn [length strtok]. destruct (Nat.ltb_spec (argc + 0) (50 - 1)); [|lia].
       exists [], []. by rewrite app_nil_r. }
  destruct (next_word s Hz) as (b & w & r & -> & Hb & Hw & Hwr & Hr).
  rewrite (strtok_spec None p pre b w r post) by done. destruct w as [|c w].
  { rewrite Hwr by done. cbn [app]. rewrite app_nil_r, words_blank by done. cbn [length].
    destruct (Nat.ltb_spec (argc + 0) (50 - 1)); [|lia]. exists b, []. rewrite app_nil_r. by split_and!. }
  rewrite words_split by done. cbn [length].
  apply nonul_app in Hz as [Hzb Hz]. apply nonul_app in Hz as [Hzw Hzr].
  destruct r as [|x r].
  - change (words (tl [])) with (@nil bytes). cbn [length]. destruct (Nat.leb_spec (MAXARGC - 1) (S argc)) as [Hge|Hlt]; unfold MAXARGC in *.
    + destruct (Nat.ltb_spec (argc + 1) (50 - 1)); [lia|done].
    + destruct (Nat.ltb_spec (argc + 1) (50 - 1)); [|lia]. destruct fuel as [|fuel]; [lia|]. cbn [args_loop strtok].
      exists (b ++ (c :: w) ++ []), [length (pre ++ b)]. split_and!; [done..|]. cbn [map].
      replace (pre ++ (b ++ (c :: w) ++ []) ++ 0 :: post) with ((pre ++ b) ++ (c :: w) ++ 0 :: post)
        by (rewrite app_nil_r; by apps).
      by rewrite arg_string_at.
  - apply Forall_cons_iff in Hzr as [Hx Hzr]. cbn [tl].
    specialize (IH r (pre ++ b ++ (c :: w) ++ [0]) post fuel (S argc) (argv ++ [length (pre ++ b)])
      (Some (length (pre ++ b ++ (c :: w) ++ [0]))) ltac:(len) Hzr ltac:(by left) ltac:(lia)).
    replace ((pre ++ b ++ (c :: w) ++ [0]) ++ r ++ 0 :: post)
      with (pre ++ (b ++ (c :: w) ++ 0 :: r) ++ 0 :: post) in IH by (by apps).
    destruct (Nat.leb_spec (MAXARGC - 1) (S argc)) as [Hge|Hlt]; unfold MAXARGC in *.
    + destruct (Nat.ltb_spec (argc + S (length (words r))) (50 - 1)); [lia|done].
    + specialize (IH ltac:(lia)). replace (argc + S (length (words r)))%nat with (S argc + length (words r))%nat by lia.
      destruct (S argc + length (words r) <? 50 - 1)%nat; [|done].
      destruct IH as (s' & offs & -> & Hl & Hm). exists (b ++ (c :: w) ++ 0 :: s'), (length (pre ++ b) :: offs).
      replace (pre ++ (b ++ (c :: w) ++ 0 :: s') ++ 0 :: post)
        with ((pre ++ b ++ (c :: w) ++ [0]) ++ s' ++ 0 :: post) by (by apps).
      split_and!; [by apps|len|]. cbn [map]. f_equal; [|done].
      replace ((pre ++ b ++ (c :: w) ++ [0]) ++ s' ++ 0 :: post)
        with ((pre ++ b) ++ (c :: w) ++ 0 :: (s' ++ 0 :: post)) by (by apps).
      by apply arg_string_at.
Qed.

(** The parser computes the words. *)
Lemma buf_args_spec {A} (s post : bytes) (optfunc : nat -> list bytes -> A) :
  nonul s ->
  buf_args (s ++ 0 :: post) optfunc =
  if (0 <? length (words s))%nat && (length (words s) <? 50)%nat
  then Some (optfunc (length (words s)) (arguments s)) else None.
Proof.
  intros Hz. unfold buf_args, arguments.
  destruct (next_word s Hz) as (b & w & r & -> & Hb & Hw & Hwr & Hr).
  change ((b ++ w ++ r) ++ 0 :: post) with ([] ++ (b ++ w ++ r) ++ 0 :: post).
  rewrite (strtok_spec (Some 0%nat) None [] b w r post) by done. destruct w as [|c w].
  { rewrite Hwr by done. cbn [app]. by rewrite app_nil_r, words_blank. }
  rewrite words_split by done. cbn [length app].
  apply nonul_app in Hz as [Hzb Hz]. apply nonul_app in Hz as [Hzw Hzr].
  rewrite strspn_app; [|done|]; [|cbn; by apply Forall_cons_iff in Hw as [Hc _]]. rewrite take_app_length.
  assert (Hbw : nonul (b ++ c :: w)) by (by apply nonul_app).
  change (0 <? S _)%nat with true. cbn [andb].
  destruct r as [|x r]; cbn [tl].
  - change (words []) with (@nil bytes). cbn [length]. change (1 <? 50)%nat with true. cbn iota.
    change MAXARGC with (S 49). cbn [args_loop strtok length map]. do 3 f_equal.
    unfold arg_string. rewrite drop_0, app_nil_r. apply (cstr_end (b ++ c :: w)). done.
  - apply Forall_cons_iff in Hzr as [Hx Hzr].
    pose proof (args_loop_spec (S (length r)) r (b ++ (c :: w) ++ [0]) post MAXARGC 0 [0%nat]
      (Some (length (b ++ (c :: w) ++ [0]))) ltac:(lia) Hzr ltac:(by left) eq_refl ltac:(unfold MAXARGC; lia)) as L.
    replace ((b ++ (c :: w) ++ [0]) ++ r ++ 0 :: post) with ((b ++ c :: w ++ 0 :: r) ++ 0 :: post) in L by (by apps).
    change ((c :: w) ++ [0]) with (c :: w ++ [0]) in L. change (MAXARGC - 1)%nat with (50 - 1)%nat in L.
    replace (S (length (words r)) <? 50)%nat with (0 + length (words r) <? 50 - 1)%nat
      by (apply eq_iff_eq_true; rewrite !Nat.ltb_lt; lia).
    destruct (0 + length (words r) <? 50 - 1)%nat; [|by rewrite L].
    destruct L as (s' & offs & -> & Hl & Hm). cbn [length app map]. do 2 f_equal.
    + f_equal. rewrite <- Hm. by rewrite length_map.
    + f_equal; [|done]. unfold arg_string. rewrite drop_0.
      replace ((b ++ c :: w ++ [0]) ++ s' ++ 0 :: post) with ((b ++ c :: w) ++ 0 :: s' ++ 0 :: post) by (by apps).
      by apply cstr_end.
Qed.



End Bufargs.
