(* ===== verification/OpenSys.v ===== *)
(** * The system as the open server and its clients see it

    The kernel's side of src/apue.3e/ipc2/opend and ipc2/open: descriptors that
    refer to open file descriptions, stream connections between processes that
    carry data and descriptors, and the names sockets are bound to.  A process
    has a table of descriptors; what a descriptor means is the number of an open
    file description, which several processes can have descriptors for. *)

From S2P Require Import Prelude CLib Posix Stream Errlog.

Module OpenSys.

Definition EBADF : Z := 9.
Definition ENOMEM : Z := 12.
Definition ENOTCONN : Z := 107.
Definition EADDRINUSE : Z := 98.
Definition ECONNREFUSED : Z := 111.
Definition SIGPIPE : Z := 13.
Definition S_IRWXU : Z := 448.
Definition S_IRWXG : Z := 56.
Definition S_IRWXO : Z := 7.

Record inode := Inode {
  i_sock : bool; i_mode : Z; i_uid : Z; i_atime : Z; i_mtime : Z; i_ctime : Z }.

(** What a receive finds: data, with an open file description if a message with
    a descriptor is the last of it; or an error. *)
Inductive piece :=
| Piece (d : bytes) (rights : option Z)
| Broken (e : Z).

(** One end of a connection: what the coming receives find (nothing more: the
    other end is closed), the messages sent, how much the coming sends accept
    (when nothing limits them, everything), and whether the other end is open. *)
Record conn := Conn {
  rx : list piece;
  tx : list (bytes * option Z);
  room : list wr;
  alive : bool }.

(** The process and its surroundings: the descriptor table, the connections by
    open file description, the names in the file system, the connections to come
    (for [connect] and [accept], with the name the other end is bound to), the
    calls to come that fail, the number of allocated blocks, the next open file
    description, the time, the process and user, the file mode mask, the
    static control buffers of sendfd.c and recvfd.c, and the standard streams
    with the log. *)
Record os := Os {
  table : gmap Z Z;
  conns : gmap Z conn;
  names : gmap bytes inode;
  coming : list (bytes * conn);
  faults : list (option Z);
  heap : nat;
  next : Z;
  now : Z;
  pid : Z;
  uid : Z;
  umask : Z;
  snd_cmptr : bool;
  rcv_cmptr : bool;
  io : Errlog.proc }.

Definition set_table x s := Os x (conns s) (names s) (coming s) (faults s) (heap s) (next s) (now s) (pid s) (uid s) (umask s) (snd_cmptr s) (rcv_cmptr s) (io s).
Definition set_conns x s := Os (table s) x (names s) (coming s) (faults s) (heap s) (next s) (now s) (pid s) (uid s) (umask s) (snd_cmptr s) (rcv_cmptr s) (io s).
Definition set_names x s := Os (table s) (conns s) x (coming s) (faults s) (heap s) (next s) (now s) (pid s) (uid s) (umask s) (snd_cmptr s) (rcv_cmptr s) (io s).
Definition set_coming x s := Os (table s) (conns s) (names s) x (faults s) (heap s) (next s) (now s) (pid s) (uid s) (umask s) (snd_cmptr s) (rcv_cmptr s) (io s).
Definition set_faults x s := Os (table s) (conns s) (names s) (coming s) x (heap s) (next s) (now s) (pid s) (uid s) (umask s) (snd_cmptr s) (rcv_cmptr s) (io s).
Definition set_heap x s := Os (table s) (conns s) (names s) (coming s) (faults s) x (next s) (now s) (pid s) (uid s) (umask s) (snd_cmptr s) (rcv_cmptr s) (io s).
Definition set_next x s := Os (table s) (conns s) (names s) (coming s) (faults s) (heap s) x (now s) (pid s) (uid s) (umask s) (snd_cmptr s) (rcv_cmptr s) (io s).
Definition set_snd x s := Os (table s) (conns s) (names s) (coming s) (faults s) (heap s) (next s) (now s) (pid s) (uid s) (umask s) x (rcv_cmptr s) (io s).
Definition set_rcv x s := Os (table s) (conns s) (names s) (coming s) (faults s) (heap s) (next s) (now s) (pid s) (uid s) (umask s) (snd_cmptr s) x (io s).
Definition set_sio x s := Os (table s) (conns s) (names s) (coming s) (faults s) (heap s) (next s) (now s) (pid s) (uid s) (umask s) (snd_cmptr s) (rcv_cmptr s) x.

Definition on_io {A} : M Errlog.proc A -> M os A := zoom io set_sio.

Definition set_errno (e : Z) : M os unit :=
  on_io (modify (fun p => Errlog.Proc (Errlog.pending p) (Errlog.written p) (Errlog.sys_log p) e
                            (Errlog.log_to_stderr p) (Errlog.opened p))).
Definition get_errno : M os Z := let* s := get in ret (Errlog.errno (io s)).

(** A failed call. *)
Definition failed {A} (r : A) (e : Z) : M os A := set_errno e ;;; ret r.

(** A call that can fail: if the next of the coming faults is an error, it
    does. *)
Definition may_fail {A} (r : A) (m : M os A) : M os A := fun s =>
  match faults s with
  | [] => m s
  | None :: l => m (set_faults l s)
  | Some e :: l => failed r e (set_faults l s)
  end.

(** ** Memory and descriptors *)

Definition malloc : M os bool :=
  may_fail false (modify (fun s => set_heap (S (heap s)) s) ;;; ret true).
Definition free : M os unit := fun s =>
  match heap s with
  | O => (Stop Crash, s)
  | S n => (Ret tt, set_heap n s)
  end.

(** A descriptor for an open file description: the lowest one available. *)
Definition install (o : Z) : M os Z := fun s =>
  let fd := lowest_free (S (size (table s))) 0 (table s) in
  (Ret fd, set_table (<[fd := o]> (table s)) s).

Definition fresh_ofd : M os Z := fun s => (Ret (next s), set_next (next s + 1) s).

Definition close (fd : Z) : M os unit := modify (fun s => set_table (delete fd (table s)) s).

(** ** Connections *)

(** What a descriptor is connected to. *)
Definition connection (s : os) (fd : Z) : option (Z * conn) :=
  match table s !! fd with
  | None => None
  | Some o => match conns s !! o with None => None | Some c => Some (o, c) end
  end.

Definition set_conn (o : Z) (c : conn) (s : os) : os := set_conns (<[o := c]> (conns s)) s.

Definition append (d : bytes) (r : option Z) (t : list (bytes * option Z)) : list (bytes * option Z) :=
  match d with [] => t | _ => t ++ [(d, r)] end.

(** [send], for [write], [writev] and [sendmsg]: the count.  A message to a
    closed end kills the process. *)
Definition send (fd : Z) (d : bytes) (r : option Z) : M os Z := fun s =>
  match connection s fd with
  | None => failed (-1) (match table s !! fd with None => EBADF | Some _ => ENOTCONN end) s
  | Some (o, c) =>
      if alive c then
        match room c with
        | [] => (Ret (Z.of_nat (length d)), set_conn o (Conn (rx c) (append d r (tx c)) [] true) s)
        | Accept k :: l =>
            (Ret (Z.of_nat (length (take k d))), set_conn o (Conn (rx c) (append (take k d) r (tx c)) l true) s)
        | WErr e :: l => failed (-1) e (set_conn o (Conn (rx c) (tx c) l true) s)
        end
      else (Stop (Killed SIGPIPE), s)
  end.

Definition write (fd : Z) (d : bytes) : M os Z := send fd d None.
Definition writev (fd : Z) (ds : list bytes) : M os Z := send fd (concat ds) None.

(** [sendmsg], with a control message for a descriptor or without. *)
Definition sendmsg (fd : Z) (d : bytes) (control : option Z) : M os Z := fun s =>
  match control with
  | None => send fd d None s
  | Some f => match table s !! f with
              | None => failed (-1) EBADF s
              | Some o => send fd d (Some o) s
              end
  end.

(** The next of what a connection delivers: the count, the data, and the open
    file description that came with it.  What does not fit stays, with the
    description, which belongs to the last message. *)
Definition receive (fd : Z) (n : nat) : M os (Z * bytes * option Z) := fun s =>
  match connection s fd with
  | None => failed (-1, [], None) (match table s !! fd with None => EBADF | Some _ => ENOTCONN end) s
  | Some (o, c) =>
      match rx c with
      | [] => (Ret (0, [], None), s)
      | Broken e :: l => failed (-1, [], None) e (set_conn o (Conn l (tx c) (room c) (alive c)) s)
      | Piece d r :: l =>
          if (length d <=? n)%nat
          then (Ret (Z.of_nat (length d), d, r), set_conn o (Conn l (tx c) (room c) (alive c)) s)
          else (Ret (Z.of_nat n, take n d, None),
                set_conn o (Conn (Piece (drop n d) r :: l) (tx c) (room c) (alive c)) s)
      end
  end.

(** [read]: a description that comes with the data is lost. *)
Definition read (fd : Z) (n : nat) : M os (Z * bytes) :=
  let* x := receive fd n in ret x.1.

(** [recvmsg] with a control buffer: the description gets a descriptor. *)
Definition recvmsg (fd : Z) (n : nat) : M os (Z * bytes * option Z) :=
  let* x := receive fd n in
  match x.2 with
  | None => ret x
  | Some o => let* f := install o in ret (x.1, Some f)
  end.

(** [write(STDERR_FILENO, ...)]. *)
Definition write_stderr (d : bytes) : M os Z :=
  may_fail (-1) (on_io (Errlog.fputs_stderr d) ;;; ret (Z.of_nat (length d))).
Definition printf_stdout (d : bytes) : M os unit :=
  on_io (modify (fun p => Errlog.set_io (Errlog.pending p ++ d) (Errlog.written p) p)).

(** ** Socket names *)

Definition socket : M os Z :=
  may_fail (-1) (let* o := fresh_ofd in install o).

Definition unlink (path : bytes) : M os Z := fun s =>
  match names s !! path with
  | None => failed (-1) ENOENT s
  | Some _ => (Ret 0, set_names (delete path (names s)) s)
  end.

(** The mode of a new socket. *)
Definition new_mode (umask : Z) : Z := Z.ldiff 511 umask.
#[global] Arguments new_mode : simpl never.

Definition sys_bind (fd : Z) (path : bytes) : M os Z :=
  may_fail (-1) (fun s =>
    match names s !! path with
    | Some _ => failed (-1) EADDRINUSE s
    | None => (Ret 0, set_names (<[path := Inode true (new_mode (umask s)) (uid s) (now s) (now s) (now s)]> (names s)) s)
    end).

Definition chmod (path : bytes) (mode : Z) : M os Z :=
  may_fail (-1) (fun s =>
    match names s !! path with
    | None => failed (-1) ENOENT s
    | Some i => (Ret 0, set_names (<[path := Inode (i_sock i) mode (i_uid i) (i_atime i) (i_mtime i) (now s)]> (names s)) s)
    end).

Definition stat (path : bytes) : M os (Z * inode) :=
  may_fail (-1, Inode false 0 0 0 0 0) (fun s =>
    match names s !! path with
    | None => failed (-1, Inode false 0 0 0 0 0) ENOENT s
    | Some i => (Ret (0, i), s)
    end).

Definition listen (fd qlen : Z) : M os Z := may_fail (-1) (ret 0).

(** [connect] to a socket that is bound to the name. *)
Definition connect (fd : Z) (path : bytes) : M os Z :=
  may_fail (-1) (fun s =>
    match names s !! path, table s !! fd, coming s with
    | None, _, _ => failed (-1) ENOENT s
    | Some i, Some o, (_, c) :: l =>
        if i_sock i then (Ret 0, set_conn o c (set_coming l s)) else failed (-1) ECONNREFUSED s
    | _, _, _ => failed (-1) ECONNREFUSED s
    end).

(** [accept]: the new descriptor and the name of the other end.  Without a
    client to come it waits for ever. *)
Definition accept (fd : Z) : M os (Z * bytes) :=
  may_fail (-1, []) (fun s =>
    match coming s with
    | [] => (Stop Hang, s)
    | (name, c) :: l =>
        (let* o := fresh_ofd in
         let* f := install o in
         modify (set_conn o c) ;;; ret (f, name)) (set_coming l s)
    end).

Definition time : M os Z := let* s := get in ret (now s).
Definition getpid : M os Z := let* s := get in ret (pid s).

End OpenSys.
