(* ===== verification/Unixconn.v ===== *)
(** * Connections with an authenticated client: lib/cliconn.c, servlisten.c
      and servaccept.c

    A client binds its socket to a name of its own before it connects, with a
    mode that lets only its owner use it; the server finds the client's user in
    the i-node of that name.  The model runs the three functions on the system
    of [OpenSys], in which any call can fail. *)

From S2P Require Import Prelude CLib Posix Errlog OpenSys.

Module Unixconn.
Import OpenSys.

Definition ENAMETOOLONG : Z := 36.

(** [sizeof(un.sun_path)]. *)
Definition SUN_PATH : Z := 108.

Definition CLI_PATH : bytes := str "/var/tmp/".
Definition CLI_PERM : Z := S_IRWXU.

(** [%05ld] *)
Definition dec05 (n : Z) : bytes := replicate (5 - length (dec n)) 48 ++ dec n.

Definition cli_path (pid : Z) : bytes := cstr (snprintf (Z.to_nat SUN_PATH) (CLI_PATH ++ dec05 pid)).

(** The code at the label [errout] of [cli_conn]. *)
Definition cli_errout (fd : Z) (path : bytes) (rval : Z) (do_unlink : bool) : M os Z :=
  let* err := get_errno in
  close fd ;;;
  (if do_unlink then unlink path ;;; ret tt else ret tt) ;;;
  set_errno err ;;;
  ret rval.

Definition cli_conn (name : bytes) : M os Z :=
  if SUN_PATH <=? strlen name then set_errno ENAMETOOLONG ;;; ret (-1) else
  let* fd := socket in
  if fd <? 0 then ret (-1) else
  let* p := getpid in
  let path := cli_path p in
  printf_stdout (str "file is " ++ path ++ [10]) ;;;
  unlink path ;;;
  let* r := sys_bind fd path in
  if r <? 0 then cli_errout fd path (-2) false else
  let* r := chmod path CLI_PERM in
  if r <? 0 then cli_errout fd path (-3) true else
  let* r := connect fd (cstr (snprintf (Z.to_nat SUN_PATH) (cstr name))) in
  if r <? 0 then cli_errout fd path (-4) true else
  ret fd.

Definition QLEN : Z := 10.

Definition serv_errout (fd rval : Z) : M os Z :=
  let* err := get_errno in
  close fd ;;;
  set_errno err ;;;
  ret rval.

Definition serv_listen (name : bytes) : M os Z :=
  if SUN_PATH <=? strlen name then set_errno ENAMETOOLONG ;;; ret (-1) else
  let* fd := socket in
  if fd <? 0 then ret (-2) else
  unlink (cstr name) ;;;
  let* r := sys_bind fd (cstr (snprintf (Z.to_nat SUN_PATH) (cstr name))) in
  if r <? 0 then serv_errout fd (-3) else
  let* r := listen fd QLEN in
  if r <? 0 then serv_errout fd (-4) else
  ret fd.

Definition STALE : Z := 30.

(** The code at the label [errout] of [serv_accept]. *)
Definition accept_errout (clifd rval : Z) : M os (Z * option Z) :=
  let* err := get_errno in
  close clifd ;;;
  free ;;;
  set_errno err ;;;
  ret (rval, None).

(** The result is the return value and what is stored through [uidptr].  The
    name is copied to an array of 109 bytes. *)
Definition serv_accept (listenfd : Z) : M os (Z * option Z) :=
  let* ok := malloc in
  if negb ok then ret (-1, None) else
  let* a := accept listenfd in
  let clifd := a.1 in
  if clifd <? 0 then free ;;; ret (-2, None) else
  if SUN_PATH <? Z.of_nat (length a.2) then stop Crash else
  let name := cstr (a.2 ++ [NUL]) in
  let* st := stat name in
  let statbuf := st.2 in
  if st.1 <? 0 then accept_errout clifd (-3) else
  if negb (i_sock statbuf) then accept_errout clifd (-4) else
  if negb (Z.land (i_mode statbuf) (Z.lor S_IRWXG S_IRWXO) =? 0) || negb (Z.land (i_mode statbuf) S_IRWXU =? S_IRWXU)
  then accept_errout clifd (-5) else
  let* t := time in
  let staletime := t - STALE in
  if (i_atime statbuf <? staletime) || (i_ctime statbuf <? staletime) || (i_mtime statbuf <? staletime)
  then accept_errout clifd (-6) else
  unlink name ;;;
  free ;;;
  ret (clifd, Some (i_uid statbuf)).

(** ** Runs *)

Definition errno (s : os) : Z := Errlog.errno (io s).

(** The error of a call that the system made fail. *)
Definition refused (s s' : os) : Prop := exists l, faults s = l ++ Some (errno s') :: faults s'.

(** An i-node a client can have made for itself just now. *)
Definition genuine (t : Z) (i : inode) : Prop :=
  i_sock i = true /\ Z.land (i_mode i) (Z.lor S_IRWXG S_IRWXO) = 0 /\ Z.land (i_mode i) S_IRWXU = S_IRWXU /\
  t - STALE <= i_atime i /\ t - STALE <= i_ctime i /\ t - STALE <= i_mtime i.

(** ** The client *)

Lemma cli_errout_spec fd path rval (b : bool) s :
  exists s', cli_errout fd path rval b s = (Ret rval, s') /\
    table s' = delete fd (table s) /\ conns s' = conns s /\ faults s' = faults s /\ errno s' = errno s /\
    names s' = if b then delete path (names s) else names s.
Proof.
  unfold cli_errout, get_errno, close, unlink, Prelude.bind, get, ret, modify, set_errno, on_io, zoom.
  destruct b; cbn; [|by eexists].
  destruct (names s !! path) eqn:E; cbn; eexists; (split; [reflexivity|]); cbn; split_and!; try done.
  by rewrite delete_id.
Qed.

(** Everything but the faults to come and the standard streams. *)
Definition rest (s : os) :=
  (table s, conns s, names s, coming s, heap s, next s, now s, pid s, uid s, umask s).

(** A fallible call either fails, and leaves everything but [errno] as it was,
    or does what it is for; the faults behind it stay. *)
Lemma wp_may_fail {A} (r : A) m Q s :
  (forall s', faults s = Some (errno s') :: faults s' -> rest s' = rest s -> Q r s') ->
  (forall l, (faults s = [] /\ l = [] \/ faults s = None :: l) -> wp m Q (set_faults l s)) ->
  wp (may_fail r m) Q s.
Proof.
  intros Hf Hm. unfold wp, may_fail. destruct (faults s) as [|[e|] l] eqn:E.
  - specialize (Hm [] (or_introl (conj eq_refl eq_refl))). destruct s; cbn in *. subst. done.
  - by apply Hf.
  - by apply Hm; right.
Qed.

(** A fallible call was not made fail. *)
Definition passed (s s' : os) : Prop :=
  faults s = [] /\ faults s' = [] \/ faults s = None :: faults s'.

Lemma refused_later s s1 s' : passed s s1 \/ faults s1 = faults s -> refused s1 s' -> refused s s'.
Proof.
  intros [[[E E1]|E]|E] [l Hl].
  - rewrite E1 in Hl. by destruct l.
  - exists (None :: l). by rewrite E, Hl.
  - exists l. by rewrite <- E.
Qed.

Lemma refused_now s s' : faults s = Some (errno s') :: faults s' -> refused s s'.
Proof. by exists []. Qed.

(** The calls, as their callers use them. *)
Ltac fallible H := apply wp_may_fail; [intros; apply H; [by apply refused_now|done]|].

Lemma wp_socket Q s :
  (forall s', refused s s' -> rest s' = rest s -> Q (-1) s') ->
  (forall fd s', fd = lowest_free (S (size (table s))) 0 (table s) -> passed s s' ->
     rest s' = rest (set_next (next s + 1) (set_table (<[fd := next s]> (table s)) s)) -> Q fd s') ->
  wp socket Q s.
Proof. intros Hf Hm. fallible Hf. intros l Hl. by apply Hm. Qed.

Lemma wp_unlink_name path Q s :
  (forall n s', rest s' = rest (set_names (delete path (names s)) s) -> faults s' = faults s -> Q n s') ->
  wp (unlink path) Q s.
Proof.
  intros H. unfold wp, unlink. destruct (names s !! path) eqn:E; [by apply H|].
  apply H; [|done]. cbn. by rewrite delete_id.
Qed.

Lemma wp_sys_bind fd path Q s :
  names s !! path = None ->
  (forall s', refused s s' -> rest s' = rest s -> Q (-1) s') ->
  (forall s', passed s s' -> rest s' = rest (set_names (<[path := Inode true (new_mode (umask s)) (uid s)
      (now s) (now s) (now s)]> (names s)) s) -> Q 0 s') ->
  wp (sys_bind fd path) Q s.
Proof. intros Hn Hf Hm. fallible Hf. intros l Hl. unfold wp. cbn [names set_faults]. rewrite Hn. by apply Hm. Qed.

Lemma wp_chmod path mode i Q s :
  names s !! path = Some i ->
  (forall s', refused s s' -> rest s' = rest s -> Q (-1) s') ->
  (forall s', passed s s' -> rest s' = rest (set_names (<[path := Inode (i_sock i) mode (i_uid i) (i_atime i)
      (i_mtime i) (now s)]> (names s)) s) -> Q 0 s') ->
  wp (chmod path mode) Q s.
Proof. intros Hn Hf Hm. fallible Hf. intros l Hl. unfold wp. cbn [names set_faults]. rewrite Hn. by apply Hm. Qed.

(** Someone listens at the name. *)
Definition listening (s : os) (path : bytes) : Prop :=
  exists i, names s !! path = Some i /\ i_sock i = true /\ coming s <> [].

Lemma wp_connect fd path o Q s :
  table s !! fd = Some o ->
  (forall s', refused s s' \/ ~ listening s path -> rest s' = rest s -> Q (-1) s') ->
  (forall s' n c l, coming s = (n, c) :: l -> listening s path -> passed s s' ->
     rest s' = rest (set_conn o c (set_coming l s)) -> Q 0 s') ->
  wp (connect fd path) Q s.
Proof.
  intros Ht Hf Hm. apply wp_may_fail; [intros; apply Hf; [left; by apply refused_now|done]|].
  intros l Hl. unfold wp. cbn [names table coming set_faults]. rewrite Ht. unfold listening in *.
  destruct (names s !! path) as [i|]; [|apply Hf; [right; by intros (i & ? & _)|done]].
  destruct (coming s) as [|[n c] l'] eqn:Ec; [apply Hf; [right; by intros (? & _ & _ & ?)|done]|].
  destruct (i_sock i) eqn:Ei.
  - by apply (Hm _ n c l'); [done|exists i|..].
  - apply Hf; [right; intros (j & [= <-] & Hj & _); congruence|done].
Qed.

Lemma snprintf_name name : strlen name < SUN_PATH -> cstr (snprintf (Z.to_nat SUN_PATH) (cstr name)) = cstr name.
Proof.
  unfold strlen, SUN_PATH. intros Hn. rewrite snprintf_fits by lia. apply cstr_end, cstr_nonul.
Qed.

(** What [cli_conn] promises: on an error, and otherwise. *)
Definition cli_post (name : bytes) (s : os) (r : Z) (s' : os) : Prop :=
  let path := cli_path (pid s) in
  if r <? 0 then
    -4 <= r /\ table s' = table s /\ conns s' = conns s /\
    names s' = (if r =? -1 then names s else delete path (names s)) /\
    (refused s s' \/ (SUN_PATH <= strlen name /\ errno s' = ENAMETOOLONG) \/ ~ listening s (cstr name))
  else
    r = lowest_free (S (size (table s))) 0 (table s) /\ table s' = <[r := next s]> (table s) /\
    listening s (cstr name) /\ (exists c, snd <$> head (coming s) = Some c /\ conns s' = <[next s := c]> (conns s)) /\
    names s' = <[path := Inode true CLI_PERM (uid s) (now s) (now s) (now s)]> (names s).

Ltac fields := cbn [table conns names coming faults heap next now pid uid umask set_table set_conns set_names
  set_coming set_next set_heap set_faults set_sio set_conn] in *.
Ltac rest_eqs E := injection E; clear E; intros; fields.

(** The way out on an error: the state [s1] in which a call failed differs from
    the initial one in the descriptor and the name only. *)
Lemma cli_errout_post name s s1 fd rval (b : bool) :
  -4 <= rval <= -2 -> table s1 = <[fd := next s]> (table s) -> table s !! fd = None -> conns s1 = conns s ->
  (if b then delete (cli_path (pid s)) (names s1) else names s1) = delete (cli_path (pid s)) (names s) ->
  refused s s1 \/ ~ listening s (cstr name) ->
  wp (cli_errout fd (cli_path (pid s)) rval b) (cli_post name s) s1.
Proof.
  intros Hrv Ht Hno Hc Hn Hr.
  destruct (cli_errout_spec fd (cli_path (pid s)) rval b s1) as (s' & Hrun & Ht' & Hc' & Hf' & He' & Hn').
  apply (wp_of_run _ _ _ _ _ Hrun). unfold cli_post.
  rewrite (proj2 (Z.ltb_lt rval 0)), (proj2 (Z.eqb_neq rval (-1))) by lia. split_and!; [lia| | | |].
  - rewrite Ht', Ht. by apply delete_insert_id.
  - congruence.
  - rewrite Hn'. by destruct b.
  - destruct Hr as [[l Hl]|]; [left; exists l; congruence|by right; right].
Qed.

(** After the names are made: the connection. *)
Lemma cli_connect_post name s s1 fd :
  cstr name <> cli_path (pid s) -> strlen name < SUN_PATH -> fd = lowest_free (S (size (table s))) 0 (table s) ->
  table s1 = <[fd := next s]> (table s) -> conns s1 = conns s -> coming s1 = coming s ->
  names s1 = <[cli_path (pid s) := Inode true CLI_PERM (uid s) (now s) (now s) (now s)]> (names s) ->
  (forall s', refused s1 s' -> refused s s') ->
  wp (let* r := connect fd (cstr (snprintf (Z.to_nat SUN_PATH) (cstr name))) in
      if r <? 0 then cli_errout fd (cli_path (pid s)) (-4) true else ret fd) (cli_post name s) s1.
Proof.
  intros Hne Hlen Hfd Ht Hc Hm Hn Hr. rewrite snprintf_name by done.
  destruct (new_fd (table s)) as [Hge Hno]. rewrite <- Hfd in Hge, Hno.
  assert (L : listening s1 (cstr name) <-> listening s (cstr name)).
  { unfold listening. by rewrite Hn, lookup_insert_ne, Hm by congruence. }
  apply wp_bind. eapply wp_connect; [rewrite Ht; apply lookup_insert_eq| |].
  - intros s2 Hr2 E. rest_eqs E. apply cli_errout_post; try congruence; [lia| |].
    + replace (names s2) with (names s1) by congruence. rewrite Hn. by rewrite delete_insert_eq.
    + rewrite <- L. destruct Hr2; auto.
  - intros s2 n c l Hc2 Hl _ E. rest_eqs E. apply wp_ret. unfold cli_post.
    rewrite (proj2 (Z.ltb_ge fd 0) Hge). split_and!; try congruence; [by apply L|].
    exists c. rewrite <- Hm, Hc2. split; [done|congruence].
Qed.

(** A client's connection leaves nothing behind when it fails: whatever calls
    the system makes fail, [cli_conn] returns; on an error its descriptor is
    closed and the name it bound is removed, and [errno] is the error of the
    call that failed.  Otherwise the result is the lowest descriptor, connected
    to the server, and the client's own name exists, with its user as the owner
    and access for the owner alone.  It fails only if a call was refused, the
    server's name is too long, or nobody listens there. *)
Theorem cli_conn_clean (name : bytes) (s : os) :
  cstr name <> cli_path (pid s) -> wp (cli_conn name) (cli_post name s) s.
Proof.
  intros Hne. unfold cli_conn. destruct (Z.leb_spec SUN_PATH (strlen name)) as [Hlong|Hlen].
  { apply wp_bind, wp_zoom, wp_modify, wp_ret. unfold cli_post. cbn. split_and!; try done. by right; left. }
  apply wp_bind, wp_socket.
  { intros s1 Hs1 E. rest_eqs E. unfold cli_post. cbn. split_and!; try done; congruence || by left. }
  intros fd s1 Hfd P1 E. rest_eqs E.
  destruct (new_fd (table s)) as [Hge Hno]. rewrite <- Hfd in Hge, Hno.
  rewrite (proj2 (Z.ltb_ge fd 0) Hge). unfold getpid, printf_stdout, on_io.
  apply wp_bind, wp_bind, wp_get, wp_ret, wp_bind, wp_zoom, wp_modify.
  replace (pid s1) with (pid s) by congruence.
  apply wp_bind, wp_unlink_name. intros _ s2 E F2. rest_eqs E.
  assert (N2 : names s2 = delete (cli_path (pid s)) (names s)) by congruence.
  assert (R2 : forall s', refused s2 s' -> refused s s').
  { intros s' H'. eapply refused_later; [by left|]. eapply refused_later; [by right|done]. }
  apply wp_bind, wp_sys_bind; [rewrite N2; apply lookup_delete_eq| |].
  { intros s3 Hr3 E. rest_eqs E. apply cli_errout_post; try congruence; [lia|left; by apply R2]. }
  intros s3 P3 E. rest_eqs E.
  assert (N3 : names s3 !! cli_path (pid s) = Some (Inode true (new_mode (umask s2)) (uid s) (now s) (now s) (now s))).
  { replace (names s3) with (<[cli_path (pid s) := Inode true (new_mode (umask s2)) (uid s2) (now s2) (now s2) (now s2)]> (names s2))
      by congruence. rewrite lookup_insert_eq. congruence. }
  assert (N3' : forall i, <[cli_path (pid s) := i]> (names s3) = <[cli_path (pid s) := i]> (names s)).
  { intros i. replace (names s3) with (<[cli_path (pid s) := Inode true (new_mode (umask s2)) (uid s2) (now s2) (now s2) (now s2)]> (names s2))
      by congruence. by rewrite N2, insert_insert_eq, insert_delete_eq. }
  apply wp_bind. eapply wp_chmod; [exact N3| |].
  { intros s4 Hr4 E. rest_eqs E. apply cli_errout_post; try congruence; [lia| |].
    - replace (names s4) with (names s3) by congruence.
      by rewrite <- (delete_insert_eq (names s3) _ (Inode true 0 0 0 0 0)), N3', delete_insert_eq.
    - left. apply R2. eapply refused_later; [by left|done]. }
  intros s4 P4 E. rest_eqs E. apply cli_connect_post; try congruence.
  intros s' H'. apply R2. eapply refused_later; [by left|]. eapply refused_later; [by left|done].
Qed.

Lemma cli_conn_clean_witness :
  let i := Inode true 511 0 0 0 0 in
  let c := Conn [] [] [] true in
  let p := Errlog.Proc [] [] [] 0 false None in
  let s := Os {[ 0 := 0; 1 := 0; 2 := 0 ]} ∅ {[ str "/tmp/opend.socket" := i ]} [([], c)] [None; Some 13] 0 7 1000 42 501 18
             false false p in
  cstr (str "/tmp/opend.socket") <> cli_path (pid s) /\
  cli_path 42 = str "/var/tmp/00042" /\
  wp (cli_conn (str "/tmp/opend.socket")) (cli_post (str "/tmp/opend.socket") s) s /\
  (cli_conn (str "/tmp/opend.socket") s).1 = Ret (-2).
Proof.
  intros i c p s. assert (H : cstr (str "/tmp/opend.socket") <> cli_path (pid s)) by done.
  split_and!; [exact H|reflexivity| |vm_compute; reflexivity].
  exact (cli_conn_clean (str "/tmp/opend.socket") s H).
Defined.

(** ** The server *)

Lemma wp_malloc Q s :
  (forall s', refused s s' -> rest s' = rest s -> Q false s') ->
  (forall s', passed s s' -> rest s' = rest (set_heap (S (heap s)) s) -> Q true s') ->
  wp malloc Q s.
Proof. intros Hf Hm. fallible Hf. intros l Hl. by apply Hm. Qed.

Lemma wp_listen fd n Q s :
  (forall s', refused s s' -> rest s' = rest s -> Q (-1) s') ->
  (forall s', passed s s' -> rest s' = rest s -> Q 0 s') ->
  wp (listen fd n) Q s.
Proof. intros Hf Hm. fallible Hf. intros l Hl. by apply Hm. Qed.

Lemma wp_stat path Q s :
  (forall s' i, refused s s' \/ names s !! path = None -> rest s' = rest s -> Q (-1, i) s') ->
  (forall s' i, names s !! path = Some i -> passed s s' -> rest s' = rest s -> Q (0, i) s') ->
  wp (stat path) Q s.
Proof.
  intros Hf Hm. apply wp_may_fail; [intros; apply Hf; [left; by apply refused_now|done]|].
  intros l Hl. unfold wp. cbn [names set_faults]. destruct (names s !! path) as [i|] eqn:E; [by apply Hm|].
  apply Hf; [by right|done].
Qed.

(** What [serv_listen] promises: the lowest descriptor, with the server's name
    bound anew even if there was one; on an error the descriptor is closed and
    [errno] is the error of the call that was refused. *)
Definition listen_post (name : bytes) (s : os) (r : Z) (s' : os) : Prop :=
  if r <? 0 then
    -4 <= r /\ table s' = table s /\ (refused s s' \/ SUN_PATH <= strlen name /\ errno s' = ENAMETOOLONG)
  else
    r = lowest_free (S (size (table s))) 0 (table s) /\ table s' = <[r := next s]> (table s) /\
    conns s' = conns s /\ coming s' = coming s /\
    names s' = <[cstr name := Inode true (new_mode (umask s)) (uid s) (now s) (now s) (now s)]> (names s).

Lemma serv_errout_post name s s1 fd rval :
  -4 <= rval < 0 -> table s1 = <[fd := next s]> (table s) -> table s !! fd = None -> refused s s1 ->
  wp (serv_errout fd rval) (listen_post name s) s1.
Proof.
  intros Hrv Ht Hno Hr. unfold listen_post, wp, serv_errout. cbn.
  rewrite (proj2 (Z.ltb_lt rval 0)) by lia. split_and!; [lia| |by left].
  rewrite Ht. by apply delete_insert_id.
Qed.

Lemma serv_listen_spec (name : bytes) (s : os) : wp (serv_listen name) (listen_post name s) s.
Proof.
  unfold serv_listen. destruct (Z.leb_spec SUN_PATH (strlen name)) as [Hlong|Hlen].
  { apply wp_bind, wp_zoom, wp_modify, wp_ret. unfold listen_post. cbn. split_and!; try done. by right. }
  rewrite snprintf_name by done. apply wp_bind, wp_socket.
  { intros s1 Hs1 E. rest_eqs E. unfold listen_post. cbn. split_and!; try done. by left. }
  intros fd s1 Hfd P1 E. rest_eqs E.
  destruct (new_fd (table s)) as [Hge Hno]. rewrite <- Hfd in Hge, Hno.
  rewrite (proj2 (Z.ltb_ge fd 0) Hge).
  apply wp_bind, wp_unlink_name. intros _ s2 E F2. rest_eqs E.
  assert (N2 : names s2 = delete (cstr name) (names s)) by congruence.
  assert (R2 : forall s', refused s2 s' -> refused s s').
  { intros s' H'. eapply refused_later; [by left|]. eapply refused_later; [by right|done]. }
  apply wp_bind, wp_sys_bind; [rewrite N2; apply lookup_delete_eq| |].
  { intros s3 Hr3 E. rest_eqs E. apply serv_errout_post; try congruence; [lia|by apply R2]. }
  intros s3 P3 E. rest_eqs E. apply wp_bind, wp_listen.
  { intros s4 Hr4 E. rest_eqs E. apply serv_errout_post; try congruence; [lia|].
    apply R2. eapply refused_later; [by left|done]. }
  intros s4 P4 E. rest_eqs E. apply wp_ret. unfold listen_post. rewrite (proj2 (Z.ltb_ge fd 0) Hge).
  split_and!; try congruence. rewrite <- insert_delete_eq. congruence.
Qed.

(** What [serv_accept] promises. *)
Definition accept_post (s : os) (r : Z * option Z) (s' : os) : Prop :=
  heap s' = heap s /\ (coming s' = coming s \/ exists x, coming s = x :: coming s') /\
  if r.1 <? 0 then
    -6 <= r.1 /\ r.2 = None /\ table s' = table s /\ names s' = names s /\
    (refused s s' \/ exists name c l, coming s = (name, c) :: l /\
       match names s !! cstr (name ++ [NUL]) with Some i => ~ genuine (now s) i | None => True end)
  else
    exists name c l i, coming s = (name, c) :: l /\ names s !! cstr (name ++ [NUL]) = Some i /\ genuine (now s) i /\
      r = (lowest_free (S (size (table s))) 0 (table s), Some (i_uid i)) /\
      table s' = <[r.1 := next s]> (table s) /\ conns s' = <[next s := c]> (conns s) /\
      names s' = delete (cstr (name ++ [NUL])) (names s).

Lemma wp_accept lfd name c l Q s :
  coming s = (name, c) :: l ->
  (forall s', refused s s' -> rest s' = rest s -> Q (-1, []) s') ->
  (forall fd s', fd = lowest_free (S (size (table s))) 0 (table s) -> passed s s' ->
     rest s' = rest (set_conn (next s) c (set_table (<[fd := next s]> (table s)) (set_next (next s + 1) (set_coming l s)))) ->
     Q (fd, name) s') ->
  wp (accept lfd) Q s.
Proof.
  intros Hc Hf Hm. fallible Hf. intros f Hl. unfold wp. cbn [coming set_faults]. rewrite Hc. by apply Hm.
Qed.

(** The way out after a client was accepted: the state [s1] differs from the
    initial one in the descriptor and the allocated name. *)
Lemma accept_errout_post s s1 fd rval name c l :
  -6 <= rval < 0 -> table s1 = <[fd := next s]> (table s) -> table s !! fd = None -> heap s1 = S (heap s) ->
  names s1 = names s -> coming s = (name, c) :: l -> coming s1 = l ->
  (refused s s1 \/ match names s !! cstr (name ++ [NUL]) with Some i => ~ genuine (now s) i | None => True end) ->
  wp (accept_errout fd rval) (accept_post s) s1.
Proof.
  intros Hrv Ht Hno Hh Hn Hc Hl Hr. unfold accept_errout, get_errno.
  apply wp_bind, wp_bind, wp_get, wp_ret, wp_bind, wp_modify, wp_bind. unfold wp at 1, free. cbn [heap set_table].
  rewrite Hh. apply wp_bind, wp_zoom, wp_modify, wp_ret. unfold accept_post. cbn [fst snd].
  rewrite (proj2 (Z.ltb_lt rval 0)) by lia. cbn. split_and!; try done; [|lia| |].
  - right. exists (name, c). by rewrite Hl.
  - rewrite Ht. by apply delete_insert_id.
  - destruct Hr as [Hr|Hr]; [by left|right]. by exists name, c, l.
Qed.

Lemma serv_accept_spec (listenfd : Z) (name : bytes) (c : conn) (l : list (bytes * conn)) (s : os) :
  coming s = (name, c) :: l -> Z.of_nat (length name) <= SUN_PATH ->
  wp (serv_accept listenfd) (accept_post s) s.
Proof.
  intros Hc Hlen. unfold serv_accept. apply wp_bind, wp_malloc.
  { intros s1 Hr E. rest_eqs E. unfold accept_post. cbn. split_and!; try done; by left. }
  intros s1 P1 E. rest_eqs E. cbn [negb set_heap] in *. fields. apply wp_bind. apply (wp_accept _ name c l); [congruence| |].
  { intros s2 Hr E. rest_eqs E. cbn. apply wp_bind. unfold wp at 1, free.
    replace (heap s2) with (S (heap s)) by congruence. apply wp_ret. unfold accept_post. cbn. split_and!; try (done || congruence); left; [congruence|].
    eapply refused_later; [by left|]. exact Hr. }
  intros fd s2 Hfd P2 E. rest_eqs E. cbn [fst snd set_heap] in *. fields.
  replace (table s1) with (table s) in Hfd by congruence.
  destruct (new_fd (table s)) as [Hge Hno]. rewrite <- Hfd in Hge, Hno.
  rewrite (proj2 (Z.ltb_ge fd 0) Hge), (proj2 (Z.ltb_ge SUN_PATH _) Hlen).
  assert (T2 : table s2 = <[fd := next s]> (table s)) by congruence.
  assert (R2 : forall s', refused s2 s' -> refused s s').
  { intros s' H'. eapply refused_later; [by left|]. eapply refused_later; [by left|done]. }
  apply wp_bind, wp_stat.
  { intros s3 i Hr E. rest_eqs E. cbn. apply (accept_errout_post s s3 fd _ name c l); try congruence; [lia|].
    replace (names s2) with (names s) in Hr by congruence. destruct Hr as [Hr| ->]; [left; by apply R2|by right]. }
  intros s3 i Hi P3 E. rest_eqs E. cbn. replace (names s2) with (names s) in Hi by congruence.
  assert (Exit : forall rval, -6 <= rval < 0 -> ~ genuine (now s) i -> wp (accept_errout fd rval) (accept_post s) s3).
  { intros rval Hrv Hg. apply (accept_errout_post s s3 fd _ name c l); try (done || congruence). right. by rewrite Hi. }
  unfold genuine in Exit. destruct (i_sock i) eqn:Es; [cbn [negb]|by apply Exit; [lia|intros [? _]]].
  destruct (Z.eqb_spec (Z.land (i_mode i) (Z.lor S_IRWXG S_IRWXO)) 0) as [Eg|Eg]; cbn [negb orb]; [|by apply Exit; [lia|intros (_ & ? & _)]].
  destruct (Z.eqb_spec (Z.land (i_mode i) S_IRWXU) S_IRWXU) as [Eu|Eu]; cbn [negb]; [|by apply Exit; [lia|intros (_ & _ & ? & _)]].
  unfold time. apply wp_bind, wp_bind, wp_get, wp_ret. replace (now s3) with (now s) by congruence.
  destruct (Z.ltb_spec (i_atime i) (now s - STALE)) as [?|Ea]; cbn [orb]; [by apply Exit; lia|].
  destruct (Z.ltb_spec (i_ctime i) (now s - STALE)) as [?|Ec]; cbn [orb]; [by apply Exit; lia|].
  destruct (Z.ltb_spec (i_mtime i) (now s - STALE)) as [?|Em]; [by apply Exit; lia|]. clear Exit.
  apply wp_bind, wp_unlink_name. intros _ s4 E F4. rest_eqs E. apply wp_bind. unfold wp at 1, free.
  replace (heap s4) with (S (heap s)) by congruence. apply wp_ret. unfold accept_post. cbn [fst snd]. fields.
  rewrite (proj2 (Z.ltb_ge fd 0) Hge). split; [done|]. split; [right; exists (name, c); congruence|]. exists name, c, l, i. unfold genuine.
  split_and!; try (done || congruence).
Qed.

(** C26. [serv_accept] identifies its client: it returns a descriptor only for a
    client whose name is a socket that belongs to it alone and that was made,
    used and changed within the last 30 seconds, the user it reports is the
    owner of that name, and the name is gone.  A client that fails one of the
    tests is refused: its descriptor is closed.  On every path, whichever call
    is refused, the memory for the name is freed. *)
Theorem serv_accept_identifies (listenfd : Z) (name : bytes) (c : conn) (l : list (bytes * conn)) (s : os) :
  coming s = (name, c) :: l -> Z.of_nat (length name) <= SUN_PATH ->
  wp (serv_accept listenfd) (accept_post s) s.
Proof. apply serv_accept_spec. Qed.

(** A client whose name others can use is refused with -5. *)
Lemma serv_accept_identifies_witness :
  let i := Inode true (448 + 32) 501 990 990 990 in
  let c := Conn [] [] [] true in
  let p := Errlog.Proc [] [] [] 0 false None in
  let s := Os {[ 3 := 0 ]} ∅ {[ str "/var/tmp/00042" := i ]} [(str "/var/tmp/00042", c)] [] 0 7 1000 1 0 18 false false p in
  Z.of_nat (length (str "/var/tmp/00042")) <= SUN_PATH /\
  wp (serv_accept 3) (accept_post s) s /\ (serv_accept 3 s).1 = Ret (-5, None).
Proof.
  intros i c p s. assert (H : Z.of_nat (length (str "/var/tmp/00042")) <= SUN_PATH) by done.
  split_and!; [exact H| |vm_compute; reflexivity].
  exact (serv_accept_identifies 3 (str "/var/tmp/00042") c [] s eq_refl H).
Defined.

End Unixconn.
