(* ===== verification/Fdpass.v ===== *)
(** * Passing a descriptor: lib/sendfd.c, senderr.c and recvfd.c

    The protocol is two bytes, a null byte and a status, after an optional error
    message; with status 0 a descriptor comes along.  The receiver does not see
    the boundaries between messages: what one receive returns is any number of
    them together. *)

From S2P Require Import Prelude CLib Posix Stream Errlog OpenSys.

Module Fdpass.
Import OpenSys.

(** ** The sender *)

(** The control buffer is allocated once. *)
Definition snd_control : M os bool :=
  let* s := get in
  if snd_cmptr s then ret true else
  let* ok := malloc in
  (if ok then modify (set_snd true) else ret tt) ;;; ret ok.

Definition send_fd (fd fd_to_send : Z) : M os Z :=
  let sent n := ret (if n =? 2 then 0 else -1) in
  if fd_to_send <? 0 then
    let status := (- fd_to_send) mod 256 in
    let status := if status =? 0 then 1 else status in
    let* n := sendmsg fd [0; status] None in sent n
  else
    let* ok := snd_control in
    if negb ok then ret (-1) else
    let* n := sendmsg fd [0; 0] (Some fd_to_send) in sent n.

Definition writen (fd : Z) (d : bytes) : M os Z :=
  writen_loop (write fd) (S (length d)) (length d) d.

Definition send_err (fd errcode : Z) (msg : bytes) : M os Z :=
  let n := strlen msg in
  let* w := (if 0 <? n then writen fd (cstr msg) else ret n) in
  if negb (w =? n) then ret (-1) else
  let errcode := if 0 <=? errcode then -1 else errcode in
  let* r := send_fd fd errcode in
  if r <? 0 then ret (-1) else ret 0.

(** ** The receiver *)

Section receiver.
Variable strerror : Z -> bytes.
Variable junk : bytes.

Definition err_ret (text : bytes) : M os unit := on_io (Errlog.err_ret strerror junk text).
Definition err_dump (text : bytes) : M os unit := on_io (Errlog.err_dump strerror junk text).

Definition rcv_control : M os bool :=
  let* s := get in
  if rcv_cmptr s then ret true else
  let* ok := malloc in
  (if ok then modify (set_rcv true) else ret tt) ;;; ret ok.

(** The loop over the bytes of one receive: [ptr] and [nr] index the buffer, and
    the result is [nr], [status] and [newfd].  [control] is the descriptor in
    the control buffer. *)
Fixpoint scan (fuel : nat) (buf : bytes) (control : option Z) (ptr nr : nat) (status newfd : Z)
    : M os (nat * Z * Z) :=
  match fuel with
  | O => stop Hang
  | S fuel' =>
      if (ptr <? nr)%nat then
        let c := nth ptr buf 0 in
        let ptr := S ptr in
        if c =? 0 then
          (if negb (ptr =? nr - 1)%nat then err_dump (str "message format error") else ret tt) ;;;
          let status := Z.land (nth ptr buf 0) 255 in
          let* newfd :=
            (if status =? 0 then
               match control with
               | None => err_dump (str "status = 0 but no fd") ;;; stop Crash
               | Some f => ret f
               end
             else ret (- status)) in
          scan fuel' buf control ptr (nr - 2) status newfd
        else scan fuel' buf control ptr nr status newfd
      else ret (nr, status, newfd)
  end.

(** [userfunc] gets the data for STDERR_FILENO; [status] and [newfd] are the
    variables of the function. *)
Fixpoint recv_loop (fuel : nat) (fd : Z) (userfunc : bytes -> M os Z) (status newfd : Z) : M os Z :=
  match fuel with
  | O => stop Hang
  | S fuel' =>
      let* ok := rcv_control in
      if negb ok then ret (-1) else
      let* m := recvmsg fd (Z.to_nat Errlog.MAXLINE) in
      let '(nr, buf, control) := m in
      if nr <? 0 then err_ret (str "recvmsg error") ;;; ret (-1)
      else if nr =? 0 then err_ret (str "connection closed by server") ;;; ret (-1) else
      let* x := scan (S (Z.to_nat nr)) buf control 0 (Z.to_nat nr) status newfd in
      let '(nr, status, newfd) := x in
      let* n := (if (0 <? nr)%nat then userfunc (take nr buf) else ret (Z.of_nat nr)) in
      if negb (n =? Z.of_nat nr) then ret (-1) else
      if 0 <=? status then ret newfd
      else recv_loop fuel' fd userfunc status newfd
  end.

(** As many rounds as there are pieces to receive, the end included, counting
    the pieces a piece can be cut into. *)
Definition rounds (s : os) (fd : Z) : nat :=
  match connection s fd with
  | None => 1
  | Some (_, c) => S (sum_list_with (fun p => match p with Piece d _ => S (length d) | Broken _ => 1%nat end) (rx c))
  end.

Definition recv_fd (fd : Z) (userfunc : bytes -> M os Z) : M os Z :=
  let* s := get in recv_loop (rounds s fd) fd userfunc (-1) (-1).

End receiver.

(** ** What is sent *)

(** Every send accepts at least two bytes. *)
Definition sturdy (l : list wr) : Prop := Forall (fun w => exists k, w = Accept (S (S k))) l.

Definition ready (s : os) (fd o : Z) (c : conn) : Prop :=
  connection s fd = Some (o, c) /\ alive c = true /\ sturdy (room c).

(** The state after messages were sent. *)
Definition sent (o : Z) (c : conn) (msgs : list (bytes * option Z)) (l : list wr) (s : os) : os :=
  set_conn o (Conn (rx c) (tx c ++ msgs) l true) s.

Lemma set_conn_twice o c c' s : set_conn o c (set_conn o c' s) = set_conn o c s.
Proof. unfold set_conn, set_conns. cbn. by rewrite insert_insert_eq. Qed.

Lemma connection_set s fd o c c' : connection s fd = Some (o, c) -> connection (set_conn o c' s) fd = Some (o, c').
Proof.
  unfold connection. cbn. destruct (table s !! fd) as [o'|]; [|done].
  destruct (conns s !! o'); [|done]. intros [= -> ->]. by rewrite lookup_insert_eq.
Qed.

Lemma ready_sent s fd o c msgs l :
  ready s fd o c -> sturdy l -> ready (sent o c msgs l s) fd o (Conn (rx c) (tx c ++ msgs) l true).
Proof. intros (Hc & _) Hl. split_and!; [by eapply connection_set|done..]. Qed.

Lemma sent_sent o c m1 l1 m2 l2 s :
  sent o (Conn (rx c) (tx c ++ m1) l1 true) m2 l2 (sent o c m1 l1 s) = sent o c (m1 ++ m2) l2 s.
Proof. unfold sent. cbn. by rewrite set_conn_twice, app_assoc. Qed.

Lemma take_self {A} (a : nat) (u : list A) : take (length (take a u)) u = take a u.
Proof.
  rewrite length_take. destruct (Nat.min_spec a (length u)) as [[_ ->]|[Hle ->]]; [done|]. by rewrite !take_ge by lia.
Qed.

(** One send hands over a front part of two bytes at least, or everything. *)
Lemma send_ready s fd o c d r :
  ready s fd o c -> d <> [] ->
  exists k l, send fd d r s = (Ret (Z.of_nat k), sent o c [(take k d, r)] l s) /\ sturdy l /\
    (1 <= k <= length d)%nat /\ (2 <= k \/ k = length d)%nat.
Proof.
  intros (Hc & Ha & Hs) Hd. destruct d as [|x d]; [done|]. unfold send. rewrite Hc, Ha.
  destruct (room c) as [|w l].
  - exists (length (x :: d)), []. rewrite take_ge by lia. split_and!; cbn; try done; lia.
  - apply Forall_cons_iff in Hs as [[k ->] Hs]. exists (length (take (S (S k)) (x :: d))), l.
    rewrite take_self, length_take. cbn [length]. split_and!; [done|done|lia..].
Qed.

(** The messages of a text: pieces of it, without descriptors. *)
Definition pieces (msgs : list (bytes * option Z)) (text : bytes) : Prop :=
  concat (map fst msgs) = text /\ Forall (fun m => m.1 <> [] /\ m.2 = None) msgs.

Lemma writen_ready fd o : forall fuel n d s c,
  ready s fd o c -> (length d < fuel)%nat -> (length d <= n)%nat ->
  exists msgs l, writen_loop (write fd) fuel n d s = (Ret (Z.of_nat n), sent o c msgs l s) /\ sturdy l /\ pieces msgs d.
Proof.
  induction fuel as [|fuel IH]; intros n d s c Hr Hf Hn; [lia|]. cbn [writen_loop].
  destruct (Nat.eqb_spec (length d) 0) as [E|Hd].
  - destruct d; [|done]. exists [], (room c). split_and!; [|apply Hr|by split].
    destruct Hr as (Hc & Ha & _). unfold sent, ret. cbn. rewrite Nat.sub_0_r, app_nil_r. f_equal.
    destruct c as [? ? ? al]. cbn in *. subst al. unfold set_conn, set_conns. unfold connection in Hc.
    destruct (table s !! fd) as [o'|]; [|done]. destruct (conns s !! o') eqn:E'; [|done]. simplify_eq.
    rewrite insert_id by done. by destruct s.
  - destruct (send_ready s fd o c d None Hr ltac:(by intros ->)) as (k & l & Hrun & Hl & Hk & _).
    unfold Prelude.bind. change (write fd d s) with (send fd d None s). rewrite Hrun.
    destruct (Z.ltb_spec (Z.of_nat k) 0); [lia|]. destruct (Z.eqb_spec (Z.of_nat k) 0); [lia|]. rewrite Nat2Z.id.
    destruct (IH n (drop k d) _ _ (ready_sent _ _ _ _ [(take k d, None)] _ Hr Hl) ltac:(rewrite length_drop; lia)
      ltac:(rewrite length_drop; lia)) as (msgs & l' & Hrun' & Hl' & Hp & Hall).
    rewrite Hrun', sent_sent. exists ((take k d, None) :: msgs), l'. split_and!; [done|done|]. split.
    + cbn [map concat fst]. by rewrite Hp, take_drop.
    + constructor; [|done]. split; [|done]. destruct d, k; cbn in *; lia || done.
Qed.

Definition status_of (code : Z) : Z := let st := (- code) mod 256 in if st =? 0 then 1 else st.

Lemma send_status fd code o c s :
  ready s fd o c -> code < 0 ->
  exists l, send_fd fd code s = (Ret 0, sent o c [([0; status_of code], None)] l s) /\ sturdy l.
Proof.
  intros Hr Hc. unfold send_fd. rewrite (proj2 (Z.ltb_lt code 0) Hc).
  destruct (send_ready s fd o c [0; status_of code] None Hr ltac:(done)) as (k & l & Hrun & Hl & Hk & H2).
  cbn in Hk, H2. assert (k = 2)%nat as -> by lia. unfold status_of in Hrun at 1.
  exists l. split; [|done]. unfold Prelude.bind, sendmsg. by rewrite Hrun.
Qed.

(** What [send_err] sends: the text, then the null byte and the status. *)
Lemma send_err_ready fd code msg o c s :
  ready s fd o c -> code < 0 ->
  exists msgs l, send_err fd code msg s = (Ret 0, sent o c (msgs ++ [([0; status_of code], None)]) l s) /\
    sturdy l /\ pieces msgs (cstr msg).
Proof.
  intros Hr Hc. unfold send_err, strlen. cbv zeta. rewrite (proj2 (Z.leb_gt 0 code) Hc).
  set (text := cstr msg).
  assert (exists msgs l, (if 0 <? Z.of_nat (length text) then writen fd text else ret (Z.of_nat (length text))) s =
    (Ret (Z.of_nat (length text)), sent o c msgs l s) /\ sturdy l /\ pieces msgs text) as (msgs & l & Hrun & Hl & Hp).
  { destruct (writen_ready fd o (S (length text)) (length text) text s c Hr ltac:(lia) ltac:(lia)) as (msgs & l & Hrun & Hl & Hp).
    exists msgs, l. split_and!; [|done..]. destruct (Z.ltb_spec 0 (Z.of_nat (length text))) as [|Hz]; [done|].
    destruct text; [exact Hrun|cbn in Hz; lia]. }
  unfold Prelude.bind at 1. rewrite Hrun, Z.eqb_refl. cbn [negb].
  destruct (send_status fd code o _ _ (ready_sent _ _ _ _ msgs _ Hr Hl) Hc) as (l' & Hrun' & Hl').
  unfold Prelude.bind. rewrite Hrun', sent_sent. exists msgs, l'. done.
Qed.

(** What [send_fd] sends: the two bytes with the description. *)
Lemma send_fd_ready fd f ofd o c s :
  ready s fd o c -> 0 <= f -> table s !! f = Some ofd -> faults s = [] ->
  exists l s', send_fd fd f s = (Ret 0, s') /\ sturdy l /\ table s' = table s /\ io s' = io s /\ faults s' = [] /\
    conns s' = conns (sent o c [([0; 0], Some ofd)] l s).
Proof.
  intros Hr Hf Ht Hfa. unfold send_fd. rewrite (proj2 (Z.ltb_ge f 0) Hf).
  assert (exists s1, snd_control s = (Ret true, s1) /\ table s1 = table s /\ io s1 = io s /\ faults s1 = [] /\ conns s1 = conns s)
    as (s1 & Hrun & Ht1 & Hi1 & Hf1 & Hc1).
  { unfold snd_control, Prelude.bind, get, malloc, may_fail. destruct (snd_cmptr s); [by exists s|]. rewrite Hfa. by eexists. }
  unfold Prelude.bind at 1. rewrite Hrun. cbn [negb].
  assert (Hr1 : ready s1 fd o c) by (destruct Hr as (Hc & ? & ?); split_and!; [|done..]; unfold connection in *; by rewrite Ht1, Hc1).
  destruct (send_ready s1 fd o c [0; 0] (Some ofd) Hr1 ltac:(done)) as (k & l & Hrun2 & Hl & Hk & H2).
  cbn in Hk, H2. assert (k = 2)%nat as -> by lia.
  exists l, (sent o c [([0; 0], Some ofd)] l s1). split_and!; try done.
  - unfold Prelude.bind, sendmsg. rewrite Ht1, Ht, Hrun2. done.
  - cbn. by rewrite Hc1.
Qed.

(** ** What is received *)

(** Messages that arrive together. *)
Definition merge (g : list (bytes * option Z)) : piece :=
  Piece (concat (map fst g)) (snd (List.last g ([], None))).

Section received.
Variable strerror : Z -> bytes.
Variable junk : bytes.
Abbreviation scan' := (scan strerror junk).

(** The bytes of a text are passed over. *)
Lemma scan_text control status newfd s suf : forall pre t fuel,
  nonul t -> (length t + length suf < fuel)%nat ->
  scan' fuel (pre ++ t ++ suf) control (length pre) (length (pre ++ t ++ suf)) status newfd s =
  scan' (fuel - length t) (pre ++ t ++ suf) control (length pre + length t) (length (pre ++ t ++ suf)) status newfd s.
Proof.
  intros pre t. revert pre. induction t as [|x t IH]; intros pre fuel Ht Hf.
  { cbn [app length]. by rewrite Nat.sub_0_r, Nat.add_0_r. }
  apply Forall_cons_iff in Ht as [Hx Ht]. destruct fuel as [|fuel]; [cbn in Hf; lia|]. cbn [scan length].
  rewrite (proj2 (Nat.ltb_lt _ _)) by len.
  replace (nth (length pre) (pre ++ (x :: t) ++ suf) 0) with x by (by rewrite app_nth2, Nat.sub_diag by lia).
  rewrite (proj2 (Z.eqb_neq x 0) Hx). specialize (IH (pre ++ [x]) fuel Ht ltac:(cbn in Hf; lia)).
  replace ((pre ++ [x]) ++ t ++ suf) with (pre ++ (x :: t) ++ suf) in IH by (by apps).
  replace (length (pre ++ [x])) with (S (length pre)) in IH by len.
  rewrite IH. f_equal; lia.
Qed.

Lemma scan_all t control status newfd s :
  nonul t -> scan' (S (length t)) t control 0 (length t) status newfd s = (Ret (length t, status, newfd), s).
Proof.
  intros Ht. pose proof (scan_text control status newfd s [] [] t (S (length t)) Ht ltac:(cbn; lia)) as H.
  rewrite app_nil_r in H. cbn [app length] in H. rewrite H.
  replace (S (length t) - length t)%nat with 1%nat by lia. cbn [scan]. by rewrite Nat.add_0_l, Nat.ltb_irrefl.
Qed.

(** The end of the protocol. *)
Lemma scan_end t st control status newfd s :
  nonul t -> 0 <= st < 256 -> (st = 0 -> is_Some control) ->
  scan' (S (length t + 2)) (t ++ [0; st]) control 0 (length t + 2) status newfd s =
  (Ret (length t, st, if st =? 0 then default 0 control else - st), s).
Proof.
  intros Ht Hst Hc. pose proof (scan_text control status newfd s [0; st] [] t (S (length t + 2)) Ht ltac:(cbn; lia)) as H.
  cbn [app length] in H. replace (length (t ++ [0; st])) with (length t + 2)%nat in H by len. rewrite H.
  replace (S (length t + 2) - length t)%nat with 3%nat by lia. rewrite Nat.add_0_l.
  set (n := length t). clear H. change 3%nat with (S 2).
  enough (G : forall f, (1 <= f)%nat -> scan' (S f) (t ++ [0; st]) control n (n + 2) status newfd s =
    (Ret (n, st, if st =? 0 then default 0 control else - st), s)) by (apply G; lia).
  intros f2 Hf2. cbn [scan].
  rewrite (proj2 (Nat.ltb_lt _ _)) by lia.
  assert (En : nth n (t ++ [0; st]) 0 = 0) by (rewrite app_nth2 by (unfold n; lia); unfold n; by rewrite Nat.sub_diag).
  assert (En1 : nth (S n) (t ++ [0; st]) 0 = st)
    by (rewrite app_nth2 by (unfold n; lia); unfold n; by replace (S (length t) - length t)%nat with 1%nat by lia).
  rewrite En, En1, Z.eqb_refl. replace (S n =? n + 2 - 1)%nat with true by (symmetry; apply Nat.eqb_eq; lia).
  cbn [negb]. unfold Prelude.bind at 1. cbn [ret]. replace (Z.land st 255) with st
    by (change 255 with (Z.ones 8); rewrite Z.land_ones by lia; by rewrite Z.mod_small).
  assert (L : forall nf, scan' f2 (t ++ [0; st]) control (S n) (n + 2 - 2) st nf s = (Ret (n, st, nf), s)).
  { intros nf. destruct f2 as [|f2]; [lia|]. cbn [scan]. rewrite (proj2 (Nat.ltb_ge _ _)) by lia. unfold ret. repeat f_equal; lia. }
  destruct (Z.eqb_spec st 0) as [->|Hne].
  - destruct Hc as [f ->]; [done|]. unfold Prelude.bind, ret. apply L.
  - unfold Prelude.bind, ret. apply L.
Qed.

(** Everything but the table, the connections and the standard error of the
    receiver is of no concern to it. *)
Definition received (s s' : os) (t : gmap Z Z) (cs : gmap Z conn) (chunks : list bytes) : Prop :=
  table s' = t /\ conns s' = cs /\ faults s' = [] /\
  io s' = Errlog.set_io (Errlog.pending (io s)) (Errlog.written (io s) ++ map (pair Errlog.Stderr) chunks) (io s).

(** One receive of a piece that fits in the buffer. *)
Lemma recv_piece fd o c d r l s :
  connection s fd = Some (o, c) -> rx c = Piece d r :: l -> (length d <= Z.to_nat Errlog.MAXLINE)%nat -> faults s = [] ->
  exists s0 s1, rcv_control s = (Ret true, s0) /\
    recvmsg fd (Z.to_nat Errlog.MAXLINE) s0 =
      (Ret (Z.of_nat (length d), d,
       match r with Some _ => Some (lowest_free (S (size (table s))) 0 (table s)) | None => None end), s1) /\
    received s s1 (match r with Some od => <[lowest_free (S (size (table s))) 0 (table s) := od]> (table s) | None => table s end)
      (<[o := Conn l (tx c) (room c) (alive c)]> (conns s)) [].
Proof.
  intros Hc Hrx Hd Hf.
  assert (exists s1, rcv_control s = (Ret true, s1) /\ table s1 = table s /\ io s1 = io s /\ faults s1 = [] /\ conns s1 = conns s)
    as (s1 & Hrun & Ht1 & Hi1 & Hf1 & Hc1).
  { unfold rcv_control, Prelude.bind, get, malloc, may_fail. destruct (rcv_cmptr s); [by exists s|]. rewrite Hf. by eexists. }
  exists s1.
  assert (Hio : io s = Errlog.set_io (Errlog.pending (io s)) (Errlog.written (io s) ++ []) (io s))
    by (rewrite app_nil_r; by destruct (io s)).
  assert (Hcon : connection s1 fd = Some (o, c)) by (unfold connection in *; by rewrite Ht1, Hc1).
  unfold recvmsg, receive, Prelude.bind. rewrite Hcon, Hrx, (proj2 (Nat.leb_le _ _) Hd).
  destruct r as [od|]; cbn [snd fst]; unfold received.
  - eexists. split; [done|]. split; [unfold install; cbn [table set_conn set_conns]; rewrite Ht1; reflexivity|]. cbn.
    rewrite Hc1, Hi1. split_and!; [done..|]. exact Hio.
  - eexists. split; [done|]. split; [reflexivity|]. cbn. rewrite Hc1, Hi1. split_and!; [done..|]. exact Hio.
Qed.

Lemma last_group (g : list (bytes * option Z)) rest msgs x :
  g ++ rest = msgs ++ [x] -> rest <> [] -> exists msgs', msgs = g ++ msgs' /\ rest = msgs' ++ [x].
Proof.
  intros H Hne. destruct (exists_last Hne) as (l & y & ->). rewrite app_assoc in H.
  apply app_inj_tail in H as [<- ->]. by exists l.
Qed.

Lemma pieces_app m1 m2 text : pieces (m1 ++ m2) text ->
  text = concat (map fst m1) ++ concat (map fst m2) /\ pieces m1 (concat (map fst m1)) /\ pieces m2 (concat (map fst m2)).
Proof.
  intros [H1 H2]. apply Forall_app in H2 as [? ?]. rewrite map_app, concat_app in H1. by split_and!.
Qed.

Lemma last_none msgs text : pieces msgs text -> snd (List.last msgs ([], None)) = None.
Proof.
  intros [_ H]. induction H as [|m msgs [_ Hm] _ IH]; [done|]. destruct msgs; [done|]. exact IH.
Qed.

Lemma pieces_nonempty msgs text : pieces msgs text -> msgs <> [] -> text <> [].
Proof.
  intros [<- H] Hne. destruct H as [|[d r] msgs [Hd _] _]; [done|]. cbn in *. by destruct d.
Qed.

Lemma write_stderr_run d s : faults s = [] ->
  exists s', write_stderr d s = (Ret (Z.of_nat (length d)), s') /\ received s s' (table s) (conns s) [d].
Proof. intros Hf. unfold write_stderr, may_fail. rewrite Hf. eexists. split; [reflexivity|]. by cbn. Qed.

Lemma received_trans s s1 s2 t1 t2 cs1 cs2 ch1 ch2 :
  received s s1 t1 cs1 ch1 -> received s1 s2 t2 cs2 ch2 -> received s s2 t2 cs2 (ch1 ++ ch2).
Proof.
  intros (_ & _ & _ & Hi1) (? & ? & ? & Hi2). split_and!; [done..|]. rewrite Hi2, Hi1.
  cbn. by rewrite map_app, <- app_assoc.
Qed.

(** A round that receives a part of the text. *)
Lemma recv_round fd o c d l s fuel newfd :
  connection s fd = Some (o, c) -> rx c = Piece d None :: l -> (length d <= Z.to_nat Errlog.MAXLINE)%nat -> faults s = [] ->
  nonul d -> d <> [] ->
  exists s1, recv_loop strerror junk (S fuel) fd write_stderr (-1) newfd s = recv_loop strerror junk fuel fd write_stderr (-1) newfd s1 /\
    received s s1 (table s) (<[o := Conn l (tx c) (room c) (alive c)]> (conns s)) [d].
Proof.
  intros Hc Hrx Hlen Hf Hd Hne. destruct (recv_piece fd o c d None l s Hc Hrx Hlen Hf) as (s0 & s1 & H0 & H1 & HR1).
  destruct (write_stderr_run d s1) as (s2 & H2 & HR2); [apply HR1|].
  assert (Hpos : (0 < length d)%nat) by (destruct d; [done|cbn; lia]).
  exists s2. cbn [recv_loop]. unfold Prelude.bind at 1. rewrite H0. cbn [negb]. unfold Prelude.bind at 1. rewrite H1.
  rewrite (proj2 (Z.ltb_ge _ 0)), (proj2 (Z.eqb_neq _ 0)) by lia. rewrite Nat2Z.id.
  unfold Prelude.bind at 1. rewrite scan_all by done. rewrite (proj2 (Nat.ltb_lt _ _) Hpos), take_ge by done.
  unfold Prelude.bind at 1. rewrite H2, Z.eqb_refl. cbn [negb]. split; [done|].
  pose proof (received_trans _ _ _ _ _ _ _ _ _ HR1 HR2) as HR. destruct HR1 as (Et & Ecs & _). by rewrite Et, Ecs in HR.
Qed.

(** The last round, with the rest of the text and the end of the protocol. *)
Lemma recv_end fd o c t st r l s fuel newfd :
  connection s fd = Some (o, c) -> rx c = Piece (t ++ [0; st]) r :: l ->
  (length t + 2 <= Z.to_nat Errlog.MAXLINE)%nat -> faults s = [] -> nonul t -> 0 <= st < 256 -> (st = 0 <-> is_Some r) ->
  let f := lowest_free (S (size (table s))) 0 (table s) in
  exists chunks s', recv_loop strerror junk (S fuel) fd write_stderr (-1) newfd s =
      (Ret (if st =? 0 then f else - st), s') /\ concat chunks = t /\
    received s s' (match r with Some od => <[f := od]> (table s) | None => table s end)
      (<[o := Conn l (tx c) (room c) (alive c)]> (conns s)) chunks.
Proof.
  intros Hc Hrx Hlen Hf Ht Hst Hr f.
  destruct (recv_piece fd o c (t ++ [0; st]) r l s Hc Hrx ltac:(len) Hf) as (s0 & s1 & H0 & H1 & HR1).
  assert (H2 : exists chunks s2, (if (0 <? length t)%nat then write_stderr t else ret (Z.of_nat (length t))) s1 =
    (Ret (Z.of_nat (length t)), s2) /\ concat chunks = t /\ received s1 s2 (table s1) (conns s1) chunks).
  { destruct (Nat.ltb_spec 0 (length t)) as [Hpos|Hz].
    - destruct (write_stderr_run t s1) as (s2 & H2 & HR2); [apply HR1|]. exists [t], s2. cbn. by rewrite app_nil_r.
    - exists [], s1. destruct t; [|cbn in Hz; lia]. split_and!; [done|done|]. unfold received.
      rewrite app_nil_r. destruct HR1 as (_ & _ & HF & _). split_and!; [done..|]. by destruct (io s1). }
  destruct H2 as (chunks & s2 & H2 & Hch & HR2). exists chunks, s2.
  cbn [recv_loop]. unfold Prelude.bind at 1. rewrite H0. cbn [negb]. unfold Prelude.bind at 1. rewrite H1.
  rewrite (proj2 (Z.ltb_ge _ 0)), (proj2 (Z.eqb_neq _ 0)) by len. rewrite Nat2Z.id.
  replace (length (t ++ [0; st])) with (length t + 2)%nat by len.
  unfold Prelude.bind at 1. rewrite scan_end; [|done|done|intros E; apply Hr in E as [od ->]; by eexists].
  rewrite take_app_length. unfold Prelude.bind at 1. rewrite H2, Z.eqb_refl. cbn [negb].
  rewrite (proj2 (Z.leb_le 0 st)) by lia. split_and!; [|done|].
  - unfold ret. do 3 f_equal. destruct (Z.eqb_spec st 0) as [E|]; [|done]. apply Hr in E as [od ->]. done.
  - pose proof (received_trans _ _ _ _ _ _ _ _ _ HR1 HR2) as HR. destruct HR1 as (Et & Ecs & _). by rewrite Et, Ecs in HR.
Qed.

(** The loop, when the messages of the protocol arrive in any grouping. *)
Lemma recv_groups fd o st r more : forall groups msgs text s c fuel newfd,
  connection s fd = Some (o, c) -> rx c = map merge groups ++ more -> Forall (fun g => g <> []) groups ->
  concat groups = msgs ++ [([0; st], r)] -> pieces msgs text -> nonul text ->
  (length text + 2 <= Z.to_nat Errlog.MAXLINE)%nat -> 0 <= st < 256 -> (st = 0 <-> is_Some r) ->
  faults s = [] -> (length groups <= fuel)%nat ->
  let f := lowest_free (S (size (table s))) 0 (table s) in
  exists chunks s', recv_loop strerror junk fuel fd write_stderr (-1) newfd s =
      (Ret (if st =? 0 then f else - st), s') /\ concat chunks = text /\
    received s s' (match r with Some od => <[f := od]> (table s) | None => table s end)
      (<[o := Conn more (tx c) (room c) (alive c)]> (conns s)) chunks.
Proof.
  induction groups as [|g groups IH]; intros msgs text s c fuel newfd Hc Hrx Hg Hcat Hp Ht Hlen Hst Hr Hf Hfuel f.
  { symmetry in Hcat. by apply app_nil in Hcat as [_ ?]. }
  destruct fuel as [|fuel]; [cbn in Hfuel; lia|]. apply Forall_cons_iff in Hg as [Hg0 Hg]. cbn [map app] in Hrx.
  cbn [concat] in Hcat. destruct groups as [|g' groups].
  - cbn [concat map app] in *. rewrite app_nil_r in Hcat. subst g. unfold merge in Hrx.
    rewrite List.last_last, map_app, concat_app in Hrx. cbn [map concat fst snd] in Hrx. rewrite app_nil_r in Hrx.
    destruct Hp as [Hp _]. rewrite Hp in Hrx. by eapply recv_end.
  - apply last_group in Hcat as (msgs' & -> & Hcat); [|cbn; apply Forall_cons_iff in Hg as [Hg' _]; by destruct g'].
    apply pieces_app in Hp as (-> & Hp1 & Hp2). apply nonul_app in Ht as [Ht1 Ht2]. rewrite length_app in Hlen.
    unfold merge in Hrx at 1. rewrite (last_none _ _ Hp1) in Hrx. set (d := concat (map fst g)) in *.
    destruct (recv_round fd o c d _ s fuel newfd Hc Hrx ltac:(lia) Hf Ht1 (pieces_nonempty _ _ Hp1 Hg0)) as (s1 & H1 & HR1).
    pose proof HR1 as (Et & Ecs & Hf1 & _).
    destruct (IH msgs' (concat (map fst msgs')) s1 (Conn (map merge (g' :: groups) ++ more) (tx c) (room c) (alive c)) fuel newfd)
      as (chunks & s' & H2 & Hch & HR2); [|done|done|done|exact Hp2|done|lia|done|done|done|cbn in *; lia|].
    + unfold connection in *. rewrite Et, Ecs. destruct (table s !! fd) as [o'|]; [|done].
      destruct (conns s !! o'); [|done]. injection Hc as -> ->. by rewrite lookup_insert_eq.
    + exists (d :: chunks), s'. rewrite H1, H2, Et. split_and!; [done|cbn; by rewrite Hch|].
      pose proof (received_trans _ _ _ _ _ _ _ _ _ HR1 HR2) as HR. rewrite Et, Ecs in HR.
      cbn in HR. by rewrite insert_insert_eq in HR.
Qed.

Lemma rounds_enough s fd o c groups more :
  connection s fd = Some (o, c) -> rx c = map merge groups ++ more -> (length groups <= rounds s fd)%nat.
Proof.
  intros Hc Hrx. unfold rounds. rewrite Hc, Hrx. clear Hrx. induction groups as [|g groups IH]; cbn in *; lia.
Qed.
End received.
End Fdpass.
