(* ===== verification/Opend.v ===== *)
(** * The open server and its client: ipc2/opend, ipc2/opend.fe and ipc2/open

    A client sends the string [open <pathname> <oflag>]; the server opens the
    file and sends the descriptor back, or a message.  [handle_request] with
    [cli_args] of the daemon and of the server that is run by [fork] and
    [exec], and the client's [csopen], on the system of [OpenSys]; what [open]
    finds in the file system is a parameter. *)

From S2P Require Import Prelude CLib Posix Stream Errlog Bufargs OpenSys Unixconn Fdpass.

Module Opend.
Import OpenSys Fdpass.

Definition MAXLINE : Z := Errlog.MAXLINE.
Definition CS_OPEN : bytes := str "/tmp/opend.socket".
Definition CL_OPEN : bytes := str "open".

(** The server: its surroundings and its global variables.  [errmsg] is the
    string in the array. *)
Record server := Server { sys : os; errmsg : bytes; pathname : bytes; oflag : Z }.

Definition on_sys {A} : M os A -> M server A := zoom sys (fun x s => Server x (errmsg s) (pathname s) (oflag s)).
Definition set_errmsg (m : bytes) : M server unit := modify (fun s => Server (sys s) m (pathname s) (oflag s)).

(** [snprintf(errmsg, MAXLINE - 1, ...)] of a text. *)
Definition print_errmsg (text : bytes) : M server unit :=
  set_errmsg (cstr (snprintf (Z.to_nat (MAXLINE - 1)) text)).

(** What a format without arguments prints: [%%] is a percent sign, any other
    conversion would fetch an argument that was not passed. *)
Fixpoint expand (fmt : bytes) : option bytes :=
  match fmt with
  | [] => Some []
  | 37 :: 37 :: fmt' => cons 37 <$> expand fmt'
  | 37 :: _ => None
  | c :: fmt' => cons c <$> expand fmt'
  end.

Definition cli_args (argc : nat) (argv : list bytes) : M server Z :=
  if negb (argc =? 3)%nat || negb (strcmp (nth 0 argv []) CL_OPEN =? 0) then
    set_errmsg (str "usage: <pathname> <oflag>" ++ [10]) ;;; ret (-1)
  else
    modify (fun s => Server (sys s) (errmsg s) (nth 1 argv []) (atoi (nth 2 argv []))) ;;;
    ret 0.

Section server.
Variable strerror : Z -> bytes.
Variable junk : bytes.
(** What [open] of a pathname with a flag does: an error, or an open file
    description. *)
Variable sys_open : bytes -> Z -> Z + Z.

Definition log_msg (text : bytes) : M server unit := on_sys (on_io (Errlog.log_msg strerror junk text)).
Definition log_sys (text : bytes) : M server unit := on_sys (on_io (Errlog.log_sys strerror junk text)).
Definition err_sys (text : bytes) : M server unit := on_sys (on_io (Errlog.err_sys strerror junk text)).

(** [log_msg(errmsg)]: the message is the format. *)
Definition log_errmsg : M server unit :=
  let* s := get in
  match expand (errmsg s) with
  | None => stop (Undefined "format")
  | Some text => log_msg text
  end.

Definition open (path : bytes) (flags : Z) : M os Z :=
  match sys_open path flags with
  | inl e => failed (-1) e
  | inr o => install o
  end.

(** [buf] is what was read, [nread] bytes of it. *)
Definition handle_request (buf : bytes) (nread clifd uid : Z) : M server unit :=
  if negb (nth (Z.to_nat (nread - 1)) buf 0 =? 0) then
    print_errmsg (str "request from uid " ++ dec (to_i32 uid) ++ str " not null terminated: " ++
                  padl (Z.to_nat nread) (cstr (take (Z.to_nat nread) buf)) ++ [10]) ;;;
    let* s := get in
    on_sys (send_err clifd (-1) (errmsg s)) ;;; ret tt
  else
  log_msg (str "request: " ++ cstr buf ++ str ", from uid " ++ dec (to_i32 uid)) ;;;
  let* r := (match Bufargs.buf_args buf cli_args with None => ret (-1) | Some m => m end) in
  if r <? 0 then
    let* s := get in
    on_sys (send_err clifd (-1) (errmsg s)) ;;;
    log_errmsg
  else
  let* s := get in
  let* newfd := on_sys (open (pathname s) (oflag s)) in
  if newfd <? 0 then
    let* e := on_sys get_errno in
    print_errmsg (str "can't open " ++ pathname s ++ str ": " ++ strerror e ++ [10]) ;;;
    let* s := get in
    on_sys (send_err clifd (-1) (errmsg s)) ;;;
    log_errmsg
  else
  let* r := on_sys (send_fd clifd newfd) in
  (if r <? 0 then log_sys (str "send_fd error") else ret tt) ;;;
  log_msg (str "sent fd " ++ dec newfd ++ str " over fd " ++ dec clifd ++ str " for " ++ pathname s) ;;;
  on_sys (close newfd).

(** The same function of opend.fe, which has no log. *)
Definition handle_request_fe (buf : bytes) (nread fd : Z) : M server unit :=
  if negb (nth (Z.to_nat (nread - 1)) buf 0 =? 0) then
    print_errmsg (str "request not null terminated: " ++
                  padl (Z.to_nat nread) (cstr (take (Z.to_nat nread) buf)) ++ [10]) ;;;
    let* s := get in
    on_sys (send_err fd (-1) (errmsg s)) ;;; ret tt
  else
  let* r := (match Bufargs.buf_args buf cli_args with None => ret (-1) | Some m => m end) in
  if r <? 0 then
    let* s := get in
    on_sys (send_err fd (-1) (errmsg s)) ;;; ret tt
  else
  let* s := get in
  let* newfd := on_sys (open (pathname s) (oflag s)) in
  if newfd <? 0 then
    let* e := on_sys get_errno in
    print_errmsg (str "can't open " ++ pathname s ++ str ": " ++ strerror e ++ [10]) ;;;
    let* s := get in
    on_sys (send_err fd (-1) (errmsg s)) ;;; ret tt
  else
  let* r := on_sys (send_fd fd newfd) in
  (if r <? 0 then err_sys (str "send_fd error") else ret tt) ;;;
  on_sys (close newfd).

(** [main] of opend.fe, which serves one client over the standard streams: a
    round for every piece there is to read, and one for the end. *)
Fixpoint fe_loop (fuel : nat) : M server unit :=
  match fuel with
  | O => stop Hang
  | S fuel' =>
      let* m := on_sys (read 0 (Z.to_nat MAXLINE)) in
      let '(nread, buf) := m in
      if nread <? 0 then err_sys (str "read error on stream pipe") ;;; fe_loop fuel'
      else if nread =? 0 then on_sys (on_io (Errlog.exit 0))
      else handle_request_fe buf nread 1 ;;; fe_loop fuel'
  end.

Definition fe_main : M server unit := let* s := get in fe_loop (rounds (sys s) 0).

(** ** The client *)

Record client := Client { csys : os; csfd : Z }.
Definition on_csys {A} : M os A -> M client A := zoom csys (fun x s => Client x (csfd s)).

Definition csopen (name : bytes) (flags : Z) : M client Z :=
  let* s := get in
  let* ok :=
    (if csfd s <? 0 then
       let* fd := on_csys (Unixconn.cli_conn CS_OPEN) in
       modify (fun s => Client (csys s) fd) ;;;
       if fd <? 0 then on_csys (err_ret strerror junk (str "cli_conn error")) ;;; ret false else ret true
     else ret true) in
  if negb ok then ret (-1) else
  let* s := get in
  let buf := cstr (snprintf 12 (str " " ++ dec flags)) in
  let iov := [CL_OPEN ++ str " "; cstr name; buf ++ [0]] in
  let len := Z.of_nat (length (concat iov)) in
  let* n := on_csys (writev (csfd s) iov) in
  if negb (n =? len) then on_csys (err_ret strerror junk (str "writev error")) ;;; ret (-1) else
  on_csys (recv_fd strerror junk (csfd s) write_stderr).

(** ** What the server answers *)

Inductive answer :=
| Refuse (text : bytes)
| Grant (ofd : Z).

Definition usage : bytes := str "usage: <pathname> <oflag>" ++ [10].

(** The request in a string: what to tell the client, or the path and the flag.
    [stale] is the last message. *)
Definition parse_request (stale s : bytes) : bytes + (bytes * Z) :=
  if (0 <? length (Bufargs.words s))%nat && (length (Bufargs.words s) <? 50)%nat then
    match Bufargs.arguments s with
    | [cmd; path; flag] => if decide (cmd = CL_OPEN) then inr (path, atoi flag) else inl usage
    | _ => inl usage
    end
  else inl stale.

Definition cant_open (path : bytes) (e : Z) : bytes :=
  take (Z.to_nat (MAXLINE - 2)) (str "can't open " ++ path ++ str ": " ++ strerror e ++ [10]).

(** [bad] is the message for a request that does not end in a null byte. *)
Definition answer_to (bad stale req : bytes) : answer :=
  if negb (nth (length req - 1) req 0 =? 0) then Refuse (take (Z.to_nat (MAXLINE - 2)) bad)
  else match parse_request stale (cstr req) with
       | inl text => Refuse text
       | inr (path, flags) =>
           match sys_open path flags with
           | inl e => Refuse (cant_open path e)
           | inr o => Grant o
           end
       end.

(** The messages that carry an answer. *)
Definition carries (msgs : list (bytes * option Z)) (a : answer) : Prop :=
  match a with
  | Refuse text => exists m0, msgs = m0 ++ [([0; 1], None)] /\ pieces m0 text
  | Grant o => msgs = [([0; 0], Some o)]
  end.

Hypothesis strerror_nonul : forall e, nonul (strerror e).
Hypothesis junk_length : Z.of_nat (length junk) = MAXLINE.

(** The request is a string and what follows it. *)
Lemma request_string req : nth (length req - 1) req 0 = 0 -> req <> [] -> exists post, req = cstr req ++ 0 :: post.
Proof.
  intros Hz Hne. induction req as [|c req IH]; [done|]. destruct (Z.eq_dec c 0) as [->|Hc]; [exists req; reflexivity|].
  destruct req as [|c' req]; [done|]. destruct IH as [post Hp]; [|done|].
  - cbn [length] in *. replace (S (S (length req)) - 1)%nat with (S (S (length req) - 1)) in Hz by lia. exact Hz.
  - exists post. change (cstr (c :: c' :: req)) with (if c =? NUL then [] else c :: cstr (c' :: req)).
    destruct (Z.eqb_spec c NUL); [done|]. rewrite <- app_comm_cons. by f_equal.
Qed.

(** Three arguments, of which the first is the command. *)
Lemma cli_args_run s0 argv : Forall nonul argv ->
  cli_args (length argv) argv s0 =
  match argv with
  | [cmd; path; flag] =>
      if decide (cmd = CL_OPEN) then (Ret 0, Server (sys s0) (errmsg s0) path (atoi flag))
      else (Ret (-1), Server (sys s0) usage (pathname s0) (oflag s0))
  | _ => (Ret (-1), Server (sys s0) usage (pathname s0) (oflag s0))
  end.
Proof.
  intros Ha. unfold cli_args. destruct argv as [|cmd [|path [|flag [|x argv]]]]; try done.
  cbn [length Nat.eqb negb orb nth]. apply Forall_cons_iff in Ha as [Hc _].
  destruct (Z.eqb_spec (strcmp cmd CL_OPEN) 0) as [E|E]; rewrite strcmp_0, (cstr_id cmd Hc) in E.
  - by rewrite decide_True.
  - by rewrite decide_False.
Qed.

Lemma parse_run s0 req : nth (length req - 1) req 0 = 0 -> req <> [] ->
  (match Bufargs.buf_args req cli_args with None => ret (-1) | Some m => m end) s0 =
  match parse_request (errmsg s0) (cstr req) with
  | inl text => (Ret (-1), Server (sys s0) text (pathname s0) (oflag s0))
  | inr (path, flags) => (Ret 0, Server (sys s0) (errmsg s0) path flags)
  end.
Proof.
  intros Hz Hne. destruct (request_string req Hz Hne) as [post Hp].
  pose proof (Bufargs.buf_args_spec (cstr req) post cli_args (cstr_nonul _)) as Hb. rewrite <- Hp in Hb.
  rewrite Hb. clear Hb. unfold parse_request.
  destruct (_ && _); [|by destruct s0].
  assert (length (Bufargs.words (cstr req)) = length (Bufargs.arguments (cstr req))) as ->
    by (unfold Bufargs.arguments; by destruct (Bufargs.words (cstr req))).
  rewrite cli_args_run by apply Bufargs.arguments_nonul, cstr_nonul.
  destruct (Bufargs.arguments (cstr req)) as [|cmd [|path [|flag [|x argv]]]]; try done. by case_decide.
Qed.

(** Text for the log: what is between the program and the connection does not
    change. *)
Definition linked (s s' : os) : Prop := table s' = table s /\ conns s' = conns s /\ faults s' = faults s.

Lemma log_msg_run text s0 : nonul text ->
  exists o, log_msg text s0 = (Ret tt, Server o (errmsg s0) (pathname s0) (oflag s0)) /\ linked (sys s0) o.
Proof.
  intros Ht. unfold log_msg, on_sys, on_io, zoom, Errlog.log_msg.
  rewrite Errlog.log_doit_spec by done. eexists. split; [reflexivity|done].
Qed.

Lemma expand_plain t : 37 ∉ t -> expand t = Some t.
Proof.
  induction t as [|c t IH]; intros Hn; [done|]. apply not_elem_of_cons in Hn as [Hc Hn]. cbn [expand].
  rewrite IH by done. destruct c as [|p|p]; try done. repeat (destruct p as [p|p|]; try done).
Qed.

Lemma log_errmsg_run s0 : nonul (errmsg s0) -> 37 ∉ errmsg s0 ->
  exists o, log_errmsg s0 = (Ret tt, Server o (errmsg s0) (pathname s0) (oflag s0)) /\ linked (sys s0) o.
Proof.
  intros Hz Hn. unfold log_errmsg, Prelude.bind, get. rewrite expand_plain by done. by apply log_msg_run.
Qed.

Lemma ready_linked s s' fd o c : linked s s' -> ready s fd o c -> ready s' fd o c.
Proof.
  intros (Ht & Hc & _) (Hr & ? & ?). split_and!; [|done..]. unfold connection in *. by rewrite Ht, Hc.
Qed.

(** The state after an answer was sent over a connection: nothing else of the
    server's surroundings has changed. *)
Definition answered (o : Z) (c : conn) (s s' : os) (a : answer) : Prop :=
  exists msgs l, carries msgs a /\ sturdy l /\ table s' = table s /\ faults s' = [] /\
    conns s' = <[o := Conn (rx c) (tx c ++ msgs) l true]> (conns s).

Lemma answered_linked o c s0 s1 s2 s3 a :
  linked s0 s1 -> answered o c s1 s2 a -> linked s2 s3 -> answered o c s0 s3 a.
Proof.
  intros (Ht & Hc & _) (msgs & l & ? & ? & Ht1 & Hf1 & Hc1) (Ht2 & Hc2 & Hf2). exists msgs, l.
  rewrite Ht2, Hc2, Hf2, Ht1, Hc1, Ht, Hc. done.
Qed.

Lemma linked_refl s : linked s s.
Proof. done. Qed.

(** Sending the message in [errmsg]. *)
Lemma refuse_run clifd o c s0 : ready (sys s0) clifd o c -> nonul (errmsg s0) -> faults (sys s0) = [] ->
  exists x, on_sys (send_err clifd (-1) (errmsg s0)) s0 = (Ret 0, Server x (errmsg s0) (pathname s0) (oflag s0)) /\
    answered o c (sys s0) x (Refuse (errmsg s0)).
Proof.
  intros Hr Hz Hf. destruct (send_err_ready clifd (-1) (errmsg s0) o c (sys s0) Hr ltac:(lia)) as (msgs & l & Hrun & Hl & Hp).
  rewrite cstr_id in Hp by done. unfold on_sys, zoom. rewrite Hrun. eexists. split; [reflexivity|].
  exists (msgs ++ [([0; 1], None)]), l. split_and!; try done. by exists msgs.
Qed.

(** Opening, sending and closing. *)
Lemma grant_run clifd o c s0 path flags od :
  sys_open path flags = inr od -> ready (sys s0) clifd o c -> faults (sys s0) = [] ->
  exists f x1 x2, on_sys (open path flags) s0 = (Ret f, Server x1 (errmsg s0) (pathname s0) (oflag s0)) /\ 0 <= f /\
    on_sys (send_fd clifd f) (Server x1 (errmsg s0) (pathname s0) (oflag s0)) =
      (Ret 0, Server x2 (errmsg s0) (pathname s0) (oflag s0)) /\
    forall x3, linked x2 x3 -> exists x4, on_sys (close f) (Server x3 (errmsg s0) (pathname s0) (oflag s0)) =
      (Ret tt, Server x4 (errmsg s0) (pathname s0) (oflag s0)) /\ answered o c (sys s0) x4 (Grant od).
Proof.
  intros Ho Hr Hf. destruct (new_fd (table (sys s0))) as [Hge Hno].
  set (f := lowest_free (S (size (table (sys s0)))) 0 (table (sys s0))) in *.
  set (x1 := set_table (<[f := od]> (table (sys s0))) (sys s0)).
  assert (Hr1 : ready x1 clifd o c).
  { destruct Hr as (Hc & ? & ?). split_and!; [|done..]. unfold connection in *. cbn.
    destruct (decide (f = clifd)) as [E|]; [|by rewrite lookup_insert_ne].
    rewrite E in Hno. by rewrite Hno in Hc. }
  destruct (send_fd_ready clifd f od o c x1 Hr1 Hge (lookup_insert_eq _ _ _) Hf)
    as (l & x2 & Hrun & Hl & Ht2 & _ & Hf2 & Hc2).
  exists f, x1, x2. split_and!; [|done| |].
  - unfold on_sys, zoom, open. rewrite Ho. done.
  - unfold on_sys, zoom. cbn [sys]. rewrite Hrun. done.
  - intros x3 (Ht3 & Hc3 & Hf3). eexists. split; [reflexivity|]. exists [([0; 0], Some od)], l.
    split_and!; try done; cbn.
    + rewrite Ht3, Ht2. cbn. by apply delete_insert_id.
    + by rewrite Hf3.
    + by rewrite Hc3, Hc2.
Qed.

Lemma print_errmsg_run text s0 : nonul text ->
  print_errmsg text s0 = (Ret tt, Server (sys s0) (take (Z.to_nat (MAXLINE - 2)) text) (pathname s0) (oflag s0)).
Proof.
  intros Ht. unfold print_errmsg, set_errmsg, modify. f_equal. f_equal. unfold MAXLINE, Errlog.MAXLINE.
  replace (Z.to_nat (4096 - 1)) with (S (Z.to_nat (4096 - 2))) by lia. cbn [snprintf].
  apply cstr_end. by apply Forall_take.
Qed.

Definition bad_request (uid : Z) (req : bytes) : bytes :=
  str "request from uid " ++ dec (to_i32 uid) ++ str " not null terminated: " ++ padl (length req) (cstr req) ++ [10].
Definition bad_request_fe (req : bytes) : bytes :=
  str "request not null terminated: " ++ padl (length req) (cstr req) ++ [10].

Lemma bad_request_nonul uid req : nonul (bad_request uid req).
Proof. unfold bad_request. nonuls. Qed.

Lemma bad_request_fe_nonul req : nonul (bad_request_fe req).
Proof. unfold bad_request_fe. nonuls. Qed.

Lemma parse_nonul stale t : nonul stale -> nonul t ->
  match parse_request stale t with inl text => nonul text | inr (path, _) => nonul path end.
Proof.
  intros Hs Ht. pose proof (Bufargs.arguments_nonul t Ht) as Ha. unfold parse_request. destruct (_ && _); [|done].
  assert (Hu : nonul usage) by (unfold usage; nonuls).
  destruct (Bufargs.arguments t) as [|cmd [|path [|flag [|x argv]]]]; try done.
  case_decide; [|done]. apply Forall_cons_iff in Ha as [_ Ha]. by apply Forall_cons_iff in Ha as [Ha _].
Qed.

(** The two ways to refuse: with the log, and without. *)
Lemma refuse_silent clifd o c s1 : ready (sys s1) clifd o c -> nonul (errmsg s1) -> faults (sys s1) = [] ->
  exists s2, (let* s := get in on_sys (send_err clifd (-1) (errmsg s)) ;;; ret tt) s1 = (Ret tt, s2) /\
    errmsg s2 = errmsg s1 /\ answered o c (sys s1) (sys s2) (Refuse (errmsg s1)).
Proof.
  intros Hr Hz Hf. destruct (refuse_run clifd o c s1 Hr Hz Hf) as (x & Hrun & Hans).
  unfold Prelude.bind at 1, get at 1. unfold Prelude.bind. rewrite Hrun. by eexists.
Qed.

Lemma refuse_log clifd o c s1 : ready (sys s1) clifd o c -> nonul (errmsg s1) -> faults (sys s1) = [] -> 37 ∉ errmsg s1 ->
  exists s2, (let* s := get in on_sys (send_err clifd (-1) (errmsg s)) ;;; log_errmsg) s1 = (Ret tt, s2) /\
    errmsg s2 = errmsg s1 /\ answered o c (sys s1) (sys s2) (Refuse (errmsg s1)).
Proof.
  intros Hr Hz Hf Hn. destruct (refuse_run clifd o c s1 Hr Hz Hf) as (x & Hrun & Hans).
  destruct (log_errmsg_run (Server x (errmsg s1) (pathname s1) (oflag s1)) Hz Hn) as (x2 & Hrun2 & Hl).
  unfold Prelude.bind at 1, get at 1. unfold Prelude.bind. rewrite Hrun, Hrun2. eexists. split_and!; [reflexivity|done|].
  by apply (answered_linked _ _ _ (sys s1) x _ _ (linked_refl _)).
Qed.

(** A file that cannot be opened. *)
Lemma open_fails path flags e s0 : sys_open path flags = inl e ->
  exists x, on_sys (open path flags) s0 = (Ret (-1), Server x (errmsg s0) (pathname s0) (oflag s0)) /\
    linked (sys s0) x /\ on_sys get_errno (Server x (errmsg s0) (pathname s0) (oflag s0)) =
      (Ret e, Server x (errmsg s0) (pathname s0) (oflag s0)).
Proof. intros E. eexists. unfold open, on_sys, zoom. rewrite E. split_and!; [reflexivity|done|reflexivity]. Qed.

Lemma cant_open_nonul path e : nonul path ->
  nonul (str "can't open " ++ path ++ str ": " ++ strerror e ++ [10]).
Proof. intros Hp. nonuls. Qed.

(** The message the next client may be sent. *)
Definition said (stale : bytes) (a : answer) : bytes :=
  match a with Refuse text => text | Grant _ => stale end.

Ltac run H := unfold Prelude.bind at 1; rewrite H.

Lemma handle_request_spec req clifd uid o c s0 :
  req <> [] -> ready (sys s0) clifd o c -> faults (sys s0) = [] -> nonul (errmsg s0) ->
  let a := answer_to (bad_request uid req) (errmsg s0) req in
  (forall t, a = Refuse t -> 37 ∉ t) ->
  exists s1, handle_request req (Z.of_nat (length req)) clifd uid s0 = (Ret tt, s1) /\
    errmsg s1 = said (errmsg s0) a /\ answered o c (sys s0) (sys s1) a.
Proof.
  intros Hne Hr Hf Hz a Ha. unfold a, answer_to in *. clear a. unfold handle_request.
  replace (Z.to_nat (Z.of_nat (length req) - 1)) with (length req - 1)%nat by lia. rewrite Nat2Z.id, take_ge by done.
  destruct (Z.eqb_spec (nth (length req - 1) req 0) 0) as [Hl|Hl]; cbn [negb] in *.
  2: { run print_errmsg_run; [|apply bad_request_nonul].
       apply (refuse_silent clifd o c (Server _ _ _ _)); [done|by apply Forall_take, bad_request_nonul|done]. }
  destruct (log_msg_run (str "request: " ++ cstr req ++ str ", from uid " ++ dec (to_i32 uid)) s0) as (x & Hrun & Hx); [nonuls|].
  run Hrun. run parse_run; [|done..]. cbn [errmsg sys pathname oflag].
  pose proof (parse_nonul (errmsg s0) (cstr req) Hz (cstr_nonul _)) as Hpn.
  pose proof (ready_linked _ _ _ _ _ Hx Hr) as Hrx. assert (Hfx : faults x = []) by (by destruct Hx as (_ & _ & ->)).
  destruct (parse_request (errmsg s0) (cstr req)) as [text|[path flags]].
  - destruct (refuse_log clifd o c (Server x text (pathname s0) (oflag s0)) Hrx Hpn Hfx (Ha _ eq_refl)) as (s2 & Hrun2 & He2 & Hans).
    exists s2. split_and!; [exact Hrun2|done|]. by eapply answered_linked; [exact Hx|exact Hans|apply linked_refl].
  - cbn [Z.ltb Z.compare]. unfold Prelude.bind at 1, get at 1. cbn [pathname oflag].
    destruct (sys_open path flags) as [e|od] eqn:Eo.
    + destruct (open_fails path flags e (Server x (errmsg s0) path flags) Eo) as (x2 & Hrun2 & Hx2 & Herr).
      run Hrun2. cbn [Z.ltb Z.compare]. run Herr. run print_errmsg_run; [|by apply cant_open_nonul].
      destruct (refuse_log clifd o c (Server x2 (cant_open path e) path flags)) as (s3 & Hrun3 & He3 & Hans).
      * by eapply ready_linked.
      * by apply Forall_take, cant_open_nonul.
      * destruct Hx2 as (_ & _ & E). cbn in E. cbn. by rewrite E.
      * by apply Ha.
      * exists s3. split_and!; [exact Hrun3|done|]. eapply answered_linked; [|exact Hans|apply linked_refl].
        destruct Hx as (? & ? & ?), Hx2 as (? & ? & ?). cbn in *. split_and!; congruence.
    + destruct (grant_run clifd o c (Server x (errmsg s0) path flags) path flags od Eo Hrx Hfx)
        as (f & x1 & x2 & Hop & Hge & Hsend & Hcl). cbn [errmsg pathname oflag] in *.
      run Hop. rewrite (proj2 (Z.ltb_ge f 0) Hge). run Hsend. cbn [Z.ltb Z.compare]. unfold Prelude.bind at 1. cbn [ret].
      destruct (log_msg_run (str "sent fd " ++ dec f ++ str " over fd " ++ dec clifd ++ str " for " ++ path)
        (Server x2 (errmsg s0) path flags)) as (x3 & Hrun3 & Hx3); [nonuls|]. run Hrun3.
      destruct (Hcl x3 Hx3) as (x4 & Hrun4 & Hans). cbn [errmsg pathname oflag] in *. eexists.
      split_and!; [exact Hrun4|done|]. by eapply answered_linked; [exact Hx|exact Hans|apply linked_refl].
Qed.

Lemma handle_request_fe_spec req fd o c s0 :
  req <> [] -> ready (sys s0) fd o c -> faults (sys s0) = [] -> nonul (errmsg s0) ->
  let a := answer_to (bad_request_fe req) (errmsg s0) req in
  exists s1, handle_request_fe req (Z.of_nat (length req)) fd s0 = (Ret tt, s1) /\
    errmsg s1 = said (errmsg s0) a /\ answered o c (sys s0) (sys s1) a.
Proof.
  intros Hne Hr Hf Hz a. unfold a, answer_to in *. clear a. unfold handle_request_fe.
  replace (Z.to_nat (Z.of_nat (length req) - 1)) with (length req - 1)%nat by lia. rewrite Nat2Z.id, take_ge by done.
  destruct (Z.eqb_spec (nth (length req - 1) req 0) 0) as [Hl|Hl]; cbn [negb] in *.
  2: { run print_errmsg_run; [|apply bad_request_fe_nonul].
       apply (refuse_silent fd o c (Server _ _ _ _)); [done|by apply Forall_take, bad_request_fe_nonul|done]. }
  run parse_run; [|done..]. cbn [errmsg sys pathname oflag].
  pose proof (parse_nonul (errmsg s0) (cstr req) Hz (cstr_nonul _)) as Hpn.
  destruct (parse_request (errmsg s0) (cstr req)) as [text|[path flags]].
  { by apply (refuse_silent fd o c (Server (sys s0) text (pathname s0) (oflag s0))). }
  cbn [Z.ltb Z.compare]. unfold Prelude.bind at 1, get at 1. cbn [pathname oflag].
  destruct (sys_open path flags) as [e|od] eqn:Eo.
  - destruct (open_fails path flags e (Server (sys s0) (errmsg s0) path flags) Eo) as (x2 & Hrun2 & Hx2 & Herr).
    run Hrun2. cbn [Z.ltb Z.compare]. run Herr. run print_errmsg_run; [|by apply cant_open_nonul].
    destruct (refuse_silent fd o c (Server x2 (cant_open path e) path flags)) as (s3 & Hrun3 & He3 & Hans).
    + by eapply ready_linked.
    + by apply Forall_take, cant_open_nonul.
    + destruct Hx2 as (_ & _ & E). cbn in E |- *. by rewrite E.
    + exists s3. split_and!; [exact Hrun3|done|]. by eapply answered_linked; [exact Hx2|exact Hans|apply linked_refl].
  - destruct (grant_run fd o c (Server (sys s0) (errmsg s0) path flags) path flags od Eo Hr Hf)
      as (f & x1 & x2 & Hop & Hge & Hsend & Hcl). cbn [errmsg pathname oflag] in *.
    run Hop. rewrite (proj2 (Z.ltb_ge f 0) Hge). run Hsend. cbn [Z.ltb Z.compare]. unfold Prelude.bind at 1. cbn [ret].
    destruct (Hcl x2 (linked_refl _)) as (x4 & Hrun4 & Hans). by eexists.
Qed.

(** The answers to requests in turn. *)
Fixpoint answers (stale : bytes) (reqs : list bytes) : list answer :=
  match reqs with
  | [] => []
  | req :: reqs' =>
      let a := answer_to (bad_request_fe req) stale req in
      a :: answers (said stale a) reqs'
  end.

Lemma answer_nonul bad stale req t : nonul bad -> nonul stale -> answer_to bad stale req = Refuse t -> nonul t.
Proof.
  intros Hb Hs. unfold answer_to. destruct (negb _); [intros [= <-]; by apply Forall_take|].
  pose proof (parse_nonul stale (cstr req) Hs (cstr_nonul _)) as Hp.
  destruct (parse_request stale (cstr req)) as [text|[path flags]]; [by intros [= <-]|].
  destruct (sys_open path flags); [|done]. intros [= <-]. by apply Forall_take, cant_open_nonul.
Qed.

(** Reading a request, and reading at the end. *)
Lemma read_request fd o c d r l n s0 :
  connection (sys s0) fd = Some (o, c) -> rx c = Piece d r :: l -> (length d <= n)%nat ->
  on_sys (read fd n) s0 = (Ret (Z.of_nat (length d), d),
    Server (set_conn o (Conn l (tx c) (room c) (alive c)) (sys s0)) (errmsg s0) (pathname s0) (oflag s0)).
Proof.
  intros Hc Hrx Hd. unfold on_sys, zoom, read, receive, Prelude.bind. rewrite Hc, Hrx, (proj2 (Nat.leb_le _ _) Hd). done.
Qed.

Lemma read_end fd o c n s0 :
  connection (sys s0) fd = Some (o, c) -> rx c = [] -> on_sys (read fd n) s0 = (Ret (0, []), s0).
Proof. intros Hc Hrx. unfold on_sys, zoom, read, receive, Prelude.bind. rewrite Hc, Hrx. by destruct s0. Qed.

Lemma fe_loop_spec reqs o : forall fuel s0 c,
  (length reqs < fuel)%nat -> Forall (fun r => r <> [] /\ (length r <= Z.to_nat MAXLINE)%nat) reqs ->
  table (sys s0) !! 0 = Some o -> table (sys s0) !! 1 = Some o -> conns (sys s0) !! o = Some c ->
  rx c = map (fun r => Piece r None) reqs -> alive c = true -> sturdy (room c) -> faults (sys s0) = [] -> nonul (errmsg s0) ->
  exists s1 msgss l, fe_loop fuel s0 = (Stop (Exit 0), s1) /\ Forall2 carries msgss (answers (errmsg s0) reqs) /\
    table (sys s1) = table (sys s0) /\ conns (sys s1) = <[o := Conn [] (tx c ++ concat msgss) l true]> (conns (sys s0)).
Proof.
  induction reqs as [|req reqs IH]; intros fuel s0 c Hfu Hall H0 H1 Hc Hrx Ha Hst Hf Hz; (destruct fuel as [|fuel]; [cbn in Hfu; lia|]);
    cbn [fe_loop]; assert (Hc0 : connection (sys s0) 0 = Some (o, c)) by (unfold connection; by rewrite H0, Hc).
  - run (read_end 0 o c (Z.to_nat MAXLINE) s0 Hc0 Hrx). eexists _, [], (room c). split; [reflexivity|].
    split_and!; [constructor|done|]. cbn. rewrite insert_id; [done|]. rewrite Hc, app_nil_r. by destruct c; cbn in *; subst.
  - apply Forall_cons_iff in Hall as [[Hne Hlen] Hall].
    run (read_request 0 o c req None _ _ s0 Hc0 Hrx Hlen). set (s1 := Server _ _ _ _).
    assert (Hpos : (0 < length req)%nat) by (destruct req; [done|cbn; lia]).
    rewrite (proj2 (Z.ltb_ge _ 0)), (proj2 (Z.eqb_neq _ 0)) by lia.
    destruct (handle_request_fe_spec req 1 o (Conn (map (fun r => Piece r None) reqs) (tx c) (room c) (alive c)) s1)
      as (s2 & Hrun & He & msgs & l & Hcar & Hl & Ht2 & Hf2 & Hc2); [done| |done|done|].
    { split_and!; [|done..]. unfold connection. cbn. by rewrite H1, lookup_insert_eq. }
    run Hrun. set (a := answer_to _ _ req) in *.
    destruct (IH fuel s2 (Conn (map (fun r => Piece r None) reqs) (tx c ++ msgs) l true))
      as (s3 & msgss & l' & Hrun3 & Hcar3 & Ht3 & Hc3); try done; [cbn in Hfu; lia|by rewrite Ht2..| | |].
    + by rewrite Hc2, lookup_insert_eq.
    + rewrite He. unfold said. destruct a eqn:Ea; [|done]. eapply answer_nonul; [|exact Hz|exact Ea]. apply bad_request_fe_nonul.
    + exists s3, (msgs :: msgss), l'. split_and!; [exact Hrun3| |by rewrite Ht3, Ht2|].
      * cbn [answers]. constructor; [done|]. by rewrite He in Hcar3.
      * rewrite Hc3, Hc2. cbn. by rewrite !insert_insert_eq, app_assoc.
Qed.

(** C25. The server behind a pipe serves its client to the end: for any sequence
    of requests it reads, one after the other and each at most a line, it sends
    one answer per request, in order, over the same connection, and exits with
    0 when the client closes it.  The answer is the descriptor that [open]
    returned for the parsed pathname and flag, or the message for what is wrong;
    the server keeps no descriptor.  It always terminates. *)
Theorem fe_main_serves (reqs : list bytes) (o : Z) (c : conn) (s0 : server) :
  Forall (fun r => r <> [] /\ (length r <= Z.to_nat MAXLINE)%nat) reqs ->
  table (sys s0) !! 0 = Some o -> table (sys s0) !! 1 = Some o -> conns (sys s0) !! o = Some c ->
  rx c = map (fun r => Piece r None) reqs -> alive c = true -> sturdy (room c) -> faults (sys s0) = [] -> nonul (errmsg s0) ->
  exists s1 msgss l, fe_main s0 = (Stop (Exit 0), s1) /\ Forall2 carries msgss (answers (errmsg s0) reqs) /\
    table (sys s1) = table (sys s0) /\ conns (sys s1) = <[o := Conn [] (tx c ++ concat msgss) l true]> (conns (sys s0)).
Proof.
  intros Hall H0 H1 Hc Hrx Ha Hst Hf Hz. unfold fe_main, Prelude.bind at 1, get.
  apply fe_loop_spec; try done. unfold rounds, connection. rewrite H0, Hc, Hrx.
  clear. induction reqs as [|r reqs IH]; cbn in *; lia.
Qed.

(** ** The client and the server *)

(** What the client sends. *)
Definition request (name : bytes) (flags : Z) : bytes := str "open " ++ name ++ str " " ++ dec flags ++ [0].

(** A pathname that can be sent. *)
Definition sendable (name : bytes) : Prop :=
  name <> [] /\ nonul name /\ Forall (fun x => Bufargs.white x = false) name.

Lemma dec_not_white n : 0 <= n -> Forall (fun x => Bufargs.white x = false) (dec n).
Proof.
  intros Hn. eapply Forall_impl; [|by apply dec_digits]. unfold digit, Bufargs.white, Bufargs.mem. cbn.
  intros x Hx. rewrite !(proj2 (Z.eqb_neq _ _)) by lia. done.
Qed.

Lemma words_last w : w <> [] -> Forall (fun x => Bufargs.white x = false) w -> Bufargs.words w = [w].
Proof.
  intros Hne Hw. pose proof (Bufargs.words_split [] w [] ltac:(constructor) Hw Hne ltac:(done)) as H.
  cbn [app tl] in H. by rewrite app_nil_r in H.
Qed.

Lemma words_first w r : w <> [] -> Forall (fun x => Bufargs.white x = false) w ->
  Bufargs.words (w ++ 32 :: r) = w :: Bufargs.words r.
Proof. intros Hne Hw. exact (Bufargs.words_split [] w (32 :: r) ltac:(constructor) Hw Hne ltac:(done)). Qed.

Lemma parse_sendable stale name flags : sendable name -> 0 <= flags < 2 ^ 31 ->
  parse_request stale (cstr (request name flags)) = inr (name, flags).
Proof.
  intros (Hne & Hz & Hw) Hfl.
  assert (Hd : dec flags <> []) by (pose proof (dec_length flags 10 ltac:(lia) ltac:(cbn; lia)) as H; intros E; rewrite E in H; cbn in H; lia).
  assert (E : cstr (request name flags) = str "open" ++ 32 :: name ++ 32 :: dec flags).
  { unfold request. replace (str "open " ++ name ++ str " " ++ dec flags ++ [0])
      with ((str "open" ++ 32 :: name ++ 32 :: dec flags) ++ 0 :: []) by (by apps).
    apply cstr_end. change (nonul (str "open " ++ name ++ str " " ++ dec flags)). nonuls. }
  assert (W : Bufargs.words (cstr (request name flags)) = [str "open"; name; dec flags]).
  { rewrite E, words_first, words_first, words_last; try done; [by apply dec_not_white; lia|by repeat constructor]. }
  unfold parse_request, Bufargs.arguments. rewrite W. cbn [length Nat.ltb Nat.leb andb].
  rewrite E. change (Bufargs.strspn (str "open" ++ 32 :: name ++ 32 :: dec flags) Bufargs.WHITE) with 0%nat. cbn [take app].
  rewrite decide_True by done. unfold atoi. pose proof (atol_dec flags [] ltac:(lia) eq_refl) as A. rewrite app_nil_r in A. by rewrite A.
Qed.

(** The client sends its request and receives the answer, however the messages
    of the answer arrive together. *)
Lemma csopen_run name flags cl oc cc msgs a groups more :
  0 <= csfd cl -> connection (csys cl) (csfd cl) = Some (oc, cc) -> alive cc = true -> room cc = [] ->
  faults (csys cl) = [] -> sendable name -> 0 <= flags < 2 ^ 31 -> carries msgs a ->
  (forall t, a = Refuse t -> nonul t /\ (length t + 2 <= Z.to_nat MAXLINE)%nat) ->
  Forall (fun g => g <> []) groups -> concat groups = msgs -> rx cc = map merge groups ++ more ->
  let f := lowest_free (S (size (table (csys cl)))) 0 (table (csys cl)) in
  exists chunks x, csopen name flags cl = (Ret (match a with Refuse _ => -1 | Grant _ => f end), Client x (csfd cl)) /\
    concat chunks = match a with Refuse t => t | Grant _ => [] end /\
    received (csys cl) x (match a with Refuse _ => table (csys cl) | Grant od => <[f := od]> (table (csys cl)) end)
      (<[oc := Conn more (tx cc ++ [(request name flags, None)]) [] true]> (conns (csys cl))) chunks.
Proof.
  intros Hfd Hc Hal Hrm Hf (Hne & Hz & Hw) Hfl Hcar Hlen Hg Hcat Hrx f. unfold csopen.
  unfold Prelude.bind at 1, get at 1. rewrite (proj2 (Z.ltb_ge _ 0) Hfd). unfold Prelude.bind at 1. cbn [ret negb].
  unfold Prelude.bind at 1, get at 1.
  assert (Hb : cstr (snprintf 12 (str " " ++ dec flags)) = str " " ++ dec flags).
  { pose proof (dec_length flags 10 ltac:(lia) ltac:(cbn; lia)). rewrite snprintf_fits by (cbn; len).
    apply cstr_end. nonuls. }
  rewrite Hb, (cstr_id name Hz).
  assert (Hreq : concat [CL_OPEN ++ str " "; name; (str " " ++ dec flags) ++ [0]] = request name flags)
    by (unfold request; cbn; by rewrite app_nil_r).
  set (s1 := set_conn oc (Conn (rx cc) (tx cc ++ [(request name flags, None)]) [] true) (csys cl)).
  assert (Hsend : on_csys (writev (csfd cl) [CL_OPEN ++ str " "; name; (str " " ++ dec flags) ++ [0]]) cl =
    (Ret (Z.of_nat (length (request name flags))), Client s1 (csfd cl))).
  { unfold on_csys, zoom, writev, send. by rewrite Hc, Hal, Hrm, Hreq. }
  run Hsend. rewrite Hreq, Z.eqb_refl. cbn [negb]. unfold on_csys, zoom. cbn [csys csfd].
  unfold recv_fd, Prelude.bind at 1, get.
  assert (Hc1 : connection s1 (csfd cl) = Some (oc, Conn (rx cc) (tx cc ++ [(request name flags, None)]) [] true))
    by (by eapply connection_set).
  pose proof (rounds_enough s1 (csfd cl) oc _ groups more Hc1 Hrx) as Hrd.
  destruct a as [t|od]; cbn [carries] in Hcar.
  - destruct Hcar as (m0 & -> & Hp). destruct (Hlen t eq_refl) as [Ht Hl].
    destruct (recv_groups strerror junk (csfd cl) oc 1 None more groups m0 t s1 _ (rounds s1 (csfd cl)) (-1) Hc1 Hrx Hg Hcat Hp Ht Hl
      ltac:(lia) ltac:(split; [done|by intros []]) Hf Hrd) as (chunks & x & Hrun & Hch & HR).
    rewrite Hrun. exists chunks, x. split_and!; [done|done|].
    unfold received in *. cbn in HR. by rewrite insert_insert_eq in HR.
  - subst msgs. destruct (recv_groups strerror junk (csfd cl) oc 0 (Some od) more groups [] [] s1 _ (rounds s1 (csfd cl)) (-1) Hc1 Hrx Hg
      Hcat ltac:(by split) ltac:(apply Forall_nil) ltac:(cbn; unfold Errlog.MAXLINE; lia)
      ltac:(lia) ltac:(split; [by eexists|done]) Hf Hrd) as (chunks & x & Hrun & Hch & HR).
    rewrite Hrun. exists chunks, x. split_and!; [done|done|].
    unfold received in *. cbn in HR. by rewrite insert_insert_eq in HR.
Qed.

Lemma answer_request bad stale name flags : sendable name -> 0 <= flags < 2 ^ 31 ->
  answer_to bad stale (request name flags) =
  match sys_open name flags with inl e => Refuse (cant_open name e) | inr o => Grant o end.
Proof.
  intros Hn Hfl. unfold answer_to. rewrite parse_sendable by done.
  replace (nth (length (request name flags) - 1) (request name flags) 0) with 0; [done|].
  unfold request. rewrite !app_assoc. rewrite length_app. cbn [length].
  rewrite app_nth2 by lia. by replace (_ + 1 - 1 - _)%nat with 0%nat by lia.
Qed.

End server.

(** ** Examples *)

Definition ex_strerror (e : Z) : bytes := str "No such file or directory".
Definition ex_junk : bytes := replicate 4096 255.
(** One file, with the open file description 77. *)
Definition ex_open (path : bytes) (flags : Z) : Z + Z :=
  if decide (path = str "/etc/motd") then inr 77 else inl 2.
Definition ex_os (t : gmap Z Z) (c : conn) : os :=
  Os t {[ 7 := c ]} ∅ [] [] 0 8 1000 42 501 18 false false (Errlog.Proc [] [] [] 0 false None).
(** The daemon with a client on descriptor 4. *)
Definition ex_server : server :=
  Server (ex_os {[ 3 := 6; 4 := 7 ]} (Conn [] [] [Accept 5; Accept 2] true)) [] [] 0.
Definition ex_client (rx : list piece) : client :=
  Client (ex_os {[ 0 := 1; 1 := 2; 2 := 3; 3 := 7 ]} (Conn rx [] [] true)) 3.

Lemma ex_strerror_nonul e : nonul (ex_strerror e).
Proof. unfold ex_strerror. cbn. repeat (apply Forall_cons; [done|]). apply Forall_nil. Qed.

Lemma ex_ready : ready (sys ex_server) 4 7 (Conn [] [] [Accept 5; Accept 2] true).
Proof.
  split_and!; [reflexivity|done|]. apply Forall_cons; [by exists 3%nat|]. apply Forall_cons; [by exists 0%nat|apply Forall_nil].
Qed.


(** Two requests and the end. *)
Lemma fe_main_serves_witness :
  let reqs := [request (str "/etc/motd") 0; request (str "/etc/mote") 0] in
  let c := Conn (map (fun r => Piece r None) reqs) [] [] true in
  let s0 := Server (ex_os {[ 0 := 7; 1 := 7; 2 := 3 ]} c) [] [] 0 in
  exists s1 msgss l, fe_main ex_strerror ex_junk ex_open s0 = (Stop (Exit 0), s1) /\
    Forall2 carries msgss [Grant 77; Refuse (cant_open ex_strerror (str "/etc/mote") 2)] /\
    table (sys s1) = table (sys s0) /\ conns (sys s1) !! 7 = Some (Conn [] (tx c ++ concat msgss) l true).
Proof.
  intros reqs c s0.
  destruct (fe_main_serves ex_strerror ex_junk ex_open ex_strerror_nonul reqs 7 c s0)
    as (s1 & msgss & l & Hrun & Hcar & Ht & Hc).
  - apply Forall_cons; [split; [done|vm_compute; lia]|]. apply Forall_cons; [split; [done|vm_compute; lia]|]. apply Forall_nil.
  - reflexivity.
  - reflexivity.
  - reflexivity.
  - reflexivity.
  - reflexivity.
  - apply Forall_nil.
  - reflexivity.
  - apply Forall_nil.
  - exists s1, msgss, l. split_and!; [exact Hrun| |exact Ht|].
    + replace (answers _ _ _ _) with [Grant 77; Refuse (cant_open ex_strerror (str "/etc/mote") 2)] in Hcar by (vm_compute; reflexivity).
      exact Hcar.
    + rewrite Hc. apply lookup_insert_eq.
Defined.

(** The message for a file that cannot be opened is used as the format of the
    log entry: a pathname with a conversion in it is undefined behaviour. *)
Lemma request_format_undefined :
  (handle_request ex_strerror ex_junk ex_open (request (str "/%n") 0) 11 4 501 ex_server).1 = Stop (Undefined "format").
Proof. vm_compute. reflexivity. Qed.

(** A request without a word is answered with the message the client before was
    sent. *)
Lemma request_stale_message :
  let s0 := Server (sys ex_server) (str "can't open /secret: Permission denied") [] 0 in
  tx <$> conns (sys (handle_request ex_strerror ex_junk ex_open [32; 0] 2 4 501 s0).2) !! 7 =
  Some [(str "can't", None); (str " o", None); (str "pen /secret: Permission denied", None); ([0; 1], None)].
Proof. vm_compute. reflexivity. Qed.
End Opend.
