(* ===== verification/OpendFrame.v ===== *)
(** * What a request leaves alone

    Whatever a client sends, whatever the connection accepts and whichever calls
    fail, handling a request touches no memory outside an object and does not
    loop for ever, and if it returns, the server's descriptors are the same as before. *)

From S2P Require Import Prelude CLib Posix Stream Errlog Bufargs OpenSys Fdpass Opend.

Module OpendFrame.
Import OpenSys Fdpass Opend.

(** Neither an access outside an object nor an endless loop. *)
Definition orderly {S} (e : fatal) (s : S) : Prop := e <> Crash /\ e <> Hang.

(** The next call, by its run. *)
Ltac step H := apply safely_bind; unfold safely at 1; rewrite H.

(** The descriptors and the clients to come. *)
Definition kept (s s' : os) : Prop := table s' = table s /\ coming s' = coming s.

#[export] Instance kept_preorder : PreOrder kept.
Proof. split; [done|]. intros s1 s2 s3 [? ?] [? ?]. split; congruence. Qed.

Lemma failed_kept {A} (r : A) e s : safely orderly (failed r e) (fun _ s' => kept s s') s.
Proof. done. Qed.

Lemma may_fail_kept {A} (r : A) m s :
  (forall s1, kept s s1 -> safely orderly m (fun _ s' => kept s s') s1) ->
  safely orderly (may_fail r m) (fun _ s' => kept s s') s.
Proof.
  intros Hm. unfold safely, may_fail. destruct (faults s) as [|[e|] l]; [by apply Hm|done|by apply (Hm (set_faults l s))].
Qed.

Lemma send_kept fd d r s : safely orderly (send fd d r) (fun _ s' => kept s s') s.
Proof.
  unfold safely, send. destruct (connection s fd) as [[o c]|]; [|done].
  destruct (alive c); [|done]. by destruct (room c) as [|[k|e] l].
Qed.

Lemma sendmsg_kept fd d r s : safely orderly (sendmsg fd d r) (fun _ s' => kept s s') s.
Proof.
  destruct r as [f|]; [|apply send_kept]. unfold safely, sendmsg. destruct (table s !! f); [apply send_kept|done].
Qed.

Lemma snd_control_kept s : safely orderly snd_control (fun _ s' => kept s s') s.
Proof.
  unfold snd_control. apply safely_bind, safely_wp, wp_get. destruct (snd_cmptr s); [done|].
  eapply safely_seq; [by apply may_fail_kept|]. cbv beta. by intros [] s' Hk.
Qed.

Lemma send_fd_kept fd f s : safely orderly (send_fd fd f) (fun _ s' => kept s s') s.
Proof.
  unfold send_fd. destruct (f <? 0); [eapply safely_seq; [apply sendmsg_kept|done]|].
  eapply safely_seq; [apply snd_control_kept|]. cbv beta. intros [] s1 H1; [|done].
  eapply safely_seq; [apply sendmsg_kept|]. cbv beta. intros n s2 H2. apply safely_ret. by trans s1.
Qed.

Lemma send_count fd d r s : safely orderly (send fd d r) (fun k s' => kept s s' /\ k <= Z.of_nat (length d)) s.
Proof.
  unfold safely, send. destruct (connection s fd) as [[o c]|]; [|split; [done|cbn; lia]].
  destruct (alive c); [|done]. destruct (room c) as [|[k|e] l]; (split; [done|]); [done|len|cbn; lia].
Qed.

Lemma writen_kept fd : forall fuel n d s, (length d < fuel)%nat ->
  safely orderly (writen_loop (write fd) fuel n d) (fun _ s' => kept s s') s.
Proof.
  induction fuel as [|fuel IH]; intros n d s Hd; [lia|]. cbn [writen_loop]. destruct (_ =? 0)%nat; [done|].
  eapply safely_seq; [apply send_count|]. cbv beta. intros k s1 [H1 Hk].
  destruct (Z.ltb_spec k 0); [by destruct (_ =? _)%nat|]. destruct (Z.eqb_spec k 0); [done|].
  eapply safely_mono; [apply IH; rewrite length_drop; lia|done|]. cbv beta. intros ? s2 H2. by trans s1.
Qed.

Lemma send_err_kept fd code msg s : safely orderly (send_err fd code msg) (fun _ s' => kept s s') s.
Proof.
  unfold send_err. eapply (safely_seq _ _ _ (fun _ s' => kept s s')).
  { destruct (0 <? strlen msg); [apply writen_kept; lia|done]. }
  intros w s1 H1. destruct (negb _); [done|]. eapply safely_seq; [apply send_fd_kept|]. cbv beta.
  intros r s2 H2. destruct (r <? 0); apply safely_ret; by trans s1.
Qed.

Section frame.
Variable strerror : Z -> bytes.
Variable junk : bytes.
Variable sys_open : bytes -> Z -> Z + Z.
Hypothesis strerror_nonul : forall e, nonul (strerror e).
Hypothesis junk_length : Z.of_nat (length junk) = MAXLINE.

(** The server's message stays a string. *)
Definition preserved (s s' : server) : Prop := kept (sys s) (sys s') /\ (nonul (errmsg s) -> nonul (errmsg s')).

#[local] Instance preserved_preorder : PreOrder preserved.
Proof. split; [done|]. intros s1 s2 s3 [? ?] [? ?]. split; [by trans (sys s2)|auto]. Qed.

Lemma on_sys_preserved {A} (m : M os A) s :
  safely orderly m (fun _ s' => kept (sys s) s') (sys s) -> safely orderly (on_sys m) (fun _ s' => preserved s s') s.
Proof. intros H. apply safely_zoom. eapply safely_mono; [exact H|done|]. done. Qed.

Lemma log_msg_preserved text s : nonul text -> safely orderly (log_msg strerror junk text) (fun _ s' => preserved s s') s.
Proof.
  intros Ht. unfold safely, log_msg, on_sys, on_io, zoom, Errlog.log_msg. by rewrite Errlog.log_doit_spec.
Qed.

Lemma expand_nonul : forall n fmt text, (length fmt < n)%nat -> nonul fmt -> expand fmt = Some text -> nonul text.
Proof.
  induction n as [|n IH]; intros fmt text Hn Hz; [lia|]. destruct fmt as [|c fmt]; [intros [= <-]; apply Forall_nil|].
  apply Forall_cons_iff in Hz as [Hc Hz]. cbn in Hn.
  assert (L : forall x f, (length f < n)%nat -> nonul f -> x <> 0 -> cons x <$> expand f = Some text -> nonul text).
  { intros x f Hl Hf Hx E. apply fmap_Some in E as (t & E & ->). apply Forall_cons; [done|]. by apply (IH f). }
  destruct (Z.eq_dec c 37) as [->|Hne].
  - destruct fmt as [|c' fmt]; [done|]. destruct (Z.eq_dec c' 37) as [->|Hne].
    + apply Forall_cons_iff in Hz as [_ Hz]. cbn in Hn. apply (L 37 fmt); [lia|done|done].
    + intros E. exfalso. cbn [expand] in E. destruct c' as [|p|p]; try done. repeat (destruct p as [p|p|]; try done).
  - intros E. apply (L c fmt); [lia|done|done|]. rewrite <- E. cbn [expand].
    destruct c as [|p|p]; try done. repeat (destruct p as [p|p|]; try done).
Qed.

Lemma log_errmsg_preserved s : nonul (errmsg s) -> safely orderly (log_errmsg strerror junk) (fun _ s' => preserved s s') s.
Proof.
  intros Hz. unfold log_errmsg. apply safely_bind, safely_wp, wp_get.
  destruct (expand (errmsg s)) as [text|] eqn:E; [|done]. apply log_msg_preserved. by apply (expand_nonul _ _ _ (Nat.lt_succ_diag_r _) Hz).
Qed.

Lemma refuse_preserved clifd s : nonul (errmsg s) ->
  safely orderly (let* s := get in on_sys (send_err clifd (-1) (errmsg s)) ;;; log_errmsg strerror junk) (fun _ s' => preserved s s') s.
Proof.
  intros Hz. apply safely_bind, safely_wp, wp_get. eapply safely_seq; [apply on_sys_preserved, send_err_kept|]. cbv beta.
  intros _ s1 H1. eapply safely_mono; [apply log_errmsg_preserved; by apply H1|done|]. cbv beta. intros _ s2 H2. by trans s1.
Qed.

(** Opening a file and closing it again. *)
Lemma open_close_preserved path flags s :
  safely orderly (on_sys (open sys_open path flags)) (fun f s' =>
    if f <? 0 then preserved s s'
    else errmsg s' = errmsg s /\ coming (sys s') = coming (sys s) /\ delete f (table (sys s')) = table (sys s)) s.
Proof.
  unfold safely, on_sys, zoom, open. destruct (sys_open path flags) as [e|o]; [done|]. cbn [install].
  destruct (new_fd (table (sys s))) as [Hge Hno]. unfold install. cbn [sys errmsg].
  rewrite (proj2 (Z.ltb_ge _ 0) Hge). split_and!; [done..|]. cbn. by apply delete_insert_id.
Qed.

Lemma handle_request_preserved buf clifd uid s :
  buf <> [] -> nonul (errmsg s) ->
  safely orderly (handle_request strerror junk sys_open buf (Z.of_nat (length buf)) clifd uid) (fun _ s' => preserved s s') s.
Proof.
  intros Hne Hz. unfold handle_request.
  replace (Z.to_nat (Z.of_nat (length buf) - 1)) with (length buf - 1)%nat by lia. rewrite Nat2Z.id, take_ge by done.
  destruct (Z.eqb_spec (nth (length buf - 1) buf 0) 0) as [Hl|Hl]; cbn [negb].
  2: { apply safely_bind. unfold safely at 1. rewrite (print_errmsg_run junk) by apply bad_request_nonul.
       apply safely_bind, safely_wp, wp_get. eapply safely_seq; [apply on_sys_preserved, send_err_kept|]. cbv beta.
       intros _ s2 [H2 H2']. apply safely_ret. split; [exact H2|]. intros _. apply H2'. by apply Forall_take, bad_request_nonul. }
  eapply safely_seq; [apply log_msg_preserved; nonuls|]. cbv beta. intros _ s1 H1.
  apply safely_bind. unfold safely at 1. rewrite (parse_run junk) by done. destruct H1 as [K1 Z1]. specialize (Z1 Hz).
  pose proof (parse_nonul (errmsg s1) (cstr buf) Z1 (cstr_nonul _)) as Hpn.
  destruct (parse_request (errmsg s1) (cstr buf)) as [text|[path flags]]; cbn [Z.ltb Z.compare].
  { eapply safely_mono; [by apply refuse_preserved|done|]. cbv beta. intros _ s2 [K2 Z2]. split; [by trans (sys s1)|].
    intros _. by apply Z2. }
  apply safely_bind, safely_wp, wp_get. cbn [pathname oflag].
  eapply safely_seq; [apply open_close_preserved|]. cbv beta. intros f s2 H2.
  destruct (Z.ltb_spec f 0) as [Hf|Hf].
  - destruct H2 as [K2 Z2]. assert (Hg : on_sys get_errno s2 = (Ret (Errlog.errno (io (sys s2))), s2)) by (by destruct s2).
    apply safely_bind. unfold safely at 1. rewrite Hg. apply safely_bind. unfold safely at 1. rewrite (print_errmsg_run junk) by (by apply cant_open_nonul). cbn [sys errmsg pathname oflag].
    eapply safely_mono; [apply refuse_preserved; by apply Forall_take, cant_open_nonul|done|]. cbv beta. intros _ s3 [K3 Z3]. split.
    + trans (sys s1); [done|]. trans (sys s2); [exact K2|exact K3].
    + intros _. apply Z3. by apply Forall_take, cant_open_nonul.
  - destruct H2 as (E2 & C2 & T2). cbn [sys errmsg] in *.
    eapply safely_seq; [apply on_sys_preserved, send_fd_kept|]. cbv beta. intros r s3 [[T3 C3] Z3].
    eapply (safely_seq _ _ _ (fun _ s' => preserved s3 s')).
    { destruct (r <? 0); [|done]. unfold log_sys, Errlog.log_sys. apply safely_zoom, safely_zoom.
      apply safely_bind, safely_wp, wp_get. unfold safely, Prelude.bind. rewrite Errlog.log_doit_spec; [done|done|done|nonuls]. }
    intros _ s4 [[T4 C4] Z4]. eapply safely_seq; [apply log_msg_preserved; nonuls|]. cbv beta. intros _ s5 [[T5 C5] Z5].
    unfold safely, on_sys, zoom, close, modify. cbn. destruct K1 as [T1 C1]. split; [split; cbn|].
    + by rewrite T5, T4, T3, T2.
    + congruence.
    + intros _. apply Z5, Z4, Z3. by rewrite E2.
Qed.
End frame.
End OpendFrame.
