(* ===== verification/OpendLoop.v ===== *)
(** * The open server with [poll]: ipc2/opend/client.c and loop.poll.c

    The daemon keeps an array of its clients, and waits for them with [poll].
    What the calls report is given in advance; when nothing more is to come, the
    daemon waits for ever. *)

From S2P Require Import Prelude CLib Posix Stream Errlog OpenSys Unixconn Fdpass Opend OpendFrame.

Module OpendLoop.
Import OpenSys Opend OpendFrame.

(** ** The array of clients *)

Definition NALLOC : nat := 10.

Record Client := mkClient { fd : Z; uid : Z }.

(** The daemon: the server and the array; no entries: the null pointer. *)
Record daemon := Daemon { srv : server; client : list Client }.

Definition on_srv {A} : M server A -> M daemon A := zoom srv (fun x d => Daemon x (client d)).
Definition on_os {A} (m : M os A) : M daemon A := on_srv (on_sys m).

(** The first entry for a descriptor. *)
Fixpoint find_fd (x : Z) (l : list Client) : option nat :=
  match l with
  | [] => None
  | c :: l' => if fd c =? x then Some 0%nat else S <$> find_fd x l'
  end.

Section loops.
Variable strerror : Z -> bytes.
Variable junk : bytes.
Variable sys_open : bytes -> Z -> Z + Z.

Definition client_alloc : M daemon unit :=
  let* d := get in
  let* ok := on_os (match client d with [] => malloc | _ => may_fail false (ret true) end) in
  (if negb ok then on_srv (err_sys strerror junk (str "can't alloc for client array")) else ret tt) ;;;
  modify (fun d => Daemon (srv d) (client d ++ replicate NALLOC (mkClient (-1) 0))).

(** The search from the label [again]. *)
Fixpoint client_add_again (fuel : nat) (x u : Z) : M daemon nat :=
  match fuel with
  | O => stop Hang
  | S fuel' =>
      let* d := get in
      match find_fd (-1) (client d) with
      | Some i => modify (fun d => Daemon (srv d) (<[i := mkClient x u]> (client d))) ;;; ret i
      | None => client_alloc ;;; client_add_again fuel' x u
      end
  end.

Definition client_add (x u : Z) : M daemon nat :=
  let* d := get in
  (match client d with [] => client_alloc | _ => ret tt end) ;;;
  client_add_again 2 x u.

Definition client_del (x : Z) : M daemon unit :=
  let* d := get in
  match find_fd x (client d) with
  | Some i =>
      modify (fun d => Daemon (srv d) (alter (fun c => mkClient (-1) (uid c)) i (client d)))
  | None => on_os (on_io (Errlog.log_quit strerror junk (str "can't find client entry for fd " ++ dec x)))
  end.

(** [client[i]] *)
Definition client_at (i : nat) : M daemon Client :=
  let* d := get in
  match client d !! i with Some c => ret c | None => stop Crash end.

(** ** loop.poll.c *)

Definition POLLIN : Z := 1.
Definition POLLHUP : Z := 16.

Record pollfd := Pollfd { pfd : Z; events : Z; revents : Z }.

(** What a call of [poll] reports, by descriptor, or an error. *)
Inductive report :=
| Events (ev : gmap Z Z)
| Poll_error (e : Z).

Record ploop := Ploop { dm : daemon; pfds : list pollfd; numfd : nat; maxfd : nat; polls : list report }.

Definition on_dm {A} : M daemon A -> M ploop A := zoom dm (fun x s => Ploop x (pfds s) (numfd s) (maxfd s) (polls s)).
Definition set_pfds x s := Ploop (dm s) x (numfd s) (maxfd s) (polls s).
Definition set_numfd x s := Ploop (dm s) (pfds s) x (maxfd s) (polls s).
Definition set_polls x s := Ploop (dm s) (pfds s) (numfd s) (maxfd s) x.

Definition log_msg_p (text : bytes) : M ploop unit := on_dm (on_srv (log_msg strerror junk text)).
Definition log_sys_p (text : bytes) : M ploop unit := on_dm (on_srv (log_sys strerror junk text)).

(** [poll(pollfd, numfd, -1)]: the first [numfd] entries get their events. *)
Definition poll : M ploop Z := fun s =>
  match polls s with
  | [] => (Stop Hang, s)
  | Poll_error e :: l => on_dm (on_os (failed (-1) e)) (set_polls l s)
  | Events ev :: l =>
      (Ret 1, set_polls l (set_pfds (map (fun p => Pollfd (pfd p) (events p) (default 0 (ev !! pfd p))) (take (numfd s) (pfds s)) ++
                                     drop (numfd s) (pfds s)) s))
  end.

Definition pfd_at (i : nat) : M ploop pollfd :=
  let* s := get in
  match pfds s !! i with Some p => ret p | None => stop Crash end.
Definition set_pfd_at (i : nat) (p : pollfd) : M ploop unit := fun s =>
  if (i <? length (pfds s))%nat then (Ret tt, set_pfds (<[i := p]> (pfds s)) s) else (Stop Crash, s).

Definition grow_pollfd : M ploop unit :=
  let* ok := on_dm (on_os (may_fail false (ret true))) in
  (if negb ok then on_dm (on_srv (err_sys strerror junk (str "realloc error"))) else ret tt) ;;;
  modify (fun s => Ploop (dm s) (pfds s ++ replicate NALLOC (Pollfd (-1) POLLIN 0)) (numfd s) (maxfd s + NALLOC) (polls s)).

(** The label [hungup], for the entry [i]: the next index. *)
Definition hungup (i : nat) : M ploop nat :=
  let* p := pfd_at i in
  let* c := on_dm (client_at i) in
  log_msg_p (str "closed: uid " ++ dec (to_i32 (uid c)) ++ str ", fd " ++ dec (pfd p)) ;;;
  on_dm (client_del (pfd p)) ;;;
  on_dm (on_os (close (pfd p))) ;;;
  let* s := get in
  let* i := (if (i <? numfd s - 1)%nat then
               let* q := pfd_at (numfd s - 1) in
               set_pfd_at i (Pollfd (pfd q) (events q) (revents q)) ;;; ret i
             else ret (S i)) in
  modify (set_numfd (numfd s - 1)) ;;;
  ret i.

(** The body of the loop over the entries, and the loop; every round takes one
    from [numfd - i]. *)
Definition serve_entry (i : nat) : M ploop nat :=
  let* p := pfd_at i in
  if negb (Z.land (revents p) POLLHUP =? 0) then hungup i
  else if negb (Z.land (revents p) POLLIN =? 0) then
    let* m := on_dm (on_os (read (pfd p) (Z.to_nat MAXLINE))) in
    let '(nread, buf) := m in
    if nread <? 0 then log_sys_p (str "read error on fd " ++ dec (pfd p)) ;;; ret (S i)
    else if nread =? 0 then hungup i
    else
      let* c := on_dm (client_at i) in
      on_dm (on_srv (handle_request strerror junk sys_open buf nread (pfd p) (uid c))) ;;; ret (S i)
  else ret (S i).

Fixpoint serve_entries (fuel i : nat) : M ploop unit :=
  match fuel with
  | O => stop Hang
  | S fuel' =>
      let* s := get in
      if (i <? numfd s)%nat then let* i := serve_entry i in serve_entries fuel' i
      else ret tt
  end.

(** Accepting a client. *)
Definition accept_client (listenfd : Z) : M ploop unit :=
  let* a := on_dm (on_os (Unixconn.serv_accept listenfd)) in
  let clifd := a.1 in
  let u := default 0 a.2 in
  (if clifd <? 0 then log_sys_p (str "serv_accept error: " ++ dec clifd) else ret tt) ;;;
  on_dm (client_add clifd u) ;;;
  let* s := get in
  (if (numfd s =? maxfd s)%nat then grow_pollfd else ret tt) ;;;
  let* s := get in
  set_pfd_at (numfd s) (Pollfd clifd POLLIN 0) ;;;
  modify (fun s => set_numfd (S (numfd s)) s) ;;;
  log_msg_p (str "new connection: uid " ++ dec (to_i32 u) ++ str ", fd " ++ dec clifd).

(** One round of the endless loop. *)
Definition poll_round (listenfd : Z) : M ploop unit :=
  let* n := poll in
  (if n <? 0 then log_sys_p (str "poll error") else ret tt) ;;;
  let* p := pfd_at 0 in
  (if negb (Z.land (revents p) POLLIN =? 0) then accept_client listenfd else ret tt) ;;;
  let* s := get in
  serve_entries (S (numfd s)) 1.

Fixpoint poll_rounds (fuel : nat) (listenfd : Z) : M ploop unit :=
  match fuel with
  | O => stop Hang
  | S fuel' => poll_round listenfd ;;; poll_rounds fuel' listenfd
  end.

(** [loop], from the start; the arrays are those of the process at the start. *)
Definition poll_start : M ploop Z :=
  let* ok := on_dm (on_os malloc) in
  (if negb ok then on_dm (on_srv (err_sys strerror junk (str "malloc error"))) else ret tt) ;;;
  modify (fun s => Ploop (dm s) (replicate NALLOC (Pollfd (-1) POLLIN 0)) 1 NALLOC (polls s)) ;;;
  let* listenfd := on_dm (on_os (Unixconn.serv_listen CS_OPEN)) in
  (if listenfd <? 0 then log_sys_p (str "serv_listen error") else ret tt) ;;;
  on_dm (client_add listenfd 0) ;;;
  let* p := pfd_at 0 in
  set_pfd_at 0 (Pollfd listenfd (events p) (revents p)) ;;;
  ret listenfd.

Definition poll_loop : M ploop unit :=
  let* listenfd := poll_start in
  let* s := get in
  poll_rounds (S (length (polls s))) listenfd.

End loops.

(** ** The array *)

(** The descriptors in use. *)
Definition fds_of (l : list Client) : list Z := filter (fun x => x <> -1) (map fd l).

Lemma split_at {A} (l : list A) i x : l !! i = Some x -> exists l1 l2, l = l1 ++ x :: l2 /\ length l1 = i.
Proof. intros H. exists (take i l), (drop (S i) l). split; [by rewrite take_drop_middle|]. apply lookup_lt_Some in H. len. Qed.

Lemma insert_middle {A} (l1 l2 : list A) x y : <[length l1 := y]> (l1 ++ x :: l2) = l1 ++ y :: l2.
Proof. by rewrite insert_app_r_alt, Nat.sub_diag by done. Qed.

Lemma alter_middle {A} (f : A -> A) (l1 l2 : list A) x : alter f (length l1) (l1 ++ x :: l2) = l1 ++ f x :: l2.
Proof. induction l1 as [|y l1 IH]; [done|]. cbn. by f_equal. Qed.

Lemma find_fd_spec x l :
  match find_fd x l with
  | Some i => exists c, l !! i = Some c /\ fd c = x
  | None => Forall (fun c => fd c <> x) l
  end.
Proof.
  induction l as [|c l IH]; [apply Forall_nil|]. cbn [find_fd]. destruct (Z.eqb_spec (fd c) x) as [E|E]; [by exists c|].
  destruct (find_fd x l) as [i|]; [exact IH|]. by apply Forall_cons.
Qed.

(** Taking an entry. *)
Lemma fds_of_take l i c x u : l !! i = Some c -> fd c = -1 -> x <> -1 ->
  fds_of (<[i := mkClient x u]> l) ≡ₚ x :: fds_of l.
Proof.
  intros Hi Hc Hx. destruct (split_at l i c Hi) as (l1 & l2 & -> & <-). rewrite insert_middle. unfold fds_of.
  rewrite !map_app, !list.filter_app. cbn [map fd]. rewrite Hc, filter_cons_True, filter_cons_False by (done || tauto).
  by rewrite Permutation_middle.
Qed.

(** Giving it back. *)
Lemma fds_of_drop l i c x : l !! i = Some c -> fd c = x -> x <> -1 ->
  fds_of l ≡ₚ x :: fds_of (alter (fun c => mkClient (-1) (uid c)) i l).
Proof.
  intros Hi Hc Hx. destruct (split_at l i c Hi) as (l1 & l2 & -> & <-). rewrite alter_middle. unfold fds_of.
  rewrite !map_app, !list.filter_app. cbn [map fd]. rewrite Hc, filter_cons_True, filter_cons_False by (done || tauto).
  by rewrite Permutation_middle.
Qed.

Lemma fds_of_length l : (length (fds_of l) <= length l)%nat.
Proof. unfold fds_of. etrans; [apply list.length_filter|]. by rewrite length_map. Qed.

Section invariant.
Variable strerror : Z -> bytes.
Variable junk : bytes.
Variable sys_open : bytes -> Z -> Z + Z.
Hypothesis strerror_nonul : forall e, nonul (strerror e).
Hypothesis junk_length : Z.of_nat (length junk) = MAXLINE.

#[local] Instance preserved_preorder : PreOrder preserved.
Proof. split; [done|]. intros s1 s2 s3 [? ?] [? ?]. split; [by trans (sys s2)|auto]. Qed.

(** A call that reports an error and exits. *)
Lemma err_sys_exits text (Q : unit -> daemon -> Prop) d : nonul text ->
  safely orderly (on_srv (err_sys strerror junk text)) Q d.
Proof.
  intros Ht. apply safely_zoom, safely_zoom, safely_zoom. unfold Errlog.err_sys.
  apply safely_bind, safely_wp, wp_get. unfold safely, bind. by rewrite Errlog.err_doit_spec.
Qed.

Lemma client_alloc_safe d :
  safely orderly (client_alloc strerror junk) (fun _ d' => preserved (srv d) (srv d') /\
    client d' = client d ++ replicate NALLOC (mkClient (-1) 0)) d.
Proof.
  unfold client_alloc. apply safely_bind, safely_wp, wp_get.
  eapply (safely_seq _ _ _ (fun _ d' => preserved (srv d) (srv d') /\ client d' = client d)).
  { apply safely_zoom. eapply safely_mono; [apply on_sys_preserved|done|done].
    destruct (client d); by apply may_fail_kept. }
  intros [] d1 [H1 E1]; cbn [negb].
  - apply safely_bind, safely_ret. unfold safely, modify. cbn. by rewrite E1.
  - apply safely_bind, err_sys_exits. nonuls.
Qed.

Lemma client_add_safe x u d : x <> -1 ->
  safely orderly (client_add strerror junk x u) (fun i d' => preserved (srv d) (srv d') /\
    fds_of (client d') ≡ₚ x :: fds_of (client d) /\ client d' !! i = Some (mkClient x u) /\
    exists l, client d' = <[i := mkClient x u]> (client d ++ l) /\ Forall (fun c => fd c = -1) l) d.
Proof.
  intros Hx. unfold client_add. apply safely_bind, safely_wp, wp_get.
  assert (Hnew : forall l, fds_of (l ++ replicate NALLOC (mkClient (-1) 0)) = fds_of l).
  { intros l. unfold fds_of. rewrite map_app, list.filter_app. cbn. by rewrite app_nil_r. }
  assert (Again : forall fuel d1, preserved (srv d) (srv d1) -> fds_of (client d1) = fds_of (client d) ->
    (exists l, client d1 = client d ++ l /\ Forall (fun c => fd c = -1) l) -> (2 <= fuel)%nat \/ (fuel = 1%nat /\ ~ Forall (fun c => fd c <> -1) (client d1)) ->
    safely orderly (client_add_again strerror junk fuel x u) (fun i d' => preserved (srv d) (srv d') /\
      fds_of (client d') ≡ₚ x :: fds_of (client d) /\ client d' !! i = Some (mkClient x u) /\
      exists l, client d' = <[i := mkClient x u]> (client d ++ l) /\ Forall (fun c => fd c = -1) l) d1).
  { induction fuel as [|fuel IH]; intros d1 H1 E1 [l [El Fl]] Hf; [lia|]. cbn [client_add_again]. apply safely_bind, safely_wp, wp_get.
    pose proof (find_fd_spec (-1) (client d1)) as Hs. destruct (find_fd (-1) (client d1)) as [i|].
    - destruct Hs as (c & Hi & Hc). apply safely_bind, safely_wp, wp_modify, wp_ret. cbn [srv client].
      split_and!; [done| |apply list_lookup_insert_eq; by eapply lookup_lt_Some|exists l; by rewrite El].
      rewrite <- E1. by apply (fds_of_take _ _ c).
    - destruct Hf as [Hf|[_ Hf]]; [|done].
      eapply safely_seq; [apply client_alloc_safe|]. cbv beta. intros _ d2 [H2 E2]. apply IH.
      + by trans (srv d1).
      + by rewrite E2, Hnew.
      + exists (l ++ replicate NALLOC (mkClient (-1) 0)). rewrite E2, El, <- app_assoc. split; [done|].
        apply Forall_app. split; [done|by apply Forall_replicate].
      + destruct (decide (2 <= fuel)%nat); [by left|right]. split; [lia|]. rewrite E2. intros Ha.
        apply Forall_app in Ha as [_ Ha]. by apply Forall_cons_iff in Ha as [Ha _]. }
  eapply (safely_seq _ _ _ (fun _ d1 => preserved (srv d) (srv d1) /\ fds_of (client d1) = fds_of (client d) /\
    exists l, client d1 = client d ++ l /\ Forall (fun c => fd c = -1) l)).
  - destruct (client d) as [|c l] eqn:E.
    + eapply safely_mono; [apply client_alloc_safe|done|]. cbv beta. intros _ d1 [H1 E1]. rewrite E1, E. split_and!; [done|done|].
      eexists. split; [reflexivity|]. by apply Forall_replicate.
    + apply safely_ret. rewrite E. split_and!; [done|done|exists []]. rewrite app_nil_r. split; [done|apply Forall_nil].
  - intros _ d1 (H1 & E1 & Hl). apply Again; try done. by left.
Qed.

Lemma client_del_safe x d : x ∈ fds_of (client d) ->
  safely orderly (client_del strerror junk x) (fun _ d' => srv d' = srv d /\ fds_of (client d) ≡ₚ x :: fds_of (client d')) d.
Proof.
  intros Hx. unfold client_del. apply safely_bind, safely_wp, wp_get.
  assert (Hx1 : x <> -1 /\ x ∈ map fd (client d)) by (by apply list_elem_of_filter in Hx). destruct Hx1 as [Hx1 Hx2].
  pose proof (find_fd_spec x (client d)) as Hs. destruct (find_fd x (client d)) as [i|].
  - destruct Hs as (c & Hi & Hc). apply safely_wp, wp_modify. cbn. split; [done|]. by apply (fds_of_drop _ _ c).
  - exfalso. apply list_elem_of_fmap in Hx2 as (c & -> & Hc). rewrite list.Forall_forall in Hs. by apply (Hs c).
Qed.

(** ** loop.poll.c *)

(** The clients to come have names that fit in an address. *)
Definition good (x : server) : Prop :=
  nonul (errmsg x) /\ Forall (fun n => Z.of_nat (length n.1) <= Unixconn.SUN_PATH) (coming (sys x)).

Definition live (s : ploop) : list Z := map pfd (take (numfd s) (pfds s)).

(** Between two rounds: the entries in use of the poll array are the listening
    descriptor and one for each client, all different and all open, and they are
    the descriptors in the array of clients. *)
Record Inv (listenfd : Z) (s : ploop) : Prop := {
  inv_good : good (srv (dm s));
  inv_max : length (pfds s) = maxfd s;
  inv_num : (1 <= numfd s <= maxfd s)%nat;
  inv_head : head (live s) = Some listenfd;
  inv_nodup : NoDup (live s);
  inv_open : Forall (fun x => 0 <= x /\ is_Some (table (sys (srv (dm s))) !! x)) (live s);
  inv_clients : live s ≡ₚ fds_of (client (dm s)) }.

Lemma good_preserved x y : preserved x y -> good x -> good y.
Proof. intros [[_ Hc] Hz] [? ?]. split; [auto|]. by rewrite Hc. Qed.

(** The invariant depends on the server's descriptors only. *)
Lemma Inv_server lfd s x l :
  preserved (srv (dm s)) x -> l = client (dm s) -> Inv lfd s ->
  Inv lfd (Ploop (Daemon x l) (pfds s) (numfd s) (maxfd s) (polls s)).
Proof.
  intros Hp -> I. pose proof Hp as [[Ht _] _]. destruct I as [H1 H2 H3 H4 H5 H6 H7].
  split; try done; [by eapply good_preserved|]. unfold live in *. cbn in *. by rewrite Ht.
Qed.

(** Replacing the server. *)
Definition with_srv (x : server) (s : ploop) : ploop :=
  Ploop (Daemon x (client (dm s))) (pfds s) (numfd s) (maxfd s) (polls s).

Lemma on_srv_safe {A} (m : M server A) s :
  safely orderly m (fun _ x => preserved (srv (dm s)) x) (srv (dm s)) ->
  safely orderly (on_dm (on_srv m)) (fun _ s' => exists x, preserved (srv (dm s)) x /\ s' = with_srv x s) s.
Proof.
  intros Hm. apply safely_zoom, safely_zoom. eapply safely_mono; [exact Hm|done|]. cbv beta.
  intros _ x Hx. by exists x.
Qed.

Lemma log_msg_p_safe text s : nonul text ->
  safely orderly (log_msg_p strerror junk text) (fun _ s' => exists x, preserved (srv (dm s)) x /\ s' = with_srv x s) s.
Proof. intros Ht. by apply on_srv_safe, log_msg_preserved. Qed.

Lemma log_sys_p_stops text {A} (Q : A -> ploop -> Prop) (k : unit -> M ploop A) s : nonul text ->
  safely orderly (bind (log_sys_p strerror junk text) k) Q s.
Proof.
  intros Ht. apply safely_bind, safely_zoom, safely_zoom, safely_zoom, safely_zoom. unfold Errlog.log_sys.
  apply safely_bind, safely_wp, wp_get. unfold safely, bind. by rewrite Errlog.log_doit_spec.
Qed.

Lemma pfd_at_run i p s : pfds s !! i = Some p -> pfd_at i s = (Ret p, s).
Proof. intros Hp. unfold pfd_at, bind, get. by rewrite Hp. Qed.

Lemma client_at_run i c s : client (dm s) !! i = Some c -> on_dm (client_at i) s = (Ret c, s).
Proof. intros Hc. unfold on_dm, zoom, client_at, bind, get. rewrite Hc. by destruct s. Qed.

(** The entry of an index in use. *)
Lemma inv_entry lfd s i : Inv lfd s -> (i < numfd s)%nat -> exists p, pfds s !! i = Some p /\ pfd p ∈ live s.
Proof.
  intros I Hi. destruct (lookup_lt_is_Some_2 (pfds s) i) as [p Hp].
  { rewrite (inv_max _ _ I). pose proof (inv_num _ _ I). lia. }
  exists p. split; [done|]. unfold live. apply list_elem_of_fmap. exists p. split; [done|].
  apply list_elem_of_lookup. exists i. by rewrite lookup_take_lt.
Qed.

Lemma inv_client_at lfd s i : Inv lfd s -> (i < numfd s)%nat -> is_Some (client (dm s) !! i).
Proof.
  intros I Hi. apply lookup_lt_is_Some_2. pose proof (fds_of_length (client (dm s))).
  rewrite <- (Permutation_length (inv_clients _ _ I)) in H. unfold live in H. rewrite length_map, length_take in H.
  pose proof (inv_max _ _ I). pose proof (inv_num _ _ I). lia.
Qed.

(** Packing the array: the last entry in use takes the place of another. *)
Lemma pack_entries (l : list pollfd) n i p q :
  l !! i = Some p -> l !! n = Some q -> (i < n)%nat ->
  map pfd (take (S n) l) ≡ₚ pfd p :: map pfd (take n (<[i := q]> l)).
Proof.
  intros Hp Hq Hi. rewrite (take_S_r _ _ _ Hq), take_insert_lt by done.
  assert (Ht : take n l !! i = Some p) by (by rewrite lookup_take_lt).
  destruct (split_at _ _ _ Ht) as (l1 & l2 & E & <-). rewrite E, insert_middle, !map_app. cbn.
  rewrite (Permutation_app_comm _ [pfd q]). cbn. rewrite <- !Permutation_middle. apply Permutation_swap.
Qed.

(** The rest of [hungup], once the client is out of its array and its
    descriptor is closed. *)
Lemma Inv_hungup lfd s s1 i p :
  Inv lfd s -> (1 <= i < numfd s)%nat -> pfds s !! i = Some p ->
  good (srv (dm s1)) -> table (sys (srv (dm s1))) = delete (pfd p) (table (sys (srv (dm s)))) ->
  fds_of (client (dm s)) ≡ₚ pfd p :: fds_of (client (dm s1)) ->
  maxfd s1 = maxfd s -> numfd s1 = (numfd s - 1)%nat ->
  pfds s1 = (if (i <? numfd s - 1)%nat then from_option (fun q => <[i := q]> (pfds s)) [] (pfds s !! (numfd s - 1)%nat) else pfds s) ->
  Inv lfd s1.
Proof.
  intros I Hi Hp Hg Ht Hc Hm Hn Hpf. pose proof (inv_max _ _ I) as Hmax. pose proof (inv_num _ _ I) as Hnum.
  destruct (lookup_lt_is_Some_2 (pfds s) (numfd s - 1)) as [q Hq]; [lia|]. rewrite Hq in Hpf. cbn [from_option] in Hpf.
  assert (Hlive : live s ≡ₚ pfd p :: live s1).
  { unfold live. rewrite Hn, Hpf. replace (numfd s) with (S (numfd s - 1)) at 1 by lia.
    destruct (Nat.ltb_spec i (numfd s - 1)); [by apply pack_entries|].
    assert (i = numfd s - 1)%nat as -> by lia. rewrite Hp in Hq. injection Hq as <-.
    rewrite (take_S_r _ _ _ Hp), map_app. cbn. by rewrite Permutation_app_comm. }
  assert (Hlen : length (pfds s1) = length (pfds s)) by (rewrite Hpf; destruct (_ <? _)%nat; [by rewrite length_insert|done]).
  pose proof (inv_nodup _ _ I) as Hnd. rewrite Hlive in Hnd. apply list.NoDup_cons in Hnd as [Hnot Hnd].
  split; try done; [lia|lia| | |].
  - rewrite <- (inv_head _ _ I). unfold live. rewrite Hn, Hpf. destruct (pfds s) as [|p0 l] eqn:E; [done|].
    destruct (numfd s) as [|[|n]]; [lia|lia|]. cbn [Nat.sub].
    destruct (_ <? _)%nat; [|done]. destruct i as [|i]; [lia|]. done.
  - pose proof (inv_open _ _ I) as Ho. rewrite Hlive in Ho. apply Forall_cons_iff in Ho as [_ Ho].
    rewrite list.Forall_forall in Ho |- *. intros x Hx. rewrite Ht, lookup_delete_ne; [by apply Ho|]. by intros <-.
  - pose proof (inv_clients _ _ I) as Hcl. rewrite Hlive, Hc in Hcl. by apply Permutation_cons_inv in Hcl.
Qed.

Lemma hungup_safe lfd s i :
  Inv lfd s -> (1 <= i < numfd s)%nat ->
  safely orderly (hungup strerror junk i) (fun i' s' => Inv lfd s' /\ (numfd s' - i' = numfd s - S i)%nat /\ (1 <= i')%nat) s.
Proof.
  intros I Hi. destruct (inv_entry _ _ i I ltac:(lia)) as (p & Hp & Hlive).
  destruct (inv_client_at _ _ i I ltac:(lia)) as [c Hcl]. unfold hungup.
  step (pfd_at_run i p s Hp). step (client_at_run i c s Hcl).
  eapply safely_seq; [apply log_msg_p_safe; nonuls|]. cbv beta. intros _ s1 (x & Hx & ->).
  eapply (safely_seq _ _ _ (fun _ s2 => exists l, fds_of (client (dm s)) ≡ₚ pfd p :: fds_of l /\
    s2 = Ploop (Daemon x l) (pfds s) (numfd s) (maxfd s) (polls s))).
  { apply safely_zoom. eapply safely_mono; [apply client_del_safe|done|].
    - cbn. by rewrite <- (inv_clients _ _ I).
    - cbv beta. intros _ [x' l] [E Hl]. cbn in *. subst x'. by exists l. }
  intros _ s2 (l & Hl & ->). unfold on_dm at 1, on_os, on_srv, on_sys, close.
  apply safely_bind, safely_zoom, safely_zoom, safely_zoom, safely_wp, wp_modify. cbn [srv sys client dm errmsg pathname oflag].
  apply safely_bind, safely_wp, wp_get. cbn [numfd pfds].
  destruct (inv_entry _ _ (numfd s - 1) I ltac:(lia)) as (q & Hq & _). pose proof (inv_max _ _ I). pose proof (inv_num _ _ I).
  destruct (Nat.ltb_spec i (numfd s - 1)) as [Hlt|Hge].
  - apply safely_bind, safely_bind. unfold safely at 1. rewrite (pfd_at_run _ q) by done.
    apply safely_bind. unfold safely at 1, set_pfd_at. cbn [pfds]. rewrite (proj2 (Nat.ltb_lt _ _)) by lia.
    apply safely_ret, safely_bind, safely_wp, wp_modify, wp_ret. split; [|cbn; lia].
    apply (Inv_hungup lfd s _ i p I Hi Hp); try done; cbn [dm srv sys table pfds set_numfd set_pfds set_table with_srv].
    + exact (good_preserved _ _ Hx (inv_good _ _ I)).
    + by destruct Hx as [[-> _] _].
    + rewrite (proj2 (Nat.ltb_lt _ _) Hlt), Hq. by destruct q.
  - apply safely_bind, safely_ret, safely_bind, safely_wp, wp_modify, wp_ret. split; [|cbn; lia].
    apply (Inv_hungup lfd s _ i p I Hi Hp); try done; cbn [dm srv sys table pfds set_numfd set_pfds set_table with_srv].
    + exact (good_preserved _ _ Hx (inv_good _ _ I)).
    + by destruct Hx as [[-> _] _].
    + by rewrite (proj2 (Nat.ltb_ge _ _) Hge).
Qed.

Lemma serve_entry_safe lfd s i :
  Inv lfd s -> (1 <= i < numfd s)%nat ->
  safely orderly (serve_entry strerror junk sys_open i)
    (fun i' s' => Inv lfd s' /\ (numfd s' - i' = numfd s - S i)%nat /\ (1 <= i')%nat) s.
Proof.
  intros I Hi. destruct (inv_entry _ _ i I ltac:(lia)) as (p & Hp & Hlive).
  destruct (inv_client_at _ _ i I ltac:(lia)) as [c Hcl]. unfold serve_entry. step (pfd_at_run i p s Hp).
  destruct (negb _); [by apply hungup_safe|]. destruct (negb _); [|apply safely_ret; split; [done|lia]].
  eapply (safely_seq _ _ _ (fun m s' => (0 <= m.1 -> m.1 = Z.of_nat (length m.2)) /\
    exists x, preserved (srv (dm s)) x /\ s' = with_srv x s)).
  { apply safely_zoom, safely_zoom, safely_zoom, safely_bind. unfold safely at 1, receive.
    assert (Same : forall y, preserved (srv (dm s)) y -> exists x, preserved (srv (dm s)) x /\ with_srv y s = with_srv x s) by eauto.
    destruct (connection _ _) as [[o cn]|]; [|apply safely_ret; split; [done|by apply Same]].
    destruct (rx cn) as [|[d r|e] l]; [apply safely_ret; split; [done|by apply Same]| |apply safely_ret; split; [done|by apply Same]].
    destruct (Nat.leb_spec (length d) (Z.to_nat MAXLINE)); apply safely_ret; (split; [cbn|by apply Same]); [done|].
    intros _. f_equal. len. }
  intros [nread buf] s1 (Hlen & x & Hx & ->). cbn [fst snd] in Hlen.
  assert (I1 : Inv lfd (with_srv x s)) by (by apply Inv_server).
  destruct (Z.ltb_spec nread 0); [apply log_sys_p_stops; nonuls|].
  destruct (Z.eqb_spec nread 0); [exact (hungup_safe lfd (with_srv x s) i I1 Hi)|].
  step (client_at_run i c (with_srv x s) Hcl). rewrite Hlen by done.
  eapply safely_seq; [apply on_srv_safe, handle_request_preserved; [done|done| |apply (inv_good _ _ I1)]|].
  - intros ->. cbn in Hlen. lia.
  - cbv beta. intros _ s2 (y & Hy & ->). apply safely_ret. split; [by apply (Inv_server lfd (with_srv x s))|]. cbn. lia.
Qed.

Lemma serve_entries_safe lfd : forall fuel i s,
  Inv lfd s -> (1 <= i)%nat -> (numfd s - i < fuel)%nat ->
  safely orderly (serve_entries strerror junk sys_open fuel i) (fun _ s' => Inv lfd s') s.
Proof.
  induction fuel as [|fuel IH]; intros i s I Hi Hf; [lia|]. cbn [serve_entries]. apply safely_bind, safely_wp, wp_get.
  destruct (Nat.ltb_spec i (numfd s)); [|by apply safely_ret].
  eapply safely_seq; [by apply serve_entry_safe|]. cbv beta. intros i' s1 (I1 & Hn & Hi'). apply IH; [done|done|lia].
Qed.

(** Waiting for events changes no descriptor. *)
Lemma poll_inv lfd s : Inv lfd s -> safely (fun e _ => e <> Crash) poll (fun _ s' => Inv lfd s') s.
Proof.
  intros I. unfold safely, poll. destruct (polls s) as [|[ev|e] l]; [done| |].
  - assert (E : live (set_polls l (set_pfds (map (fun p => Pollfd (pfd p) (events p) (default 0 (ev !! pfd p)))
        (take (numfd s) (pfds s)) ++ drop (numfd s) (pfds s)) s)) = live s).
    { unfold live. cbn. pose proof (inv_max _ _ I). pose proof (inv_num _ _ I).
      rewrite take_app_le by len. rewrite take_ge by len. by rewrite map_map. }
    destruct I as [H1 H2 H3 H4 H5 H6 H7]. split; rewrite ?E; try done. cbn. rewrite length_app, length_map, <- H2.
    by rewrite <- length_app, take_drop.
  - apply (Inv_server lfd (set_polls l s)); [done|done|]. by destruct I.
Qed.

Lemma serv_accept_safe lfd s :
  Forall (fun n => Z.of_nat (length n.1) <= Unixconn.SUN_PATH) (coming s) ->
  safely (fun e _ => e <> Crash) (Unixconn.serv_accept lfd) (fun r s' =>
    Forall (fun n => Z.of_nat (length n.1) <= Unixconn.SUN_PATH) (coming s') /\
    (0 <= r.1 -> table s !! r.1 = None /\ exists o, table s' = <[r.1 := o]> (table s))) s.
Proof.
  intros Hc. destruct (coming s) as [|[name c] l] eqn:E.
  - unfold Unixconn.serv_accept. apply safely_bind. unfold safely at 1, malloc, may_fail.
    destruct (faults s) as [|[e|] fs] eqn:Ef; [|apply safely_ret; cbn; rewrite E; split; [done|lia]|].
    + apply safely_bind. unfold safely at 1, accept, may_fail. cbn. by rewrite Ef, E.
    + apply safely_bind. unfold safely at 1, accept, may_fail. cbn. destruct fs as [|[e|] fs]; cbn; by rewrite ?E.
  - apply Forall_cons_iff in Hc as [Hn Hl]. cbn in Hn.
    eapply safely_mono; [apply (safely_wp (fun e _ => e <> Crash)), (Unixconn.serv_accept_spec lfd name c l s E Hn)|done|]. cbv beta.
    intros [r u] s' (_ & Hcm & Hp). cbn [fst snd] in *. split.
    + destruct Hcm as [-> | [x Hx]]; rewrite E in *; [by apply Forall_cons|]. by injection Hx as _ <-.
    + intros Hr. rewrite (proj2 (Z.ltb_ge r 0) Hr) in Hp. destruct Hp as (_ & _ & _ & i & _ & _ & _ & [= -> ->] & Ht & _).
      split; [apply new_fd|eauto].
Qed.

(** A new client: its descriptor is put in both arrays. *)
Lemma Inv_accept lfd s s1 x :
  Inv lfd s -> 0 <= x -> table (sys (srv (dm s))) !! x = None ->
  good (srv (dm s1)) -> (exists o, table (sys (srv (dm s1))) = <[x := o]> (table (sys (srv (dm s))))) ->
  fds_of (client (dm s1)) ≡ₚ x :: fds_of (client (dm s)) ->
  numfd s1 = S (numfd s) -> length (pfds s1) = maxfd s1 -> (numfd s1 <= maxfd s1)%nat ->
  live s1 = live s ++ [x] -> Inv lfd s1.
Proof.
  intros I Hx Hno Hg [o Ht] Hc Hn Hm Hle Hl. destruct I as [H1 H2 H3 H4 H5 H6 H7].
  assert (Hnew : x ∉ live s).
  { intros Hin. rewrite list.Forall_forall in H6. destruct (H6 x Hin) as [_ [y Hy]]. congruence. }
  split; try done; [lia| | | |]; rewrite Hl.
  - destruct (live s); [done|]. exact H4.
  - apply list.NoDup_app. split_and!; [done| |apply NoDup_singleton]. intros y Hy Hy'. apply list_elem_of_singleton in Hy'. by subst.
  - apply Forall_app. split; [|apply Forall_singleton; rewrite Ht, lookup_insert_eq; by eauto].
    eapply Forall_impl; [|exact H6]. cbv beta. intros y [Hy0 Hy]. split; [done|]. rewrite Ht.
    destruct (decide (x = y)) as [->|]; [by rewrite lookup_insert_eq|by rewrite lookup_insert_ne].
  - rewrite Hc, H7. by rewrite Permutation_app_comm.
Qed.

Lemma orderly_crash {S A} (m : M S A) Q s : safely orderly m Q s -> safely (fun e _ => e <> Crash) m Q s.
Proof. intros H. eapply safely_mono; [exact H|by intros e s' [? _]|done]. Qed.

(** A longer array has the same entries in use. *)
Lemma Inv_grow lfd s l n : Inv lfd s ->
  Inv lfd (Ploop (dm s) (pfds s ++ replicate n l) (numfd s) (maxfd s + n) (polls s)) /\
  live (Ploop (dm s) (pfds s ++ replicate n l) (numfd s) (maxfd s + n) (polls s)) = live s.
Proof.
  intros I. assert (E : live (Ploop (dm s) (pfds s ++ replicate n l) (numfd s) (maxfd s + n) (polls s)) = live s).
  { unfold live. cbn. pose proof (inv_max _ _ I). pose proof (inv_num _ _ I). by rewrite take_app_le by lia. }
  split; [|done]. destruct I as [H1 H2 H3 H4 H5 H6 H7]. split; rewrite ?E; try done; cbn; [len|lia].
Qed.

Lemma grow_pollfd_safe s :
  safely orderly (grow_pollfd strerror junk) (fun _ s' => exists x, preserved (srv (dm s)) x /\
    s' = Ploop (Daemon x (client (dm s))) (pfds s ++ replicate NALLOC (Pollfd (-1) POLLIN 0)) (numfd s) (maxfd s + NALLOC) (polls s)) s.
Proof.
  unfold grow_pollfd. eapply safely_seq; [apply on_srv_safe, on_sys_preserved; by apply may_fail_kept|].
  cbv beta. intros [] s1 (x & Hx & ->); cbn [negb].
  - apply safely_bind, safely_ret, safely_wp, wp_modify. cbn. eauto.
  - apply safely_bind, safely_zoom, err_sys_exits. nonuls.
Qed.

Lemma accept_client_safe lfd s :
  Inv lfd s -> safely (fun e _ => e <> Crash) (accept_client strerror junk lfd) (fun _ s' => Inv lfd s') s.
Proof.
  intros I. unfold accept_client.
  eapply (safely_seq _ _ _ (fun r s' => exists x, s' = with_srv x s /\ errmsg x = errmsg (srv (dm s)) /\
    Forall (fun n => Z.of_nat (length n.1) <= Unixconn.SUN_PATH) (coming (sys x)) /\
    (0 <= r.1 -> table (sys (srv (dm s))) !! r.1 = None /\ exists o, table (sys x) = <[r.1 := o]> (table (sys (srv (dm s))))))).
  { apply safely_zoom, safely_zoom, safely_zoom. eapply safely_mono; [apply serv_accept_safe, (inv_good _ _ I)|done|].
    cbv beta. intros r s' [H1 H2]. eexists. by split_and!. }
  intros [clifd u] s1 (x & -> & Hz & Hc & Ht). cbn [fst snd] in *.
  destruct (Z.ltb_spec clifd 0) as [Hneg|Hpos]; [apply orderly_crash, log_sys_p_stops; nonuls|].
  destruct (Ht Hpos) as [Hno Hx]. apply safely_bind, safely_ret.
  assert (Hg : good x) by (split; [rewrite Hz; apply (inv_good _ _ I)|done]).
  eapply (safely_seq _ _ _ (fun _ s2 => exists y l, preserved x y /\ fds_of l ≡ₚ clifd :: fds_of (client (dm s)) /\
    s2 = Ploop (Daemon y l) (pfds s) (numfd s) (maxfd s) (polls s))).
  { apply orderly_crash, safely_zoom. eapply safely_mono; [apply client_add_safe; lia|done|]. cbv beta.
    intros i [y l] (H1 & H2 & _). by exists y, l. }
  intros _ s2 (y & l & Hy & Hl & ->). apply safely_bind, safely_wp, wp_get. cbn [numfd maxfd].
  pose proof (inv_max _ _ I) as Hmax. pose proof (inv_num _ _ I) as Hnum.
  eapply (safely_seq _ _ _ (fun _ s3 => exists z ps m, preserved x z /\ s3 = Ploop (Daemon z l) ps (numfd s) m (polls s) /\
    length ps = m /\ (numfd s < m)%nat /\ take (numfd s) ps = take (numfd s) (pfds s))).
  { destruct (Nat.eqb_spec (numfd s) (maxfd s)).
    - eapply orderly_crash, safely_mono; [apply grow_pollfd_safe|done|]. cbv beta. intros _ s3 (z & Hz' & ->).
      do 3 eexists. split; [by trans y|]. split; [reflexivity|]. cbn [pfds maxfd]. unfold NALLOC. split_and!; [len|lia|].
      by rewrite take_app_le by lia.
    - apply safely_ret. exists y, (pfds s), (maxfd s). split_and!; [done..|lia|done]. }
  intros _ s3 (z & ps & m & Hz' & -> & Hlen & Hlt & Htake). apply safely_bind, safely_wp, wp_get. cbn [numfd].
  apply safely_bind. unfold safely at 1, set_pfd_at. cbn [pfds]. rewrite (proj2 (Nat.ltb_lt _ _)) by lia.
  apply safely_bind, safely_wp, wp_modify. cbn [numfd set_pfds set_numfd pfds maxfd dm polls].
  eapply orderly_crash, safely_mono; [apply log_msg_p_safe; nonuls|done|]. cbv beta. intros _ s5 (w & Hw & ->).
  apply Inv_server; [done|done|]. apply (Inv_accept lfd s _ clifd I Hpos Hno); try done; cbn [dm srv client pfds numfd maxfd set_pfds set_numfd].
  - by apply (good_preserved x).
  - destruct Hx as [o Hx]. exists o. destruct Hz' as [[E _] _]. cbn. by rewrite E, Hx.
  - by rewrite length_insert.
  - unfold live. cbn [pfds numfd set_pfds set_numfd]. rewrite (take_S_r _ _ (Pollfd clifd POLLIN 0)) by (apply list_lookup_insert_eq; lia).
    rewrite take_insert_ge by lia. rewrite Htake, map_app. done.
Qed.

(** One round of the loop keeps the arrays consistent, or stops the process in
    an orderly way or to wait. *)
Lemma poll_round_safe lfd s :
  Inv lfd s -> safely (fun e _ => e <> Crash) (poll_round strerror junk sys_open lfd) (fun _ s' => Inv lfd s') s.
Proof.
  intros I. unfold poll_round. eapply safely_seq; [by apply poll_inv|]. cbv beta. intros n s1 I1.
  destruct (n <? 0); [apply orderly_crash, log_sys_p_stops; nonuls|]. apply safely_bind, safely_ret.
  pose proof (inv_num _ _ I1). destruct (inv_entry _ _ 0 I1 ltac:(lia)) as (p & Hp & _). step (pfd_at_run 0 p s1 Hp).
  eapply (safely_seq _ _ _ (fun _ s2 => Inv lfd s2)).
  { destruct (negb _); [by apply accept_client_safe|by apply safely_ret]. }
  intros _ s2 I2. apply safely_bind, safely_wp, wp_get. apply orderly_crash, serve_entries_safe; [done|lia|lia].
Qed.

Lemma poll_rounds_safe lfd : forall fuel s,
  Inv lfd s -> safely (fun e _ => e <> Crash) (poll_rounds strerror junk sys_open fuel lfd) (fun _ _ => False) s.
Proof.
  induction fuel as [|fuel IH]; intros s I; [done|]. cbn [poll_rounds].
  eapply safely_seq; [by apply poll_round_safe|]. cbv beta. intros _ s1 I1. by apply IH.
Qed.

Lemma poll_start_safe s : good (srv (dm s)) -> client (dm s) = [] ->
  safely (fun e _ => e <> Crash) (poll_start strerror junk) (fun lfd s' => Inv lfd s') s.
Proof.
  intros Hg Hcl. apply orderly_crash. unfold poll_start.
  eapply safely_seq; [apply on_srv_safe, on_sys_preserved; by apply may_fail_kept|].
  cbv beta. intros [] s1 (x & Hx & ->); cbn [negb]; [|apply safely_bind, safely_zoom, err_sys_exits; nonuls].
  apply safely_bind, safely_ret, safely_bind, safely_wp, wp_modify. cbn [with_srv dm polls]. apply (good_preserved _ _ Hx) in Hg.
  set (ps := replicate NALLOC (Pollfd (-1) POLLIN 0)).
  eapply (safely_seq _ _ _ (fun r s' => exists y, s' = Ploop (Daemon y []) ps 1 NALLOC (polls s) /\ errmsg y = errmsg x /\
    (r <? 0 = false -> coming (sys y) = coming (sys x) /\ 0 <= r /\ is_Some (table (sys y) !! r)))).
  { rewrite Hcl. apply safely_zoom, safely_zoom, safely_zoom. eapply safely_mono; [apply (safely_wp orderly), Unixconn.serv_listen_spec|done|].
    cbv beta. intros r y Hy. eexists. split; [reflexivity|]. split; [done|]. cbn. intros Hr. unfold Unixconn.listen_post in Hy.
    rewrite Hr in Hy. destruct Hy as (_ & Ht & _ & Hc & _). rewrite Ht, lookup_insert_eq. split_and!; [done|lia|by eauto]. }
  intros lfd s2 (y & -> & Hz & Hy). destruct (lfd <? 0); [apply log_sys_p_stops; nonuls|]. destruct (Hy eq_refl) as (Hc & Hge & Hin).
  apply safely_bind, safely_ret.
  eapply (safely_seq _ _ _ (fun _ s3 => exists z l, preserved y z /\ fds_of l ≡ₚ [lfd] /\
    s3 = Ploop (Daemon z l) ps 1 NALLOC (polls s))).
  { apply safely_zoom. eapply safely_mono; [apply client_add_safe; lia|done|]. cbv beta.
    intros i [z l] (H1 & H2 & _). by exists z, l. }
  intros _ s3 (z & l & Hz' & Hl & ->). step (pfd_at_run 0 (Pollfd (-1) POLLIN 0)); [|done].
  apply safely_bind. unfold safely at 1, set_pfd_at. cbn [pfds]. apply safely_ret.
  destruct Hz' as [[Ht Hc'] Hzz]. destruct Hg as [Hg1 Hg2]. split; cbn.
  - split; [apply Hzz; by rewrite Hz|]. by rewrite Hc', Hc.
  - done.
  - unfold NALLOC. lia.
  - done.
  - apply NoDup_singleton.
  - apply Forall_singleton. by rewrite Ht.
  - by rewrite Hl.
Qed.

End invariant.

(** ** Two clients *)

(** Users 501 and 502 connect; the first one hangs up; the second one sends a
    request. *)
Definition ex_name (n : Z) : bytes := str "/var/tmp/0000" ++ dec n.
Definition ex_inode (u : Z) : inode := Inode true S_IRWXU u 1000 1000 1000.
Definition ex_start : ploop :=
  let c1 := Conn [] [] [] true in
  let c2 := Conn [Piece (request (str "/etc/motd") 0) None] [] [] true in
  let o := Os {[ 0 := 1; 1 := 2; 2 := 3 ]} ∅ (<[ex_name 1 := ex_inode 501]> {[ ex_name 2 := ex_inode 502 ]})
    [(ex_name 1, c1); (ex_name 2, c2)] [] 0 8 1000 42 0 18 false false (Errlog.Proc [] [] [] 0 false None) in
  Ploop (Daemon (Server o [] [] 0) []) [] 0 0
    [Events {[ 3 := POLLIN ]}; Events {[ 3 := POLLIN ]}; Events {[ 4 := POLLHUP ]}; Events {[ 5 := POLLIN ]}].


(** The user of a request is looked up with the index of the poll entry in the
    array of clients: after an entry was packed it is the user of another
    client.  Here the request of user 502 is logged as one of user 501. *)
Lemma poll_loop_wrong_user :
  (3, str "request: open /etc/motd 0, from uid 501" ++ [10]) ∈
    Errlog.sys_log (io (sys (srv (dm (poll_loop ex_strerror ex_junk ex_open ex_start).2)))).
Proof.
  assert (E : Errlog.sys_log (io (sys (srv (dm (poll_loop ex_strerror ex_junk ex_open ex_start).2)))) =
    [(3, str "new connection: uid 501, fd 4" ++ [10]); (3, str "new connection: uid 502, fd 5" ++ [10]);
     (3, str "closed: uid 501, fd 4" ++ [10]); (3, str "request: open /etc/motd 0, from uid 501" ++ [10]);
     (3, str "sent fd 4 over fd 5 for /etc/motd" ++ [10])]) by (vm_compute; reflexivity).
  rewrite E. do 3 apply list_elem_of_further. apply list_elem_of_here.
Qed.
End OpendLoop.
