(* ===== verification/OpendSelect.v ===== *)
(** * The open server with [select]: ipc2/opend/loop.select.c

    The same daemon as in [OpendLoop], waiting with [select] on a set of
    descriptors.  A set of the type [fd_set] has room for 1024 descriptors; what
    the calls report is given in advance. *)

From S2P Require Import Prelude CLib Posix Stream Errlog OpenSys Unixconn Fdpass Opend OpendFrame OpendLoop.

Module OpendSelect.
Import OpenSys Opend OpendFrame OpendLoop.

Definition FD_SETSIZE : Z := 1024.

(** What a call of [select] reports: the descriptors that are ready, or an
    error. *)
Inductive sreport :=
| Readable (x : gset Z)
| Select_error (e : Z).

Record sloop := Sloop { sdm : daemon; allset : gset Z; smaxfd : Z; maxi : Z; selects : list sreport }.

Definition on_sdm {A} : M daemon A -> M sloop A :=
  zoom sdm (fun x s => Sloop x (allset s) (smaxfd s) (maxi s) (selects s)).

(** [FD_SET] writes outside the set for a descriptor that is too large. *)
Definition fd_set (x : Z) : M sloop unit := fun s =>
  if (0 <=? x) && (x <? FD_SETSIZE)
  then (Ret tt, Sloop (sdm s) ({[ x ]} ∪ allset s) (smaxfd s) (maxi s) (selects s))
  else (Stop Crash, s).
Definition fd_clr (x : Z) : M sloop unit := fun s =>
  if (0 <=? x) && (x <? FD_SETSIZE)
  then (Ret tt, Sloop (sdm s) (allset s ∖ {[ x ]}) (smaxfd s) (maxi s) (selects s))
  else (Stop Crash, s).

(** [select(maxfd + 1, &rset, ...)] with a copy of [allset]: the number of
    descriptors ready, and the set. *)
Definition select : M sloop (Z * gset Z) := fun s =>
  match selects s with
  | [] => (Stop Hang, s)
  | Select_error e :: l =>
      on_sdm (on_os (failed (-1, allset s) e)) (Sloop (sdm s) (allset s) (smaxfd s) (maxi s) l)
  | Readable x :: l =>
      let rset := filter (fun y => y ∈ x /\ y <= smaxfd s) (allset s) in
      (Ret (Z.of_nat (size rset), rset), Sloop (sdm s) (allset s) (smaxfd s) (maxi s) l)
  end.

Section select.
Variable strerror : Z -> bytes.
Variable junk : bytes.
Variable sys_open : bytes -> Z -> Z + Z.

Definition log_msg_s (text : bytes) : M sloop unit := on_sdm (on_srv (log_msg strerror junk text)).
Definition log_sys_s (text : bytes) : M sloop unit := on_sdm (on_srv (log_sys strerror junk text)).

Definition select_accept (listenfd : Z) : M sloop unit :=
  let* a := on_sdm (on_os (Unixconn.serv_accept listenfd)) in
  let clifd := a.1 in
  let u := default 0 a.2 in
  (if clifd <? 0 then log_sys_s (str "serv_accept error: " ++ dec clifd) else ret tt) ;;;
  let* i := on_sdm (client_add strerror junk clifd u) in
  fd_set clifd ;;;
  modify (fun s => Sloop (sdm s) (allset s) (if smaxfd s <? clifd then clifd else smaxfd s)
                         (if maxi s <? Z.of_nat i then Z.of_nat i else maxi s) (selects s)) ;;;
  log_msg_s (str "new connection: uid " ++ dec (to_i32 u) ++ str ", fd " ++ dec clifd).

(** The body of the loop over the array of clients. *)
Definition serve_client (rset : gset Z) (i : nat) : M sloop unit :=
  let* c := on_sdm (client_at i) in
  let clifd := fd c in
  if clifd <? 0 then ret tt
  else if bool_decide (clifd ∈ rset) then
    let* m := on_sdm (on_os (read clifd (Z.to_nat MAXLINE))) in
    let '(nread, buf) := m in
    if nread <? 0 then log_sys_s (str "read error on fd " ++ dec clifd)
    else if nread =? 0 then
      log_msg_s (str "closed: uid " ++ dec (to_i32 (uid c)) ++ str ", fd " ++ dec clifd) ;;;
      on_sdm (client_del strerror junk clifd) ;;;
      fd_clr clifd ;;;
      on_sdm (on_os (close clifd))
    else on_sdm (on_srv (handle_request strerror junk sys_open buf nread clifd (uid c)))
  else ret tt.

(** [n] entries from [i] on. *)
Fixpoint serve_clients (rset : gset Z) (n i : nat) : M sloop unit :=
  match n with
  | O => ret tt
  | S n' => serve_client rset i ;;; serve_clients rset n' (S i)
  end.

Definition select_round (listenfd : Z) : M sloop unit :=
  let* r := select in
  let '(n, rset) := r in
  (if n <? 0 then log_sys_s (str "select error") else ret tt) ;;;
  if bool_decide (listenfd ∈ rset) then select_accept listenfd
  else let* s := get in serve_clients rset (Z.to_nat (maxi s + 1)) 0.

Fixpoint select_rounds (fuel : nat) (listenfd : Z) : M sloop unit :=
  match fuel with
  | O => stop Hang
  | S fuel' => select_round listenfd ;;; select_rounds fuel' listenfd
  end.

Definition select_start : M sloop Z :=
  modify (fun s => Sloop (sdm s) ∅ (smaxfd s) (maxi s) (selects s)) ;;;
  let* listenfd := on_sdm (on_os (Unixconn.serv_listen CS_OPEN)) in
  (if listenfd <? 0 then log_sys_s (str "serv_listen error") else ret tt) ;;;
  fd_set listenfd ;;;
  modify (fun s => Sloop (sdm s) (allset s) listenfd (-1) (selects s)) ;;;
  ret listenfd.

Definition select_loop : M sloop unit :=
  let* listenfd := select_start in
  let* s := get in
  select_rounds (S (length (selects s))) listenfd.

(** ** The invariant *)

Hypothesis strerror_nonul : forall e, nonul (strerror e).
Hypothesis junk_length : Z.of_nat (length junk) = MAXLINE.

Definition os_of (s : sloop) : os := sys (srv (sdm s)).

(** Between two rounds: the set holds the listening descriptor and those of the
    clients, all different and all open, and the bounds bound. *)
Record SInv (lfd : Z) (s : sloop) : Prop := {
  sinv_good : good (srv (sdm s));
  sinv_set : allset s = {[ lfd ]} ∪ list_to_set (fds_of (client (sdm s)));
  sinv_nodup : NoDup (lfd :: fds_of (client (sdm s)));
  sinv_open : forall x, x ∈ lfd :: fds_of (client (sdm s)) ->
    0 <= x < FD_SETSIZE /\ x <= smaxfd s /\ is_Some (table (os_of s) !! x);
  sinv_maxi : -1 <= maxi s < Z.of_nat (length (client (sdm s))) \/ maxi s = -1;
  sinv_bound : forall i c, client (sdm s) !! i = Some c -> fd c <> -1 -> Z.of_nat i <= maxi s }.

(** The only way to leave the bounds of an object: a descriptor that does not
    fit in a set. *)
Definition full (e : fatal) (s : sloop) : Prop :=
  e = Crash -> exists x, is_Some (table (os_of s) !! x) /\ FD_SETSIZE <= x.

Lemma orderly_full {A} (m : M sloop A) Q s : safely orderly m Q s -> safely full m Q s.
Proof. intros H. eapply safely_mono; [exact H| |done]. intros e s' [Hc _] E. by destruct Hc. Qed.

Definition swith (x : server) (s : sloop) : sloop :=
  Sloop (Daemon x (client (sdm s))) (allset s) (smaxfd s) (maxi s) (selects s).

Lemma SInv_server lfd s x : preserved (srv (sdm s)) x -> SInv lfd s -> SInv lfd (swith x s).
Proof.
  intros Hp [H1 H2 H3 H4 H5 H6]. pose proof Hp as [[Ht _] _]. split; try done; [by eapply good_preserved|].
  intros y Hy. unfold os_of. cbn. rewrite Ht. by apply H4.
Qed.

Lemma on_srv_s_safe {A} (m : M server A) s :
  safely orderly m (fun _ x => preserved (srv (sdm s)) x) (srv (sdm s)) ->
  safely orderly (on_sdm (on_srv m)) (fun _ s' => exists x, preserved (srv (sdm s)) x /\ s' = swith x s) s.
Proof.
  intros Hm. apply safely_zoom, safely_zoom. eapply safely_mono; [exact Hm|done|]. cbv beta. intros _ x Hx. by exists x.
Qed.

Lemma log_msg_s_safe text s : nonul text ->
  safely orderly (log_msg_s text) (fun _ s' => exists x, preserved (srv (sdm s)) x /\ s' = swith x s) s.
Proof. intros Ht. by apply on_srv_s_safe, log_msg_preserved. Qed.

Lemma log_sys_s_exits text (Q : unit -> sloop -> Prop) s : nonul text -> safely orderly (log_sys_s text) Q s.
Proof.
  intros Ht. apply safely_zoom, safely_zoom, safely_zoom, safely_zoom. unfold Errlog.log_sys.
  apply safely_bind, safely_wp, wp_get. unfold safely, bind. by rewrite Errlog.log_doit_spec.
Qed.

(** The descriptor of an entry in use. *)
Lemma entry_fds l i c : l !! i = Some c -> fd c <> -1 -> fd c ∈ fds_of l.
Proof.
  intros Hi Hc. apply list_elem_of_filter. split; [done|]. apply list_elem_of_fmap. exists c. split; [done|].
  by eapply list_elem_of_lookup_2.
Qed.

(** A client is gone. *)
Lemma SInv_closed lfd s x l y c j :
  SInv lfd s -> preserved (srv (sdm s)) x -> client (sdm s) !! j = Some c -> fd c = y -> y <> -1 ->
  l = alter (fun c => mkClient (-1) (uid c)) j (client (sdm s)) ->
  SInv lfd (Sloop (Daemon (Server (set_table (delete y (table (sys x))) (sys x)) (errmsg x) (pathname x) (oflag x)) l)
                  (allset s ∖ {[ y ]}) (smaxfd s) (maxi s) (selects s)).
Proof.
  intros [H1 H2 H3 H4 H5 H6] Hp Hj Hc Hy ->. pose proof Hp as [[Ht _] _].
  pose proof (fds_of_drop _ _ _ _ Hj Hc Hy) as Hd. set (l := alter _ j (client (sdm s))) in *.
  assert (Hnd : NoDup (y :: lfd :: fds_of l)).
  { rewrite Hd in H3. by rewrite (Permutation_swap lfd y (fds_of l)). }
  apply list.NoDup_cons in Hnd as [Hny Hnd]. split; cbn [sdm client allset smaxfd maxi srv].
  - exact (good_preserved _ _ Hp H1).
  - rewrite H2, Hd. apply set_eq. intros z. rewrite not_elem_of_cons in Hny. set_solver.
  - done.
  - intros z Hz. destruct (H4 z) as (Hb & Hm & Ho).
    { rewrite Hd. apply elem_of_cons in Hz as [->|Hz]; [by left|right; by right]. }
    split_and!; [lia|lia|done|]. unfold os_of. cbn. rewrite Ht, lookup_delete_ne; [done|]. by intros ->.
  - unfold l. by rewrite length_alter.
  - intros k d Hk Hdf. unfold l in Hk. destruct (decide (k = j)) as [->|Hne].
    + rewrite list_lookup_alter_eq, Hj in Hk. injection Hk as <-. done.
    + rewrite list_lookup_alter_ne in Hk by done. by apply (H6 k d).
Qed.

Lemma client_del_run x d : x ∈ fds_of (client d) ->
  exists j c, client d !! j = Some c /\ fd c = x /\
    client_del strerror junk x d = (Ret tt, Daemon (srv d) (alter (fun c => mkClient (-1) (uid c)) j (client d))).
Proof.
  intros Hx. apply list_elem_of_filter in Hx as [_ Hx]. unfold client_del, bind, get.
  pose proof (find_fd_spec x (client d)) as Hs. destruct (find_fd x (client d)) as [j|].
  - destruct Hs as (c & Hj & Hc). by exists j, c.
  - exfalso. apply list_elem_of_fmap in Hx as (c & -> & Hc). rewrite list.Forall_forall in Hs. by apply (Hs c).
Qed.

Lemma serve_client_safe lfd rset s i :
  SInv lfd s -> (i < length (client (sdm s)))%nat ->
  safely orderly (serve_client rset i) (fun _ s' => SInv lfd s' /\ maxi s' = maxi s /\
    length (client (sdm s')) = length (client (sdm s))) s.
Proof.
  intros I Hi. destruct (lookup_lt_is_Some_2 _ _ Hi) as [c Hc]. unfold serve_client.
  assert (Hat : on_sdm (client_at i) s = (Ret c, s)).
  { unfold on_sdm, zoom, client_at, bind, get. rewrite Hc. by destruct s. }
  step Hat. destruct (Z.ltb_spec (fd c) 0) as [?|Hge]; [by apply safely_ret|].
  destruct (bool_decide _); [|by apply safely_ret].
  pose proof (entry_fds _ _ _ Hc ltac:(lia)) as Hfd.
  destruct (sinv_open _ _ I (fd c) ltac:(by right)) as (Hrange & _ & _).
  eapply (safely_seq _ _ _ (fun m s' => (0 <= m.1 -> m.1 = Z.of_nat (length m.2)) /\
    exists x, preserved (srv (sdm s)) x /\ s' = swith x s)).
  { apply safely_zoom, safely_zoom, safely_zoom, safely_bind. unfold safely at 1, receive.
    assert (Same : forall y, preserved (srv (sdm s)) y -> exists x, preserved (srv (sdm s)) x /\ swith y s = swith x s) by eauto.
    destruct (connection _ _) as [[o cn]|]; [|apply safely_ret; split; [done|by apply Same]].
    destruct (rx cn) as [|[d r|e] l]; [apply safely_ret; split; [done|by apply Same]| |apply safely_ret; split; [done|by apply Same]].
    destruct (Nat.leb_spec (length d) (Z.to_nat MAXLINE)); apply safely_ret; (split; [cbn|by apply Same]); [done|].
    intros _. f_equal. len. }
  intros [nread buf] s1 (Hlen & x & Hx & ->). cbn [fst snd] in Hlen.
  pose proof (SInv_server _ _ _ Hx I) as I1.
  destruct (Z.ltb_spec nread 0); [apply log_sys_s_exits; nonuls|].
  destruct (Z.eqb_spec nread 0) as [_|Hnz].
  - eapply safely_seq; [apply log_msg_s_safe; nonuls|]. cbv beta. intros _ s2 (y & Hy & ->).
    pose proof (SInv_server _ _ _ Hy I1) as I2.
    destruct (client_del_run (fd c) (sdm (swith y (swith x s)))) as (j & c' & Hj & Hc' & Hrun); [exact Hfd|].
    apply safely_bind, safely_zoom. unfold safely at 1. rewrite Hrun. cbn [srv sdm swith].
    apply safely_bind. unfold safely at 1, fd_clr. rewrite (proj2 (Z.leb_le 0 (fd c)) Hge), (proj2 (Z.ltb_lt (fd c) FD_SETSIZE)) by lia.
    cbn [andb]. apply safely_zoom, safely_zoom, safely_zoom, safely_wp, wp_modify. split_and!; [|done|by cbn; rewrite length_alter].
    apply (SInv_closed lfd (swith y (swith x s)) y _ (fd c) c' j I2); [done|exact Hj|done|lia|done].
  - rewrite Hlen by done. eapply safely_mono; [apply on_srv_s_safe, handle_request_preserved; [done|done| |apply (sinv_good _ _ I1)]|done|].
    + intros ->. cbn in Hlen. lia.
    + cbv beta. intros _ s2 (y & Hy & ->). split_and!; [by apply SInv_server|done..].
Qed.

Lemma serve_clients_safe lfd rset : forall n i s,
  SInv lfd s -> (n + i <= length (client (sdm s)))%nat -> safely orderly (serve_clients rset n i) (fun _ s' => SInv lfd s') s.
Proof.
  induction n as [|n IH]; intros i s I Hi; [done|]. cbn [serve_clients].
  eapply safely_seq; [apply serve_client_safe; [done|lia]|]. cbv beta. intros _ s1 (I1 & _ & Hl). apply IH; [done|lia].
Qed.

(** A new client. *)
Lemma SInv_accepted lfd s y x u i l :
  SInv lfd s -> good y -> 0 <= x < FD_SETSIZE -> table (os_of s) !! x = None -> (exists o, table (sys y) = <[x := o]> (table (os_of s))) ->
  fds_of (<[i := mkClient x u]> (client (sdm s) ++ l)) ≡ₚ x :: fds_of (client (sdm s)) ->
  <[i := mkClient x u]> (client (sdm s) ++ l) !! i = Some (mkClient x u) -> Forall (fun c => fd c = -1) l ->
  SInv lfd (Sloop (Daemon y (<[i := mkClient x u]> (client (sdm s) ++ l))) ({[ x ]} ∪ allset s)
    (if smaxfd s <? x then x else smaxfd s) (if maxi s <? Z.of_nat i then Z.of_nat i else maxi s) (selects s)).
Proof.
  intros [H1 H2 H3 H4 H5 H6] Hg Hx Hno [o Ht] Hf Hi Hl.
  assert (Hnew : x ∉ lfd :: fds_of (client (sdm s))).
  { intros Hin. destruct (H4 x Hin) as (_ & _ & z & Hz). congruence. }
  assert (Hlen : (i < length (client (sdm s) ++ l))%nat) by (apply lookup_lt_Some in Hi; by rewrite length_insert in Hi).
  split; cbn [sdm client allset smaxfd maxi srv].
  - done.
  - rewrite H2, Hf. cbn [list_to_set]. set_solver.
  - rewrite Hf, (Permutation_swap x lfd). by apply list.NoDup_cons.
  - intros z Hz. unfold os_of in *. cbn [sdm srv]. rewrite Ht. rewrite Hf, (Permutation_swap x lfd) in Hz.
    apply elem_of_cons in Hz as [->|Hz].
    + rewrite lookup_insert_eq. split_and!; [lia|lia|destruct (Z.ltb_spec (smaxfd s) x); lia|by eauto].
    + destruct (H4 z Hz) as (Hb & Hm & Ho). split_and!; [lia|lia|destruct (Z.ltb_spec (smaxfd s) x); lia|].
      rewrite lookup_insert_ne; [done|]. by intros ->.
  - left. rewrite length_insert, length_app. rewrite length_app in Hlen. destruct (Z.ltb_spec (maxi s) (Z.of_nat i)); lia.
  - intros k c Hk Hc. destruct (decide (k = i)) as [->|Hne]; [destruct (Z.ltb_spec (maxi s) (Z.of_nat i)); lia|].
    rewrite list_lookup_insert_ne in Hk by done. apply lookup_app_Some in Hk as [Hk|[_ Hk]].
    + specialize (H6 k c Hk Hc). destruct (Z.ltb_spec (maxi s) (Z.of_nat i)); lia.
    + rewrite list.Forall_forall in Hl. by apply list_elem_of_lookup_2, Hl in Hk.
Qed.

Lemma select_accept_safe lfd s : SInv lfd s -> safely full (select_accept lfd) (fun _ s' => SInv lfd s') s.
Proof.
  intros I. unfold select_accept.
  eapply (safely_seq _ _ _ (fun r s' => exists x, s' = swith x s /\ errmsg x = errmsg (srv (sdm s)) /\
    Forall (fun n => Z.of_nat (length n.1) <= Unixconn.SUN_PATH) (coming (sys x)) /\
    (0 <= r.1 -> table (os_of s) !! r.1 = None /\ exists o, table (sys x) = <[r.1 := o]> (table (os_of s))))).
  { apply safely_zoom, safely_zoom, safely_zoom. eapply safely_mono; [apply (serv_accept_safe junk), (sinv_good _ _ I)| |].
    - intros e s' He Hcr. by destruct (He Hcr).
    - cbv beta. intros r s' [H1 H2]. eexists. by split_and!. }
  intros [clifd u] s1 (x & -> & Hz & Hc & Ht). cbn [fst snd] in *.
  destruct (Z.ltb_spec clifd 0) as [Hneg|Hpos]; [apply orderly_full, safely_bind, log_sys_s_exits; nonuls|].
  destruct (Ht Hpos) as [Hno Hx]. apply safely_bind, safely_ret.
  assert (Hg : good x) by (split; [rewrite Hz; apply (sinv_good _ _ I)|done]).
  eapply (safely_seq _ _ _ (fun i s2 => exists y l, preserved x y /\ Forall (fun c => fd c = -1) l /\
    fds_of (<[i := mkClient clifd (default 0 u)]> (client (sdm s) ++ l)) ≡ₚ clifd :: fds_of (client (sdm s)) /\
    <[i := mkClient clifd (default 0 u)]> (client (sdm s) ++ l) !! i = Some (mkClient clifd (default 0 u)) /\
    s2 = Sloop (Daemon y (<[i := mkClient clifd (default 0 u)]> (client (sdm s) ++ l))) (allset s) (smaxfd s) (maxi s) (selects s))).
  { apply orderly_full, safely_zoom. eapply safely_mono; [apply client_add_safe; [done|done|lia]|done|]. cbv beta.
    intros i [y l'] (H1 & H2 & H3 & l & H4 & H5). cbn [client srv] in *. subst l'. by exists y, l. }
  intros i s2 (y & l & Hy & Hl & Hf & Hi & ->).
  assert (Hx' : exists o, table (sys y) = <[clifd := o]> (table (os_of s))).
  { destruct Hx as [o Ho]. exists o. destruct Hy as [[-> _] _]. done. }
  apply safely_bind. unfold safely at 1, fd_set. rewrite (proj2 (Z.leb_le 0 clifd) Hpos). cbn [andb].
  destruct (Z.ltb_spec clifd FD_SETSIZE) as [Hlt|Hbig].
  2: { intros _. exists clifd. destruct Hx' as [o Ho]. unfold os_of. cbn. rewrite Ho, lookup_insert_eq. by eauto. }
  apply safely_bind, safely_wp, wp_modify. cbn [sdm allset smaxfd maxi selects].
  eapply orderly_full, safely_mono; [apply log_msg_s_safe; nonuls|done|]. cbv beta. intros _ s3 (w & Hw & ->).
  apply SInv_server; [done|]. apply SInv_accepted; try done. by apply (good_preserved x).
Qed.

Lemma select_round_safe lfd s : SInv lfd s -> safely full (select_round lfd) (fun _ s' => SInv lfd s') s.
Proof.
  intros I. unfold select_round.
  eapply (safely_seq _ _ _ (fun r s1 => SInv lfd s1)).
  { unfold safely, select. destruct (selects s) as [|[x|e] l]; [done|by destruct I|]. cbn. by destruct I. }
  intros [n rset] s1 I1. destruct (n <? 0); [apply orderly_full, safely_bind, log_sys_s_exits; nonuls|].
  apply safely_bind, safely_ret. destruct (bool_decide _); [by apply select_accept_safe|].
  apply safely_bind, safely_wp, wp_get. apply orderly_full, serve_clients_safe; [done|].
  destruct (sinv_maxi _ _ I1); lia.
Qed.

Lemma select_rounds_safe lfd : forall fuel s, SInv lfd s -> safely full (select_rounds fuel lfd) (fun _ _ => False) s.
Proof.
  induction fuel as [|fuel IH]; intros s I; [done|]. cbn [select_rounds].
  eapply safely_seq; [by apply select_round_safe|]. cbv beta. intros _ s1 I1. by apply IH.
Qed.

Lemma select_start_safe s : good (srv (sdm s)) -> client (sdm s) = [] ->
  safely full select_start (fun lfd s' => SInv lfd s') s.
Proof.
  intros [Hg1 Hg2] Hcl. unfold select_start. apply safely_bind, safely_wp, wp_modify.
  eapply (safely_seq _ _ _ (fun r s' => exists y, s' = Sloop (Daemon y []) ∅ (smaxfd s) (maxi s) (selects s) /\
    errmsg y = errmsg (srv (sdm s)) /\
    (r <? 0 = false -> coming (sys y) = coming (os_of s) /\ 0 <= r /\ is_Some (table (sys y) !! r)))).
  { apply orderly_full, safely_zoom, safely_zoom, safely_zoom. eapply safely_mono; [apply (safely_wp orderly), Unixconn.serv_listen_spec|done|].
    cbv beta. intros r y Hy. eexists. cbn [sdm client srv]. rewrite Hcl. split; [reflexivity|]. split; [done|]. cbn. intros Hr.
    unfold Unixconn.listen_post in Hy. rewrite Hr in Hy. destruct Hy as (_ & Ht & _ & Hc & _).
    rewrite Ht, lookup_insert_eq. split_and!; [done|lia|by eauto]. }
  intros lfd s2 (y & -> & Hz & Hy). destruct (lfd <? 0); [apply orderly_full, safely_bind, log_sys_s_exits; nonuls|].
  destruct (Hy eq_refl) as (Hc & Hge & Hin). apply safely_bind, safely_ret, safely_bind. unfold safely at 1, fd_set.
  rewrite (proj2 (Z.leb_le 0 lfd) Hge). cbn [andb]. destruct (Z.ltb_spec lfd FD_SETSIZE) as [Hlt|Hbig]; [|intros _; by exists lfd].
  apply safely_bind, safely_wp, wp_modify, wp_ret. split; cbn.
  - split; [by rewrite Hz|by rewrite Hc].
  - done.
  - apply NoDup_singleton.
  - intros x Hx. apply list_elem_of_singleton in Hx as ->. unfold os_of. cbn. split_and!; [lia|lia|lia|done].
  - by right.
  - done.
Qed.

End select.

(** The clients of the example of [OpendLoop]: here the request of the second
    one is logged with its own user. *)
Definition ex_select : sloop :=
  Sloop (dm ex_start) ∅ 0 0 [Readable {[ 3 ]}; Readable {[ 3 ]}; Readable {[ 4 ]}; Readable {[ 5 ]}].

End OpendSelect.
