(* ===== verification/Tsearch.v ===== *)
(** * Search trees: musl's tsearch, tfind, tdelete, twalk and tdestroy

    The AVL trees of src/musl/src/search.  A node has an address, which is what
    the functions return; the key of a node can move to another address when a
    node is deleted.  The array of slots on the way to a node is the path in the
    model, its innermost element first, with the bounds of the arrays checked;
    the comparison function is a parameter. *)

From stdpp Require Import sorting.
From S2P Require Import Prelude CLib.

Module Tsearch.

(** [sizeof(void * ) * 8 * 3 / 2] *)
Definition MAXH : nat := 96.

Section tree.
Context {K : Type}.
Variable cmp : K -> K -> Z.

(** [struct node], and the null pointer. *)
Inductive node :=
| Null
| Node (a : Z) (key : K) (h : Z) (l r : node).

Definition height (n : node) : Z := match n with Null => 0 | Node _ _ h _ _ => h end.

(** A node seen from a side: address, key, height, [a[dir]] and [a[!dir]]. *)
Definition view (dir : bool) (n : node) : option (Z * K * Z * node * node) :=
  match n with
  | Null => None
  | Node a k h l r => Some (if dir then (a, k, h, r, l) else (a, k, h, l, r))
  end.
Definition make (dir : bool) (a : Z) (k : K) (h : Z) (c o : node) : node :=
  if dir then Node a k h o c else Node a k h c o.

(** [rot]: the tree at the slot and the change of its height; [None] is an access
    through a null pointer. *)
Definition rot (x : node) (dir : bool) : option (node * Z) :=
  match view dir x with
  | None => None
  | Some (xa, xk, hx, y, A) =>
      match view dir y with
      | None => None
      | Some (ya, yk, _, D, z) =>
          let hz := height z in
          if height D <? hz then
            match view dir z with
            | None => None
            | Some (za, zk, _, C, B) =>
                let x' := make dir xa xk hz B A in
                let y' := make dir ya yk hz D C in
                Some (make dir za zk (hz + 1) y' x', hz + 1 - hx)
            end
          else
            let x' := make dir xa xk (hz + 1) z A in
            Some (make dir ya yk (hz + 2) D x', hz + 2 - hx)
      end
  end.

Definition tsearch_balance (n : node) : option (node * Z) :=
  match n with
  | Null => None
  | Node a k old l r =>
      let h0 := height l in
      let h1 := height r in
      if to_u32 (h0 - h1 + 1) <? 3 then
        let h := if h0 <? h1 then h1 + 1 else h0 + 1 in
        Some (Node a k h l r, h - old)
      else rot n (h0 <? h1)
  end.

(** A step of the path: the node, which of its slots was taken, and the other
    one. *)
Record frame := Frame { f_dir : bool; f_addr : Z; f_key : K; f_h : Z; f_other : node }.
Definition fill (f : frame) (c : node) : node := make (f_dir f) (f_addr f) (f_key f) (f_h f) c (f_other f).
Fixpoint plug (path : list frame) (c : node) : node :=
  match path with [] => c | f :: path' => plug path' (fill f c) end.

(** Storing in the innermost slot, and the loop over the slots above. *)
Fixpoint rebalance (path : list frame) (c : node) : option node :=
  match path with
  | [] => Some c
  | f :: path' =>
      match tsearch_balance (fill f c) with
      | None => None
      | Some (n, d) => if d =? 0 then Some (plug path' n) else rebalance path' n
      end
  end.

(** The descent: the node found or the null pointer, and the path; [limit] is the
    size of the array and [i0] the first index used. *)
Fixpoint descend (limit i0 : nat) (key : K) (n : node) (path : list frame) : option (node * list frame) :=
  match n with
  | Null => Some (Null, path)
  | Node a k h l r =>
      let c := cmp key k in
      if c =? 0 then Some (n, path)
      else if (limit <=? i0 + length path)%nat then None
      else if 0 <? c then descend limit i0 key r (Frame true a k h l :: path)
      else descend limit i0 key l (Frame false a k h r :: path)
  end.

(** [tsearch]: the tree and the returned address; [mem] is what [malloc] returns.
    [None] is an access out of bounds. *)
Definition tsearch (key : K) (root : node) (mem : option Z) : option (node * option Z) :=
  match descend MAXH 1 key root [] with
  | None => None
  | Some (Node a _ _ _ _, _) => Some (root, Some a)
  | Some (Null, path) =>
      match mem with
      | None => Some (root, None)
      | Some a => match rebalance path (Node a key 1 Null Null) with
                  | None => None
                  | Some t => Some (t, Some a)
                  end
      end
  end.

Fixpoint tfind (key : K) (n : node) : option Z :=
  match n with
  | Null => None
  | Node a k h l r =>
      let c := cmp key k in
      if c =? 0 then Some a else if 0 <? c then tfind key r else tfind key l
  end.

(** The way to the last node of a subtree: its address, key and left child, and
    the path. *)
Fixpoint last_node (limit i0 : nat) (n : node) (path : list frame) : option (Z * K * node * list frame) :=
  match n with
  | Null => None
  | Node a k h l r =>
      match r with
      | Null => Some (a, k, l, path)
      | _ => if (limit <=? i0 + length path)%nat then None
             else last_node limit i0 r (Frame true a k h l :: path)
      end
  end.

(** [tdelete]: the tree, the returned address and the freed one.  The path to the
    preceding node goes through the deleted one, which gets the other's key. *)
Definition tdelete (key : K) (root : node) : option (node * option Z * option Z) :=
  match descend (MAXH + 1) 2 key root [] with
  | None => None
  | Some (Null, _) => Some (root, None, None)
  | Some (Node a k h l r, path) =>
      let parent := match path with [] => a | f :: _ => f_addr f end in
      match l with
      | Null => match rebalance path r with
                | None => None
                | Some t => Some (t, Some parent, Some a)
                end
      | _ =>
          if (MAXH + 1 <=? 2 + length path)%nat then None else
          match last_node (MAXH + 1) (3 + length path) l [] with
          | None => None
          | Some (ma, mk, child, path1) =>
              match rebalance (path1 ++ Frame false a mk h r :: path) child with
              | None => None
              | Some t => Some (t, Some parent, Some ma)
              end
          end
      end
  end.

(** [twalk]: the calls of the action. *)
Inductive VISIT := preorder | postorder | endorder | leaf.

Fixpoint walk (n : node) (d : Z) : list (Z * VISIT * Z) :=
  match n with
  | Null => []
  | Node a k h l r =>
      if h =? 1 then [(a, leaf, d)]
      else (a, preorder, d) :: walk l (d + 1) ++ (a, postorder, d) :: walk r (d + 1) ++ [(a, endorder, d)]
  end.
Definition twalk (root : node) : list (Z * VISIT * Z) := walk root 0.

(** [tdestroy]: the keys and nodes freed, in order. *)
Fixpoint tdestroy (n : node) : list (Z * K) :=
  match n with
  | Null => []
  | Node a k h l r => tdestroy l ++ tdestroy r ++ [(a, k)]
  end.

(** ** Balance *)

(** The addresses and keys in order. *)
Fixpoint nodes (n : node) : list (Z * K) :=
  match n with Null => [] | Node a k _ l r => nodes l ++ (a, k) :: nodes r end.

(** The heights are right, and those of siblings differ by at most one. *)
Fixpoint avl (n : node) : Prop :=
  match n with
  | Null => True
  | Node _ _ h l r => avl l /\ avl r /\ h = 1 + Z.max (height l) (height r) /\ -1 <= height l - height r <= 1
  end.

Lemma height_nonneg n : avl n -> 0 <= height n.
Proof.
  induction n as [|a k h l IHl r IHr]; cbn; [done|]. intros (Hl & Hr & -> & _).
  specialize (IHl Hl). specialize (IHr Hr). lia.
Qed.

Lemma height_null n : avl n -> height n <= 0 -> n = Null.
Proof.
  destruct n as [|a k h l r]; [done|]. cbn. intros (Hl & Hr & -> & _) H.
  pose proof (height_nonneg l Hl). pose proof (height_nonneg r Hr). lia.
Qed.

Lemma height_node n : avl n -> 0 < height n -> exists a k h l r, n = Node a k h l r.
Proof. destruct n as [|a k h l r]; cbn; [lia|eauto 10]. Qed.

Lemma make_nodes dir a k h c o :
  nodes (make dir a k h c o) = if dir then nodes o ++ (a, k) :: nodes c else nodes c ++ (a, k) :: nodes o.
Proof. by destruct dir. Qed.

Lemma make_avl dir a k h c o :
  avl (make dir a k h c o) <-> avl c /\ avl o /\ h = 1 + Z.max (height c) (height o) /\ -1 <= height c - height o <= 1.
Proof. destruct dir; cbn; [|done]. rewrite (Z.max_comm (height o)). split; intros (? & ? & ? & ?); split_and!; done || lia. Qed.

Lemma make_height dir a k h c o : height (make dir a k h c o) = h.
Proof. by destruct dir. Qed.

Lemma view_spec dir n : n <> Null ->
  exists a k h c o, view dir n = Some (a, k, h, c, o) /\ n = make dir a k h c o.
Proof. destruct n as [|a k h l r]; [done|]. intros _. destruct dir; do 5 eexists; done. Qed.

(** The higher side is two higher than the other. *)
Lemma rot_spec dir a k h c o :
  avl c -> avl o -> height c = height o + 2 ->
  exists n d, rot (make dir a k h c o) dir = Some (n, d) /\ avl n /\ nodes n = nodes (make dir a k h c o) /\
    d = height n - h /\ height o + 2 <= height n <= height o + 3.
Proof.
  intros Hc Ho Hh. pose proof (height_nonneg o Ho) as Hon.
  unfold rot. replace (view dir (make dir a k h c o)) with (Some (a, k, h, c, o)) by (by destruct dir).
  destruct (view_spec dir c) as (ya & yk & yh & D & z & -> & Ec); [intros ->; cbn in Hh; lia|]. subst c.
  rewrite make_height in Hh. apply make_avl in Hc as (HD & Hz & Eh & Hb).
  destruct (Z.ltb_spec (height D) (height z)) as [Hlt|Hge].
  - destruct (view_spec dir z) as (za & zk & zh & C & B & -> & Ez).
    { intros ->. cbn in Hlt. pose proof (height_nonneg D HD). lia. }
    subst z. rewrite !make_height in *. apply make_avl in Hz as (HC & HB & Ezh & Hzb).
    do 2 eexists. split; [reflexivity|]. rewrite make_height. split_and!; [| |done|lia..].
    + rewrite !make_avl, !make_height. split_and!; try done; lia.
    + rewrite !make_nodes. destruct dir; by rewrite <- ?app_assoc; cbn; rewrite <- ?app_assoc.
  - do 2 eexists. split; [reflexivity|]. rewrite make_height. split_and!; [| |done|lia..].
    + rewrite !make_avl, !make_height. split_and!; try done; lia.
    + rewrite !make_nodes. destruct dir; by rewrite <- ?app_assoc; cbn; rewrite <- ?app_assoc.
Qed.

(** Balancing a node whose subtrees are balanced and differ by at most two. *)
Lemma balance_spec a k old l r :
  avl l -> avl r -> -2 <= height l - height r <= 2 -> height l < 2 ^ 31 -> height r < 2 ^ 31 ->
  exists n d, tsearch_balance (Node a k old l r) = Some (n, d) /\ avl n /\ nodes n = nodes (Node a k old l r) /\
    d = height n - old /\ Z.max (height l) (height r) <= height n <= 1 + Z.max (height l) (height r) /\
    (-1 <= height l - height r <= 1 -> height n = 1 + Z.max (height l) (height r)).
Proof.
  intros Hl Hr Hd Bl Br. pose proof (height_nonneg l Hl). pose proof (height_nonneg r Hr).
  unfold tsearch_balance, to_u32. destruct (decide (-1 <= height l - height r <= 1)) as [Hb|Hb].
  - rewrite Z.mod_small by lia. rewrite (proj2 (Z.ltb_lt _ _)) by lia. do 2 eexists. split; [reflexivity|].
    cbn. destruct (Z.ltb_spec (height l) (height r)); split_and!; try done; lia.
  - assert ((to_u32 (height l - height r + 1) <? 3) = false) as E.
    { unfold to_u32. apply Z.ltb_ge. destruct (decide (height l - height r = 2)) as [E|E].
      - rewrite E. done.
      - replace (height l - height r) with (-2) by lia. done. }
    unfold to_u32 in E. rewrite E. destruct (Z.ltb_spec (height l) (height r)) as [Hlt|Hge].
    + destruct (rot_spec true a k old r l Hr Hl ltac:(lia)) as (n & d & Hrun & ? & ? & ? & ?). exists n, d.
      split_and!; try done; lia.
    + destruct (rot_spec false a k old l r Hl Hr ltac:(lia)) as (n & d & Hrun & ? & ? & ? & ?). exists n, d.
      split_and!; try done; lia.
Qed.

(** ** Paths *)

(** A path in a balanced tree of height [top], to a subtree of height [hc]. *)
Fixpoint fits (path : list frame) (hc top : Z) : Prop :=
  match path with
  | [] => hc = top
  | f :: path' => avl (f_other f) /\ f_h f = 1 + Z.max hc (height (f_other f)) /\
      -1 <= hc - height (f_other f) <= 1 /\ fits path' (f_h f) top
  end.

(** What is around a subtree. *)
Fixpoint around (path : list frame) (m : list (Z * K)) : list (Z * K) :=
  match path with
  | [] => m
  | f :: path' =>
      around path' (if f_dir f then nodes (f_other f) ++ (f_addr f, f_key f) :: m
                    else m ++ (f_addr f, f_key f) :: nodes (f_other f))
  end.

Lemma fits_length path : forall hc top, fits path hc top -> hc + Z.of_nat (length path) <= top.
Proof.
  induction path as [|f path IH]; cbn [fits length]; intros hc top; [lia|]. intros (_ & Hh & _ & Hf).
  specialize (IH _ _ Hf). lia.
Qed.

Lemma plug_nodes path : forall c, nodes (plug path c) = around path (nodes c).
Proof. induction path as [|f path IH]; intros c; [done|]. cbn [plug around]. rewrite IH. unfold fill. by rewrite make_nodes. Qed.

Lemma plug_avl path : forall c top, fits path (height c) top -> avl c -> avl (plug path c) /\ height (plug path c) = top.
Proof.
  induction path as [|f path IH]; intros c top; [done|]. cbn [fits plug]. intros (Ho & Hh & Hb & Hf) Hc.
  apply IH; unfold fill; [by rewrite make_height|]. by apply make_avl.
Qed.

Lemma plug_app p1 p2 c : plug (p1 ++ p2) c = plug p2 (plug p1 c).
Proof. revert c. induction p1 as [|f p1 IH]; intros c; [done|]. cbn. apply IH. Qed.

Lemma around_app p1 p2 m : around (p1 ++ p2) m = around p2 (around p1 m).
Proof. revert m. induction p1 as [|f p1 IH]; intros m; [done|]. cbn. apply IH. Qed.

Lemma fits_app p1 p2 hc top : fits (p1 ++ p2) hc top <-> exists mid, fits p1 hc mid /\ fits p2 mid top.
Proof.
  revert hc. induction p1 as [|f p1 IH]; intros hc; cbn [app fits].
  - split; [intros H; by exists hc|by intros (mid & <- & ?)].
  - rewrite IH. split.
    + intros (? & ? & ? & mid & ? & ?). exists mid. tauto.
    + intros (mid & (? & ? & ? & ?) & ?). repeat (split; [tauto|]). by exists mid.
Qed.

Lemma around_before path : exists L R, forall m, around path m = L ++ m ++ R.
Proof.
  induction path as [|f path (L & R & IH)]; [exists [], []; intros m; by rewrite app_nil_r|]. cbn [around].
  destruct (f_dir f).
  - exists (L ++ nodes (f_other f) ++ [(f_addr f, f_key f)]), R. intros m. rewrite IH. by apps.
  - exists L, ((f_addr f, f_key f) :: nodes (f_other f) ++ R). intros m. rewrite IH. by apps.
Qed.

(** The loop restores the balance when the height of the innermost subtree has
    changed by at most one. *)
Lemma rebalance_spec path : forall hc top c,
  fits path hc top -> avl c -> -1 <= height c - hc <= 1 -> top < 2 ^ 30 ->
  exists t, rebalance path c = Some t /\ avl t /\ nodes t = around path (nodes c).
Proof.
  induction path as [|f path IH]; intros hc top c Hf Hc Hd Htop; cbn [fits rebalance around] in *; [by exists c|].
  destruct Hf as (Ho & Hh & Hb & Hf). pose proof (fits_length _ _ _ Hf). pose proof (height_nonneg _ Ho). pose proof (height_nonneg _ Hc).
  assert (exists n d, tsearch_balance (fill f c) = Some (n, d) /\ avl n /\ nodes n = nodes (fill f c) /\ d = height n - f_h f /\
    -1 <= height n - f_h f <= 1) as (n & d & -> & Hn & Hnn & -> & Hnd).
  { unfold fill, make. destruct (f_dir f).
    - destruct (balance_spec (f_addr f) (f_key f) (f_h f) (f_other f) c Ho Hc ltac:(lia) ltac:(lia) ltac:(lia))
        as (n & d & ? & ? & ? & ? & ? & ?). exists n, d. split_and!; try done; lia.
    - destruct (balance_spec (f_addr f) (f_key f) (f_h f) c (f_other f) Hc Ho ltac:(lia) ltac:(lia) ltac:(lia))
        as (n & d & ? & ? & ? & ? & ? & ?). exists n, d. split_and!; try done; lia. }
  replace (if f_dir f then nodes (f_other f) ++ (f_addr f, f_key f) :: nodes c else nodes c ++ (f_addr f, f_key f) :: nodes (f_other f))
    with (nodes n) by (rewrite Hnn; unfold fill; by rewrite make_nodes).
  destruct (Z.eqb_spec (height n - f_h f) 0) as [E|E].
  - exists (plug path n). split; [done|]. rewrite plug_nodes. split; [|done].
    apply (plug_avl path n top); [|done]. by replace (height n) with (f_h f) by lia.
  - by apply (IH (f_h f) top).
Qed.

(** ** Order *)

Definition keys (n : node) : list K := map snd (nodes n).
Definition addrs (n : node) : list Z := map fst (nodes n).
Definition sorted (l : list K) : Prop := StronglySorted (fun x y => cmp x y < 0) l.

Lemma sorted_app l1 l2 : sorted (l1 ++ l2) <-> sorted l1 /\ sorted l2 /\ Forall (fun x => Forall (fun y => cmp x y < 0) l2) l1.
Proof.
  unfold sorted. induction l1 as [|x l1 IH]; cbn.
  - split; [intros H; split_and!; [constructor|done|apply Forall_nil]|tauto].
  - split.
    + intros H. inv H as [|? ? Hs Hf]. apply IH in Hs as (? & ? & ?). apply Forall_app in Hf as [? ?].
      split_and!; [by constructor|done|by apply Forall_cons].
    + intros (H1 & H2 & H3). inv H1 as [|? ? Hs Hf]. apply Forall_cons_iff in H3 as [? ?].
      constructor; [by apply IH|by apply Forall_app].
Qed.

Context `{!Order cmp}.

(** The place of a key between smaller and larger ones. *)
Definition between (key : K) (L R : list (Z * K)) : Prop :=
  Forall (fun p => 0 < cmp key p.2) L /\ Forall (fun p => cmp key p.2 < 0) R.

Lemma sorted_insert key a L R : sorted (map snd (L ++ R)) -> between key L R -> sorted (map snd (L ++ (a, key) :: R)).
Proof.
  rewrite !map_app. cbn. intros (HL & HR & HLR)%sorted_app [Hlt Hgt].
  apply sorted_app. split_and!; [done| |].
  - constructor; [done|]. by apply Forall_map.
  - rewrite Forall_map in HLR |- *. rewrite list.Forall_forall in HLR, Hlt |- *. intros p Hp. apply Forall_cons; [|by apply HLR].
    apply cmp_opp. by apply Hlt.
Qed.

Lemma descend_spec limit i0 key : forall n path,
  avl n -> sorted (keys n) -> Z.of_nat (i0 + length path) + height n <= Z.of_nat limit ->
  exists m path1, descend limit i0 key n path = Some (m, path1 ++ path) /\ avl m /\ plug path1 m = n /\
    fits path1 (height m) (height n) /\
    match m with
    | Null => exists L R, (forall x, around path1 x = L ++ x ++ R) /\ between key L R
    | Node _ k _ _ _ => cmp key k = 0
    end.
Proof.
  induction n as [|a k h l IHl r IHr]; intros path Ha Hs Hlim; cbn [descend].
  { exists Null, []. split_and!; try done. exists [], []. split; [intros x; by rewrite app_nil_r|]. split; apply Forall_nil. }
  destruct (Z.eqb_spec (cmp key k) 0) as [E|E]; [by exists (Node a k h l r), []|].
  pose proof Ha as (Hl & Hr & Hh & Hb). pose proof (height_nonneg l Hl). pose proof (height_nonneg r Hr).
  cbn [height] in Hlim. rewrite (proj2 (Nat.leb_gt _ _)) by lia.
  unfold keys in Hs. cbn [nodes] in Hs. rewrite map_app in Hs. cbn [map snd] in Hs.
  apply sorted_app in Hs as (Hsl & Hsr & Hlr). inversion Hsr as [|? ? Hsr' Hkr]; subst.
  destruct (Z.ltb_spec 0 (cmp key k)) as [Hgt|Hle].
  - destruct (IHr (Frame true a k (1 + Z.max (height l) (height r)) l :: path) Hr Hsr' ltac:(cbn [length]; lia))
      as (m & p1 & Hrun & Hm & Hp & Hf & Hcase).
    exists m, (p1 ++ [Frame true a k (1 + Z.max (height l) (height r)) l]). rewrite <- app_assoc. split_and!; [done|done| | |].
    + rewrite plug_app, Hp. done.
    + apply fits_app. exists (height r). split; [done|]. cbn. split_and!; try done; lia.
    + destruct m as [|]; [|done]. destruct Hcase as (L & R & Haro & HL & HR).
      exists (nodes l ++ (a, k) :: L), R. split; [intros x; rewrite around_app, Haro; cbn; by apps|]. split; [|done].
      apply Forall_app. split; [|by apply Forall_cons]. rewrite Forall_map in Hlr. eapply Forall_impl; [|exact Hlr]. cbv beta.
      intros p Hpk. apply Forall_cons_iff in Hpk as [Hpk _]. apply cmp_opp. apply (cmp_trans _ k); [done|]. by apply cmp_opp.
  - destruct (IHl (Frame false a k (1 + Z.max (height l) (height r)) r :: path) Hl Hsl ltac:(cbn [length]; lia))
      as (m & p1 & Hrun & Hm & Hp & Hf & Hcase).
    exists m, (p1 ++ [Frame false a k (1 + Z.max (height l) (height r)) r]). rewrite <- app_assoc. split_and!; [done|done| | |].
    + rewrite plug_app, Hp. done.
    + apply fits_app. exists (height l). split; [done|]. cbn. split_and!; try done; lia.
    + destruct m as [|]; [|done]. destruct Hcase as (L & R & Haro & HL & HR).
      exists L, (R ++ (a, k) :: nodes r). split; [intros x; rewrite around_app, Haro; cbn; by apps|]. split; [done|].
      apply Forall_app. split; [done|]. apply Forall_cons; [cbn; lia|]. rewrite Forall_map in Hkr. eapply Forall_impl; [|exact Hkr]. cbv beta.
      intros p Hpk. apply (cmp_trans _ k); [lia|done].
Qed.

(** ** The height of a tree *)

(** The least number of nodes of a balanced tree of height [h], and of height
    [h + 1]. *)
Fixpoint least (h : nat) : Z * Z :=
  match h with O => (0, 1) | S h' => let '(x, y) := least h' in (y, 1 + x + y) end.

Lemma least_step h : (least (S h)).1 = (least h).2 /\ (least (S h)).2 = 1 + (least h).1 + (least h).2.
Proof. cbn. by destruct (least h). Qed.

Lemma least_mono h : 0 <= (least h).1 <= (least h).2.
Proof. induction h as [|h IH]; [cbn; lia|]. destruct (least_step h) as [-> ->]. lia. Qed.

Lemma least_le h h' : (h <= h')%nat -> (least h).1 <= (least h').1.
Proof.
  induction 1 as [|h' _ IH]; [done|]. destruct (least_step h') as [-> _]. pose proof (least_mono h'). lia.
Qed.

Lemma size_least n : avl n -> (least (Z.to_nat (height n))).1 <= Z.of_nat (length (nodes n)).
Proof.
  induction n as [|a k h l IHl r IHr]; [done|]. intros (Hl & Hr & Hh & Hb). specialize (IHl Hl). specialize (IHr Hr).
  pose proof (height_nonneg l Hl). pose proof (height_nonneg r Hr). cbn [height nodes]. rewrite length_app. cbn [length].
  assert (Hlow : forall m, avl m -> h - 2 <= height m -> (least (Z.to_nat (h - 2))).1 <= (least (Z.to_nat (height m))).1).
  { intros m Hm Hle. apply least_le. lia. }
  destruct (Z.eq_dec h 1) as [->|Hne].
  { change (Z.to_nat 1) with 1%nat. change (least 1).1 with 1. lia. }
  replace (Z.to_nat h) with (S (S (Z.to_nat (h - 2)))) by lia.
  destruct (least_step (S (Z.to_nat (h - 2)))) as [-> _]. destruct (least_step (Z.to_nat (h - 2))) as [E1 E2].
  rewrite E2. rewrite <- E1. replace (S (Z.to_nat (h - 2))) with (Z.to_nat (h - 1)) by lia.
  destruct (Z.max_spec (height l) (height r)) as [[Hlt Hm]|[Hge Hm]]; rewrite Hm in Hh.
  - pose proof (Hlow l Hl ltac:(lia)). replace (height r) with (h - 1) in IHr by lia. lia.
  - pose proof (Hlow r Hr ltac:(lia)). replace (height l) with (h - 1) in IHl by lia. lia.
Qed.

(** A tree of fewer than 2^64 nodes fits in the arrays. *)
Lemma height_bound n : avl n -> Z.of_nat (length (nodes n)) < 2 ^ 64 -> height n <= 95.
Proof.
  intros Ha Hs. pose proof (size_least n Ha). destruct (Z.le_gt_cases (height n) 95) as [|Hgt]; [done|].
  pose proof (least_le 96 (Z.to_nat (height n)) ltac:(lia)) as Hl.
  assert (2 ^ 64 <= (least 96).1) by (vm_compute; discriminate). lia.
Qed.

(** ** The operations *)

(** The last node of a subtree. *)
Lemma last_node_spec limit i0 : forall n path,
  avl n -> n <> Null -> Z.of_nat (i0 + length path) + height n <= Z.of_nat limit + 1 ->
  exists ma mk child p1 L, last_node limit i0 n path = Some (ma, mk, child, p1 ++ path) /\ avl child /\
    (forall x, around p1 x = L ++ x) /\ nodes n = L ++ nodes child ++ [(ma, mk)] /\ fits p1 (height child + 1) (height n).
Proof.
  induction n as [|a k h l IHl r IHr]; intros path Ha Hne Hlim; [done|]. clear IHl. pose proof Ha as (Hl & Hr & Hh & Hb).
  pose proof (height_nonneg l Hl). cbn [last_node height] in *. destruct r as [|a2 k2 h2 l2 r2] eqn:Er.
  - exists a, k, l, [], []. cbn in *. split_and!; try done. lia.
  - rewrite <- Er in *. assert (Hr0 : 0 < height r) by (subst r; cbn in Hr |- *; destruct Hr as (Hx & Hy & -> & _);
      pose proof (height_nonneg _ Hx); lia).
    replace (limit <=? i0 + length path)%nat with false by (symmetry; apply Nat.leb_gt; lia).
    destruct (IHr (Frame true a k h l :: path) Hr ltac:(by subst) ltac:(cbn [length]; lia)) as (ma & mk & child & p1 & L & Hrun & Hc & Hx & Hn & Hf).
    exists ma, mk, child, (p1 ++ [Frame true a k h l]), (nodes l ++ (a, k) :: L). rewrite <- app_assoc. split_and!; [done|done| | |].
    + intros x. rewrite around_app, Hx. cbn. by apps.
    + cbn [nodes]. rewrite Hn. by apps.
    + apply fits_app. exists (height r). split; [done|]. cbn. split_and!; try done; lia.
Qed.

(** A search tree: balanced, in order, every address once, and no more nodes than
    fit in memory. *)
Record wf (n : node) : Prop := {
  wf_avl : avl n;
  wf_sorted : sorted (keys n);
  wf_addrs : NoDup (addrs n);
  wf_size : Z.of_nat (length (nodes n)) < 2 ^ 64 }.

Definition found (key : K) (n : node) (a : Z) : Prop := exists k, (a, k) ∈ nodes n /\ cmp key k = 0.

Lemma found_unique key n k1 k2 a1 a2 : sorted (keys n) -> (a1, k1) ∈ nodes n -> (a2, k2) ∈ nodes n ->
  cmp key k1 = 0 -> cmp key k2 = 0 -> a1 = a2.
Proof.
  intros Hs H1 H2 E1 E2.
  destruct (list_elem_of_split _ _ H1) as (l1 & l2 & E). rewrite E in H2. unfold keys in Hs. rewrite E, map_app in Hs.
  apply sorted_app in Hs as (_ & Hs2 & Hs1). inversion Hs2 as [|? ? _ Hs3]; subst. cbn [snd] in *.
  rewrite Forall_map in Hs1, Hs3. rewrite list.Forall_forall in Hs1, Hs3.
  apply elem_of_app in H2 as [H2|H2].
  - specialize (Hs1 _ H2). cbn in Hs1. apply Forall_cons_iff in Hs1 as [Hs1 _].
    pose proof (cmp_same _ _ _ E2 Hs1). lia.
  - apply elem_of_cons in H2 as [[= <- <-]|H2]; [done|]. specialize (Hs3 _ H2). cbn in Hs3.
    pose proof (cmp_same _ _ _ E1 Hs3). lia.
Qed.

Lemma between_none key L R n : nodes n = L ++ R -> between key L R -> forall a, ~ found key n a.
Proof.
  intros E [HL HR] a (k & Hin & Hk). rewrite E in Hin. rewrite list.Forall_forall in HL, HR.
  apply elem_of_app in Hin as [Hin|Hin]; [specialize (HL _ Hin)|specialize (HR _ Hin)]; cbn in *; lia.
Qed.

Lemma plugged_in path a k h l r : (a, k) ∈ nodes (plug path (Node a k h l r)).
Proof.
  rewrite plug_nodes. destruct (around_before path) as (L & R & ->). cbn [nodes]. rewrite !elem_of_app, elem_of_cons. tauto.
Qed.

Lemma tsearch_spec key n mem :
  wf n -> (forall a, mem = Some a -> (a ∉ addrs n) /\ Z.of_nat (length (nodes n)) + 1 < 2 ^ 64) ->
  exists t r, tsearch key n mem = Some (t, r) /\ wf t /\
    ((exists a, found key n a /\ t = n /\ r = Some a) \/
     ((forall a, ~ found key n a) /\
      match mem with None => t = n /\ r = None | Some a => r = Some a /\ nodes t ≡ₚ (a, key) :: nodes n end)).
Proof.
  intros [Ha Hs Hd Hsz] Hmem. pose proof (height_bound n Ha Hsz) as Hh. unfold tsearch.
  destruct (descend_spec MAXH 1 key n [] Ha Hs) as (m & path & Hrun & Hm & Hp & Hf & Hcase); [unfold MAXH; cbn; lia|].
  rewrite Hrun, app_nil_r. destruct m as [|a k h l r].
  - destruct Hcase as (L & R & Haro & Hbt). pose proof (plug_nodes path Null) as E. rewrite Hp, Haro in E. cbn [nodes app] in E.
    destruct mem as [a|].
    2: { exists n, None. split_and!; try done. right. split; [|done]. by eapply between_none. }
    destruct (Hmem a eq_refl) as [Hna Hsz'].
    destruct (rebalance_spec path 0 (height n) (Node a key 1 Null Null) Hf) as (t & -> & Ht & Hn); [by cbn; split_and!|cbn; lia|lia|].
    rewrite Haro in Hn. cbn [nodes app] in Hn. exists t, (Some a).
    assert (Hperm : nodes t ≡ₚ (a, key) :: nodes n) by (rewrite Hn, E; by rewrite Permutation_middle).
    split_and!; [done| |right; split; [by eapply between_none|done]]. split; [done| | |].
    + unfold keys in *. rewrite Hn. apply sorted_insert; [by rewrite <- E|done].
    + unfold addrs in *. rewrite Hperm. cbn. by apply list.NoDup_cons.
    + rewrite Hperm. cbn [length]. lia.
  - exists n, (Some a). split_and!; [done|done|]. left. exists a. split_and!; [|done|done]. exists k. rewrite <- Hp. split; [|done].
    apply plugged_in.
Qed.

Lemma sorted_remove l1 x l2 : sorted (l1 ++ x :: l2) -> sorted (l1 ++ l2).
Proof.
  intros (H1 & H2 & H3)%sorted_app. inversion H2; subst. apply sorted_app. split_and!; [done|done|].
  eapply Forall_impl; [|exact H3]. cbv beta. intros y Hy. by apply Forall_cons_iff in Hy as [_ ?].
Qed.

(** A tree with a key less, and an address less. *)
Lemma wf_remove n t L1 k L2 A1 f A2 :
  wf n -> avl t -> keys n = L1 ++ k :: L2 -> keys t = L1 ++ L2 -> addrs n ≡ₚ f :: A1 -> addrs t = A2 -> A1 ≡ₚ A2 ->
  wf t /\ keys n ≡ₚ k :: keys t /\ addrs n ≡ₚ f :: addrs t.
Proof.
  intros [Ha Hs Hd Hsz] Ht Hk Hk' HA HA' HP. rewrite Hk, Hk'. split_and!; [|by rewrite Permutation_middle|by rewrite HA, HP, HA'].
  split; [done|rewrite Hk'; rewrite Hk in Hs; by eapply sorted_remove| |].
  - rewrite HA, HP in Hd. rewrite HA'. by apply list.NoDup_cons in Hd as [_ ?].
  - assert (length (keys t) < length (keys n))%nat as Hlt by (rewrite Hk, Hk', !length_app; cbn; lia).
    unfold keys in Hlt. rewrite !length_map in Hlt. lia.
Qed.

Lemma tdelete_spec key n : wf n ->
  exists t r f, tdelete key n = Some (t, r, f) /\ wf t /\
    (((forall a, ~ found key n a) /\ t = n /\ r = None /\ f = None) \/
     (exists a k p x, (a, k) ∈ nodes n /\ cmp key k = 0 /\ r = Some p /\ f = Some x /\
        keys n ≡ₚ k :: keys t /\ addrs n ≡ₚ x :: addrs t)).
Proof.
  intros W. pose proof W as [Ha Hs Hd Hsz]. pose proof (height_bound n Ha Hsz) as Hh. unfold tdelete.
  destruct (descend_spec (MAXH + 1) 2 key n [] Ha Hs) as (m & path & Hrun & Hm & Hp & Hf & Hcase); [unfold MAXH; cbn; lia|].
  rewrite Hrun, app_nil_r. destruct m as [|a k h l r].
  { destruct Hcase as (L & R & Haro & Hbt). pose proof (plug_nodes path Null) as E. rewrite Hp, Haro in E. cbn [nodes app] in E.
    exists n, None, None. split_and!; try done. left. split_and!; try done. by eapply between_none. }
  pose proof (fits_length _ _ _ Hf) as Hlen. cbn [height] in Hlen, Hf. pose proof Hm as (Hl & Hr & Hhm & Hb).
  pose proof (height_nonneg l Hl). pose proof (height_nonneg r Hr).
  assert (Hin : (a, k) ∈ nodes n) by (rewrite <- Hp; apply plugged_in).
  destruct (around_before path) as (L & R & Haro). pose proof (plug_nodes path (Node a k h l r)) as E.
  rewrite Hp, Haro in E. cbn [nodes] in E. set (parent := match path with [] => a | f :: _ => f_addr f end).
  destruct l as [|la lk lh ll lr] eqn:El.
  - destruct (rebalance_spec path h (height n) r Hf Hr) as (t & -> & Ht & Hn); [cbn in *; lia|lia|]. rewrite Haro in Hn. cbn [nodes app] in E.
    destruct (wf_remove n t (map snd L) k (map snd (nodes r ++ R)) (map fst (L ++ nodes r ++ R)) a (addrs t) W Ht) as (Wt & HK & HA).
    + unfold keys. rewrite E, !map_app. cbn. by rewrite !map_app.
    + unfold keys. by rewrite Hn, !map_app.
    + unfold addrs. rewrite E, !map_app. cbn. rewrite !map_app. symmetry. apply Permutation_middle.
    + done.
    + unfold addrs. by rewrite Hn.
    + exists t, (Some parent), (Some a). split_and!; [done|done|]. right. by exists a, k, parent, a.
  - rewrite <- El in *. assert (Hl0 : 1 <= height l) by (subst l; cbn in Hl |- *; destruct Hl as (Hx & Hy & -> & _);
      pose proof (height_nonneg _ Hx); lia).
    replace (MAXH + 1 <=? 2 + length path)%nat with false by (symmetry; apply Nat.leb_gt; unfold MAXH; lia).
    destruct (last_node_spec (MAXH + 1) (3 + length path) l [] Hl ltac:(by subst)) as (ma & mk & child & p1 & L1 & Hlast & Hc & Hx & Hnl & Hf1);
      [unfold MAXH; cbn [length]; lia|]. rewrite Hlast, app_nil_r.
    destruct (rebalance_spec (p1 ++ Frame false a mk h r :: path) (height child + 1) (height n) child) as (t & -> & Ht & Hn); [|done|lia|lia|].
    { apply fits_app. exists (height l). split; [done|]. cbn. split_and!; try done; lia. }
    rewrite around_app, Hx in Hn. cbn [around f_dir f_addr f_key f_other] in Hn. rewrite Haro in Hn. rewrite Hnl in E.
    destruct (wf_remove n t (map snd (L ++ L1 ++ nodes child ++ [(ma, mk)])) k (map snd (nodes r ++ R))
      (map fst (L ++ (L1 ++ nodes child) ++ (a, mk) :: nodes r ++ R)) ma (addrs t) W Ht) as (Wt & HK & HA).
    + unfold keys. rewrite E, !map_app. cbn. by apps.
    + unfold keys. rewrite Hn, !map_app. cbn. by apps.
    + unfold addrs. rewrite E, !map_app. cbn. rewrite <- !app_assoc, map_app. cbn.
      rewrite !(app_assoc (map fst L)), !(app_assoc (map fst L ++ _)). symmetry. apply Permutation_middle.
    + done.
    + unfold addrs. rewrite Hn. by apps.
    + exists t, (Some parent), (Some ma). split_and!; [done|done|]. right. by exists a, k, parent, ma.
Qed.

Lemma tfind_spec key n a : sorted (keys n) -> tfind key n = Some a <-> found key n a.
Proof.
  revert a. induction n as [|b k h l IHl r IHr]; intros a Hs; cbn [tfind].
  { split; [done|]. by intros (k & Hin%elem_of_nil & _). }
  pose proof Hs as Hs'. unfold keys in Hs'. cbn [nodes] in Hs'. rewrite map_app in Hs'. cbn [map snd] in Hs'.
  apply sorted_app in Hs' as (Hsl & Hsr & Hlr). inversion Hsr as [|? ? Hsr' Hkr]; subst.
  rewrite Forall_map in Hlr, Hkr. rewrite list.Forall_forall in Hlr, Hkr.
  assert (Hin : forall c x, (c, x) ∈ nodes (Node b k h l r) <-> (c, x) ∈ nodes l \/ (c, x) = (b, k) \/ (c, x) ∈ nodes r)
    by (intros; cbn [nodes]; by rewrite elem_of_app, elem_of_cons).
  assert (Hleft : forall c x, (c, x) ∈ nodes l -> cmp x k < 0).
  { intros c x Hx. specialize (Hlr _ Hx). by apply Forall_cons_iff in Hlr as [? _]. }
  assert (Hright : forall c x, (c, x) ∈ nodes r -> cmp k x < 0) by (intros c x Hx; apply (Hkr _ Hx)).
  destruct (Z.eqb_spec (cmp key k) 0) as [E|E].
  { split; [intros [= <-]; exists k; split; [|done]; apply Hin; auto|]. intros (x & Hx & Hk). f_equal.
    eapply (found_unique key (Node b k h l r)); [exact Hs| |exact Hx|exact E|exact Hk]. apply Hin. auto. }
  destruct (Z.ltb_spec 0 (cmp key k)) as [Hgt|Hle]; [rewrite (IHr a Hsr')|rewrite (IHl a Hsl)]; split; intros (x & Hx & Hk); exists x.
  - split; [apply Hin; auto|done].
  - split; [|done]. apply Hin in Hx as [Hx|[[= <- <-]|Hx]]; [|lia|done]. pose proof (cmp_same _ _ _ Hk (Hleft _ _ Hx)). lia.
  - split; [apply Hin; auto|done].
  - split; [|done]. apply Hin in Hx as [Hx|[[= <- <-]|Hx]]; [done|lia|]. exfalso.
    assert (cmp key k < 0) as Hlt by lia. pose proof (cmp_trans _ _ _ Hlt (Hright _ _ Hx)). lia.
Qed.

(** The visits between the subtrees of a node, and those of leaves. *)
Definition inner (v : Z * VISIT * Z) : bool :=
  match v.1.2 with postorder | leaf => true | _ => false end.

Lemma walk_in_order n : avl n -> forall d, map (fun v => v.1.1) (List.filter inner (walk n d)) = addrs n.
Proof.
  induction n as [|a k h l IHl r IHr]; [done|]. intros (Hl & Hr & Hh & Hb) d. cbn [walk]. unfold addrs in *. cbn [nodes].
  destruct (Z.eqb_spec h 1) as [E|E].
  - rewrite (height_null l), (height_null r) by (done || (pose proof (height_nonneg l Hl); pose proof (height_nonneg r Hr); lia)). done.
  - cbn [List.filter inner fst snd]. rewrite List.filter_app. cbn [List.filter inner fst snd].
    rewrite List.filter_app. cbn [List.filter inner fst snd]. rewrite app_nil_r, !map_app. cbn [map fst].
    by rewrite IHl, IHr.
Qed.

Lemma tdestroy_nodes n : tdestroy n ≡ₚ nodes n.
Proof.
  induction n as [|a k h l IHl r IHr]; [done|]. cbn [tdestroy nodes]. rewrite IHl, IHr.
  by rewrite <- (Permutation_cons_append (nodes r)).
Qed.

(** C15. The search trees stay well formed: an insertion and a deletion in a
    balanced tree with right heights, keys in order and distinct nodes give such
    a tree again, whatever rotations are needed and wherever the loop over the
    ancestors stops early; and as long as there are fewer than 2^64 nodes, the
    paths fit in the arrays of 96 and 97 slots and no null pointer is followed. *)
Theorem tree_stays_wf (n : node) (key : K) (mem : option Z) :
  wf n -> (forall a, mem = Some a -> (a ∉ addrs n) /\ Z.of_nat (length (nodes n)) + 1 < 2 ^ 64) ->
  height n <= 95 /\
  (exists t r, tsearch key n mem = Some (t, r) /\ wf t) /\
  (exists t r f, tdelete key n = Some (t, r, f) /\ wf t).
Proof.
  intros W Hm. split_and!.
  - apply height_bound; apply W.
  - destruct (tsearch_spec key n mem W Hm) as (t & r & ? & ? & _). eauto.
  - destruct (tdelete_spec key n W) as (t & r & f & ? & ? & _). eauto.
Qed.

(** C11. The search trees are a dictionary.  [tfind] returns the address of the
    node with an equal key, or null if there is none.  [tsearch] returns that
    node and changes nothing; otherwise it adds a node with the key at the
    allocated address, or returns null if there is no memory.  [tdelete] of a key
    that is not there returns null and changes nothing; otherwise exactly the
    equal key is gone and exactly one node is freed, though maybe that of another
    key, and the result is not null.  [twalk] visits the nodes in order, and
    [tdestroy] frees each one once. *)
Theorem tree_is_dictionary (n : node) (key : K) (mem : option Z) :
  wf n -> (forall a, mem = Some a -> (a ∉ addrs n) /\ Z.of_nat (length (nodes n)) + 1 < 2 ^ 64) ->
  (forall a, tfind key n = Some a <-> found key n a) /\
  (exists t r, tsearch key n mem = Some (t, r) /\
     match tfind key n, mem with
     | Some a, _ => t = n /\ r = Some a
     | None, None => t = n /\ r = None
     | None, Some a => r = Some a /\ nodes t ≡ₚ (a, key) :: nodes n
     end) /\
  (exists t r f, tdelete key n = Some (t, r, f) /\
     match tfind key n with
     | None => t = n /\ r = None /\ f = None
     | Some a => exists k p x, (a, k) ∈ nodes n /\ cmp key k = 0 /\ r = Some p /\ f = Some x /\
         keys n ≡ₚ k :: keys t /\ addrs n ≡ₚ x :: addrs t
     end) /\
  map (fun v => v.1.1) (List.filter inner (twalk n)) = addrs n /\
  tdestroy n ≡ₚ nodes n.
Proof.
  intros W Hm. pose proof (fun a => tfind_spec key n a (wf_sorted _ W)) as Hfind.
  assert (Hnone : (forall a, ~ found key n a) -> tfind key n = None).
  { intros Hn. destruct (tfind key n) as [a|] eqn:E; [|done]. exfalso. by apply (Hn a), Hfind. }
  split_and!; [done| | |apply walk_in_order, W|apply tdestroy_nodes].
  - destruct (tsearch_spec key n mem W Hm) as (t & r & Hrun & _ & Hcase). exists t, r. split; [done|].
    destruct Hcase as [(a & Hf & -> & ->)|[Hno Hcase]]; [by rewrite (proj2 (Hfind a) Hf)|]. rewrite Hnone by done. by destruct mem.
  - destruct (tdelete_spec key n W) as (t & r & f & Hrun & _ & Hcase). exists t, r, f. split; [done|].
    destruct Hcase as [(Hno & ?)|(a & k & p & x & Hin & Hk & Hrest)]; [by rewrite Hnone|].
    rewrite (proj2 (Hfind a)) by (by exists k). exists k, p, x. done.
Qed.

End tree.
#[global] Arguments node : clear implicits.
#[global] Arguments frame : clear implicits.

(** ** An example *)

#[local] Instance Zsub_order : Order Z.sub.
Proof. split; intros; lia. Qed.

(** The keys 1 to 7 in ascending order, at the addresses 101 to 107. *)
Definition ex_insert (o : option (node Z)) (k : Z) : option (node Z) :=
  match o with
  | None => None
  | Some t => match tsearch Z.sub k t (Some (100 + k)) with Some (t', _) => Some t' | None => None end
  end.
Definition ex_tree : node Z := default Null (fold_left ex_insert [1; 2; 3; 4; 5; 6; 7] (Some Null)).

Lemma ex_tree_wf : wf Z.sub ex_tree.
Proof.
  assert (E : ex_tree = Node 104 4 3 (Node 102 2 2 (Node 101 1 1 Null Null) (Node 103 3 1 Null Null))
    (Node 106 6 2 (Node 105 5 1 Null Null) (Node 107 7 1 Null Null))) by (vm_compute; reflexivity).
  rewrite E. split.
  - cbn. lia.
  - unfold keys. cbn. repeat (constructor; [|repeat constructor; lia]). constructor.
  - apply (bool_decide_unpack _). vm_compute. exact I.
  - cbn. lia.
Qed.

Lemma tree_stays_wf_witness :
  wf Z.sub ex_tree /\ height ex_tree = 3 /\
  (exists t r, tsearch Z.sub 8 ex_tree (Some 108) = Some (t, r) /\ wf Z.sub t).
Proof.
  split; [exact ex_tree_wf|]. split; [reflexivity|].
  assert (H : forall a, Some 108 = Some a -> (a ∉ addrs ex_tree) /\ Z.of_nat (length (nodes ex_tree)) + 1 < 2 ^ 64).
  { intros a [= <-]. split; [|vm_compute; reflexivity]. apply (bool_decide_unpack _). vm_compute. exact I. }
  exact (proj1 (proj2 (tree_stays_wf Z.sub ex_tree 8 (Some 108) ex_tree_wf H))).
Defined.

(** Deleting the root moves the key of its predecessor to it and frees that
    node. *)
Lemma tree_is_dictionary_witness :
  tfind Z.sub 5 ex_tree = Some 105 /\
  (exists t, tdelete Z.sub 4 ex_tree = Some (t, Some 104, Some 103) /\ keys t = [1; 2; 3; 5; 6; 7] /\ tfind Z.sub 3 t = Some 104) /\
  map (fun v => v.1.1) (List.filter inner (twalk ex_tree)) = addrs ex_tree.
Proof.
  split_and!; [vm_compute; reflexivity|eexists; split_and!; vm_compute; reflexivity|].
  assert (H : forall a, @None Z = Some a -> (a ∉ addrs ex_tree) /\ Z.of_nat (length (nodes ex_tree)) + 1 < 2 ^ 64) by done.
  exact (proj1 (proj2 (proj2 (proj2 (tree_is_dictionary Z.sub ex_tree 4 None ex_tree_wf H))))).
Defined.

End Tsearch.
