(* ===== verification/Memstream.v ===== *)
(** * Memory streams: exercises/fmemopen.c

    [fmemopen] and the four functions it hands to [funopen], which make a buffer
    in memory look like a file.  The structure and the buffer are allocated
    blocks, whose use after [free] is a [Crash], as is an access outside the
    buffer.  [fpos_t] is the 64-bit integer it is on the systems with [funopen].
    The reference is a file of bounded size with a position. *)

From S2P Require Import Prelude CLib.

Module Memstream.

(** ** The structure and its environment *)

Record memstream := Memstream_ {
  buf : bytes; rsize : Z; vsize : Z; curpos : Z; flags : Z }.

Definition MS_READ : Z := 1.
Definition MS_WRITE : Z := 2.
Definition MS_APPEND : Z := 4.
Definition MS_TRUNCATE : Z := 8.
Definition MS_MYBUF : Z := 16.

Definition EBADF : Z := 9.
Definition ENOMEM : Z := 12.
Definition EINVAL : Z := 22.
Definition SEEK_SET : Z := 0.
Definition SEEK_CUR : Z := 1.
Definition SEEK_END : Z := 2.
Definition INT_MAX : Z := 2 ^ 31 - 1.

Inductive block := Struct | Buffer.
#[global] Instance block_eq_dec : EqDecision block.
Proof. solve_decision. Defined.

(** [errno], the outcomes of the calls of [malloc] and [funopen] to come (an error
    number or success; success when the list is used up), the blocks that are
    allocated, and the structure. *)
Record st := St { errno : Z; faults : list (option Z); owned : list block; ms : memstream }.

Definition set_errno e s := St e (faults s) (owned s) (ms s).
Definition set_faults l s := St (errno s) l (owned s) (ms s).
Definition set_owned l s := St (errno s) (faults s) l (ms s).
Definition set_ms m s := St (errno s) (faults s) (owned s) m.

Definition set_buf b m := Memstream_ b (rsize m) (vsize m) (curpos m) (flags m).
Definition set_rsize n m := Memstream_ (buf m) n (vsize m) (curpos m) (flags m).
Definition set_vsize n m := Memstream_ (buf m) (rsize m) n (curpos m) (flags m).
Definition set_curpos n m := Memstream_ (buf m) (rsize m) (vsize m) n (flags m).
Definition set_flags n m := Memstream_ (buf m) (rsize m) (vsize m) (curpos m) n.

Ltac fields := cbn [fst snd errno faults owned ms buf rsize vsize curpos flags set_errno set_faults set_owned set_ms
  set_buf set_rsize set_vsize set_curpos set_flags] in *.

(** A call that can fail. *)
Definition attempt : M st (option Z) := fun s =>
  match faults s with
  | [] => (Ret None, s)
  | f :: l => (Ret f, set_faults l s)
  end.

Definition malloc (b : block) : M st bool :=
  let* f := attempt in
  match f with
  | Some _ => ret false
  | None => modify (fun s => set_owned (b :: owned s) s) ;;; ret true
  end.

Definition free (b : block) : M st unit :=
  let* s := get in
  if bool_decide (b ∈ owned s) then modify (set_owned (remove block_eq_dec b (owned s))) else stop Crash.

Definition funopen : M st bool :=
  let* f := attempt in
  match f with
  | Some e => modify (set_errno e) ;;; ret false
  | None => ret true
  end.

(** The fields of the structure, read and written through [ms]. *)
Definition deref : M st memstream :=
  let* s := get in
  if bool_decide (Struct ∈ owned s) then ret (ms s) else stop Crash.
Definition update (f : memstream -> memstream) : M st unit :=
  let* m := deref in modify (set_ms (f m)).

(** [x & bits] as a condition. *)
Definition has (x bits : Z) : bool := negb (Z.land x bits =? 0).

(** A store of the bytes [d] in the buffer. *)
Definition store (off : Z) (d : bytes) : M st unit :=
  let* m := deref in
  if (0 <=? off) && (off + Z.of_nat (length d) <=? Z.of_nat (length (buf m)))
  then modify (set_ms (set_buf (overwrite (Z.to_nat off) d (buf m)) m)) else stop Crash.

(** ** The functions of the file *)

Fixpoint type_to_flags_from (flags : Z) (cp : bytes) : Z :=
  match cp with
  | [] => flags
  | c :: cp' =>
      if c =? 114 then if negb (flags =? 0) then 0 else type_to_flags_from (Z.lor flags MS_READ) cp'
      else if c =? 119 then if negb (flags =? 0) then 0 else type_to_flags_from (Z.lor flags (Z.lor MS_WRITE MS_TRUNCATE)) cp'
      else if c =? 97 then if negb (flags =? 0) then 0 else type_to_flags_from (Z.lor flags MS_APPEND) cp'
      else if c =? 43 then if flags =? 0 then 0 else type_to_flags_from (Z.lor flags (Z.lor MS_READ MS_WRITE)) cp'
      else if c =? 98 then if flags =? 0 then 0 else type_to_flags_from flags cp'
      else 0
  end.

Definition type_to_flags (type : bytes) : Z := type_to_flags_from 0 type.

(** The loop of [find_end] over the bytes from [off] on. *)
Fixpoint find_end_from (off : Z) (rest : bytes) (len : nat) : option Z :=
  match len with
  | O => Some off
  | S len' => match rest with
              | [] => None
              | c :: rest' => if c =? 0 then Some off else find_end_from (off + 1) rest' len'
              end
  end.

Definition find_end (b : bytes) (len : Z) : M st Z :=
  match find_end_from 0 b (Z.to_nat len) with
  | Some off => ret off
  | None => stop Crash
  end.

Section open.
(** What a newly allocated buffer holds. *)
Variable fill : nat -> Z.

Definition fmemopen (b : option bytes) (size : Z) (type : bytes) : M st bool :=
  if size =? 0 then modify (set_errno EINVAL) ;;; ret false else
  let* p := malloc Struct in
  if negb p then modify (set_errno ENOMEM) ;;; ret false else
  update (set_flags (type_to_flags type)) ;;;
  let* m := deref in
  if flags m =? 0 then modify (set_errno EINVAL) ;;; free Struct ;;; ret false else
  let* ok := match b with
  | None =>
      if negb (Z.land (flags m) (Z.lor MS_READ MS_WRITE) =? Z.lor MS_READ MS_WRITE)
      then modify (set_errno EINVAL) ;;; free Struct ;;; ret false else
      let* p := malloc Buffer in
      if negb p then modify (set_errno ENOMEM) ;;; free Struct ;;; ret false else
      update (set_buf (map fill (seq 0 (Z.to_nat size)))) ;;;
      update (set_rsize size) ;;;
      update (fun m => set_flags (Z.lor (flags m) MS_MYBUF) m) ;;;
      update (set_curpos 0) ;;; ret true
  | Some b =>
      update (set_buf b) ;;;
      update (set_rsize size) ;;;
      (if has (flags m) MS_APPEND
       then let* m := deref in let* off := find_end (buf m) (rsize m) in update (set_curpos off)
       else update (set_curpos 0)) ;;; ret true
  end in
  if negb ok then ret false else
  let* m := deref in
  (if has (flags m) MS_APPEND then update (set_vsize (curpos m))
   else if has (flags m) MS_TRUNCATE then update (set_vsize 0)
   else update (set_vsize size)) ;;;
  let* fp := funopen in
  if negb fp then
    let* m := deref in
    (if has (flags m) MS_MYBUF then free Buffer else ret tt) ;;; free Struct ;;; ret false
  else ret true.
End open.

(** [MIN(len, n)] of an [int] and a [size_t], stored in an [int]. *)
Definition MIN (len n : Z) : Z := to_i32 (if to_u64 len <? to_u64 n then to_u64 len else to_u64 n).

(** The result and what is copied to the caller's [len] bytes. *)
Definition mstream_read (len : Z) : M st (Z * bytes) :=
  let* m := deref in
  if negb (has (flags m) MS_READ) then modify (set_errno EBADF) ;;; ret (-1, []) else
  if curpos m >=? vsize m then ret (0, []) else
  let nr := MIN len (vsize m - curpos m) in
  if (nr <? 0) || (len <? nr) || (Z.of_nat (length (buf m)) <? curpos m + nr) then stop Crash else
  update (set_curpos (curpos m + nr)) ;;;
  ret (nr, sub (Z.to_nat (curpos m)) (Z.to_nat nr) (buf m)).

(** [src] is the caller's buffer, of which [len] bytes are to be written. *)
Definition mstream_write (src : bytes) (len : Z) : M st Z :=
  let* m := deref in
  if negb (has (flags m) (Z.lor MS_APPEND MS_WRITE)) then modify (set_errno EBADF) ;;; ret (-1) else
  let off := to_i32 (if has (flags m) MS_APPEND then vsize m else curpos m) in
  let nw := MIN len (rsize m - off) in
  if (nw <? 0) || (Z.of_nat (length src) <? nw) then stop Crash else
  store off (take (Z.to_nat nw) src) ;;;
  update (set_curpos (off + nw)) ;;;
  let* m := deref in
  (if curpos m >? vsize m then
     update (set_vsize (curpos m)) ;;;
     (let* m := deref in
      if (Z.land (flags m) (Z.lor MS_READ MS_WRITE) =? Z.lor MS_READ MS_WRITE) && (vsize m <? rsize m)
      then store (vsize m) [0] else ret tt)
   else ret tt) ;;;
  (if has (flags m) (Z.lor MS_WRITE MS_APPEND) && negb (has (flags m) MS_READ) then
     if curpos m <? rsize m then store (curpos m) [0] else store (rsize m - 1) [0]
   else ret tt) ;;;
  ret nw.

Definition mstream_seek (pos whence : Z) : M st Z :=
  let* m := deref in
  let* off :=
    if whence =? SEEK_SET then ret (to_i32 pos)
    else if whence =? SEEK_END then ret (to_i32 (to_u64 (vsize m + pos)))
    else if whence =? SEEK_CUR then ret (to_i32 (to_u64 (curpos m + pos)))
    else stop (Undefined "an offset that is not set") in
  if (off <? 0) || (off >? vsize m) then modify (set_errno EINVAL) ;;; ret (-1) else
  update (set_curpos off) ;;; ret off.

Definition mstream_close : M st Z :=
  let* m := deref in
  (if has (flags m) MS_MYBUF then free Buffer else ret tt) ;;;
  free Struct ;;; ret 0.

(** ** The reference: a file of bounded size

    What a stream is opened for: the letter of its type, and whether there is a
    plus sign. *)
Inductive kind := R | W | A.

Definition kind_of (c : Z) : option kind :=
  if c =? 114 then Some R else if c =? 119 then Some W else if c =? 97 then Some A else None.

Definition mode_of (type : bytes) : option (kind * bool) :=
  match type with
  | [] => None
  | c :: l => if forallb (fun c => (c =? 43) || (c =? 98)) l
              then k ← kind_of c; Some (k, existsb (Z.eqb 43) l) else None
  end.

Definition readable (k : kind) (plus : bool) : bool := match k with R => true | _ => plus end.
Definition writable (k : kind) (plus : bool) : bool := match k with R => plus | _ => true end.
Definition appends (k : kind) : bool := match k with A => true | _ => false end.

(** The contents, the position and the last error. *)
Record file := File { data : bytes; pos : Z; err : Z }.
Definition fsize (f : file) : Z := Z.of_nat (length (data f)).

Inductive op := Read (len : Z) | Write (d : bytes) | Seek (p whence : Z).

Definition spec_op (k : kind) (plus : bool) (cap : Z) (o : op) (f : file) : Z * bytes * file :=
  match o with
  | Read len =>
      if readable k plus then
        let n := Z.min len (fsize f - pos f) in
        (n, sub (Z.to_nat (pos f)) (Z.to_nat n) (data f), File (data f) (pos f + n) (err f))
      else (-1, [], File (data f) (pos f) EBADF)
  | Write d =>
      if writable k plus then
        let off := if appends k then fsize f else pos f in
        let n := Z.min (Z.of_nat (length d)) (cap - off) in
        (n, [], File (overwrite (Z.to_nat off) (take (Z.to_nat n) d) (data f)) (off + n) (err f))
      else (-1, [], File (data f) (pos f) EBADF)
  | Seek p w =>
      let off := p + (if w =? SEEK_END then fsize f else if w =? SEEK_CUR then pos f else 0) in
      if (0 <=? off) && (off <=? fsize f) then (off, [], File (data f) off (err f))
      else (-1, [], File (data f) (pos f) EINVAL)
  end.

Fixpoint spec_ops (k : kind) (plus : bool) (cap : Z) (l : list op) (f : file) : list (Z * bytes) * file :=
  match l with
  | [] => ([], f)
  | o :: l' => let '(n, b, f) := spec_op k plus cap o f in
               let '(rs, f) := spec_ops k plus cap l' f in ((n, b) :: rs, f)
  end.

(** The same calls on a stream. *)
Definition run_op (o : op) : M st (Z * bytes) :=
  match o with
  | Read len => mstream_read len
  | Write d => let* n := mstream_write d (Z.of_nat (length d)) in ret (n, [])
  | Seek p w => let* n := mstream_seek p w in ret (n, [])
  end.

Fixpoint run_ops (l : list op) : M st (list (Z * bytes)) :=
  match l with
  | [] => ret []
  | o :: l' => let* r := run_op o in let* rs := run_ops l' in ret (r :: rs)
  end.

(** Arguments in the range of an [int], and one of the three origins. *)
Definition op_ok (o : op) : Prop :=
  match o with
  | Read len => 0 <= len <= INT_MAX
  | Write d => Z.of_nat (length d) <= INT_MAX
  | Seek p w => - 2 ^ 31 <= p <= INT_MAX /\ (w = SEEK_SET \/ w = SEEK_CUR \/ w = SEEK_END)
  end.

(** What a stream of size [size] starts with: everything in the buffer, nothing,
    or the string in the buffer. *)
Definition opened (k : kind) (b : option bytes) (fill : nat -> Z) (size e : Z) : file :=
  let contents := default (map fill (seq 0 (Z.to_nat size))) b in
  match k with
  | R => File contents 0 e
  | W => File [] 0 e
  | A => let d := if b is Some l then cstr l else [] in File d (Z.of_nat (length d)) e
  end.

(** A whole use of a stream: null if it cannot be opened. *)
Definition session (fill : nat -> Z) (b : option bytes) (size : Z) (type : bytes) (l : list op)
    : M st (option (list (Z * bytes))) :=
  let* fp := fmemopen fill b size type in
  if fp then let* rs := run_ops l in mstream_close ;;; ret (Some rs) else ret None.

(** ** The flags *)

Definition flags_of (k : kind) (plus : bool) : Z :=
  Z.lor (match k with R => 1 | W => 10 | A => 4 end) (if plus then 3 else 0).

Lemma type_rest f l : f <> 0 ->
  type_to_flags_from f l =
    if forallb (fun c => (c =? 43) || (c =? 98)) l then Z.lor f (if existsb (Z.eqb 43) l then 3 else 0) else 0.
Proof.
  revert f. induction l as [|c l IH]; intros f Hf; cbn [type_to_flags_from forallb existsb]; [by rewrite Z.lor_0_r|].
  rewrite (proj2 (Z.eqb_neq f 0) Hf), (Z.eqb_sym 43 c). cbn [negb].
  destruct (Z.eqb_spec c 114) as [->|?]; [done|]. destruct (Z.eqb_spec c 119) as [->|?]; [done|].
  destruct (Z.eqb_spec c 97) as [->|?]; [done|]. destruct (Z.eqb_spec c 43) as [->|?].
  - change (Z.lor MS_READ MS_WRITE) with 3. rewrite IH by (rewrite Z.lor_eq_0_iff; lia). cbn [orb andb].
    destruct (forallb _ l); [|done]. destruct (existsb _ l); by rewrite <- Z.lor_assoc.
  - destruct (Z.eqb_spec c 98) as [->|?]; [by apply IH|done].
Qed.

(** The type is understood as the reference says. *)
Lemma type_flags type :
  type_to_flags type = match mode_of type with Some (k, plus) => flags_of k plus | None => 0 end.
Proof.
  destruct type as [|c l]; [done|]. unfold type_to_flags, mode_of, kind_of. cbn [type_to_flags_from].
  change (0 =? 0) with true. cbn [negb].
  destruct (c =? 114); [|destruct (c =? 119); [|destruct (c =? 97)]]; try (rewrite type_rest by done; by destruct (forallb _ l)).
  by destruct (forallb _ l), (c =? 43), (c =? 98).
Qed.

(** ** An open stream *)

Definition all_flags (k : kind) (plus mine : bool) : Z := Z.lor (flags_of k plus) (if mine then MS_MYBUF else 0).

(** The invariant of a stream of size [cap]; [mine] says whether the stream
    allocated its buffer. *)
Record Inv (k : kind) (plus mine : bool) (cap : Z) (s : st) : Prop := {
  i_owned : owned s = (if mine then [Buffer; Struct] else [Struct]);
  i_flags : flags (ms s) = all_flags k plus mine;
  i_rsize : rsize (ms s) = cap;
  i_buf : Z.of_nat (length (buf (ms s))) = cap;
  i_cap : 0 < cap <= INT_MAX;
  i_pos : 0 <= curpos (ms s) <= vsize (ms s);
  i_vsize : vsize (ms s) <= cap }.

Lemma flag_tests k plus mine :
  let F := all_flags k plus mine in
  has F MS_READ = readable k plus /\ has F (Z.lor MS_APPEND MS_WRITE) = writable k plus /\
  has F (Z.lor MS_WRITE MS_APPEND) = writable k plus /\ has F MS_APPEND = appends k /\
  (Z.land F (Z.lor MS_READ MS_WRITE) =? Z.lor MS_READ MS_WRITE) = plus /\ has F MS_MYBUF = mine.
Proof. by destruct k, plus, mine. Qed.

Lemma MIN_eq len n : 0 <= len <= INT_MAX -> 0 <= n <= INT_MAX -> MIN len n = Z.min len n.
Proof.
  unfold MIN, to_u64, to_i32, INT_MAX. intros ? ?. rewrite !(Z.mod_small _ (2 ^ 64)) by lia.
  rewrite Z.mod_small by (destruct (len <? n); lia). destruct (Z.ltb_spec len n); lia.
Qed.

Lemma overwrite_in n d (l : bytes) : (n <= length l)%nat -> overwrite n d l = take n l ++ d ++ drop (n + length d) l.
Proof. intros. unfold overwrite. replace (n - length l)%nat with 0%nat by lia. by rewrite app_nil_r. Qed.

(** A part of the contents that a change of the buffer does not reach. *)
Lemma take_overwrite v n d (l : bytes) : (v <= n)%nat -> (n <= length l)%nat -> take v (overwrite n d l) = take v l.
Proof. intros. rewrite overwrite_in by done. rewrite take_app_le by len. by rewrite take_take, Nat.min_l. Qed.

(** The contents after a write that starts inside them. *)
Lemma overwrite_take n d v (l : bytes) :
  (n <= v <= length l)%nat -> (n + length d <= length l)%nat ->
  take (Nat.max v (n + length d)) (overwrite n d l) = overwrite n d (take v l).
Proof.
  intros. rewrite !overwrite_in by len. rewrite take_take, Nat.min_l by lia.
  rewrite take_app_ge by len. f_equal. rewrite length_take, Nat.min_l by lia.
  rewrite take_app_ge by lia. f_equal.
  rewrite skipn_firstn_comm. replace (Nat.max v (n + length d) - n - length d)%nat with (v - (n + length d))%nat by lia. done.
Qed.

Section stream.
Context (k : kind) (plus mine : bool) (cap : Z).
#[local] Abbreviation Inv := (Inv k plus mine cap).

Lemma wp_deref s (Q : memstream -> st -> Prop) : Inv s -> Q (ms s) s -> wp deref Q s.
Proof.
  intros I HQ. apply wp_bind, wp_get. rewrite bool_decide_true; [done|]. rewrite (i_owned _ _ _ _ _ I). destruct mine; set_solver.
Qed.

Lemma wp_update f s (Q : unit -> st -> Prop) : Struct ∈ owned s -> Q tt (set_ms (f (ms s)) s) -> wp (update f) Q s.
Proof. intros I HQ. apply wp_bind, wp_bind, wp_get. rewrite bool_decide_true by done. by apply wp_ret, wp_modify. Qed.

Lemma wp_store off d s (Q : unit -> st -> Prop) :
  Struct ∈ owned s -> 0 <= off -> off + Z.of_nat (length d) <= Z.of_nat (length (buf (ms s))) ->
  Q tt (set_ms (set_buf (overwrite (Z.to_nat off) d (buf (ms s))) (ms s)) s) -> wp (store off d) Q s.
Proof.
  intros I H1 H2 HQ. apply wp_bind, wp_bind, wp_get. rewrite bool_decide_true by done. apply wp_ret.
  rewrite (proj2 (Z.leb_le _ _) H1), (proj2 (Z.leb_le _ _) H2). by apply wp_modify.
Qed.

Lemma in_owned s : Inv s -> Struct ∈ owned s.
Proof. intros I. rewrite (i_owned _ _ _ _ _ I). destruct mine; set_solver. Qed.

Lemma mstream_read_spec len s : Inv s -> 0 <= len <= INT_MAX ->
  wp (mstream_read len) (fun r s' => let n := Z.min len (vsize (ms s) - curpos (ms s)) in
    if readable k plus
    then r = (n, sub (Z.to_nat (curpos (ms s))) (Z.to_nat n) (buf (ms s))) /\
         s' = set_ms (set_curpos (curpos (ms s) + n) (ms s)) s
    else r = (-1, []) /\ s' = set_errno EBADF s) s.
Proof.
  intros I Hlen. pose proof (i_cap _ _ _ _ _ I). pose proof (i_pos _ _ _ _ _ I). pose proof (i_vsize _ _ _ _ _ I).
  pose proof (i_buf _ _ _ _ _ I). destruct (flag_tests k plus mine) as (F1 & _).
  apply wp_bind, wp_deref; [done|]. rewrite (i_flags _ _ _ _ _ I), F1. destruct (readable k plus); cbn [negb].
  2: { by apply wp_bind, wp_modify, wp_ret. }
  rewrite Z.geb_leb. destruct (Z.leb_spec (vsize (ms s)) (curpos (ms s))) as [Hge|Hlt].
  - apply wp_ret. replace (Z.min len (vsize (ms s) - curpos (ms s))) with 0 by lia. split; [done|].
    rewrite Z.add_0_r. by destruct s as [? ? ? []].
  - rewrite MIN_eq by lia. set (n := Z.min _ _). assert (0 <= n <= len /\ curpos (ms s) + n <= cap) by lia.
    rewrite (proj2 (Z.ltb_ge n 0)), (proj2 (Z.ltb_ge len n)), (proj2 (Z.ltb_ge _ (curpos (ms s) + n))) by lia. cbn [orb].
    apply wp_bind, wp_update; [by apply in_owned|]. by apply wp_ret.
Qed.

Lemma mstream_seek_spec p w s : Inv s -> op_ok (Seek p w) ->
  wp (mstream_seek p w) (fun r s' =>
    let off := p + (if w =? SEEK_END then vsize (ms s) else if w =? SEEK_CUR then curpos (ms s) else 0) in
    if (0 <=? off) && (off <=? vsize (ms s)) then r = off /\ s' = set_ms (set_curpos off (ms s)) s
    else r = -1 /\ s' = set_errno EINVAL s) s.
Proof.
  intros I [Hp Hw]. pose proof (i_cap _ _ _ _ _ I). pose proof (i_pos _ _ _ _ _ I). pose proof (i_vsize _ _ _ _ _ I).
  apply wp_bind, wp_deref; [done|]. cbv zeta. set (off := p + _).
  apply (wp_seq _ _ (fun r s' => r = to_i32 off /\ s' = s)).
  { subst off. destruct Hw as [->|[->| ->]]; unfold wp; cbn -[to_i32 to_u64]; (split; [|done]);
      [by rewrite Z.add_0_r|rewrite to_i32_u64; f_equal; lia..]. }
  cbv beta. intros ? ? [-> ->].
  assert (Hoff : - 2 ^ 31 <= off <= 2 ^ 32 - 2) by (subst off; unfold INT_MAX in *; destruct (w =? SEEK_END), (w =? SEEK_CUR); lia).
  assert (Hb : (to_i32 off <? 0) || (to_i32 off >? vsize (ms s)) = negb ((0 <=? off) && (off <=? vsize (ms s)))
            /\ (0 <= off <= INT_MAX -> to_i32 off = off)).
  { split; [|unfold INT_MAX; intros; apply to_i32_small; lia]. clearbody off. unfold to_i32, INT_MAX in *.
    apply eq_true_iff_eq. rewrite orb_true_iff, negb_true_iff, andb_false_iff, Z.ltb_lt, Z.gtb_lt, !Z.leb_gt.
    pose proof (Z.div_mod (off + 2 ^ 31) (2 ^ 32) ltac:(lia)). pose proof (Z.mod_pos_bound (off + 2 ^ 31) (2 ^ 32) ltac:(lia)). lia. }
  destruct Hb as [-> He]. destruct ((0 <=? off) && (off <=? vsize (ms s))) eqn:E; cbn [negb].
  - apply andb_true_iff in E as [?%Z.leb_le ?%Z.leb_le]. rewrite He by lia.
    apply wp_bind, wp_update; [by apply in_owned|]. by apply wp_ret.
  - by apply wp_bind, wp_modify, wp_ret.
Qed.

(** The buffer after a write that ended at [e]: a null byte behind the contents
    if the stream can be read and the contents have grown, else a null byte
    behind what was written, or in the last place. *)
Definition terminated (e v : Z) (b : bytes) : bytes :=
  if plus then if (v <? e) && (e <? cap) then overwrite (Z.to_nat e) [0] b else b
  else overwrite (Z.to_nat (Z.min e (cap - 1))) [0] b.

Definition written (d : bytes) (m : memstream) : Z * memstream :=
  let off := if appends k then vsize m else curpos m in
  let n := Z.min (Z.of_nat (length d)) (cap - off) in
  (n, Memstream_ (terminated (off + n) (vsize m) (overwrite (Z.to_nat off) (take (Z.to_nat n) d) (buf m)))
        (rsize m) (Z.max (vsize m) (off + n)) (off + n) (flags m)).

Lemma mstream_write_spec d s : Inv s -> Z.of_nat (length d) <= INT_MAX ->
  wp (mstream_write d (Z.of_nat (length d))) (fun r s' =>
    if writable k plus then r = (written d (ms s)).1 /\ s' = set_ms (written d (ms s)).2 s
    else r = -1 /\ s' = set_errno EBADF s) s.
Proof.
  intros I Hd. pose proof (i_cap _ _ _ _ _ I). pose proof (i_pos _ _ _ _ _ I). pose proof (i_vsize _ _ _ _ _ I).
  pose proof (i_buf _ _ _ _ _ I) as Hb. pose proof (in_owned s I) as Ho. pose proof (i_rsize _ _ _ _ _ I) as Hr.
  destruct (flag_tests k plus mine) as (F1 & F2 & F3 & F4 & F5 & _). rewrite <- (i_flags _ _ _ _ _ I) in *.
  apply wp_bind, wp_deref; [done|]. rewrite F2. destruct (writable k plus) eqn:Ew; cbn [negb].
  2: { by apply wp_bind, wp_modify, wp_ret. }
  assert (Er : readable k plus = plus) by (clear -Ew; destruct k; cbn in *; congruence).
  rewrite F4. unfold written. destruct s as [e fl ow [b rs v c F]]. fields. subst rs.
  set (off := if appends k then v else c). assert (0 <= off <= v) by (subst off; destruct (appends k); lia).
  rewrite (to_i32_small off), MIN_eq by (unfold INT_MAX in *; lia). set (n := Z.min _ _). assert (0 <= n <= Z.of_nat (length d) /\ off + n <= cap) by lia.
  rewrite (proj2 (Z.ltb_ge n 0)), (proj2 (Z.ltb_ge _ n)) by lia. cbn [orb]. clearbody off n.
  assert (Hl : length (overwrite (Z.to_nat off) (take (Z.to_nat n) d) b) = length b) by (apply overwrite_length; len).
  apply wp_bind, wp_store; [done|lia|cbn; len|]. apply wp_bind, wp_update; [done|].
  apply wp_bind, wp_bind, wp_get. fields.
  rewrite bool_decide_true by done. apply wp_ret. fields. rewrite F1, F3, Er. cbn [andb].
  set (b1 := overwrite _ _ b) in *. unfold terminated.
  apply (wp_seq _ _ (fun _ s' => s' = St e fl ow (Memstream_
    (if plus then if (v <? off + n) && (off + n <? cap) then overwrite (Z.to_nat (off + n)) [0] b1 else b1 else b1)
    cap (Z.max v (off + n)) (off + n) F))).
  { rewrite Z.gtb_ltb. destruct (Z.ltb_spec v (off + n)) as [Hv|Hv]; cbn [andb].
    - rewrite Z.max_r by lia. apply wp_bind, wp_update; [done|]. apply wp_bind, wp_bind, wp_get.
      fields. rewrite bool_decide_true by done. apply wp_ret.
      fields. rewrite F5. destruct plus; cbn [andb]; [|by apply wp_ret].
      destruct (Z.ltb_spec (off + n) cap); [|by apply wp_ret]. apply wp_store; [done|lia|cbn; lia|done].
    - rewrite Z.max_l by lia. apply wp_ret. by destruct plus. }
  intros _ s' ->. destruct plus; cbn [negb]; [by apply wp_bind, wp_ret, wp_ret|].
  destruct (Z.ltb_spec (off + n) cap); [rewrite Z.min_l by lia|rewrite Z.min_r by lia];
    (apply wp_bind, wp_store; [done|lia|cbn; lia|by apply wp_ret]).
Qed.

(** ** A stream that can be read is a file *)

Definition view (s : st) : file := File (take (Z.to_nat (vsize (ms s))) (buf (ms s))) (curpos (ms s)) (errno s).

Lemma view_size s : Inv s -> fsize (view s) = vsize (ms s).
Proof.
  intros I. pose proof (i_buf _ _ _ _ _ I). pose proof (i_pos _ _ _ _ _ I). pose proof (i_vsize _ _ _ _ _ I).
  unfold fsize, view. cbn. rewrite length_take. lia.
Qed.

Lemma Inv_errno e s : Inv s -> Inv (set_errno e s).
Proof. by intros []. Qed.

Lemma Inv_curpos n s : Inv s -> 0 <= n <= vsize (ms s) -> Inv (set_ms (set_curpos n (ms s)) s).
Proof. by intros []. Qed.

Lemma terminated_length e v b : Z.of_nat (length b) = cap -> 0 < cap -> 0 <= e <= cap -> length (terminated e v b) = length b.
Proof.
  intros. unfold terminated. destruct plus; [|by apply overwrite_length; cbn; lia].
  destruct (Z.ltb_spec v e), (Z.ltb_spec e cap); cbn [andb]; [by apply overwrite_length; cbn; lia|done..].
Qed.

Lemma Inv_written d s : Inv s -> Inv (set_ms (written d (ms s)).2 s).
Proof.
  intros []. unfold written. set (off := if appends k then _ else _).
  assert (0 <= off <= vsize (ms s)) by (subst off; destruct (appends k); lia). clearbody off.
  set (n := Z.min _ _). assert (0 <= n <= Z.of_nat (length d)) by lia.
  assert (Hl : length (overwrite (Z.to_nat off) (take (Z.to_nat n) d) (buf (ms s))) = length (buf (ms s))) by (apply overwrite_length; len).
  assert (off + n <= cap) by lia. clearbody n. split; fields; try done; [|lia..]. rewrite terminated_length; [by rewrite Hl|by rewrite Hl|lia|lia].
Qed.

(** The contents after a write, as long as the stream can be read. *)
Lemma view_written d s : Inv s -> plus = true ->
  view (set_ms (written d (ms s)).2 s) = (spec_op k plus cap (Write d) (view s)).2.
Proof.
  intros I Hp. cbn [spec_op]. rewrite (view_size s I). unfold writable. rewrite Hp. destruct I.
  unfold written, terminated. rewrite Hp. cbn [view pos data err].
  set (off := if appends k then _ else _).
  assert (0 <= off <= vsize (ms s)) by (subst off; destruct (appends k); lia).
  set (n := Z.min _ _). assert (0 <= n <= Z.of_nat (length d)) by lia. assert (off + n <= cap) by lia. clearbody off n.
  assert (Hd : length (take (Z.to_nat n) d) = Z.to_nat n) by len.
  set (d' := take (Z.to_nat n) d) in *. set (b1 := overwrite _ d' (buf (ms s))).
  assert (Hl : length b1 = length (buf (ms s))) by (apply overwrite_length; lia).
  assert (Ht : take (Z.to_nat (Z.max (vsize (ms s)) (off + n))) b1 = overwrite (Z.to_nat off) d' (take (Z.to_nat (vsize (ms s))) (buf (ms s)))).
  { rewrite <- overwrite_take by lia. f_equal. lia. }
  replace (match k with R => true | _ => true end) with true by (by destruct k).
  unfold view. fields. cbn [snd]. f_equal. rewrite <- Ht.
  destruct (Z.ltb_spec (vsize (ms s)) (off + n)), (Z.ltb_spec (off + n) cap); cbn [andb]; [|done..].
  apply take_overwrite; lia.
Qed.

Lemma run_op_refines o s : Inv s -> readable k plus = true -> op_ok o ->
  wp (run_op o) (fun r s' => Inv s' /\ (r, view s') = spec_op k plus cap o (view s)) s.
Proof.
  intros I Hr Hok. pose proof (view_size s I) as Hsz. pose proof I as []. destruct o as [len|d|p w]; cbn [run_op op_ok] in *.
  - eapply wp_mono; [by apply mstream_read_spec|]. cbv zeta beta. intros r s'. cbn [spec_op]. rewrite Hr, Hsz. intros [-> ->]. split.
    + apply Inv_curpos; [done|lia].
    + unfold view at 1. fields. cbn [view data pos err]. f_equal. f_equal. unfold sub. rewrite skipn_firstn_comm, take_take. f_equal. lia.
  - eapply wp_seq; [by apply mstream_write_spec|]. cbv beta. intros r s'. destruct (writable k plus) eqn:E; intros [-> ->]; apply wp_ret.
    + assert (plus = true) by (destruct k; cbn in *; congruence). split; [by apply Inv_written|].
      rewrite view_written by done. cbn [spec_op]. rewrite E, Hsz. done.
    + split; [by apply Inv_errno|]. cbn [spec_op]. by rewrite E.
  - eapply wp_seq; [by apply mstream_seek_spec|]. cbv zeta beta. intros r s'. cbn [spec_op]. rewrite Hsz. cbn [view pos].
    set (off := p + _). destruct ((0 <=? off) && (off <=? vsize (ms s))) eqn:E; intros [-> ->]; apply wp_ret.
    + apply andb_true_iff in E as [?%Z.leb_le ?%Z.leb_le]. split; [by apply Inv_curpos|done].
    + split; [by apply Inv_errno|done].
Qed.

Lemma run_ops_refines l s : Inv s -> readable k plus = true -> Forall op_ok l ->
  wp (run_ops l) (fun rs s' => Inv s' /\ (rs, view s') = spec_ops k plus cap l (view s)) s.
Proof.
  intros I Hr Hl. revert s I. induction Hl as [|o l Ho Hl IH]; intros s I; cbn [run_ops spec_ops]; [by apply wp_ret|].
  eapply wp_seq; [by apply run_op_refines|]. cbv beta. intros r s1 (I1 & <-).
  eapply wp_seq; [by apply IH|]. cbv beta. intros rs s2 (I2 & H2). apply wp_ret. split; [done|].
  destruct r as [n b]. by rewrite <- H2.
Qed.

Lemma mstream_close_spec s : Inv s -> wp mstream_close (fun r s' => r = 0 /\ s' = set_owned [] s) s.
Proof.
  intros I. destruct (flag_tests k plus mine) as (_ & _ & _ & _ & _ & F6).
  apply wp_bind, wp_deref; [done|]. rewrite (i_flags _ _ _ _ _ I), F6. pose proof (i_owned _ _ _ _ _ I) as Ho.
  unfold wp, bind, free, get, ret, modify. by destruct mine; cbn; rewrite Ho; cbn; rewrite ?Ho.
Qed.
End stream.

(** ** Opening *)

Lemma wp_faulty s (Q : option Z -> st -> Prop) :
  (forall l, (forall f, f ∈ l -> f ∈ faults s) -> Q None (set_faults l s)) ->
  (forall e l, Some e ∈ faults s -> Q (Some e) (set_faults l s)) -> wp attempt Q s.
Proof.
  intros H1 H2. unfold wp, attempt. destruct s as [e fl ow m]. fields.
  destruct fl as [|[e'|] l]; [by apply H1|apply H2; set_solver|apply H1; set_solver].
Qed.

Lemma wp_allocate b s (Q : bool -> st -> Prop) :
  (forall l, (forall f, f ∈ l -> f ∈ faults s) -> Q true (St (errno s) l (b :: owned s) (ms s))) ->
  (forall e l, Some e ∈ faults s -> Q false (set_faults l s)) -> wp (malloc b) Q s.
Proof.
  intros H1 H2. apply wp_bind, wp_faulty; [|by intros; apply wp_ret; eauto].
  intros l Hl. apply wp_bind, wp_modify, wp_ret. by apply H1.
Qed.

Lemma wp_funopen s (Q : bool -> st -> Prop) :
  (forall l, Q true (set_faults l s)) ->
  (forall e l, Some e ∈ faults s -> Q false (set_errno e (set_faults l s))) -> wp funopen Q s.
Proof. intros H1 H2. apply wp_bind, wp_faulty; intros; [by apply wp_ret|]. apply wp_bind, wp_modify, wp_ret. eauto. Qed.

Lemma find_end_spec b : find_end_from 0 b (length b) = Some (strlen b).
Proof.
  cut (forall off, find_end_from off b (length b) = Some (off + strlen b)); [by intros ->|].
  induction b as [|c b IH]; intros off; unfold strlen in *; cbn -[Z.of_nat]; [by rewrite Z.add_0_r|].
  change NUL with 0. destruct (c =? 0); cbn -[Z.of_nat]; [by rewrite Z.add_0_r|]. rewrite IH. f_equal. lia.
Qed.

Lemma cstr_take (b : bytes) : take (length (cstr b)) b = cstr b /\ (length (cstr b) <= length b)%nat.
Proof.
  induction b as [|c b [IH1 IH2]]; [done|]. cbn [cstr]. destruct (c =? NUL); cbn; [split; [done|lia]|].
  rewrite IH1. split; [done|lia].
Qed.

(** Which requests can be granted. *)
Definition sensible (b : option bytes) (size : Z) (type : bytes) : option (kind * bool) :=
  if size =? 0 then None else
  match mode_of type, b with
  | Some (_, false), None => None
  | m, _ => m
  end.

(** Why a stream was not opened: the request, or a call that failed. *)
Definition refused (b : option bytes) (size : Z) (type : bytes) (s s' : st) : Prop :=
  (sensible b size type = None /\ errno s' = EINVAL) \/
  (exists e, Some e ∈ faults s /\ (errno s' = ENOMEM \/ errno s' = e)).

Definition is_null (b : option bytes) : bool := if b is None then true else false.

Lemma wp_owned s (Q : memstream -> st -> Prop) : Struct ∈ owned s -> Q (ms s) s -> wp deref Q s.
Proof. intros I HQ. apply wp_bind, wp_get. by rewrite bool_decide_true. Qed.

Lemma wp_free b s (Q : unit -> st -> Prop) :
  b ∈ owned s -> Q tt (set_owned (remove block_eq_dec b (owned s)) s) -> wp (free b) Q s.
Proof. intros I HQ. apply wp_bind, wp_get. rewrite bool_decide_true by done. by apply wp_modify. Qed.

Ltac forward :=
  repeat (fields; lazymatch goal with
    | |- wp (bind _ _) _ _ => apply wp_bind
    | |- wp (ret _) _ _ => apply wp_ret
    | |- wp (modify _) _ _ => apply wp_modify
    | |- wp (update _) _ _ => apply wp_update; [set_solver|]
    | |- wp deref _ _ => apply wp_owned; [set_solver|]
    | |- wp (free _) _ _ => apply wp_free; [set_solver|]
    end); fields.

(** The end of [fmemopen], when the buffer is set up. *)
Lemma fmemopen_end k plus mine size l ow e fl b c F v (Q : bool -> st -> Prop) :
  F = all_flags k plus mine -> ow = (if mine then [Buffer; Struct] else [Struct]) -> Z.of_nat (length b) = size -> 0 < size <= INT_MAX ->
  0 <= c <= size -> (appends k = false -> c = 0) ->
  let v' := match k with R => size | W => 0 | A => c end in
  (forall fl', Q true (St e fl' ow (Memstream_ b size v' c F))) ->
  (forall e' fl' m, Some e' ∈ fl -> Q false (St e' fl' l m)) -> l = [] ->
  wp (let* m := deref in
      (if has (flags m) MS_APPEND then update (set_vsize (curpos m))
       else if has (flags m) MS_TRUNCATE then update (set_vsize 0)
       else update (set_vsize size)) ;;;
      let* fp := funopen in
      if negb fp then
        let* m := deref in
        (if has (flags m) MS_MYBUF then free Buffer else ret tt) ;;; free Struct ;;; ret false
      else ret true) Q (St e fl ow (Memstream_ b size v c F)).
Proof.
  intros -> Ho Hb Hs Hc Hk v' H1 H2 ->. assert (Struct ∈ ow) by (subst ow; destruct mine; set_solver).
  destruct (flag_tests k plus mine) as (_ & _ & _ & F4 & _ & F6).
  assert (F7 : has (all_flags k plus mine) MS_TRUNCATE = match k with W => true | _ => false end) by (by destruct k, plus, mine).
  apply wp_bind, wp_owned; [done|]. fields. rewrite F4, F7.
  apply (wp_seq _ _ (fun _ s' => s' = St e fl ow (Memstream_ b size v' c (all_flags k plus mine)))).
  { subst v'. destruct k; cbn [appends]; (apply wp_update; [done|by fields]). }
  intros _ s' ->. apply wp_bind, wp_funopen; cbn [negb]; [intros fl'; fields; apply wp_ret, H1|].
  intros e' fl' He. fields. apply wp_bind, wp_owned; [done|]. fields. rewrite F6. subst ow.
  destruct mine; forward; by eapply H2.
Qed.

Lemma fmemopen_spec fill b size type s :
  owned s = [] -> 0 <= size <= INT_MAX -> (forall l, b = Some l -> Z.of_nat (length l) = size) ->
  wp (fmemopen fill b size type) (fun r s' =>
    if r then exists k plus, sensible b size type = Some (k, plus) /\ Inv k plus (is_null b) size s' /\
                view s' = opened k b fill size (errno s) /\ buf (ms s') = default (map fill (seq 0 (Z.to_nat size))) b
    else owned s' = [] /\ refused b size type s s') s.
Proof.
  intros Ho Hs Hb. unfold fmemopen, refused, sensible.
  destruct (Z.eqb_spec size 0) as [Hz|Hz]; [forward; split; [done|by left]|].
  apply wp_bind, wp_allocate; [|intros e l He; forward; split; [done|right; eauto]].
  intros fl Hfl. rewrite Ho. cbn [negb]. apply wp_bind, wp_update; [set_solver|]. apply wp_bind, wp_owned; [set_solver|]. fields.
  rewrite type_flags. destruct (mode_of type) as [[k plus]|]; [|cbn; forward; split; [done|by left]].
  assert (Hnz : (flags_of k plus =? 0) = false) by (by destruct k, plus). rewrite Hnz.
  assert (F0 : flags_of k plus = all_flags k plus false) by (by destruct k, plus). rewrite F0.
  destruct (flag_tests k plus false) as (_ & _ & _ & F4 & F5 & _).
  destruct b as [b|]; cbn [is_null default].
  - specialize (Hb b eq_refl). rewrite F4.
    apply (wp_seq _ _ (fun r s' => r = true /\ exists v, s' = St (errno s) fl [Struct] (Memstream_ b size v (if appends k then strlen b else 0) (all_flags k plus false)))).
    { apply wp_bind, wp_update; [set_solver|]. apply wp_bind, wp_update; [set_solver|]. fields. apply wp_bind.
      destruct (appends k); forward; [|by eauto].
      unfold find_end. fields. rewrite <- Hb, Nat2Z.id, find_end_spec. forward. by eauto. }
    intros ? ? [-> [v ->]]. cbn [negb]. destruct (cstr_take b) as [Ht Hle].
    apply (fmemopen_end k plus false size []); try done; try (unfold strlen; destruct (appends k); (done || lia)).
    + intros fl'. exists k, plus. split; [by destruct plus|]. split; [|split; [|done]].
      * split; fields; try done; unfold strlen; destruct k; cbn [appends]; lia.
      * unfold view, opened. fields. cbn [default]. destruct k; cbn [appends].
        -- by rewrite firstn_all2 by lia.
        -- done.
        -- unfold strlen. by rewrite Nat2Z.id, Ht.
    + intros e' fl' m He. split; [done|]. right. exists e'. auto.
  - rewrite F5. destruct plus; cbn [negb].
    2: { forward. split; [done|by left]. }
    apply (wp_seq _ _ (fun (r : bool) s' => if r then exists fl' v, (forall f, f ∈ fl' -> f ∈ faults s) /\
        s' = St (errno s) fl' [Buffer; Struct] (Memstream_ (map fill (seq 0 (Z.to_nat size))) size v 0 (all_flags k true true))
      else owned s' = [] /\ errno s' = ENOMEM /\ exists e, Some e ∈ faults s)).
    { apply wp_bind, wp_allocate; cbn [negb]; [|intros e l He; forward; split; [done|]; split; [done|]; eauto].
      intros fl' Hf'. forward. exists fl', (vsize (ms s)). split; [set_solver|]. by destruct k. }
    intros [] s'; cbn [negb].
    + intros (fl' & v & Hf & ->). apply (fmemopen_end k true true size []); try done; try lia.
      * by rewrite length_fmap, length_seq, Z2Nat.id by lia.
      * intros fl2. exists k, true. split; [done|]. split; [|split; [|done]].
        -- split; fields; try done; [by rewrite length_fmap, length_seq, Z2Nat.id by lia|..]; destruct k; lia.
        -- unfold view, opened. fields. cbn [default]. destruct k; [|done..]. by rewrite firstn_all2 by (rewrite length_fmap, length_seq; lia).
      * intros e' fl2 m He. split; [done|]. right. exists e'. auto.
    + intros (? & ? & e & ?). apply wp_ret. split; [done|]. right. exists e. auto.
Qed.

(** C34. A memory stream that can be read is a file of bounded size.  Any sequence
    of reads, writes and seeks gives the results, the position, the contents and
    the [errno] of the reference, no access is outside the buffer, and closing the
    stream leaves nothing allocated.  If the stream cannot be opened nothing is
    left allocated either, and the reason is in [errno]: a size of 0, a type that
    is not understood or a null buffer for a stream without a plus sign, or a call
    that failed. *)
Theorem memstream_is_file fill b size type l s :
  owned s = [] -> 0 <= size <= INT_MAX -> (forall d, b = Some d -> Z.of_nat (length d) = size) -> Forall op_ok l ->
  (forall k plus, mode_of type = Some (k, plus) -> readable k plus = true) ->
  wp (session fill b size type l) (fun r s' => owned s' = [] /\
    match r with
    | Some rs => exists k plus, sensible b size type = Some (k, plus) /\
                   (rs, view s') = spec_ops k plus size l (opened k b fill size (errno s))
    | None => refused b size type s s'
    end) s.
Proof.
  intros Ho Hs Hb Hl Hr. eapply wp_seq; [by apply fmemopen_spec|]. cbv beta. intros [] s1; [|by intros []; apply wp_ret].
  intros (k & plus & Hk & I & Hv & _).
  assert (readable k plus = true).
  { apply Hr. unfold sensible in Hk. destruct (size =? 0), (mode_of type) as [[? []]|], b; congruence. }
  eapply wp_seq; [by eapply run_ops_refines|]. cbv beta. intros rs s2 (I2 & H2).
  eapply wp_seq; [by eapply mstream_close_spec|]. cbv beta. intros _ s3 (_ & ->). apply wp_ret. split; [done|].
  exists k, plus. split; [done|]. by rewrite <- Hv, <- H2.
Qed.

(** A stream with its own buffer: what is written is read back after a seek. *)
Definition ex_fill : nat -> Z := fun i => Z.of_nat i.
Definition ex_st : st := St 0 [] [] (Memstream_ [] 0 0 0 0).
Definition ex_ops : list op := [Write (str "hello, world"); Seek (-5) SEEK_END; Read 100; Seek 13 SEEK_SET].

Lemma memstream_is_file_witness :
  exists s', session ex_fill None 20 (str "w+b") ex_ops ex_st =
    (Ret (Some [(12, []); (7, []); (5, str "world"); (-1, [])]), s') /\ owned s' = [] /\ errno s' = EINVAL.
Proof.
  assert (Hl : Forall op_ok ex_ops).
  { unfold ex_ops. repeat (apply Forall_cons; [cbn; unfold INT_MAX, SEEK_SET, SEEK_CUR, SEEK_END; lia|]). apply Forall_nil. }
  assert (Hm : forall k plus, mode_of (str "w+b") = Some (k, plus) -> readable k plus = true).
  { intros k plus. vm_compute. by intros [= <- <-]. }
  pose proof (memstream_is_file ex_fill None 20 (str "w+b") ex_ops ex_st eq_refl ltac:(by vm_compute) ltac:(done) Hl Hm) as H.
  clear Hl Hm.
  apply wp_run in H as (r & s' & Hrun & Ho & Hm). destruct r as [rs|].
  - destruct Hm as (k & plus & Hk & Hv). vm_compute in Hk. injection Hk as <- <-.
    pose proof (f_equal fst Hv) as H1. pose proof (f_equal (fun x => err (snd x)) Hv) as H2. cbn [fst snd view err] in H1, H2.
    exists s'. rewrite Hrun, H1, H2. by vm_compute.
  - exfalso. destruct Hm as [[Hk _]|(e & He & _)]; [by vm_compute in Hk|set_solver].
Defined.

(** ** A stream for writing only builds a string *)

Section string.
Context (k : kind) (cap : Z) (Hk : k <> R).

(** The text [t] has been written, as far as there was room. *)
Definition holds (t : bytes) (s : st) : Prop :=
  Inv k false false cap s /\ curpos (ms s) = Z.min (Z.of_nat (length t)) cap /\ vsize (ms s) = curpos (ms s) /\
  let n := Z.to_nat (Z.min (Z.of_nat (length t)) (cap - 1)) in take n (buf (ms s)) = take n t.

Definition ended (t : bytes) (s : st) : Prop :=
  buf (ms s) !! Z.to_nat (Z.min (Z.of_nat (length t)) (cap - 1)) = Some 0.

Lemma write_string t d s : holds t s ->
  let s' := set_ms (written k false cap d (ms s)).2 s in holds (t ++ d) s' /\ ended (t ++ d) s'.
Proof.
  intros (I & Hc & Hv & Ht). cbv zeta in *. pose proof I as [].
  unfold holds, ended. cbv zeta. apply and_assoc. split; [by apply Inv_written|]. unfold written. rewrite Hv, Tauto.if_same. set (off := curpos (ms s)) in *.
  set (n := Z.min (Z.of_nat (length d)) (cap - off)). fields. unfold terminated.
  assert (He : off + n = Z.min (Z.of_nat (length (t ++ d))) cap) by (subst n; rewrite length_app; lia).
  replace (Z.min (off + n) (cap - 1)) with (Z.min (Z.of_nat (length (t ++ d))) (cap - 1)) by lia.
  assert (Hd : length (take (Z.to_nat n) d) = Z.to_nat n) by len.
  set (b1 := overwrite (Z.to_nat off) _ _). assert (Hl : length b1 = length (buf (ms s))) by (apply overwrite_length; lia).
  set (e := Z.to_nat (Z.min (Z.of_nat (length (t ++ d))) (cap - 1))). assert (e < length b1)%nat by lia.
  assert (Hee : e = Z.to_nat (Z.min (Z.of_nat (length t) + Z.of_nat (length d)) (cap - 1))) by (subst e; len). clearbody e.
  split; [split; [done|split; [lia|]]|].
  - rewrite take_overwrite by lia. subst b1. rewrite overwrite_in by lia. destruct (Z.leb_spec cap (Z.of_nat (length t))).
    + assert (n = 0) by lia. replace (Z.to_nat n) with 0%nat by lia. rewrite take_0. cbn [app length]. rewrite Nat.add_0_r, take_drop.
      rewrite take_app_le by lia. etrans; [|etrans; [exact Ht|]]; f_equal; lia.
    + replace (Z.to_nat (Z.min (Z.of_nat (length t)) (cap - 1))) with (length t) in Ht by lia. rewrite firstn_all in Ht.
      replace (Z.to_nat off) with (length t) by lia. rewrite Ht, !take_app.
      rewrite Hd. replace (e - length t - Z.to_nat n)%nat with 0%nat by lia.
      rewrite take_0, app_nil_r, take_take. f_equal. f_equal. lia.
  - rewrite overwrite_in by lia. rewrite lookup_app_r by len. rewrite length_take, Nat.min_l by lia.
    by rewrite Nat.sub_diag.
Qed.

(** What the writes return when [have] bytes are in the buffer before them: as
    much as there is room for. *)
Fixpoint counts (have : Z) (ds : list bytes) : list (Z * bytes) :=
  match ds with
  | [] => []
  | d :: ds' => let n := Z.min (Z.of_nat (length d)) (cap - have) in (n, []) :: counts (have + n) ds'
  end.

Lemma writes_string ds t s : holds t s -> Forall (fun d => Z.of_nat (length d) <= INT_MAX) ds ->
  wp (run_ops (map Write ds)) (fun rs s' => rs = counts (curpos (ms s)) ds /\
    holds (t ++ concat ds) s' /\ (ds <> [] \/ ended t s -> ended (t ++ concat ds) s')) s.
Proof.
  intros Hh Hl. revert t s Hh. induction Hl as [|d ds Hd Hl IH]; intros t s Hh; cbn [map run_ops concat counts].
  { apply wp_ret. rewrite app_nil_r. split; [done|]. split; [done|]. by intros [|]. }
  pose proof Hh as (I & Hc & Hv & _). cbn [run_op]. apply wp_bind.
  eapply wp_seq; [by apply (mstream_write_spec k false false cap)|]. cbv beta.
  replace (writable k false) with true by (by destruct k). intros r s1 [-> ->]. apply wp_ret.
  destruct (write_string t d s Hh) as [Hh1 He1]. eapply wp_seq; [by apply IH|]. cbv beta.
  intros rs s2 (-> & Hh2 & He2). apply wp_ret. rewrite app_assoc. split; [|split; [done|tauto]].
  unfold written. fields. by rewrite Hv, Tauto.if_same.
Qed.

Lemma ended_string t s : holds t s -> ended t s -> nonul t -> cstr (buf (ms s)) = take (Z.to_nat (cap - 1)) t.
Proof.
  intros (I & _ & _ & Ht) He Hn. pose proof I as []. unfold ended in He. cbv zeta in Ht. revert He Ht.
  set (m := Z.to_nat _). intros He Ht. rewrite <- (take_drop_middle _ _ _ He), cstr_end.
  - rewrite Ht. subst m. destruct (Z.le_ge_cases (Z.of_nat (length t)) (cap - 1)).
    + by rewrite Z.min_l, !firstn_all2 by lia.
    + by rewrite Z.min_r by lia.
  - rewrite Ht. by apply Forall_take.
Qed.
End string.

(** A stream opened for writing only, with a buffer of the caller's, builds a
    string: after at least one write and without seeks the buffer holds what was
    written, behind the string that was there if the stream appends, cut to leave
    room for the null byte, which is always there; and each write returns how
    much of it there was room for in the buffer. *)
Theorem write_only_string fill l type k ds s :
  owned s = [] -> faults s = [] -> 0 < Z.of_nat (length l) <= INT_MAX -> mode_of type = Some (k, false) -> k <> R ->
  ds <> [] -> Forall (fun d => Z.of_nat (length d) <= INT_MAX /\ nonul d) ds ->
  let size := Z.of_nat (length l) in
  let t := (if appends k then cstr l else []) in
  wp (session fill (Some l) size type (map Write ds)) (fun r s' =>
    r = Some (counts size (Z.of_nat (length t)) ds) /\ owned s' = [] /\
    cstr (buf (ms s')) = take (Z.to_nat (size - 1)) (t ++ concat ds) /\ 0 ∈ buf (ms s')) s.
Proof.
  intros Ho Hf Hs Hm Hk Hds Hall size t. destruct (cstr_take l) as [Hct Hcl].
  eapply wp_seq; [apply (fmemopen_spec fill (Some l) size type s Ho); [lia|by intros ? [= <-]]|].
  assert (Hsen : sensible (Some l) size type = Some (k, false)).
  { unfold sensible. rewrite Hm. destruct (Z.eqb_spec size 0); [lia|done]. }
  cbv beta. unfold refused. rewrite Hsen, Hf. intros [] s1; [|by intros [_ [[? _]|(e & He & _)]]; [|set_solver]].
  intros (? & ? & [= <- <-] & I & Hv & Hbuf). cbn [is_null default] in *.
  assert (Ht : curpos (ms s1) = Z.of_nat (length t) /\ vsize (ms s1) = curpos (ms s1)).
  { pose proof (i_pos _ _ _ _ _ I). pose proof (i_vsize _ _ _ _ _ I). pose proof (i_buf _ _ _ _ _ I).
    pose proof (f_equal pos Hv) as E1. pose proof (f_equal fsize Hv) as E2. unfold fsize in E2. revert E1 E2. subst t.
    unfold opened. destruct k; [done|..]; cbn [view data pos appends length]; rewrite length_take; lia. }
  destruct Ht as [Hc Hv1]. assert (Hh : holds k size t s1).
  { split; [done|]. split; [rewrite Hc; subst t; destruct (appends k); cbn; lia|]. split; [done|]. cbv zeta. rewrite Hbuf. subst t.
    destruct (appends k); [|by rewrite Z.min_l by (cbn; lia)]. set (n := Z.to_nat _).
    assert (n <= length (cstr l))%nat by lia. clearbody n. rewrite <- Hct at 1. by rewrite take_take, Nat.min_l. }
  eapply wp_seq; [apply (writes_string k size Hk ds t s1 Hh); revert Hall; apply Forall_impl; by intros ? []|].
  cbv beta. intros rs s2 (-> & Hh2 & He2). specialize (He2 (or_introl Hds)).
  eapply wp_seq; [eapply mstream_close_spec, (proj1 Hh2)|]. cbv beta. intros _ s3 (_ & ->). apply wp_ret. fields.
  rewrite Hc. split; [done|]. split; [done|]. split; [|by eapply list_elem_of_lookup_2].
  eapply ended_string; [done|done|]. apply nonul_app. split; [subst t; destruct (appends k); [apply cstr_nonul|apply Forall_nil]|].
  apply Forall_concat. revert Hall. apply Forall_impl. by intros ? [].
Qed.

(** Appending to a string in a buffer that becomes full. *)
Lemma write_only_string_witness :
  wp (session ex_fill (Some (str "abc" ++ [0; 7; 7; 7; 7])) 8 (str "a") (map Write [str "de"; str "fghi"])) (fun r s' =>
    r = Some [(2, []); (3, [])] /\ owned s' = [] /\ cstr (buf (ms s')) = str "abcdefg" /\ 0 ∈ buf (ms s')) ex_st.
Proof.
  assert (H : Forall (fun d => Z.of_nat (length d) <= INT_MAX /\ nonul d) [str "de"; str "fghi"]).
  { repeat (apply Forall_cons; [split; [by vm_compute|repeat (apply Forall_cons; [done|]); apply Forall_nil]|]). apply Forall_nil. }
  exact (write_only_string ex_fill (str "abc" ++ [0; 7; 7; 7; 7]) (str "a") A [str "de"; str "fghi"] ex_st
    eq_refl eq_refl ltac:(by vm_compute) eq_refl ltac:(done) ltac:(done) H).
Defined.

(** The position of a seek is cut to an [int]: a seek far behind the end succeeds
    and goes to the beginning. *)
Example seek_truncated :
  session ex_fill None 8 (str "w+") [Write (str "abc"); Seek (2 ^ 32) SEEK_SET] ex_st =
    (Ret (Some [(3, []); (0, [])]), St 0 [] [] (Memstream_ [97; 98; 99; 0; 4; 5; 6; 7] 8 3 0 27)).
Proof. vm_compute. reflexivity. Qed.
End Memstream.
