(* ===== verification/Qsort.v ===== *)
(** * Smoothsort: [qsort] of musl's src/stdlib

    The code of qsort.c on the bytes of the array: a pointer is an offset from
    the base, an access outside the array or outside one of the local arrays is a
    [Crash], a shift by the width of the type, a copy between overlapping regions
    and a search for a bit in 0 are [Undefined].  The comparison function is a
    parameter, which sees the bytes of two elements. *)

From S2P Require Import Prelude CLib.

Module Qsort.

(** ** Memory *)

Definition load (off n : Z) : M bytes bytes := fun mem =>
  if (0 <=? off) && (0 <=? n) && (off + n <=? Z.of_nat (length mem))
  then (Ret (sub (Z.to_nat off) (Z.to_nat n) mem), mem) else (Stop Crash, mem).

Definition store (off : Z) (d : bytes) : M bytes unit := fun mem =>
  if (0 <=? off) && (off + Z.of_nat (length d) <=? Z.of_nat (length mem))
  then (Ret tt, overwrite (Z.to_nat off) d mem) else (Stop Crash, mem).

(** [memcpy] inside the array. *)
Definition memcpy (dst src n : Z) : M bytes unit :=
  if Z.abs (dst - src) <? n then stop (Undefined "memcpy of overlapping regions") else
  let* d := load src n in store dst d.

(** An element of a local array. *)
Definition nth_of {S} (l : list Z) (i : Z) : M S Z :=
  if i <? 0 then stop Crash else
  match l !! Z.to_nat i with Some x => ret x | None => stop Crash end.

(** ** Bits *)

(** The portable version of [a_ctz_64], by a de Bruijn sequence. *)
Definition debruijn64 : list Z :=
  [0; 1; 2; 53; 3; 7; 54; 27; 4; 38; 41; 8; 34; 55; 48; 28;
   62; 5; 39; 46; 44; 42; 22; 9; 24; 35; 59; 56; 49; 18; 29; 11;
   63; 52; 6; 26; 37; 40; 33; 47; 61; 45; 43; 21; 23; 58; 17; 10;
   51; 25; 36; 32; 60; 20; 57; 16; 50; 31; 19; 15; 30; 14; 13; 12].

Definition a_ctz_64 (x : Z) : Z :=
  nth (Z.to_nat (Z.shiftr (to_u64 (Z.land x (to_u64 (- x)) * 157587932685088877)) 58)) debruijn64 0.

(** The versions for some processors have no defined result for 0. *)
Definition ntz {S} (x : Z) : M S Z :=
  if x =? 0 then stop (Undefined "the lowest bit of 0") else ret (a_ctz_64 x).

(** The two words of [p], the low one first. *)
Definition words : Type := Z * Z.

Definition pntz {S} (p : words) : M S Z :=
  let* r := ntz (to_u64 (p.1 - 1)) in
  if negb (r =? 0) then ret r else
  let* r := ntz p.2 in
  if negb (64 + r =? 64) then ret (64 + r) else ret 0.

Definition shl {S} (p : words) (n : Z) : M S words :=
  let '(n, p) := if n >=? 64 then (n - 64, (0, p.1)) else (n, p) in
  if (n <=? 0) || (64 <=? n) then stop (Undefined "shift by the width of the type") else
  ret (to_u64 (Z.shiftl p.1 n), Z.lor (to_u64 (Z.shiftl p.2 n)) (Z.shiftr p.1 (64 - n))).

Definition shr {S} (p : words) (n : Z) : M S words :=
  let '(n, p) := if n >=? 64 then (n - 64, (p.2, 0)) else (n, p) in
  if (n <=? 0) || (64 <=? n) then stop (Undefined "shift by the width of the type") else
  ret (Z.lor (Z.shiftr p.1 n) (to_u64 (Z.shiftl p.2 (64 - n))), Z.shiftr p.2 n).

(** ** Moving elements round *)

(** The size of the arrays [ar], and a store at the end of the used part. *)
Definition AR : nat := 113.
Definition push {S} (ar : list Z) (x : Z) : M S (list Z) :=
  if (length ar <? AR)%nat then ret (ar ++ [x]) else stop Crash.

(** One chunk of [l] bytes: every place gets what the next one holds, and the last
    what is in [tmp]. *)
Fixpoint cycle_chunk (l : Z) (tmp : bytes) (ar : list Z) : M bytes unit :=
  match ar with
  | [] => ret tt
  | a :: ar' => match ar' with
                | [] => store a tmp
                | b :: _ => memcpy a b l ;;; cycle_chunk l tmp ar'
                end
  end.

Fixpoint cycle_loop (fuel : nat) (width : Z) (ar : list Z) : M bytes unit :=
  match fuel with
  | O => stop Hang
  | S fuel' =>
      if width =? 0 then ret tt else
      let l := if 256 <? width then 256 else width in
      let* a0 := nth_of ar 0 in
      let* tmp := load a0 l in
      cycle_chunk l tmp ar ;;;
      cycle_loop fuel' (width - l) (map (fun a => a + l) ar)
  end.

Definition cycle (width : Z) (ar : list Z) : M bytes unit :=
  if (length ar <? 2)%nat then ret tt else
  if (AR <=? length ar)%nat then stop Crash else
  cycle_loop (S (Z.to_nat width)) width ar.

Section sort.
Variable cmp : bytes -> bytes -> Z.
Variable width : Z.

Definition compare (a b : Z) : M bytes Z :=
  let* x := load a width in let* y := load b width in ret (cmp x y).

(** [if (c1 && c2)] and [if (c1 || c2)]: the second comparison is made only if it
    is needed. *)
Definition both (c1 c2 : M bytes bool) : M bytes bool := let* b := c1 in if b then c2 else ret false.
Definition either (c1 c2 : M bytes bool) : M bytes bool := let* b := c1 in if b then ret true else c2.
Definition geq (a b : Z) : M bytes bool := let* c := compare a b in ret (c >=? 0).

(** The loop of [sift]: the path down the tree. *)
Fixpoint sift_loop (fuel : nat) (head pshift : Z) (lp ar : list Z) : M bytes (list Z) :=
  match fuel with
  | O => stop Hang
  | S fuel' =>
      if pshift <=? 1 then ret ar else
      let* n := nth_of lp (pshift - 2) in
      let rt := head - width in
      let lf := head - width - n in
      let* a0 := nth_of ar 0 in
      let* stop := both (geq a0 lf) (geq a0 rt) in
      if stop then ret ar else
      let* left := geq lf rt in
      if left then let* ar := push ar lf in sift_loop fuel' lf (pshift - 1) lp ar
      else let* ar := push ar rt in sift_loop fuel' rt (pshift - 2) lp ar
  end.

Definition sift (head pshift : Z) (lp : list Z) : M bytes unit :=
  let* ar := sift_loop (S (Z.to_nat pshift)) head pshift lp [head] in
  cycle width ar.

Definition is_one (p : words) : bool := (p.1 =? 1) && (p.2 =? 0).

(** The loop of [trinkle] over the roots to the left. *)
Fixpoint trinkle_loop (fuel : nat) (head : Z) (p : words) (pshift : Z) (trusty : bool) (lp ar : list Z)
    : M bytes (Z * Z * bool * list Z) :=
  match fuel with
  | O => stop Hang
  | S fuel' =>
      if is_one p then ret (head, pshift, trusty, ar) else
      let* n := nth_of lp pshift in
      let stepson := head - n in
      let* a0 := nth_of ar 0 in
      let* c := compare stepson a0 in
      if c <=? 0 then ret (head, pshift, trusty, ar) else
      let* brk :=
        if negb trusty && (pshift >? 1) then
          let* n := nth_of lp (pshift - 2) in
          let rt := head - width in
          let lf := head - width - n in
          either (geq rt stepson) (geq lf stepson)
        else ret false in
      if brk then ret (head, pshift, trusty, ar) else
      let* ar := push ar stepson in
      let* trail := pntz p in
      let* p := shr p trail in
      trinkle_loop fuel' stepson p (pshift + trail) false lp ar
  end.

Definition trinkle (head : Z) (pp : words) (pshift : Z) (trusty : bool) (lp : list Z) : M bytes unit :=
  let* ' (head, pshift, trusty, ar) := trinkle_loop 130 head pp pshift trusty lp [head] in
  if negb trusty then cycle width ar ;;; sift head pshift lp else ret tt.

(** ** [__qsort_r] *)

(** The Leonardo numbers, scaled by [width], up to the first that is not below
    [size]; the array has room for 96. *)
Fixpoint lp_loop (fuel : nat) (size a b : Z) (lp : list Z) : M bytes (list Z) :=
  match fuel with
  | O => stop Crash
  | S fuel' =>
      let c := to_u64 (a + b + width) in
      if c <? size then lp_loop fuel' size b c (lp ++ [c]) else ret (lp ++ [c])
  end.

(** The first loop: the heaps grow by the element at [head]. *)
Definition build_step (high head : Z) (p : words) (pshift : Z) (lp : list Z) : M bytes (words * Z) :=
  let* ' (p, pshift) :=
    if Z.land p.1 3 =? 3 then
      sift head pshift lp ;;;
      let* p := shr p 2 in ret (p, pshift + 2)
    else
      let* n := nth_of lp (pshift - 1) in
      (if n >=? high - head then trinkle head p pshift false lp else sift head pshift lp) ;;;
      if pshift =? 1 then let* p := shl p 1 in ret (p, 0)
      else let* p := shl p (pshift - 1) in ret (p, 1) in
  ret ((Z.lor p.1 1, p.2), pshift).

Fixpoint build (fuel : nat) (high head : Z) (p : words) (pshift : Z) (lp : list Z) : M bytes (Z * words * Z) :=
  match fuel with
  | O => stop Hang
  | S fuel' =>
      if head <? high then
        let* ' (p, pshift) := build_step high head p pshift lp in
        build fuel' high (head + width) p pshift lp
      else ret (head, p, pshift)
  end.

(** The second loop: the element at [head] is in its place, and the heaps shrink. *)
Definition unbuild_step (head : Z) (p : words) (pshift : Z) (lp : list Z) : M bytes (words * Z) :=
  if pshift <=? 1 then
    let* trail := pntz p in
    let* p := shr p trail in ret (p, pshift + trail)
  else
    let* p := shl p 2 in
    let pshift := pshift - 2 in
    let p := (Z.lxor p.1 7, p.2) in
    let* p := shr p 1 in
    let* n := nth_of lp pshift in
    trinkle (head - n - width) p (pshift + 1) true lp ;;;
    let* p := shl p 1 in
    let p := (Z.lor p.1 1, p.2) in
    trinkle (head - width) p pshift true lp ;;;
    ret (p, pshift).

Fixpoint unbuild (fuel : nat) (head : Z) (p : words) (pshift : Z) (lp : list Z) : M bytes unit :=
  match fuel with
  | O => stop Hang
  | S fuel' =>
      if (pshift =? 1) && is_one p then ret tt else
      let* ' (p, pshift) := unbuild_step head p pshift lp in
      unbuild fuel' (head - width) p pshift lp
  end.

Definition __qsort_r (nel : Z) : M bytes unit :=
  let size := to_u64 (width * nel) in
  if size =? 0 then ret tt else
  let* lp := lp_loop 94 size width width [width; width] in
  let high := size - width in
  let* ' (head, p, pshift) := build (Z.to_nat nel) high 0 (1, 0) 1 lp in
  trinkle head p pshift false lp ;;;
  unbuild (Z.to_nat nel) head p pshift lp.

Definition qsort (nel : Z) : M bytes unit := __qsort_r nel.
End sort.

(** Seven numbers of one byte. *)
Example qsort_seven : qsort (fun x y => hd 0 x - hd 0 y) 1 7 [5; 2; 9; 1; 7; 3; 4] = (Ret tt, [1; 2; 3; 4; 5; 7; 9]).
Proof. vm_compute. reflexivity. Qed.
End Qsort.
