(* ===== verification/QsortHeap.v ===== *)
(** * The heaps of smoothsort

    What qsort.c keeps in the array: binary trees whose sizes are Leonardo
    numbers, laid out left subtree, right subtree, root, and a forest of them, the
    rightmost tree first.  The operations of the code as functions on trees, and
    what they do to the order of the elements. *)

From S2P Require Import Prelude CLib.
From Stdlib Require Import Sorted.

Module QsortHeap.

(** ** Leonardo numbers *)

Fixpoint leo (n : nat) : nat :=
  match n with
  | O => 1
  | S n1 => match n1 with
            | O => 1
            | S n2 => leo n1 + leo n2 + 1
            end
  end.

Lemma leo_0 : leo 0 = 1%nat.
Proof. done. Qed.
Lemma leo_1 : leo 1 = 1%nat.
Proof. done. Qed.
Lemma leo_SS n : leo (S (S n)) = (leo (S n) + leo n + 1)%nat.
Proof. done. Qed.

Lemma leo_pos n : (1 <= leo n)%nat.
Proof. destruct n as [|[|n]]; [done..|]. rewrite leo_SS. lia. Qed.

Lemma leo_S n : (leo n <= leo (S n))%nat.
Proof. destruct n; [done|]. rewrite leo_SS. lia. Qed.

Lemma leo_mono m n : (m <= n)%nat -> (leo m <= leo n)%nat.
Proof. induction 1 as [|n _ IH]; [done|]. pose proof (leo_S n). lia. Qed.

Lemma leo_lt m n : (1 <= m < n)%nat -> (leo m < leo n)%nat.
Proof.
  intros [Hm Hn]. apply (Nat.lt_le_trans _ (leo (S m))); [|by apply leo_mono].
  destruct m; [lia|]. rewrite leo_SS. pose proof (leo_pos m). lia.
Qed.

(** The orders of the trees, the rightmost first: increasing, the last at least 1,
    and 0 only next to 1. *)
Fixpoint orders (os : list nat) : Prop :=
  match os with
  | [] => False
  | o :: os' => match os' with
                | [] => (1 <= o)%nat
                | o1 :: _ => (o < o1)%nat /\ (o = 0%nat -> o1 = 1%nat) /\ orders os'
                end
  end.

(** No two orders are next to each other. *)
Fixpoint spaced (os : list nat) : Prop :=
  match os with
  | [] => True
  | o :: os' => match os' with [] => True | o1 :: _ => (o + 2 <= o1)%nat end /\ spaced os'
  end.

Section heap.
Context {K : Type} (cmp : K -> K -> Z).

(** ** Trees *)

Inductive tree := Leaf (x : K) | Node (l r : tree) (x : K).

Definition root (t : tree) : K := match t with Leaf x => x | Node _ _ x => x end.
Definition put (x : K) (t : tree) : tree := match t with Leaf _ => Leaf x | Node l r _ => Node l r x end.

Fixpoint flat (t : tree) : list K :=
  match t with
  | Leaf x => [x]
  | Node l r x => flat l ++ flat r ++ [x]
  end.

(** A tree of the given order. *)
Inductive shape : nat -> tree -> Prop :=
| shape_0 x : shape 0 (Leaf x)
| shape_1 x : shape 1 (Leaf x)
| shape_SS o l r x : shape (S o) l -> shape o r -> shape (S (S o)) (Node l r x).

Lemma shape_length o t : shape o t -> length (flat t) = leo o.
Proof.
  induction 1 as [| |o l r x Hl IHl Hr IHr]; [done..|].
  cbn [flat]. rewrite !length_app, IHl, IHr. change (leo (S (S o))) with (leo (S o) + leo o + 1)%nat. cbn. lia.
Qed.

Lemma shape_put o x t : shape o (put x t) <-> shape o t.
Proof. split; destruct t; cbn; inversion 1; by constructor. Qed.

Lemma flat_pos t : (1 <= length (flat t))%nat.
Proof. destruct t; cbn; [lia|]. rewrite !length_app. cbn. lia. Qed.

(** The root is the last element. *)
Definition body (t : tree) : list K := match t with Leaf _ => [] | Node l r _ => flat l ++ flat r end.

Lemma flat_root t : flat t = body t ++ [root t].
Proof. destruct t; cbn; [done|]. by rewrite app_assoc. Qed.

Lemma body_put x t : body (put x t) = body t.
Proof. by destruct t. Qed.

Lemma root_put x t : root (put x t) = x.
Proof. by destruct t. Qed.

Lemma flat_put x t : flat (put x t) = body t ++ [x].
Proof. by rewrite flat_root, body_put, root_put. Qed.

Lemma put_root t : put (root t) t = t.
Proof. by destruct t. Qed.

(** ** Heap order *)

Definition le (x y : K) : Prop := cmp x y <= 0.

Fixpoint heap (t : tree) : Prop :=
  match t with
  | Leaf _ => True
  | Node l r x => le (root l) x /\ le (root r) x /\ heap l /\ heap r
  end.

(** The roots of the subtrees are at most [y]. *)
Definition under (t : tree) (y : K) : Prop :=
  match t with Leaf _ => True | Node l r _ => le (root l) y /\ le (root r) y end.
Definition subheaps (t : tree) : Prop := match t with Leaf _ => True | Node l r _ => heap l /\ heap r end.

Lemma heap_split t : heap t <-> under t (root t) /\ subheaps t.
Proof. destruct t; cbn; tauto. Qed.

Lemma heap_put x t : heap (put x t) <-> under t x /\ subheaps t.
Proof. destruct t; cbn; tauto. Qed.

(** [sift]: [x] takes the place of the root and sinks. *)
Fixpoint siftT (x : K) (t : tree) : tree :=
  match t with
  | Leaf _ => Leaf x
  | Node l r _ =>
      if (cmp x (root l) >=? 0) && (cmp x (root r) >=? 0) then Node l r x
      else if cmp (root l) (root r) >=? 0 then Node (siftT x l) r (root l) else Node l (siftT x r) (root r)
  end.

(** [trinkle]: [x] takes the place of the root of [t], with the trees [fs] to the
    left of [t].  When [t] is trusted to be a heap with [x], it is left alone as
    long as [x] does not have to move. *)
Definition big_child (t : tree) (y : K) : bool :=
  match t with Leaf _ => false | Node l r _ => (cmp (root r) y >=? 0) || (cmp (root l) y >=? 0) end.

Fixpoint trinkleT (trusty : bool) (x : K) (t : tree) (fs : list tree) : list tree :=
  let here := if trusty then t else siftT x t in
  match fs with
  | [] => [here]
  | t1 :: fs' =>
      if cmp (root t1) x <=? 0 then here :: fs
      else if negb trusty && big_child t (root t1) then here :: fs
      else put (root t1) t :: trinkleT false x t1 fs'
  end.

(** The elements of a forest, and the order of its roots. *)
Fixpoint flats (fs : list tree) : list K := match fs with [] => [] | t :: fs' => flats fs' ++ flat t end.

Fixpoint ascending (fs : list tree) : Prop :=
  match fs with
  | [] => True
  | t :: fs' => match fs' with [] => True | t1 :: _ => le (root t1) (root t) end /\ ascending fs'
  end.

Context `{!Order cmp}.

Lemma le_refl x : le x x.
Proof. unfold le. by rewrite cmp_refl. Qed.
Lemma le_trans x y z : le x y -> le y z -> le x z.
Proof. apply cmp_le_trans. Qed.
Lemma geb_le x y : (cmp x y >=? 0) = true <-> le y x.
Proof. unfold le. rewrite Z.geb_le. apply cmp_le. Qed.
Lemma geb_ge x y : (cmp x y >=? 0) = false -> le x y.
Proof. unfold le. rewrite Z.geb_leb, Z.leb_gt. lia. Qed.

(** *** Sifting *)

Lemma sift_root x t y : le x y -> under t y -> le (root (siftT x t)) y.
Proof.
  destruct t as [z|l r z]; cbn [siftT under]; [done|]. intros Hx [Hl Hr].
  destruct (_ && _); [done|]. by destruct (_ >=? _).
Qed.

Lemma sift_ge x t : le x (root (siftT x t)) /\ under t (root (siftT x t)).
Proof.
  destruct t as [z|l r z]; cbn [siftT under]; [split; [apply le_refl|done]|].
  destruct (cmp x (root l) >=? 0) eqn:El; destruct (cmp x (root r) >=? 0) eqn:Er; cbn [andb].
  { split; [apply le_refl|]. by split; apply geb_le. }
  all: destruct (cmp (root l) (root r) >=? 0) eqn:E; cbn [root under]; (apply geb_le in E || apply geb_ge in E);
    try apply geb_le in El; try apply geb_ge in El; try apply geb_le in Er; try apply geb_ge in Er;
    eauto using le_refl, le_trans.
Qed.

Lemma sift_heap x t : subheaps t -> heap (siftT x t).
Proof.
  revert x. induction t as [z|l IHl r IHr z]; intros x; cbn [siftT subheaps]; [done|]. intros [Hl Hr].
  pose proof (proj1 (heap_split l) Hl) as [Hl1 Hl2]. pose proof (proj1 (heap_split r) Hr) as [Hr1 Hr2].
  destruct (cmp x (root l) >=? 0) eqn:El; destruct (cmp x (root r) >=? 0) eqn:Er; cbn [andb].
  { cbn. by rewrite !geb_le in *. }
  all: destruct (cmp (root l) (root r) >=? 0) eqn:E; (apply geb_le in E || apply geb_ge in E);
    try apply geb_le in El; try apply geb_ge in El; try apply geb_le in Er; try apply geb_ge in Er;
    cbn [heap]; split_and!; auto using le_refl; apply sift_root; eauto using le_trans.
Qed.

Lemma sift_perm x t : flat (siftT x t) ≡ₚ flat (put x t).
Proof.
  revert x. induction t as [z|l IHl r IHr z]; intros x; cbn [siftT]; [done|]. destruct (_ && _); [done|].
  destruct (_ >=? _); cbn [flat put].
  - rewrite IHl, flat_put, (flat_root l). solve_Permutation.
  - rewrite IHr, flat_put, (flat_root r). solve_Permutation.
Qed.

Lemma sift_shape x o t : shape o t -> shape o (siftT x t).
Proof.
  revert x o. induction t as [z|l IHl r IHr z]; intros x o; cbn [siftT]; [inversion 1; by constructor|]. inversion 1; subst.
  destruct (_ && _); [by constructor|]. destruct (_ >=? _); constructor; auto.
Qed.

(** *** Trinkling *)

Definition bound (fs : list tree) (y : K) : Prop := match fs with [] => True | t :: _ => le (root t) y end.

Lemma ascending_cons t fs : ascending (t :: fs) <-> bound fs (root t) /\ ascending fs.
Proof. by destruct fs. Qed.

Lemma big_child_true t y : big_child t y = true -> exists c, le y c /\ forall z, under t z -> le c z.
Proof.
  destruct t as [z|l r z]; cbn [big_child under]; [done|].
  intros [H|H]%orb_true_iff; apply geb_le in H; eexists; (split; [exact H|tauto]).
Qed.

Lemma big_child_false t y : big_child t y = false -> under t y.
Proof. destruct t as [z|l r z]; cbn [big_child under]; [done|]. intros [H1%geb_ge H2%geb_ge]%orb_false_iff. done. Qed.

(** The tree that takes [x] where it stops. *)
Definition settle (trusty : bool) (x : K) (t : tree) : tree := if trusty then t else siftT x t.

Lemma settle_ok trusty x t : subheaps t -> (trusty = true -> x = root t /\ under t x) ->
  heap (settle trusty x t) /\ le x (root (settle trusty x t)) /\ under t (root (settle trusty x t)) /\
  (forall y, le x y -> under t y -> le (root (settle trusty x t)) y).
Proof.
  intros Hs Ht. destruct trusty; cbn [settle].
  - destruct Ht as [-> Hu]; [done|]. split_and!; auto using le_refl. by apply heap_split.
  - destruct (sift_ge x t). split_and!; auto using sift_heap, sift_root.
Qed.

Lemma trinkle_perm trusty x t fs : (trusty = true -> x = root t) -> flats (trinkleT trusty x t fs) ≡ₚ flats (put x t :: fs).
Proof.
  revert trusty t. induction fs as [|t1 fs IH]; intros trusty t Ht; cbn [trinkleT]; fold (settle trusty x t);
    (assert (Hs : flat (settle trusty x t) ≡ₚ flat (put x t)) by
      (destruct trusty; [by rewrite (Ht eq_refl), put_root|apply sift_perm])).
  { cbn. by rewrite Hs. }
  destruct (_ <=? _); [cbn; by rewrite Hs|]. destruct (_ && _); [cbn; by rewrite Hs|].
  cbn [flats]. rewrite IH by done. cbn [flats]. rewrite !flat_put, (flat_root t1). solve_Permutation.
Qed.

Lemma trinkle_ok trusty x t fs :
  Forall heap fs -> ascending fs -> subheaps t -> (trusty = true -> x = root t /\ under t x) ->
  let r := trinkleT trusty x t fs in
  Forall heap r /\ ascending r /\ (forall y, le x y -> under t y -> bound fs y -> bound r y).
Proof.
  revert trusty t. induction fs as [|t1 fs IH]; intros trusty t Hh Ha Hs Ht; cbn [trinkleT];
    destruct (settle_ok trusty x t Hs Ht) as (S1 & S3 & S4 & S5); fold (settle trusty x t).
  { split_and!; [by apply Forall_singleton|done|by intros; apply S5]. }
  assert (Hstop : le (root t1) (root (settle trusty x t)) -> let r := settle trusty x t :: t1 :: fs in
    Forall heap r /\ ascending r /\ (forall y, le x y -> under t y -> bound (t1 :: fs) y -> bound r y)).
  { intros Hle. split_and!; [by apply Forall_cons|by apply ascending_cons|by intros; apply S5]. }
  destruct (Z.leb_spec (cmp (root t1) x) 0) as [Hle|Hgt]; [apply Hstop; by eapply le_trans|].
  assert (Hx : le x (root t1)) by (by apply cmp_gt).
  apply Forall_cons_iff in Hh as [Hh1 Hh]. apply ascending_cons in Ha as [Hb Ha].
  destruct (negb trusty && big_child t (root t1)) eqn:E.
  { apply andb_true_iff in E as [_ (c & Hc & Hu)%big_child_true]. apply Hstop. eauto using le_trans. }
  assert (Hu : under t (root t1)).
  { destruct trusty; [|by apply big_child_false]. destruct (Ht eq_refl) as [_ H]. destruct t; cbn in *; [done|].
    destruct H. split; eauto using le_trans. }
  destruct (proj1 (heap_split t1) Hh1) as [U1 U2].
  destruct (IH false t1 Hh Ha U2 ltac:(done)) as (I1 & I2 & I3). split_and!.
  - apply Forall_cons; [by apply heap_put|done].
  - apply ascending_cons. rewrite root_put. split; [by apply I3|done].
  - intros y ? ? Hy. cbn. by rewrite root_put.
Qed.

Lemma trinkle_shape trusty x os t fs : Forall2 shape os (t :: fs) -> Forall2 shape os (trinkleT trusty x t fs).
Proof.
  revert trusty os t. induction fs as [|t1 fs IH]; intros trusty os t H; cbn [trinkleT]; fold (settle trusty x t);
    inv H as [|o ? os' ? Ho Hos]; assert (shape o (settle trusty x t)) by (destruct trusty; [done|by apply sift_shape]).
  { by constructor. }
  destruct (_ <=? _); [by constructor|]. destruct (_ && _); [by constructor|].
  constructor; [by apply shape_put|by apply IH].
Qed.

(** *** The forest while it grows

    A tree with [a] elements to its right keeps its size if they are too few for
    a tree that could be joined to it; the roots of such trees are in order. *)
Fixpoint finals (a : nat) (os : list nat) (fs : list tree) : Prop :=
  match os, fs with
  | o :: os', t :: fs' => ((a <= leo (o - 1))%nat -> bound fs' (root t)) /\ finals (a + leo o) os' fs'
  | _, _ => True
  end.

Lemma finals_ascending a os fs : length os = length fs -> spaced os ->
  match os with o :: _ => (1 <= o)%nat /\ (a <= leo (o - 1))%nat | [] => True end -> finals a os fs -> ascending fs.
Proof.
  revert a fs. induction os as [|o os IH]; intros a [|t fs] Hlen Hs Ha Hf; try done. destruct Hf as [Hb Hf], Ha as [Ho Ha], Hs as [Hs1 Hs].
  apply ascending_cons. split; [by apply Hb|]. apply (IH (a + leo o)%nat); [cbn in Hlen; lia|done| |done].
  destruct os as [|o1 os]; [done|]. split; [lia|]. transitivity (leo (o + 1)); [|apply leo_mono; lia].
  destruct o as [|o]; [lia|]. replace (S o + 1)%nat with (S (S o)) by lia. rewrite leo_SS. replace (S o - 1)%nat with o in Ha by lia. lia.
Qed.

Lemma ascending_finals a os fs : ascending fs -> finals a os fs.
Proof.
  revert a os. induction fs as [|t fs IH]; intros a [|o os] Ha; try done. apply ascending_cons in Ha as [Hb Ha]. split; [done|by apply IH].
Qed.

(** The invariant of the first loop, with [rem] elements to come: the root of the
    last tree has not been looked at yet. *)
Record growing (rem : nat) (os : list nat) (fs : list tree) : Prop := {
  g_shape : Forall2 shape os fs;
  g_orders : orders os;
  g_spaced : spaced (tail os);
  g_sub : match fs with t :: _ => subheaps t | [] => True end;
  g_heap : Forall heap (tail fs);
  g_final : match os with o :: os' => finals (rem + leo o) os' (tail fs) | [] => True end }.

(** The invariant of the second loop. *)
Record grown (os : list nat) (fs : list tree) : Prop := {
  n_shape : Forall2 shape os fs;
  n_orders : orders os;
  n_heap : Forall heap fs;
  n_asc : ascending fs }.

Lemma growing_one rem x : growing rem [1%nat] [Leaf x].
Proof. split; try done; repeat constructor. Qed.

(** The two last trees are joined under the new element. *)
Lemma growing_join rem o os t t1 fs y : growing (S rem) (o :: S o :: os) (t :: t1 :: fs) ->
  growing rem (S (S o) :: os) (Node t1 (siftT (root t) t) y :: fs).
Proof.
  intros [H1 H2 H3 H4 H5 H6]. cbn [tail] in *. inv H1 as [|? ? ? ? Ht H1']. inv H1' as [|? ? ? ? Ht1 Hfs].
  apply Forall_cons_iff in H5 as [? ?]. destruct H2 as (_ & _ & H2), H3 as [H3 H3']. split.
  - constructor; [|done]. constructor; [done|by apply sift_shape].
  - destruct os as [|o2 os]; cbn in *; [lia|]. destruct H2 as (? & ? & ?). split; [lia|]. split; [lia|]. by destruct os.
  - done.
  - split; [done|by apply sift_heap].
  - done.
  - destruct H6 as [_ H6]. rewrite leo_SS. by replace (rem + (leo (S o) + leo o + 1))%nat with (S rem + leo o + leo (S o))%nat by lia.
Qed.

Lemma not_joined o os : orders (o :: os) -> spaced os -> (forall os', os <> S o :: os') -> (1 <= o)%nat /\ spaced (o :: os).
Proof.
  intros Ho Hs Hn. destruct os as [|o1 os]; [done|]. destruct Ho as (Hlt & Hz & _).
  assert (o1 <> S o) by (intros ->; by apply (Hn os)). split; [|split; [lia|done]]. destruct o; [specialize (Hz eq_refl); lia|lia].
Qed.

(** The order of a tree of one element behind a tree of order [o]. *)
Definition next_order (o : nat) : nat := if (o =? 1)%nat then 0 else 1.

Lemma orders_next o os : orders (o :: os) -> (1 <= o)%nat -> orders (next_order o :: o :: os).
Proof.
  intros H Ho. unfold next_order. destruct (Nat.eqb_spec o 1); cbn [orders] in *; (split; [lia|]; split; [lia|done]).
Qed.

Lemma growing_settle rem o os t fs y : growing (S rem) (o :: os) (t :: fs) -> (forall os', os <> S o :: os') ->
  let final := (S rem <=? leo (o - 1))%nat in
  growing rem (next_order o :: o :: os)
    (Leaf y :: if final then trinkleT false (root t) t fs else siftT (root t) t :: fs).
Proof.
  intros [H1 H2 H3 H4 H5 H6] Hn. cbn [tail] in *. destruct (not_joined o os H2 H3 Hn) as [Ho Hs]. cbv zeta.
  assert (Hleo : (rem + leo (next_order o) = S rem)%nat) by (unfold next_order; destruct (o =? 1)%nat; cbn; lia).
  assert (Hord := orders_next o os H2 Ho).
  assert (Hleaf : shape (next_order o) (Leaf y)) by (unfold next_order; destruct (o =? 1)%nat; constructor).
  destruct (Nat.leb_spec (S rem) (leo (o - 1))) as [Hle|Hgt].
  - assert (Ha : ascending fs).
    { apply (finals_ascending (S rem + leo o) os); [|done| |done].
      - inv H1 as [|? ? ? ? ? Hfs]. by eapply Forall2_length.
      - destruct os as [|o1 os]; [done|]. destruct Hs as [Hs _]. split; [lia|]. transitivity (leo (o + 1)); [|apply leo_mono; lia].
        destruct o as [|o]; [lia|]. replace (S o + 1)%nat with (S (S o)) by lia. rewrite leo_SS. replace (S o - 1)%nat with o in Hle by lia. lia. }
    destruct (trinkle_ok false (root t) t fs H5 Ha H4 ltac:(done)) as (T1 & T2 & _).
    split; cbn [tail]; try done; [constructor; [done|by apply trinkle_shape]|by apply ascending_finals].
  - split; cbn [tail]; try done.
    + constructor; [done|]. inv H1. constructor; [by apply sift_shape|done].
    + apply Forall_cons; [by apply sift_heap|done].
    + rewrite Hleo. split; [lia|done].
Qed.

(** When the last element has been added, the last tree is settled. *)
Lemma growing_end o os t fs : growing 0 (o :: os) (t :: fs) -> grown (o :: os) (trinkleT false (root t) t fs).
Proof.
  intros [H1 H2 H3 H4 H5 H6]. cbn [tail] in *.
  assert (Ha : ascending fs).
  { apply (finals_ascending (leo o) os); [|done| |done].
    - inv H1 as [|? ? ? ? ? Hfs]. by eapply Forall2_length.
    - destruct os as [|o1 os]; [done|]. destruct H2 as [? _]. split; [lia|apply leo_mono; lia]. }
  destruct (trinkle_ok false (root t) t fs H5 Ha H4 ltac:(done)) as (T1 & T2 & _).
  split; [by apply trinkle_shape|done..].
Qed.

(** *** The forest while it shrinks *)

Lemma heap_max t : heap t -> Forall (fun y => le y (root t)) (flat t).
Proof.
  induction t as [x|l IHl r IHr x]; cbn [heap flat root]; [intros; apply Forall_singleton, le_refl|].
  intros (Hl & Hr & H1 & H2). rewrite !Forall_app, Forall_singleton. split_and!; [| |apply le_refl].
  - eapply Forall_impl; [|by apply IHl]. cbv beta. eauto using le_trans.
  - eapply Forall_impl; [|by apply IHr]. cbv beta. eauto using le_trans.
Qed.

Lemma grown_max t fs y : Forall heap (t :: fs) -> ascending (t :: fs) -> le (root t) y -> Forall (fun z => le z y) (flats (t :: fs)).
Proof.
  revert t y. induction fs as [|t1 fs IH]; intros t y [H1 H2]%Forall_cons_iff [Hb Ha]%ascending_cons Hy; cbn [flats]; apply Forall_app; split.
  - apply Forall_nil.
  - eapply Forall_impl; [|by apply heap_max]. cbv beta. eauto using le_trans.
  - apply IH; [done..|]. cbn in Hb. eauto using le_trans.
  - eapply Forall_impl; [|by apply heap_max]. cbv beta. eauto using le_trans.
Qed.

(** The last tree has one element, which is in its place. *)
Lemma grown_leaf o o1 os x t1 fs : grown (o :: o1 :: os) (Leaf x :: t1 :: fs) ->
  grown (o1 :: os) (t1 :: fs) /\ Forall (fun z => le z x) (flats (t1 :: fs)).
Proof.
  intros [H1 H2 H3 H4]. inv H1. apply Forall_cons_iff in H3 as [_ H3]. apply ascending_cons in H4 as [Hb H4].
  destruct H2 as (? & ? & ?). split; [by split|]. by apply grown_max.
Qed.

(** The root of the last tree is in its place; its subtrees become trees. *)
Lemma grown_split o os l r x fs : grown (S (S o) :: os) (Node l r x :: fs) ->
  let fs1 := trinkleT true (root l) l fs in
  let fs2 := trinkleT true (root r) r fs1 in
  grown (o :: S o :: os) fs2 /\ Forall2 shape (S o :: os) fs1 /\ flats fs1 ≡ₚ flats (l :: fs) /\ flats fs2 ≡ₚ flats (r :: fs1) /\
  Forall (fun z => le z x) (flats fs2).
Proof.
  intros [H1 H2 H3 H4]. cbv zeta. inv H1 as [|? ? ? ? Hs Hfs]. inv Hs as [| |? ? ? ? Hl Hr].
  pose proof (grown_max _ _ x H3 H4 (le_refl x)) as Hmax.
  apply Forall_cons_iff in H3 as [(L1 & L2 & Hhl & Hhr) H3]. apply ascending_cons in H4 as [Hb H4].
  destruct (proj1 (heap_split l) Hhl) as [Ul Sl]. destruct (proj1 (heap_split r) Hhr) as [Ur Sr].
  destruct (trinkle_ok true (root l) l fs H3 H4 Sl ltac:(done)) as (T1 & T2 & _).
  pose proof (trinkle_perm true (root l) l fs ltac:(done)) as T3.
  set (fs1 := trinkleT true (root l) l fs) in *.
  destruct (trinkle_ok true (root r) r fs1 T1 T2 Sr ltac:(done)) as (T4 & T5 & _).
  pose proof (trinkle_perm true (root r) r fs1 ltac:(done)) as T6.
  set (fs2 := trinkleT true (root r) r fs1) in *. rewrite put_root in *.
  assert (Hf1 : Forall2 shape (S o :: os) fs1) by (apply trinkle_shape; by constructor).
  assert (Hord : orders (o :: S o :: os)).
  { destruct os as [|o1 os]; cbn [orders] in *; [lia|]. destruct H2 as (? & ? & ?). split; [lia|]. split; [lia|]. split; [lia|]. split; [lia|]. by destruct os. }
  split_and!; [|done|done|done|].
  - split; [|done..]. apply trinkle_shape. by constructor.
  - rewrite T6. cbn [flats] in *. rewrite T3. cbn [flats flat] in *. rewrite !Forall_app in *. tauto.
Qed.
End heap.
End QsortHeap.
