(* ===== verification/QsortMem.v ===== *)
(** * Elements in memory

    The array of qsort.c as a list of elements of [w] bytes: what loads and
    copies at the offset of an element do, and that [cycle], which moves the bytes
    in chunks of at most 256, moves whole elements round. *)

From S2P Require Import Prelude CLib Qsort.

Module QsortMem.
Import Qsort.

(** ** Moving the elements of a list round

    Every place of [ps] gets the element at the next one, and the last gets [x]. *)
Fixpoint rot {A} (x : A) (ps : list nat) (B : list A) : list A :=
  match ps with
  | [] => B
  | i :: ps' => match ps' with
                | [] => <[i := x]> B
                | j :: _ => rot x ps' (match B !! j with Some y => <[i := y]> B | None => B end)
                end
  end.

(** The place after [k]. *)
Fixpoint after (ps : list nat) (k : nat) : option (option nat) :=
  match ps with
  | [] => None
  | i :: ps' => if decide (k = i) then Some (head ps') else after ps' k
  end.

Lemma after_not_in ps k : k ∉ ps -> after ps k = None.
Proof. induction ps as [|i ps IH]; [done|]. intros [? ?]%not_elem_of_cons. cbn. by rewrite decide_False, IH. Qed.

Lemma after_in ps k j : after ps k = Some (Some j) -> j ∈ tail ps.
Proof.
  induction ps as [|i ps IH]; [done|]. cbn [after tail]. destruct (decide (k = i)).
  - intros [= H]. destruct ps; [done|]. cbn in H. injection H as ->. set_solver.
  - intros H%IH. destruct ps; set_solver.
Qed.

Lemma rot_length {A} (x : A) ps B : length (rot x ps B) = length B.
Proof.
  revert B. induction ps as [|i ps IH]; intros B; [done|]. cbn [rot]. destruct ps as [|j ps]; [apply length_insert|].
  rewrite IH. destruct (B !! j); [apply length_insert|done].
Qed.

Lemma rot_lookup {A} (x : A) ps B k : NoDup ps -> Forall (fun i => (i < length B)%nat) ps ->
  rot x ps B !! k = match after ps k with
                    | None => B !! k
                    | Some None => Some x
                    | Some (Some j) => B !! j
                    end.
Proof.
  revert B. induction ps as [|i ps IH]; intros B Hnd Hr; [done|]. apply list.NoDup_cons in Hnd as [Hi Hnd].
  apply Forall_cons_iff in Hr as [Hi' Hr]. cbn [rot after].
  destruct ps as [|j ps].
  { destruct (decide (k = i)) as [->|]; [by apply list_lookup_insert_eq|by apply list_lookup_insert_ne]. }
  assert (is_Some (B !! j)) as [y Hy] by (apply lookup_lt_is_Some; by apply Forall_cons_iff in Hr as [? _]).
  rewrite Hy, IH; [|done|eapply Forall_impl; [|exact Hr]; cbn; intros; by rewrite length_insert].
  destruct (decide (k = i)) as [->|Hne].
  - rewrite after_not_in by done. cbn. by rewrite list_lookup_insert_eq.
  - destruct (after (j :: ps) k) as [[m|]|] eqn:E; [|done|by apply list_lookup_insert_ne].
    apply after_in in E. cbn in E. apply list_lookup_insert_ne. set_solver.
Qed.

(** Overwriting and inserting what the other place held is a swap. *)
Lemma insert_insert_perm {A} (B : list A) i j x y : i <> j -> (i < length B)%nat -> B !! j = Some y ->
  <[j := x]> (<[i := y]> B) ≡ₚ <[i := x]> B.
Proof.
  intros Hne Hi Hj. apply Permutation_inj. split; [by rewrite !length_insert|].
  pose proof (lookup_lt_Some _ _ _ Hj).
  exists (fun k => if decide (k = i) then j else if decide (k = j) then i else k). split.
  - intros a b. repeat case_decide; congruence.
  - intros k. cbv beta. destruct (decide (k = i)) as [->|]; [|destruct (decide (k = j)) as [->|]].
    + by rewrite list_lookup_insert_ne, list_lookup_insert_eq, list_lookup_insert_ne.
    + by rewrite !list_lookup_insert_eq by (by rewrite ?length_insert).
    + by rewrite !list_lookup_insert_ne.
Qed.

Lemma rot_perm {A} (x : A) i ps B : NoDup (i :: ps) -> Forall (fun i => (i < length B)%nat) (i :: ps) ->
  rot x (i :: ps) B ≡ₚ <[i := x]> B.
Proof.
  revert i B. induction ps as [|j ps IH]; intros i B Hnd Hr; [done|].
  apply list.NoDup_cons in Hnd as [Hi Hnd]. apply Forall_cons_iff in Hr as [Hi' Hr].
  change (rot x (i :: j :: ps) B) with (rot x (j :: ps) (match B !! j with Some y => <[i := y]> B | None => B end)).
  assert (is_Some (B !! j)) as [y Hy] by (apply lookup_lt_is_Some; by apply Forall_cons_iff in Hr as [? _]).
  rewrite Hy, IH; [|done|eapply Forall_impl; [|exact Hr]; cbn; intros; by rewrite length_insert].
  apply insert_insert_perm; [set_solver|done|done].
Qed.

(** ** Loads and stores in an element *)

Section mem.
Context (w : nat) (Hw : (0 < w)%nat).

Definition off (i : nat) : Z := Z.of_nat w * Z.of_nat i.
Definition blocks (B : list bytes) : Prop := Forall (fun b => length b = w) B.

Lemma blocks_length B : blocks B -> length (concat B) = (w * length B)%nat.
Proof. induction 1 as [|b B Hb _ IH]; cbn; [lia|]. rewrite length_app, IH, Hb. lia. Qed.

Lemma blocks_split B i b : blocks B -> B !! i = Some b ->
  exists p q, concat B = p ++ b ++ q /\ length p = (w * i)%nat /\ length b = w /\
    forall b', concat (<[i := b']> B) = p ++ b' ++ q.
Proof.
  intros HB Hi. exists (concat (take i B)), (concat (drop (S i) B)). pose proof (lookup_lt_Some _ _ _ Hi).
  split_and!.
  - rewrite <- (take_drop_middle _ _ _ Hi) at 1. by rewrite concat_app.
  - rewrite blocks_length by (by apply Forall_take). rewrite length_take. f_equal. lia.
  - exact (Forall_lookup_1 _ _ _ _ HB Hi).
  - intros b'. rewrite (insert_take_drop B i b') by done. by rewrite concat_app.
Qed.

Lemma blocks_insert B i b : blocks B -> length b = w -> blocks (<[i := b]> B).
Proof. intros. by apply Forall_insert. Qed.

Lemma wp_load_block B i b o n (Q : bytes -> bytes -> Prop) : blocks B -> B !! i = Some b -> 0 <= o -> 0 <= n -> o + n <= Z.of_nat w ->
  Q (sub (Z.to_nat o) (Z.to_nat n) b) (concat B) -> wp (load (off i + o) n) Q (concat B).
Proof.
  intros HB Hi Ho Hn Hon HQ. destruct (blocks_split B i b HB Hi) as (p & q & E & Hp & Hb & _).
  unfold wp, load, off. rewrite E, !length_app.
  rewrite (proj2 (Z.leb_le 0 _)), (proj2 (Z.leb_le 0 n)), (proj2 (Z.leb_le _ (Z.of_nat _))) by lia. cbn [andb].
  replace (sub _ _ (p ++ b ++ q)) with (sub (Z.to_nat o) (Z.to_nat n) b); [by rewrite <- E|].
  unfold sub. rewrite drop_app_ge by lia. replace (Z.to_nat _ - length p)%nat with (Z.to_nat o) by lia.
  rewrite drop_app_le by lia. rewrite take_app_le by (rewrite length_drop; lia). done.
Qed.

Lemma overwrite_app o d (p b q : bytes) : (o + length d <= length b)%nat ->
  overwrite (length p + o) d (p ++ b ++ q) = p ++ overwrite o d b ++ q.
Proof.
  intros H. unfold overwrite. rewrite !length_app. replace (_ - (length p + (length b + length q)))%nat with 0%nat by lia.
  replace (o - length b)%nat with 0%nat by lia. cbn [replicate]. rewrite !app_nil_r.
  rewrite take_app_ge by lia. replace (length p + o - length p)%nat with o by lia. rewrite take_app_le by lia.
  rewrite <- !app_assoc. f_equal. f_equal. f_equal. rewrite drop_app_ge by lia.
  replace (length p + o + length d - length p)%nat with (o + length d)%nat by lia. by rewrite drop_app_le by lia.
Qed.

Lemma wp_store_block B i b o d (Q : unit -> bytes -> Prop) : blocks B -> B !! i = Some b -> 0 <= o -> o + Z.of_nat (length d) <= Z.of_nat w ->
  Q tt (concat (<[i := overwrite (Z.to_nat o) d b]> B)) -> wp (store (off i + o) d) Q (concat B).
Proof.
  intros HB Hi Ho Hon HQ. destruct (blocks_split B i b HB Hi) as (p & q & E & Hp & Hb & Hq). rewrite Hq in HQ.
  unfold wp, store, off. rewrite E, !length_app.
  rewrite (proj2 (Z.leb_le 0 _)), (proj2 (Z.leb_le _ (Z.of_nat _))) by lia. cbn [andb].
  replace (Z.to_nat _) with (length p + Z.to_nat o)%nat by lia. by rewrite overwrite_app by lia.
Qed.

(** ** [cycle] *)

(** What [cycle_chunk] does to the bytes from [o] to [o + l] of every element. *)
Fixpoint rot_chunk (o l : nat) (tmp : bytes) (ps : list nat) (B : list bytes) : list bytes :=
  match ps with
  | [] => B
  | i :: ps' => match ps' with
                | [] => alter (overwrite o tmp) i B
                | j :: _ => rot_chunk o l tmp ps' (alter (overwrite o (sub o l (default [] (B !! j)))) i B)
                end
  end.

Lemma rot_chunk_lookup o l tmp ps B k : NoDup ps ->
  rot_chunk o l tmp ps B !! k = match after ps k with
                                | None => B !! k
                                | Some None => overwrite o tmp <$> B !! k
                                | Some (Some j) => overwrite o (sub o l (default [] (B !! j))) <$> B !! k
                                end.
Proof.
  revert B. induction ps as [|i ps IH]; intros B Hnd; [done|]. apply list.NoDup_cons in Hnd as [Hi Hnd]. cbn [rot_chunk after].
  destruct ps as [|j ps].
  { destruct (decide (k = i)) as [->|]; [by rewrite list_lookup_alter_eq|by apply list_lookup_alter_ne]. }
  rewrite IH by done. destruct (decide (k = i)) as [->|Hne].
  - rewrite after_not_in by done. cbn. by rewrite list_lookup_alter_eq.
  - destruct (after (j :: ps) k) as [[m|]|] eqn:E; [|by rewrite list_lookup_alter_ne..].
    apply after_in in E. cbn in E. rewrite !list_lookup_alter_ne by set_solver. done.
Qed.

Lemma alter_insert_block (f : bytes -> bytes) (i : nat) (b : bytes) (B : list bytes) : B !! i = Some b -> alter f i B = <[i := f b]> B.
Proof.
  intros H. apply list_eq. intros k. destruct (decide (k = i)) as [->|].
  - rewrite list_lookup_alter_eq, H, list_lookup_insert_eq by (by eapply lookup_lt_Some). done.
  - by rewrite list_lookup_alter_ne, list_lookup_insert_ne.
Qed.

Lemma chunk_spec o l tmp ps B (Q : unit -> bytes -> Prop) :
  blocks B -> NoDup ps -> Forall (fun i => (i < length B)%nat) ps -> (o + l <= w)%nat -> length tmp = l ->
  Q tt (concat (rot_chunk o l tmp ps B)) ->
  wp (cycle_chunk (Z.of_nat l) tmp (map (fun i => off i + Z.of_nat o) ps)) Q (concat B).
Proof.
  intros HB Hnd Hr Hol Ht. revert B HB Hr. induction ps as [|i ps IH]; intros B HB Hr HQ; [by apply wp_ret|].
  apply list.NoDup_cons in Hnd as [Hi Hnd]. apply Forall_cons_iff in Hr as [Hi' Hr].
  destruct (lookup_lt_is_Some_2 _ _ Hi') as [b Hb]. pose proof (Forall_lookup_1 _ _ _ _ HB Hb) as Hlb. cbn beta in Hlb.
  cbn [map cycle_chunk rot_chunk] in *. destruct ps as [|j ps]; cbn [map].
  { eapply wp_store_block; [done|done|lia|lia|]. rewrite Nat2Z.id. by rewrite (alter_insert_block _ i b) in HQ. }
  assert (is_Some (B !! j)) as [b' Hb'] by (apply lookup_lt_is_Some; by apply Forall_cons_iff in Hr as [? _]).
  pose proof (Forall_lookup_1 _ _ _ _ HB Hb') as Hlb'. cbn beta in Hlb'.
  rewrite Hb' in HQ. cbn [default] in HQ. rewrite (alter_insert_block _ i b) in HQ by done.
  assert (Hls : length (sub o l b') = l) by (unfold sub; rewrite length_take, length_drop; lia).
  apply wp_bind. unfold memcpy.
  destruct (Z.ltb_spec (Z.abs (off i + Z.of_nat o - (off j + Z.of_nat o))) (Z.of_nat l)) as [Hov|_].
  { exfalso. assert (i <> j) by set_solver. unfold off in Hov. nia. }
  apply wp_bind. eapply wp_load_block; [done|done|lia|lia|lia|]. rewrite !Nat2Z.id.
  eapply wp_store_block; [done|done|lia|lia|]. rewrite Nat2Z.id. apply IH; [done| |eapply Forall_impl; [|exact Hr]; cbn; intros; by rewrite length_insert|done].
  apply blocks_insert; [done|]. rewrite overwrite_length; [done|lia].
Qed.

(** The elements when the first [o] bytes have been moved. *)
Definition mixed (o : nat) (B1 B0 : list bytes) : list bytes := zip_with (fun b1 b0 => take o b1 ++ drop o b0) B1 B0.

Lemma mixed_lookup o B1 B0 k : mixed o B1 B0 !! k = (b1 ← B1 !! k; b0 ← B0 !! k; Some (take o b1 ++ drop o b0)).
Proof. apply lookup_zip_with. Qed.

Lemma overwrite_mixed o d (b1 b0 : bytes) : length b1 = w -> length b0 = w -> (o + length d <= w)%nat -> d = sub o (length d) b1 ->
  overwrite o d (take o b1 ++ drop o b0) = take (o + length d) b1 ++ drop (o + length d) b0.
Proof.
  intros H1 H0 Hl Hd. rewrite (overwrite_eq o (take o b1) (take (length d) (drop o b0)) d (drop (o + length d) b0)).
  - rewrite app_assoc. f_equal. rewrite Hd at 1. unfold sub. by rewrite take_take_drop.
  - by rewrite <- (drop_drop b0), take_drop.
  - rewrite length_take. lia.
  - rewrite length_take, length_drop. lia.
Qed.

Lemma sub_mixed o l (b1 b0 : bytes) : (o <= length b1)%nat -> sub o l (take o b1 ++ drop o b0) = sub o l b0.
Proof. intros. unfold sub. by rewrite drop_app_ge, length_take, Nat.min_l, Nat.sub_diag by (rewrite ?length_take; lia). Qed.

Lemma rot_chunk_mixed o l x ps B : blocks B -> length x = w -> NoDup ps -> Forall (fun i => (i < length B)%nat) ps -> (o + l <= w)%nat ->
  rot_chunk o l (sub o l x) ps (mixed o (rot x ps B) B) = mixed (o + l) (rot x ps B) B.
Proof.
  intros HB Hx Hnd Hr Hol. apply list_eq. intros k. rewrite rot_chunk_lookup by done. rewrite !mixed_lookup, rot_lookup by done.
  assert (Hlen : forall i b, B !! i = Some b -> length b = w) by (intros i b Hb; exact (Forall_lookup_1 _ _ _ _ HB Hb)).
  assert (Hs : forall b, length b = w -> length (sub o l b) = l) by (intros b Hb; unfold sub; rewrite length_take, length_drop; lia).
  destruct (after ps k) as [[j|]|] eqn:E.
  - destruct (B !! j) as [bj|] eqn:Ej; [|done]. cbn. destruct (B !! k) as [bk|] eqn:Ek; [|done]. cbn.
    rewrite mixed_lookup. assert (is_Some (rot x ps B !! j)) as [b1 Hb1] by (apply lookup_lt_is_Some; rewrite rot_length; by eapply lookup_lt_Some).
    rewrite Hb1, Ej. cbn. assert (length b1 = w).
    { revert Hb1. rewrite rot_lookup by done. destruct (after ps j) as [[|]|]; [eauto| |eauto]. by intros [= <-]. }
    rewrite sub_mixed by lia. f_equal. rewrite overwrite_mixed; rewrite ?Hs; eauto.
  - cbn. destruct (B !! k) as [bk|] eqn:Ek; [|done]. cbn. f_equal. rewrite overwrite_mixed; rewrite ?Hs; eauto.
  - destruct (B !! k) as [bk|] eqn:Ek; [|done]. cbn. by rewrite !take_drop.
Qed.

Lemma mixed_blocks o B1 B0 : blocks B1 -> blocks B0 -> blocks (mixed o B1 B0).
Proof.
  intros H1 H0. apply Forall_lookup. intros k b. rewrite mixed_lookup.
  destruct (B1 !! k) as [b1|] eqn:E1; [|done]. destruct (B0 !! k) as [b0|] eqn:E0; [|done]. cbn. intros [= <-].
  pose proof (Forall_lookup_1 _ _ _ _ H1 E1). pose proof (Forall_lookup_1 _ _ _ _ H0 E0). cbn beta in *.
  rewrite length_app, length_take, length_drop. lia.
Qed.

Lemma rot_blocks x ps B : blocks B -> length x = w -> NoDup ps -> Forall (fun i => (i < length B)%nat) ps -> blocks (rot x ps B).
Proof.
  intros HB Hx Hnd Hr. apply Forall_lookup. intros k b. rewrite rot_lookup by done.
  destruct (after ps k) as [[j|]|]; [|by intros [= <-]|]; intros Hb; exact (Forall_lookup_1 _ _ _ _ HB Hb).
Qed.

Lemma cycle_loop_spec fuel o x i ps B (Q : unit -> bytes -> Prop) :
  blocks B -> NoDup (i :: ps) -> Forall (fun i => (i < length B)%nat) (i :: ps) -> B !! i = Some x ->
  (o <= w)%nat -> (w - o < fuel)%nat -> Q tt (concat (rot x (i :: ps) B)) ->
  wp (cycle_loop fuel (Z.of_nat (w - o)) (map (fun i => off i + Z.of_nat o) (i :: ps))) Q (concat (mixed o (rot x (i :: ps) B) B)).
Proof.
  intros HB Hnd Hr Hi. pose proof (Forall_lookup_1 _ _ _ _ HB Hi) as Hx. cbn beta in Hx.
  set (B1 := rot x (i :: ps) B). assert (HB1 : blocks B1) by (by apply rot_blocks).
  revert o. induction fuel as [|fuel IH]; intros o Ho Hf HQ; [lia|]. cbn [cycle_loop].
  destruct (Z.eqb_spec (Z.of_nat (w - o)) 0) as [E|E].
  { apply wp_ret. replace (mixed o B1 B) with B1; [done|]. apply list_eq. intros k. rewrite mixed_lookup.
    destruct (B1 !! k) as [b1|] eqn:E1; [|done]. cbn.
    assert (is_Some (B !! k)) as [b0 E0] by (apply lookup_lt_is_Some; rewrite <- (rot_length x (i :: ps)); by eapply lookup_lt_Some).
    pose proof (Forall_lookup_1 _ _ _ _ HB1 E1). pose proof (Forall_lookup_1 _ _ _ _ HB E0). cbn beta in *.
    rewrite E0. cbn. by rewrite firstn_all2, drop_ge, app_nil_r by lia. }
  set (l := Nat.min 256 (w - o)).
  replace (if 256 <? Z.of_nat (w - o) then 256 else Z.of_nat (w - o)) with (Z.of_nat l)
    by (destruct (Z.ltb_spec 256 (Z.of_nat (w - o))); lia).
  assert (1 <= l /\ o + l <= w)%nat by lia. clearbody l.
  apply wp_bind. cbn [nth_of]. apply wp_ret. apply wp_bind.
  assert (is_Some (B1 !! i)) as [b1 E1].
  { apply lookup_lt_is_Some. unfold B1. rewrite rot_length. by eapply lookup_lt_Some. }
  pose proof (Forall_lookup_1 _ _ _ _ HB1 E1) as Hb1. cbn beta in Hb1.
  eapply (wp_load_block _ i); [by apply mixed_blocks|by rewrite mixed_lookup, E1, Hi|lia..|].
  rewrite !Nat2Z.id, sub_mixed by lia. apply wp_bind, chunk_spec; try done; [by apply mixed_blocks| |lia| |].
  - eapply Forall_impl; [|exact Hr]. cbv beta. intros k Hk. unfold mixed. rewrite length_zip_with. unfold B1. rewrite rot_length. lia.
  - unfold sub. rewrite length_take, length_drop. lia.
  - unfold B1. rewrite rot_chunk_mixed by (done || lia). fold B1.
    replace (Z.of_nat (w - o) - Z.of_nat l) with (Z.of_nat (w - (o + l))) by lia.
    replace (map _ (map _ (i :: ps))) with (map (fun i => off i + Z.of_nat (o + l)) (i :: ps)).
    + apply IH; [lia|lia|done].
    + rewrite map_map. apply map_ext. intros k. lia.
Qed.

(** [cycle] moves the elements round. *)
Lemma cycle_spec x i ps B (Q : unit -> bytes -> Prop) :
  blocks B -> NoDup (i :: ps) -> Forall (fun i => (i < length B)%nat) (i :: ps) -> B !! i = Some x -> (length (i :: ps) < AR)%nat ->
  Q tt (concat (rot x (i :: ps) B)) -> wp (cycle (Z.of_nat w) (map off (i :: ps))) Q (concat B).
Proof.
  intros HB Hnd Hr Hi Hl HQ. unfold cycle. rewrite length_map.
  destruct (Nat.ltb_spec (length (i :: ps)) 2) as [H2|H2].
  { destruct ps; [|cbn in H2; lia]. apply wp_ret. cbn [rot] in HQ. by rewrite list_insert_id in HQ. }
  destruct (Nat.leb_spec AR (length (i :: ps))); [lia|]. rewrite Nat2Z.id.
  pose proof (cycle_loop_spec (S w) 0 x i ps B Q HB Hnd Hr Hi ltac:(lia) ltac:(lia) HQ) as H0.
  rewrite Nat.sub_0_r in H0. erewrite map_ext in H0; [|intros k; exact (Z.add_0_r (off k))].
  replace (mixed 0 (rot x (i :: ps) B) B) with B in H0; [done|].
  apply list_eq. intros k. rewrite mixed_lookup. destruct (B !! k) as [b|] eqn:Eb.
  - assert (is_Some (rot x (i :: ps) B !! k)) as [b1 ->] by (apply lookup_lt_is_Some; rewrite rot_length; by eapply lookup_lt_Some). done.
  - by destruct (rot x (i :: ps) B !! k).
Qed.
End mem.
End QsortMem.
