(* ===== verification/QsortBits.v ===== *)
(** * The two words of smoothsort

    qsort.c keeps the set of orders of its trees in a number of two words, as the
    bits above the order of the last tree.  What the word operations do to that
    number, and to the set. *)

From S2P Require Import Prelude CLib Qsort QsortHeap.

Module QsortBits.
Import Qsort QsortHeap.

(** ** Words and numbers *)

Definition words_of (v : Z) : words := (v mod 2 ^ 64, v / 2 ^ 64).

Lemma shiftl_u64 x n : 1 <= n <= 63 -> to_u64 (Z.shiftl x n) = (x mod 2 ^ (64 - n)) * 2 ^ n.
Proof.
  intros. unfold to_u64. rewrite Z.shiftl_mul_pow2 by lia.
  replace (2 ^ 64) with (2 ^ (64 - n) * 2 ^ n) by (rewrite <- Z.pow_add_r by lia; f_equal; lia).
  by rewrite Z.mul_mod_distr_r by lia.
Qed.

Lemma pow_split n : 1 <= n <= 63 -> 2 ^ 64 = 2 ^ (64 - n) * 2 ^ n.
Proof. intros. rewrite <- Z.pow_add_r by lia. f_equal. lia. Qed.

Lemma parts_shr a b P R : 0 < P -> 0 < R -> 0 <= b < R * P -> ((a * (R * P) + b) / P) mod (R * P) = b / P + (a mod P) * R.
Proof.
  intros HP HR Hb. replace ((a * (R * P) + b) / P) with (a * R + b / P) by (rewrite Z.mul_assoc, Z.div_add_l; lia).
  assert (0 <= b / P < R) by (split; [apply Z.div_pos; lia|apply Z.div_lt_upper_bound; lia]).
  pose proof (Z.mod_pos_bound a P HP). pose proof (Z.div_mod a P ltac:(lia)).
  symmetry. apply (Z.mod_unique _ _ (a / P)); [left; nia|]. nia.
Qed.

Lemma u64_parts v : v = v / 2 ^ 64 * 2 ^ 64 + v mod 2 ^ 64 /\ 0 <= v mod 2 ^ 64 < 2 ^ 64.
Proof. pose proof (Z.div_mod v (2 ^ 64)). pose proof (Z.mod_pos_bound v (2 ^ 64)). lia. Qed.

Lemma shr_words {S} v n (s : S) : 1 <= n <= 63 -> shr (words_of v) n s = (Ret (words_of (v / 2 ^ n)), s).
Proof.
  intros Hn. unfold shr. rewrite Z.geb_leb, (proj2 (Z.leb_gt 64 n)) by lia.
  rewrite (proj2 (Z.leb_gt n 0)), (proj2 (Z.leb_gt 64 n)) by lia. cbn [orb]. unfold ret, words_of. cbn [fst snd].
  rewrite !Z.shiftr_div_pow2, (shiftl_u64 _ (64 - n)) by lia. replace (64 - (64 - n)) with n by lia.
  pose proof (pow_split n Hn) as E. assert (0 < 2 ^ n) by lia. assert (0 < 2 ^ (64 - n)) by lia.
  destruct (u64_parts v) as [Ev Hb]. revert Ev Hb. set (a := v / 2 ^ 64). set (b := v mod 2 ^ 64). intros Ev Hb. rewrite E in Hb.
  rewrite lor_add; [|lia|split; [apply Z.div_pos; lia|apply Z.div_lt_upper_bound; lia]].
  f_equal. f_equal. f_equal.
  - rewrite Ev, E. symmetry. by apply parts_shr.
  - unfold a. rewrite !Z.div_div by lia. f_equal. lia.
Qed.

Lemma shl_words {S} v n (s : S) : 1 <= n <= 63 -> 0 <= v -> v * 2 ^ n < 2 ^ 128 -> shl (words_of v) n s = (Ret (words_of (v * 2 ^ n)), s).
Proof.
  intros Hn Hv Hlt. unfold shl. rewrite Z.geb_leb, (proj2 (Z.leb_gt 64 n)) by lia.
  rewrite (proj2 (Z.leb_gt n 0)), (proj2 (Z.leb_gt 64 n)) by lia. cbn [orb]. unfold ret, words_of. cbn [fst snd].
  rewrite !shiftl_u64, Z.shiftr_div_pow2 by lia.
  pose proof (pow_split n Hn) as E. assert (0 < 2 ^ n) by lia. assert (0 < 2 ^ (64 - n)) by lia.
  destruct (u64_parts v) as [Ev Hb]. revert Ev Hb. set (a := v / 2 ^ 64). set (b := v mod 2 ^ 64). intros Ev Hb. rewrite E in Hb, Ev.
  assert (0 <= a) by (apply Z.div_pos; lia).
  assert (a < 2 ^ (64 - n)).
  { change (2 ^ 128) with (2 ^ 64 * 2 ^ 64) in Hlt. rewrite E in Hlt. nia. }
  rewrite Z.lor_comm, lor_add; [|lia|split; [apply Z.div_pos; lia|apply Z.div_lt_upper_bound; lia]].
  f_equal. f_equal. f_equal.
  - rewrite E, Z.mul_mod_distr_r by lia. f_equal. unfold b. rewrite E. rewrite Z.mod_mod_divide; [done|]. by exists (2 ^ n); lia.
  - rewrite (Z.mod_small a) by lia. rewrite E, Z.div_mul_cancel_r by lia. rewrite Ev at 1.
    replace (a * (2 ^ (64 - n) * 2 ^ n) + b) with ((a * 2 ^ n) * 2 ^ (64 - n) + b) by lia. rewrite Z.div_add_l by lia. lia.
Qed.

(** The lowest bits of the low word. *)
Lemma low_mod v n : 0 <= n <= 64 -> (words_of v).1 mod 2 ^ n = v mod 2 ^ n.
Proof. intros. cbn [words_of fst]. apply Z.mod_mod_divide. exists (2 ^ (64 - n)). rewrite <- Z.pow_add_r by lia. f_equal. lia. Qed.

Lemma words_step v d : 0 <= v mod 2 ^ 64 + d < 2 ^ 64 -> words_of (v + d) = (v mod 2 ^ 64 + d, v / 2 ^ 64).
Proof.
  intros H. destruct (u64_parts v) as [Ev _]. unfold words_of.
  assert (E : v + d = v / 2 ^ 64 * 2 ^ 64 + (v mod 2 ^ 64 + d)) by lia. f_equal.
  - symmetry. apply (Z.mod_unique _ _ (v / 2 ^ 64)); [by left|]. rewrite E at 1. lia.
  - symmetry. apply (Z.div_unique _ _ _ (v mod 2 ^ 64 + d)); [by left|]. rewrite E at 1. lia.
Qed.

(** [p[0] |= 1] and [p[0] ^= 7]. *)
Lemma lor_1_words v : v mod 2 = 0 -> (Z.lor (words_of v).1 1, (words_of v).2) = words_of (v + 1).
Proof.
  intros Hv. pose proof (low_mod v 1 ltac:(lia)) as Hl. change (2 ^ 1) with 2 in Hl. rewrite Hv in Hl. cbn [words_of fst snd] in *.
  destruct (u64_parts v) as [_ Hb]. revert Hl Hb. set (b := v mod 2 ^ 64). intros Hl Hb. pose proof (Z.div_mod b 2 ltac:(lia)).
  assert (b + 1 < 2 ^ 64) by (change (2 ^ 64) with (2 * 2 ^ 63) in *; lia).
  rewrite (words_step v 1) by (fold b; lia). f_equal. fold b.
  replace b with ((b / 2) * 2 ^ 1) at 1 by lia. rewrite Z.lor_comm, lor_add by lia. lia.
Qed.

Lemma lxor_7_words v : v mod 8 = 4 -> (Z.lxor (words_of v).1 7, (words_of v).2) = words_of (v - 1).
Proof.
  intros Hv. pose proof (low_mod v 3 ltac:(lia)) as Hl. change (2 ^ 3) with 8 in Hl. rewrite Hv in Hl. cbn [words_of fst snd] in *.
  destruct (u64_parts v) as [_ Hb]. revert Hl Hb. set (b := v mod 2 ^ 64). intros Hl Hb. pose proof (Z.div_mod b 8 ltac:(lia)).
  replace (v - 1) with (v + -1) by lia. rewrite (words_step v (-1)) by (fold b; lia). f_equal. fold b.
  assert (Hx : forall c, 0 <= c < 8 -> Z.lxor c (b / 8 * 2 ^ 3) = c + b / 8 * 2 ^ 3).
  { intros c Hc. symmetry. apply Z.add_nocarry_lxor, land_disjoint; lia. }
  replace b with (4 + b / 8 * 2 ^ 3) at 1 by lia. rewrite <- Hx by lia.
  rewrite (Z.lxor_comm 4), Z.lxor_assoc. change (Z.lxor 4 7) with 3. rewrite Z.lxor_comm, Hx by lia. lia.
Qed.

Lemma land_3_words v : Z.land (words_of v).1 3 = v mod 4.
Proof. change 3 with (Z.ones 2). rewrite Z.land_ones by lia. by rewrite (low_mod v 2) by lia. Qed.

Lemma is_one_words v : 0 <= v -> is_one (words_of v) = (v =? 1).
Proof.
  intros Hv. unfold is_one, words_of. cbn [fst snd]. destruct (u64_parts v) as [Ev Hb]. assert (0 <= v / 2 ^ 64) by (apply Z.div_pos; lia).
  destruct (Z.eqb_spec v 1) as [->|Hne]; [done|]. apply andb_false_iff. rewrite !Z.eqb_neq.
  destruct (Z.eq_dec (v / 2 ^ 64) 0); [left; lia|right; lia].
Qed.

(** ** The lowest bit *)

(** [x & -x] is the lowest bit of [x]. *)
Lemma land_opp x k m : 0 <= k < 64 -> x = 2 ^ k * (2 * m + 1) -> Z.land x (to_u64 (- x)) = 2 ^ k.
Proof.
  intros Hk Hx. apply Z.bits_inj'. intros i Hi. rewrite Z.land_spec, Z.pow2_bits_eqb by lia. unfold to_u64.
  assert (Hbit : Z.testbit x i = if i <? k then false else Z.testbit (2 * m + 1) (i - k)).
  { rewrite Hx, Z.mul_comm. destruct (Z.ltb_spec i k); [by apply Z.mul_pow2_bits_low|]. by rewrite Z.mul_pow2_bits by lia. }
  destruct (Z.lt_ge_cases i k) as [Hlt|Hge].
  { rewrite Hbit, (proj2 (Z.ltb_lt i k)) by lia. cbn. symmetry. apply Z.eqb_neq. lia. }
  rewrite Hbit, (proj2 (Z.ltb_ge i k)) by lia.
  assert (Hopp : Z.testbit (- x) i = if i =? k then true else negb (Z.testbit (2 * m + 1) (i - k))).
  { replace (- x) with (2 ^ k * (2 * (- m - 1) + 1)) by lia. rewrite Z.mul_comm, Z.mul_pow2_bits by lia.
    destruct (Z.eqb_spec i k) as [->|]; [rewrite Z.sub_diag; apply Z.testbit_odd_0|].
    replace (i - k) with (Z.succ (i - k - 1)) by lia. rewrite !Z.testbit_odd_succ by lia.
    replace (- m - 1) with (Z.lnot m) by (unfold Z.lnot; lia). by rewrite Z.lnot_spec by lia. }
  destruct (Z.lt_ge_cases i 64) as [H64|H64].
  - rewrite Z.mod_pow2_bits_low, Hopp by lia. rewrite (Z.eqb_sym k i). destruct (Z.eqb_spec i k) as [->|].
    + rewrite Z.sub_diag. by rewrite Z.testbit_odd_0.
    + apply andb_negb_r.
  - rewrite Z.mod_pow2_bits_high, andb_false_r by lia. symmetry. apply Z.eqb_neq. lia.
Qed.

Lemma ctz_powers : forallb (fun k => nth (Z.to_nat (Z.shiftr (to_u64 (2 ^ k * 157587932685088877)) 58)) debruijn64 0 =? k) (seqZ 0 64) = true.
Proof. vm_compute. reflexivity. Qed.

Lemma ctz_spec x k m : 0 <= k < 64 -> x = 2 ^ k * (2 * m + 1) -> a_ctz_64 x = k.
Proof.
  intros Hk Hx. unfold a_ctz_64. rewrite (land_opp x k m) by done. pose proof ctz_powers as H. rewrite forallb_forall in H.
  apply Z.eqb_eq, H, list_elem_of_In, elem_of_seqZ. lia.
Qed.

(** [pntz]: the distance to the next bit above the lowest. *)
Lemma pntz_words {S} v k m (s : S) : 1 <= k <= 63 -> v = 1 + 2 ^ k * (2 * m + 1) -> pntz (words_of v) s = (Ret k, s).
Proof.
  intros Hk Hv. unfold pntz, ntz. cbn [words_of fst snd].
  set (x := to_u64 (v mod 2 ^ 64 - 1)).
  assert (Hx : exists m', x = 2 ^ k * (2 * m' + 1)).
  { exists (m mod 2 ^ (63 - k)). unfold x, to_u64. rewrite Zminus_mod_idemp_l. rewrite Hv. replace (1 + _ - 1) with (2 ^ k * (2 * m + 1)) by lia.
    replace (2 ^ 64) with (2 ^ k * (2 * 2 ^ (63 - k))) by (change 2 with (2 ^ 1) at 2; rewrite <- !Z.pow_add_r by lia; f_equal; lia).
    assert (0 < 2 ^ k) by lia. assert (0 < 2 ^ (63 - k)) by lia. rewrite Z.mul_mod_distr_l by lia. f_equal.
    pose proof (Z.mod_pos_bound m (2 ^ (63 - k)) ltac:(lia)). pose proof (Z.div_mod m (2 ^ (63 - k)) ltac:(lia)).
    symmetry. apply (Z.mod_unique _ _ (m / 2 ^ (63 - k))); [left; lia|]. lia. }
  destruct Hx as [m' Hx]. unfold bind. destruct (Z.eqb_spec x 0) as [E|_].
  { exfalso. rewrite Hx in E. assert (0 < 2 ^ k) by lia. apply Z.eq_mul_0 in E as [|]; lia. }
  cbn [ret]. unfold ret. rewrite (ctz_spec x k m') by (done || lia). destruct (Z.eqb_spec k 0); [lia|done].
Qed.

(** ** The set of orders as a number *)

Fixpoint bits (base : nat) (os : list nat) : Z :=
  match os with
  | [] => 0
  | o :: os' => 2 ^ (Z.of_nat o - Z.of_nat base) + bits base os'
  end.

Definition enc (os : list nat) : Z := match os with [] => 0 | o :: _ => bits o os end.

Definition at_least (b : nat) (os : list nat) : Prop := Forall (fun o => (b <= o)%nat) os.

Lemma bits_nonneg b os : 0 <= bits b os.
Proof. induction os as [|o os IH]; cbn [bits]; [done|]. pose proof (Z.pow_nonneg 2 (Z.of_nat o - Z.of_nat b)). lia. Qed.

Lemma bits_shift b k os : at_least (b + k) os -> bits b os = 2 ^ Z.of_nat k * bits (b + k) os.
Proof.
  induction 1 as [|o os Ho _ IH]; cbn [bits]; [lia|]. rewrite IH, Z.mul_add_distr_l, <- Z.pow_add_r by lia. f_equal. f_equal. lia.
Qed.

Lemma orders_tail o os : orders (o :: os) -> at_least (S o) os.
Proof.
  revert o. induction os as [|o1 os IH]; intros o H; [apply Forall_nil|]. destruct H as (Hlt & _ & H). apply Forall_cons; [lia|].
  eapply Forall_impl; [|exact (IH _ H)]. cbn. lia.
Qed.

Lemma enc_cons o os : orders (o :: os) -> enc (o :: os) = 1 + bits o os /\ bits o os mod 2 = 0.
Proof.
  intros H. unfold enc. cbn [bits]. rewrite Z.sub_diag. split; [done|].
  rewrite (bits_shift o 1 os) by (eapply Forall_impl; [|by apply orders_tail]; cbn; lia). change (2 ^ Z.of_nat 1) with 2.
  rewrite Z.mul_comm. apply Z.mod_mul. lia.
Qed.

Lemma enc_cons2 o o1 os : orders (o :: o1 :: os) -> enc (o :: o1 :: os) = 1 + 2 ^ Z.of_nat (o1 - o) * enc (o1 :: os).
Proof.
  intros H. destruct (enc_cons _ _ H) as [-> _]. f_equal. destruct H as (Hlt & _ & H).
  rewrite (bits_shift o (o1 - o)) by (apply Forall_cons; [lia|]; eapply Forall_impl; [|by apply orders_tail]; cbn; lia).
  replace (o + (o1 - o))%nat with o1 by lia. done.
Qed.

Lemma bits_bound b o os N : orders (o :: os) -> (b <= o)%nat -> Forall (fun o => (o <= N)%nat) (o :: os) ->
  bits b (o :: os) <= 2 ^ (Z.of_nat N + 1 - Z.of_nat b) - 2 ^ (Z.of_nat o - Z.of_nat b).
Proof.
  revert o. induction os as [|o1 os IH]; intros o H Hb [Ho HN]%Forall_cons_iff.
  - cbn [bits]. assert (2 ^ (Z.of_nat o - Z.of_nat b + 1) <= 2 ^ (Z.of_nat N + 1 - Z.of_nat b)) by (apply Z.pow_le_mono_r; lia).
    rewrite Z.pow_add_r in H0 by lia. lia.
  - destruct H as (Hlt & _ & H). specialize (IH o1 H ltac:(lia) HN). change (bits b (o :: o1 :: os)) with (2 ^ (Z.of_nat o - Z.of_nat b) + bits b (o1 :: os)).
    assert (Hp : 2 ^ (Z.of_nat o - Z.of_nat b + 1) <= 2 ^ (Z.of_nat o1 - Z.of_nat b)) by (apply Z.pow_le_mono_r; lia).
    rewrite Z.pow_add_r in Hp by lia. lia.
Qed.

Lemma enc_bound os N : orders os -> Forall (fun o => (o <= N)%nat) os -> 0 <= enc os < 2 ^ (Z.of_nat N + 1).
Proof.
  destruct os as [|o os]; [done|]. intros H HN. split; [apply bits_nonneg|]. pose proof (bits_bound o o os N H ltac:(lia) HN) as Hb.
  unfold enc. rewrite Z.sub_diag in Hb. assert (2 ^ (Z.of_nat N + 1 - Z.of_nat o) <= 2 ^ (Z.of_nat N + 1)) by (apply Z.pow_le_mono_r; lia). lia.
Qed.

(** The orders of a forest that the code can handle: with an order above 64 it
    would shift by 64. *)
Definition small (os : list nat) : Prop := orders os /\ Forall (fun o => (o <= 64)%nat) os.

Lemma small_tail o o1 os : small (o :: o1 :: os) -> small (o1 :: os).
Proof. intros [(_ & _ & H) [_ Hs]%Forall_cons_iff]. done. Qed.

(** The step to the next tree. *)
Lemma small_next {S} o o1 os (s : S) : small (o :: o1 :: os) ->
  let k := Z.of_nat o1 - Z.of_nat o in
  pntz (words_of (enc (o :: o1 :: os))) s = (Ret k, s) /\
  shr (words_of (enc (o :: o1 :: os))) k s = (Ret (words_of (enc (o1 :: os))), s).
Proof.
  intros [H Hs]. pose proof H as (Hlt & Hz & H1). apply Forall_cons_iff in Hs as [_ [Ho1 _]%Forall_cons_iff].
  assert (1 <= Z.of_nat o1 - Z.of_nat o <= 63) by (destruct o; [specialize (Hz eq_refl)|]; lia).
  destruct (enc_cons _ _ H1) as [E Hev]. pose proof (Z.div_mod (bits o1 os) 2 ltac:(lia)). cbv zeta.
  rewrite (enc_cons2 _ _ _ H), Nat2Z.inj_sub by lia. split.
  - apply (pntz_words _ _ (bits o1 os / 2)); [done|]. rewrite E. f_equal. f_equal. lia.
  - rewrite shr_words by done. f_equal. f_equal. f_equal. rewrite Z.add_comm, Z.mul_comm, Z.div_add_l by lia.
    rewrite Z.div_small; [lia|]. split; [lia|]. apply Z.pow_gt_1; lia.
Qed.

Lemma small_one o : is_one (words_of (enc [o])) = true.
Proof. unfold enc. cbn [bits]. by rewrite Z.sub_diag. Qed.

Lemma small_more o o1 os : small (o :: o1 :: os) -> is_one (words_of (enc (o :: o1 :: os))) = false.
Proof.
  intros [H Hs]. destruct (enc_bound _ _ H Hs) as [Hn _]. rewrite is_one_words by done. apply Z.eqb_neq.
  rewrite (enc_cons2 _ _ _ H). destruct H as (_ & _ & H). destruct (enc_cons _ _ H) as [-> _]. pose proof (bits_nonneg o1 os).
  assert (0 < 2 ^ Z.of_nat (o1 - o)) by lia. nia.
Qed.

Lemma small_length o os : small (o :: os) -> (length os + o <= 64)%nat.
Proof.
  revert o. induction os as [|o1 os IH]; intros o Hs.
  - destruct Hs as [_ [? _]%Forall_cons_iff]. cbn. lia.
  - pose proof (IH _ (small_tail _ _ _ Hs)). destruct Hs as [(? & _) _]. cbn. lia.
Qed.

Lemma enc_odd o os : orders (o :: os) -> exists m, enc (o :: os) = 2 * m + 1.
Proof.
  intros H. destruct (enc_cons _ _ H) as [-> Hev]. exists (bits o os / 2). pose proof (Z.div_mod (bits o os) 2 ltac:(lia)). lia.
Qed.

(** Whether the two last trees have consecutive orders. *)
Lemma adjacent_words o os : orders (o :: os) ->
  (Z.land (words_of (enc (o :: os))).1 3 =? 3) = match os with o1 :: _ => (o1 =? S o)%nat | [] => false end.
Proof.
  intros H. rewrite land_3_words. destruct os as [|o1 os]; [unfold enc; cbn [bits]; by rewrite Z.sub_diag|].
  rewrite (enc_cons2 _ _ _ H). destruct H as (Hlt & _ & H). destruct (enc_odd _ _ H) as [m ->].
  destruct (Nat.eqb_spec o1 (S o)) as [->|Hne].
  - replace (S o - o)%nat with 1%nat by lia. apply Z.eqb_eq. symmetry. apply (Z.mod_unique _ _ m); [left; lia|]. change (2 ^ Z.of_nat 1) with 2. lia.
  - replace (Z.of_nat (o1 - o)) with (Z.of_nat (o1 - o - 2) + 2) by lia. rewrite Z.pow_add_r by lia. change (2 ^ 2) with 4.
    apply Z.eqb_neq. rewrite <- (Z.mod_unique _ 4 (2 ^ Z.of_nat (o1 - o - 2) * (2 * m + 1)) 1); lia.
Qed.

(** A tree of order [q] is added at the end. *)
Lemma push_words {S} q o os (s : S) : small (q :: o :: os) -> (o - q <= 63)%nat ->
  exists p, shl (words_of (enc (o :: os))) (Z.of_nat o - Z.of_nat q) s = (Ret p, s) /\ (Z.lor p.1 1, p.2) = words_of (enc (q :: o :: os)).
Proof.
  intros Hs H63. pose proof (small_tail _ _ _ Hs) as [H1 Hb1]. destruct (enc_bound _ _ H1 Hb1) as [Hn Hlt]. destruct Hs as [H Hb].
  pose proof H as (Hqo & _ & _). exists (words_of (enc (o :: os) * 2 ^ (Z.of_nat o - Z.of_nat q))). split.
  - apply shl_words; [lia|done|]. assert (2 ^ (Z.of_nat o - Z.of_nat q) <= 2 ^ 63) by (apply Z.pow_le_mono_r; lia).
    change (2 ^ (Z.of_nat 64 + 1)) with (2 ^ 65) in Hlt. change (2 ^ 128) with (2 ^ 65 * 2 ^ 63). nia.
  - rewrite (enc_cons2 _ _ _ H), Nat2Z.inj_sub, Z.add_comm, Z.mul_comm by lia. apply lor_1_words.
    replace (Z.of_nat o - Z.of_nat q) with (Z.of_nat o - Z.of_nat q - 1 + 1) by lia. rewrite Z.pow_add_r by lia. change (2 ^ 1) with 2.
    rewrite (Z.mul_comm _ 2), <- Z.mul_assoc, Z.mul_comm. apply Z.mod_mul. lia.
Qed.

(** The two last trees become one. *)
Lemma join_words {S'} o os (s : S') : orders (o :: S o :: os) -> orders (S (S o) :: os) ->
  exists p, shr (words_of (enc (o :: S o :: os))) 2 s = (Ret p, s) /\ (Z.lor p.1 1, p.2) = words_of (enc (S (S o) :: os)).
Proof.
  intros H1 H2. exists (words_of (bits (S (S o)) os)). destruct (enc_cons _ _ H2) as [E2 Hev]. split.
  - rewrite shr_words by lia. f_equal. f_equal. f_equal. rewrite (enc_cons2 _ _ _ H1). replace (S o - o)%nat with 1%nat by lia.
    change (2 ^ Z.of_nat 1) with 2. change (2 ^ 2) with 4. destruct H1 as (_ & _ & H1). destruct (enc_cons _ _ H1) as [-> _].
    rewrite (bits_shift (S o) 1 os) by (eapply Forall_impl; [|by apply orders_tail]; cbn; lia). change (2 ^ Z.of_nat 1) with 2.
    replace (S o + 1)%nat with (S (S o)) by lia. symmetry. apply (Z.div_unique _ _ _ 3); lia.
  - rewrite lor_1_words by done. f_equal. lia.
Qed.

(** The last tree is replaced by its left subtree. *)
Lemma split_words {S'} o os (s : S') : small (S (S o) :: os) ->
  exists p, shl (words_of (enc (S (S o) :: os))) 2 s = (Ret p, s) /\
    shr (Z.lxor p.1 7, p.2) 1 s = (Ret (words_of (enc (S o :: os))), s).
Proof.
  intros [H Hb]. destruct (enc_bound _ _ H Hb) as [Hn Hlt]. destruct (enc_odd _ _ H) as [m Em]. destruct (enc_cons _ _ H) as [Ec _].
  exists (words_of (enc (S (S o) :: os) * 2 ^ 2)). split.
  - apply shl_words; [lia|done|]. change (2 ^ (Z.of_nat 64 + 1)) with (2 ^ 65) in Hlt. change (2 ^ 128) with (2 ^ 65 * 2 ^ 63). lia.
  - rewrite lxor_7_words by (symmetry; apply (Z.mod_unique _ _ m); [left; lia|]; change (2 ^ 2) with 4; lia).
    rewrite shr_words by lia. f_equal. f_equal. f_equal. change (2 ^ 2) with 4. change (2 ^ 1) with 2.
    assert (E1 : enc (S o :: os) = 1 + 2 * bits (S (S o)) os).
    { unfold enc. cbn [bits]. rewrite Z.sub_diag. f_equal. rewrite (bits_shift (S o) 1 os).
      - by replace (S o + 1)%nat with (S (S o)) by lia.
      - eapply Forall_impl; [|by apply orders_tail]. cbn. lia. }
    rewrite E1, Ec. symmetry. apply (Z.div_unique _ _ _ 1); lia.
Qed.
End QsortBits.
