(* ===== verification/QsortSift.v ===== *)
(** * [sift] and [trinkle] on trees

    The functions of qsort.c that restore the order of heaps, on an array whose
    elements are laid out as trees: they compute [siftT] and [trinkleT] of
    [QsortHeap]. *)

From S2P Require Import Prelude CLib Qsort QsortHeap QsortMem QsortBits.

Module QsortSift.
Import Qsort QsortHeap QsortMem QsortBits.

Section sift.
Context (w : nat).
#[local] Abbreviation off := (off w).
#[local] Abbreviation blocks := (blocks w).
#[local] Abbreviation W := (Z.of_nat w).

Lemma off_add a b : off (a + b) = off a + off b.
Proof. unfold QsortMem.off. lia. Qed.

Lemma off_sub a b : (b <= a)%nat -> off (a - b) = off a - off b.
Proof. intros. replace a with ((a - b) + b)%nat at 2 by lia. rewrite off_add. lia. Qed.

Lemma off_1 : off 1 = W.
Proof. unfold QsortMem.off. lia. Qed.

(** The Leonardo numbers up to the number of elements. *)
Definition table (n : nat) (lp : list Z) : Prop := forall o, (leo o <= n)%nat -> lp !! o = Some (off (leo o)).

Lemma wp_table {S} n lp o z (Q : Z -> S -> Prop) s : table n lp -> (leo o <= n)%nat -> z = Z.of_nat o ->
  Q (off (leo o)) s -> wp (nth_of lp z) Q s.
Proof. intros Ht Ho -> HQ. unfold nth_of. rewrite (proj2 (Z.ltb_ge _ 0)), Nat2Z.id, (Ht o Ho) by lia. by apply wp_ret. Qed.

Context (cmp : bytes -> bytes -> Z) (Hw : (0 < w)%nat).

(** Comparisons of elements. *)
Lemma wp_elem B i b (Q : bytes -> bytes -> Prop) : blocks B -> B !! i = Some b -> Q b (concat B) -> wp (load (off i) W) Q (concat B).
Proof.
  intros HB Hi HQ. rewrite <- (Z.add_0_r (off i)). eapply (wp_load_block w Hw); [done|done|lia..|].
  pose proof (Forall_lookup_1 _ _ _ _ HB Hi) as Hb. cbn beta in Hb. unfold sub. rewrite Nat2Z.id, drop_0. by rewrite firstn_all2 by lia.
Qed.

Lemma wp_compare B i j a b p q (Q : Z -> bytes -> Prop) : blocks B -> B !! i = Some a -> B !! j = Some b -> p = off i -> q = off j ->
  Q (cmp a b) (concat B) -> wp (compare cmp W p q) Q (concat B).
Proof. intros HB Hi Hj -> -> HQ. apply wp_bind, (wp_elem B i a); [done..|]. apply wp_bind, (wp_elem B j b); [done..|]. by apply wp_ret. Qed.

Lemma wp_geq B i j a b p q (Q : bool -> bytes -> Prop) : blocks B -> B !! i = Some a -> B !! j = Some b -> p = off i -> q = off j ->
  Q (cmp a b >=? 0) (concat B) -> wp (geq cmp W p q) Q (concat B).
Proof. intros. apply wp_bind. eapply (wp_compare B i j); [done..|]. by apply wp_ret. Qed.

Lemma wp_both c1 c2 b1 b2 (Q : bool -> bytes -> Prop) s :
  wp c1 (fun b s' => b = b1 /\ s' = s) s -> wp c2 (fun b s' => b = b2 /\ s' = s) s -> Q (b1 && b2) s -> wp (both c1 c2) Q s.
Proof.
  intros H1 H2 HQ. eapply wp_seq; [exact H1|]. intros ? ? [-> ->]. destruct b1; [|by apply wp_ret].
  eapply wp_mono; [exact H2|]. by intros ? ? [-> ->].
Qed.

Lemma wp_either c1 c2 b1 b2 (Q : bool -> bytes -> Prop) s :
  wp c1 (fun b s' => b = b1 /\ s' = s) s -> wp c2 (fun b s' => b = b2 /\ s' = s) s -> Q (b1 || b2) s -> wp (either c1 c2) Q s.
Proof.
  intros H1 H2 HQ. eapply wp_seq; [exact H1|]. intros ? ? [-> ->]. destruct b1; [by apply wp_ret|].
  eapply wp_mono; [exact H2|]. by intros ? ? [-> ->].
Qed.

Lemma wp_push {S} ar x (Q : list Z -> S -> Prop) s : (length ar < AR)%nat -> Q (ar ++ [x]) s -> wp (push ar x) Q s.
Proof. intros H HQ. unfold push. rewrite (proj2 (Nat.ltb_lt _ _) H). by apply wp_ret. Qed.

(** ** The path of [sift] *)

Fixpoint down (x : bytes) (t : tree) (base : nat) : list nat :=
  match t with
  | Leaf _ => []
  | Node l r _ =>
      if (cmp x (root l) >=? 0) && (cmp x (root r) >=? 0) then []
      else if cmp (root l) (root r) >=? 0 then (base + length (flat l) - 1)%nat :: down x l base
      else (base + length (flat l) + length (flat r) - 1)%nat :: down x r (base + length (flat l))
  end.

(** The place of the root. *)
Definition top (base : nat) (t : @tree bytes) : nat := (base + length (flat t) - 1)%nat.

Lemma top_lookup base t (pre post : list bytes) : length pre = base -> (pre ++ flat t ++ post) !! top base t = Some (root t).
Proof.
  intros <-. unfold top. rewrite flat_root, length_app. cbn [length]. rewrite <- app_assoc.
  rewrite lookup_app_r by lia. rewrite lookup_app_r by lia. by replace (_ - _ - _)%nat with 0%nat by lia.
Qed.

Lemma top_insert base t y (pre post : list bytes) : length pre = base -> <[top base t := y]> (pre ++ flat t ++ post) = pre ++ flat (put y t) ++ post.
Proof.
  intros <-. unfold top. rewrite flat_root, flat_put, length_app. cbn [length]. rewrite <- !app_assoc.
  rewrite insert_app_r_alt by lia. f_equal. rewrite insert_app_r_alt by lia. f_equal. by replace (_ - _ - _)%nat with 0%nat by lia.
Qed.

Lemma rot_cons {A} (x y : A) a b c B : B !! b = Some y -> rot x (a :: b :: c) B = rot x (b :: c) (<[a := y]> B).
Proof. intros H. cbn [rot]. by rewrite H. Qed.

Lemma down_rot x t base (pre post : list bytes) : length pre = base ->
  rot x (top base t :: down x t base) (pre ++ flat t ++ post) = pre ++ flat (siftT cmp x t) ++ post.
Proof.
  revert base pre post. induction t as [z|l IHl r IHr z]; intros base pre post Hb; cbn [down siftT].
  { by apply (top_insert base (Leaf z) x). }
  destruct (_ && _); [by apply (top_insert base (Node l r z) x)|].
  destruct (cmp (root l) (root r) >=? 0).
  - fold (top base l). rewrite (rot_cons x (root l)).
    + rewrite top_insert by done. cbn [put flat]. rewrite <- !app_assoc. by rewrite IHl.
    + cbn [flat]. rewrite <- !app_assoc. by apply top_lookup.
  - change (base + length (flat l) + length (flat r) - 1)%nat with (top (base + length (flat l)) r). rewrite (rot_cons x (root r)).
    + rewrite top_insert by done. cbn [put flat]. rewrite <- !app_assoc, (app_assoc pre), IHr by (by rewrite length_app, Hb).
      by rewrite <- app_assoc.
    + cbn [flat]. rewrite <- !app_assoc, (app_assoc pre). apply top_lookup. by rewrite length_app, Hb.
Qed.

(** The places get smaller and stay in the tree; there are fewer than the order. *)
Lemma down_below x o t base : shape o t ->
  Forall (fun i => (base <= i < top base t)%nat) (down x t base) /\ NoDup (down x t base) /\ (length (down x t base) <= o)%nat.
Proof.
  intros Ho. revert base. induction Ho as [z|z|o l r z Hl IHl Hr IHr]; intros base; cbn [down].
  { split; [apply Forall_nil|]. split; [apply NoDup_nil_2|cbn; lia]. }
  { split; [apply Forall_nil|]. split; [apply NoDup_nil_2|cbn; lia]. }
  destruct (_ && _); [split; [apply Forall_nil|]; split; [apply NoDup_nil_2|cbn; lia]|].
  pose proof (flat_pos l). pose proof (flat_pos r). unfold top. cbn [flat]. rewrite !length_app. cbn [length].
  destruct (_ >=? _).
  - destruct (IHl base) as (H1 & H2 & H3). unfold top in H1. split; [|split; [|cbn; lia]].
    + apply Forall_cons; [lia|]. eapply Forall_impl; [|exact H1]. cbn. lia.
    + apply list.NoDup_cons. split; [|done]. intros Hin. rewrite list.Forall_forall in H1. specialize (H1 _ Hin). cbn in H1. lia.
  - destruct (IHr (base + length (flat l))%nat) as (H1 & H2 & H3). unfold top in H1. split; [|split; [|cbn; lia]].
    + apply Forall_cons; [lia|]. eapply Forall_impl; [|exact H1]. cbn. lia.
    + apply list.NoDup_cons. split; [|done]. intros Hin. rewrite list.Forall_forall in H1. specialize (H1 _ Hin). cbn in H1. lia.
Qed.

(** ** [sift] *)

Lemma sift_loop_spec n lp i0 x t : table n lp -> forall fuel o (pre post : list bytes) ar,
  shape o t -> (leo o <= n)%nat -> let B := pre ++ flat t ++ post in
  blocks B -> B !! i0 = Some x -> nth_error ar 0 = Some (off i0) -> (length ar + o <= AR)%nat -> (o < fuel)%nat ->
  wp (sift_loop cmp W fuel (off (top (length pre) t)) (Z.of_nat o) lp ar)
    (fun ar' m => m = concat B /\ ar' = ar ++ map off (down x t (length pre))) (concat B).
Proof.
  intros Hlp. induction t as [z|l IHl r IHr z]; intros fuel o pre post ar Ho Hn B HB Hi0 Ha Hl Hf;
    (destruct fuel as [|fuel]; [lia|]); cbn [sift_loop down].
  { replace (Z.of_nat o <=? 1) with true by (inv Ho; done). apply wp_ret. by rewrite app_nil_r. }
  inv Ho as [| |o' ? ? ? Hsl Hsr]. rewrite (proj2 (Z.leb_gt _ 1)) by lia.
  rewrite leo_SS in Hn. pose proof (shape_length _ _ Hsr) as Hlr. pose proof (flat_pos l). pose proof (flat_pos r).
  apply wp_bind, (wp_table n lp o'); [done|lia|lia|].
  assert (Hrt : off (top (length pre) (Node l r z)) - W = off (top (length pre + length (flat l)) r)).
  { rewrite <- off_1, <- off_sub; unfold top; cbn [flat]; rewrite !length_app; cbn [length]; [|lia]. f_equal. lia. }
  assert (Hlf : off (top (length pre) (Node l r z)) - W - off (leo o') = off (top (length pre) l)).
  { rewrite Hrt, <- Hlr, <- off_sub; unfold top; [|lia]. f_equal. lia. }
  assert (Hroot : B !! top (length pre) l = Some (root l) /\ B !! top (length pre + length (flat l)) r = Some (root r)).
  { subst B. cbn [flat]. rewrite <- !app_assoc. split; [by apply top_lookup|]. rewrite app_assoc. apply top_lookup. by rewrite length_app. }
  destruct Hroot as [Hl1 Hr1].
  apply wp_bind. unfold nth_of at 1. cbn [Z.ltb Z.compare Z.to_nat]. destruct ar as [|a ar]; [done|]. cbn [lookup list_lookup].
  injection Ha as ->. apply wp_ret. apply wp_bind.
  eapply wp_both; [by apply (wp_geq B i0 (top (length pre) l) x (root l))|
    by apply (wp_geq B i0 (top (length pre + length (flat l)) r) x (root r))|].
  destruct (_ && _); [apply wp_ret; by rewrite app_nil_r|].
  apply wp_bind, (wp_geq B (top (length pre) l) (top (length pre + length (flat l)) r) (root l) (root r)); try done.
  cbn [length] in Hl.
  destruct (cmp (root l) (root r) >=? 0); (apply wp_bind, wp_push; [cbn [length]; lia|]).
  - rewrite Hlf. replace (Z.of_nat (S (S o')) - 1) with (Z.of_nat (S o')) by lia.
    replace B with (pre ++ flat l ++ (flat r ++ [z] ++ post)) in * by (subst B; cbn [flat]; by rewrite <- !app_assoc).
    eapply wp_mono; [apply IHl; try done; [lia|rewrite length_app; cbn [length]; lia|lia]|].
    cbv beta. intros ? ? [-> ->]. split; [done|]. by rewrite <- app_assoc.
  - rewrite Hrt. replace (Z.of_nat (S (S o')) - 2) with (Z.of_nat o') by lia.
    replace B with ((pre ++ flat l) ++ flat r ++ ([z] ++ post)) in * by (subst B; cbn [flat]; by rewrite <- !app_assoc).
    replace (length pre + length (flat l))%nat with (length (pre ++ flat l)) in * by (by rewrite length_app).
    eapply wp_mono; [apply IHr; try done; [lia|rewrite length_app; cbn [length]; lia|lia]|].
    cbv beta. intros ? ? [-> ->]. split; [done|]. by rewrite <- app_assoc.
Qed.

Lemma sift_spec n lp o t (pre post : list bytes) (Q : unit -> bytes -> Prop) :
  table n lp -> shape o t -> (leo o <= n)%nat -> (o <= 64)%nat -> blocks (pre ++ flat t ++ post) ->
  Q tt (concat (pre ++ flat (siftT cmp (root t) t) ++ post)) ->
  wp (sift cmp W (off (top (length pre) t)) (Z.of_nat o) lp) Q (concat (pre ++ flat t ++ post)).
Proof.
  intros Hlp Ho Hn H64 HB HQ. pose proof (top_lookup (length pre) t pre post eq_refl) as Ht.
  unfold sift. rewrite Nat2Z.id. eapply wp_seq; [apply (sift_loop_spec n lp (top (length pre) t) (root t) t); try done; [unfold AR; cbn [length]; lia|lia]|].
  cbv beta. intros ar m [-> ->]. destruct (down_below (root t) o t (length pre) Ho) as (H1 & H2 & H3).
  apply (cycle_spec w Hw (root t)); try done.
  - apply list.NoDup_cons. split; [|done]. intros Hin. rewrite list.Forall_forall in H1. specialize (H1 _ Hin). cbn in H1. lia.
  - pose proof (flat_pos t). apply Forall_cons; [unfold top; rewrite !length_app; lia|]. eapply Forall_impl; [|exact H1].
    unfold top. cbv beta. rewrite !length_app. lia.
  - unfold AR. cbn [length]. lia.
  - by rewrite down_rot.
Qed.

(** ** [trinkle] *)

Lemma flats_app (don fs : list (@tree bytes)) : flats (don ++ fs) = flats fs ++ flats don.
Proof. induction don as [|t don IH]; cbn [flats app]; [by rewrite app_nil_r|]. by rewrite IH, app_assoc. Qed.

(** Where [trinkle] stops: the trees it has passed, the tree it is in, and those
    to the left; [path] holds the places of the roots on the way. *)
Record climbed (trusty : bool) (x : bytes) (t : tree) (fs : list tree) (path : list nat) (don : list tree) (tk : tree) (ok : nat)
    (fsk : list tree) (tr : bool) : Prop := {
  c_shape : shape ok tk;
  c_small : (ok <= 64)%nat;
  c_size : (leo ok <= length (flats (t :: fs)))%nat;
  c_rot : forall post, rot x (top (length (flats fs)) t :: path) (flats (t :: fs) ++ post) = flats (don ++ put x tk :: fsk) ++ post;
  c_tree : trinkleT cmp trusty x t fs = don ++ settle cmp tr x tk :: fsk;
  c_trusty : tr = true -> trusty = true /\ path = [] /\ don = [] /\ tk = t /\ fsk = fs;
  c_below : Forall (fun i => (i < top (length (flats fs)) t)%nat) path;
  c_nodup : NoDup path;
  c_length : (length path <= length fs)%nat }.

Lemma climbed_here trusty x t fs o : shape o t -> (o <= 64)%nat ->
  trinkleT cmp trusty x t fs = settle cmp trusty x t :: fs -> climbed trusty x t fs [] [] t o fs trusty.
Proof.
  intros Ho H64 Ht. split; try done; [| |apply NoDup_nil_2|cbn; lia].
  - cbn [flats]. rewrite length_app, (shape_length _ _ Ho). lia.
  - intros post. cbn [rot flats app]. rewrite <- !app_assoc. by apply top_insert.
Qed.

Lemma climbed_step x trusty t t1 fs path don tk ok fsk tr :
  climbed false x t1 fs path don tk ok fsk tr -> trinkleT cmp trusty x t (t1 :: fs) = put (root t1) t :: trinkleT cmp false x t1 fs ->
  climbed trusty x t (t1 :: fs) (top (length (flats fs)) t1 :: path) (put (root t1) t :: don) tk ok fsk tr.
Proof.
  intros [H1 H2 H3 H4 H5 H6 H7 H8 H9] Ht. pose proof (flat_pos t). pose proof (flat_pos t1).
  assert (Htop : (top (length (flats fs)) t1 < top (length (flats (t1 :: fs))) t)%nat) by (unfold top; cbn [flats]; rewrite length_app; lia).
  split; try done.
  - cbn [flats] in *. rewrite length_app. lia.
  - intros post. rewrite (rot_cons x (root t1)).
    + cbn [flats] in *. rewrite <- (app_assoc (flats fs ++ flat t1)). rewrite top_insert by done. rewrite (H4 (flat (put (root t1) t) ++ post)).
      cbn [app flats]. by rewrite <- !app_assoc.
    + cbn [flats]. rewrite <- !app_assoc. by apply top_lookup.
  - by rewrite Ht, H5.
  - intros E. by destruct (H6 E).
  - apply Forall_cons; [done|]. eapply Forall_impl; [|exact H7]. cbv beta. lia.
  - apply list.NoDup_cons. split; [|done]. intros Hin. rewrite list.Forall_forall in H7. specialize (H7 _ Hin). cbn in H7. lia.
  - cbn. lia.
Qed.

(** The test of the subtrees against the root to the left. *)
Lemma wp_children n lp o t y j (pre post : list bytes) (Q : bool -> bytes -> Prop) :
  let B := pre ++ flat t ++ post in
  table n lp -> shape o t -> (leo o <= n)%nat -> blocks B -> B !! j = Some y -> Q (big_child cmp t y) (concat B) ->
  wp (if Z.of_nat o >? 1 then
        let* n := nth_of lp (Z.of_nat o - 2) in
        either (geq cmp W (off (top (length pre) t) - W) (off j)) (geq cmp W (off (top (length pre) t) - W - n) (off j))
      else ret false) Q (concat B).
Proof.
  intros B Hlp Ho Hn HB Hj HQ. subst B. destruct Ho as [z|z|o l r z Hl Hr]; [by apply wp_ret..|].
  rewrite Z.gtb_ltb, (proj2 (Z.ltb_lt 1 _)) by lia. rewrite leo_SS in Hn.
  pose proof (shape_length _ _ Hr) as Hlr. pose proof (flat_pos l). pose proof (flat_pos r).
  apply wp_bind, (wp_table n lp o); [done|lia|lia|].
  assert (Hrt : off (top (length pre) (Node l r z)) - W = off (top (length (pre ++ flat l)) r)).
  { rewrite <- off_1, <- off_sub; unfold top; cbn [flat]; rewrite !length_app; cbn [length]; [|lia]. f_equal. lia. }
  rewrite Hrt. rewrite <- Hlr, <- off_sub by (unfold top; rewrite length_app; lia).
  set (B := pre ++ flat (Node l r z) ++ post) in *.
  assert (Hr1 : B !! top (length (pre ++ flat l)) r = Some (root r)).
  { subst B. cbn [flat]. rewrite <- !app_assoc, app_assoc. by apply top_lookup. }
  assert (Hl1 : B !! (top (length (pre ++ flat l)) r - length (flat r))%nat = Some (root l)).
  { subst B. cbn [flat]. rewrite <- !app_assoc. 
    replace (_ - _)%nat with (top (length pre) l) by (unfold top; rewrite length_app; lia). by apply top_lookup. }
  eapply wp_either; [by apply (wp_geq B _ j _ y _ _ _ HB Hr1 Hj)|by apply (wp_geq B _ j _ y _ _ _ HB Hl1 Hj)|done].
Qed.

Lemma trinkle_loop_spec n lp i0 x : table n lp -> forall fs fuel trusty t o os post ar,
  let B := flats (t :: fs) ++ post in
  Forall2 shape (o :: os) (t :: fs) -> small (o :: os) -> (length (flats (t :: fs)) <= n)%nat -> blocks B ->
  B !! i0 = Some x -> nth_error ar 0 = Some (off i0) -> (length ar + length fs <= AR)%nat -> (length fs < fuel)%nat ->
  wp (trinkle_loop cmp W fuel (off (top (length (flats fs)) t)) (words_of (enc (o :: os))) (Z.of_nat o) trusty lp ar)
    (fun r m => m = concat B /\ exists path don tk ok fsk tr, climbed trusty x t fs path don tk ok fsk tr /\
       r = (off (top (length (flats fsk)) tk), Z.of_nat ok, tr, ar ++ map off path)) (concat B).
Proof.
  intros Hlp. induction fs as [|t1 fs IH]; intros fuel trusty t o os post ar B Hsh Hsm Hn HB Hi0 Ha Hl Hf;
    (destruct fuel as [|fuel]; [cbn in Hf; lia|]); cbn [trinkle_loop];
    inv Hsh as [|? ? ? ? Ho Hos]; pose proof (proj2 Hsm) as [H64 _]%Forall_cons_iff;
    pose proof (shape_length _ _ Ho) as Hlo.
  { inv Hos. rewrite small_one. apply wp_ret. split; [done|]. exists [], [], t, o, [], trusty. rewrite app_nil_r. split; [|done]. by apply climbed_here. }
  inv Hos as [|o1 ? os' ? Ho1 Hos']. rewrite small_more by done.
  assert (HoN : (leo o <= n)%nat) by (cbn [flats] in Hn; rewrite length_app in Hn; lia).
  apply wp_bind, (wp_table n lp o); [done..|]. destruct ar as [|a ar]; [done|]. injection Ha as ->.
  apply wp_bind. cbn [nth_of]. apply wp_ret.
  pose proof (flat_pos t). pose proof (flat_pos t1).
  assert (Hst : off (top (length (flats (t1 :: fs))) t) - off (leo o) = off (top (length (flats fs)) t1)).
  { rewrite <- off_sub; unfold top; cbn [flats]; rewrite length_app; [f_equal|]; lia. }
  rewrite Hst.
  assert (Hr1 : B !! top (length (flats fs)) t1 = Some (root t1)) by (subst B; cbn [flats]; rewrite <- !app_assoc; by apply top_lookup).
  apply wp_bind, (wp_compare B (top (length (flats fs)) t1) i0 (root t1) x); try done.
  assert (Hstop : trinkleT cmp trusty x t (t1 :: fs) = settle cmp trusty x t :: t1 :: fs ->
    wp (ret (off (top (length (flats (t1 :: fs))) t), Z.of_nat o, trusty, off i0 :: ar)) (fun r m => m = concat B /\
      exists path don tk ok fsk tr, climbed trusty x t (t1 :: fs) path don tk ok fsk tr /\
       r = (off (top (length (flats fsk)) tk), Z.of_nat ok, tr, (off i0 :: ar) ++ map off path)) (concat B)).
  { intros E. apply wp_ret. split; [done|]. exists [], [], t, o, (t1 :: fs), trusty. rewrite app_nil_r. split; [by apply climbed_here|done]. }
  destruct (cmp (root t1) x <=? 0) eqn:Ec; [apply Hstop; cbn [trinkleT]; by rewrite Ec|].
  apply (wp_seq _ _ (fun b m => m = concat B /\ b = negb trusty && big_child cmp t (root t1))).
  { destruct trusty; cbn [negb andb]; [by apply wp_ret|]. subst B. cbn [flats] in *. rewrite <- (app_assoc (flats fs ++ flat t1)) in *.
    by eapply (wp_children n lp o t (root t1)). }
  intros ? ? [-> ->]. destruct (negb trusty && big_child cmp t (root t1)) eqn:Eb; [apply Hstop; cbn [trinkleT]; by rewrite Ec, Eb|].
  apply wp_bind, wp_push; [cbn [length] in *; lia|].
  destruct (small_next _ _ _ (concat B) Hsm) as [Hp1 Hp2].
  apply wp_bind, (wp_of_run _ _ _ _ _ Hp1), wp_bind, (wp_of_run _ _ _ _ _ Hp2).
  replace (Z.of_nat o + (Z.of_nat o1 - Z.of_nat o)) with (Z.of_nat o1) by lia.
  subst B. cbn [flats] in *. rewrite length_app in Hn. rewrite <- (app_assoc (flats fs ++ flat t1)) in *.
  eapply wp_mono; [apply (IH fuel false t1 o1 os' (flat t ++ post)); try done;
    [by constructor|by eapply small_tail|cbn [flats]; lia|cbn [length] in *; rewrite length_app; cbn [length]; lia|cbn [length] in *; lia]|].
  cbv beta. intros r m (-> & path & don & tk & ok & fsk & tr & Hc & ->). split; [done|].
  exists (top (length (flats fs)) t1 :: path), (put (root t1) t :: don), tk, ok, fsk, tr. split.
  - apply climbed_step; [done|]. cbn [trinkleT]. by rewrite Ec, Eb.
  - cbn [map]. by rewrite <- app_assoc.
Qed.

Lemma siftT_put x y (t : @tree bytes) : siftT cmp x (put y t) = siftT cmp x t.
Proof. by destruct t. Qed.

Lemma top_put base y t : top base (put y t) = top base t.
Proof. unfold top. by rewrite flat_put, flat_root, !length_app. Qed.

Lemma rot_forall x i ps (B : list bytes) : blocks B -> B !! i = Some x -> NoDup (i :: ps) -> Forall (fun i => (i < length B)%nat) (i :: ps) ->
  blocks (rot x (i :: ps) B).
Proof. intros HB Hi ? ?. apply rot_blocks; try done. exact (Forall_lookup_1 _ _ _ _ HB Hi). Qed.

Lemma trinkle_spec n lp o os t fs trusty (post : list bytes) (Q : unit -> bytes -> Prop) :
  let B := flats (t :: fs) ++ post in
  table n lp -> Forall2 shape (o :: os) (t :: fs) -> small (o :: os) -> (length (flats (t :: fs)) <= n)%nat -> blocks B ->
  Q tt (concat (flats (trinkleT cmp trusty (root t) t fs) ++ post)) ->
  wp (trinkle cmp W (off (top (length (flats fs)) t)) (words_of (enc (o :: os))) (Z.of_nat o) trusty lp) Q (concat B).
Proof.
  intros B Hlp Hsh Hsm Hn HB HQ. unfold trinkle. pose proof (small_length _ _ Hsm) as Hlen.
  assert (Hfs : length fs = length os) by (inv Hsh; symmetry; by eapply Forall2_length).
  assert (Hi : B !! top (length (flats fs)) t = Some (root t)) by (subst B; cbn [flats]; rewrite <- app_assoc; by apply top_lookup).
  eapply wp_seq; [apply (trinkle_loop_spec n lp (top (length (flats fs)) t) (root t) Hlp); try done; [unfold AR; cbn [length]; lia|lia]|].
  cbv beta. intros r m (-> & path & don & tk & ok & fsk & tr & [C1 C2 C3 C4 C5 C6 C7 C8 C9] & ->).
  rewrite C5 in HQ. destruct tr; cbn [negb].
  { destruct (C6 eq_refl) as (-> & -> & -> & -> & ->). by apply wp_ret. }
  assert (Hnd : NoDup (top (length (flats fs)) t :: path)).
  { apply list.NoDup_cons. split; [|done]. intros Hin. rewrite list.Forall_forall in C7. specialize (C7 _ Hin). cbn in C7. lia. }
  assert (Hr : Forall (fun i => (i < length B)%nat) (top (length (flats fs)) t :: path)).
  { pose proof (lookup_lt_Some _ _ _ Hi). apply Forall_cons; [done|]. eapply Forall_impl; [|exact C7]. cbv beta. lia. }
  pose proof (rot_forall _ _ _ _ HB Hi Hnd Hr) as HB'. cbn [app]. change (off ?a :: map off ?l) with (map off (a :: l)).
  apply wp_bind, (cycle_spec w Hw (root t)); try done; [unfold AR; cbn [length]; lia|].
  subst B. rewrite C4, flats_app in *. cbn [flats] in *. rewrite <- !app_assoc in *.
  rewrite <- (top_put _ (root t) tk). apply (sift_spec n lp); try done; [by apply shape_put|lia|].
  by rewrite root_put, siftT_put.
Qed.
End sift.
End QsortSift.
