(* ===== verification/QsortThms.v ===== *)
(** * [qsort] sorts

    The loops of [__qsort_r] of musl's src/stdlib/qsort.c and the theorem about
    the whole function. *)

From S2P Require Import Prelude CLib Qsort QsortHeap QsortMem QsortBits QsortSift.
From Stdlib Require Import Sorted.

Module QsortThms.
Import Qsort QsortHeap QsortMem QsortBits QsortSift.

(** ** The orders that occur *)

#[local] Opaque leo.

(** Two consecutive Leonardo numbers. *)
Fixpoint zleo (n : nat) : Z * Z := match n with O => (1, 1) | S n' => let '(a, b) := zleo n' in (b, b + a + 1) end.

Lemma zleo_spec n : zleo n = (Z.of_nat (leo n), Z.of_nat (leo (S n))).
Proof. induction n as [|n IH]; [done|]. cbn [zleo]. rewrite IH, leo_SS. f_equal. lia. Qed.

Lemma leo_65 : Z.of_nat (leo 65) = 55555780070575.
Proof. pose proof (f_equal fst (zleo_spec 65)) as H. cbn [fst] in H. rewrite <- H. vm_compute. reflexivity. Qed.

Lemma forest_small (os : list nat) (fs : list (@tree bytes)) : Forall2 shape os fs -> orders os ->
  Z.of_nat (length (flats fs)) < 55555780070575 -> small os.
Proof.
  intros Hs Ho Hn. split; [done|]. rewrite <- leo_65 in Hn. clear Ho. induction Hs as [|o t os fs Ht _ IH]; [apply Forall_nil|].
  cbn [flats] in Hn. rewrite length_app, (shape_length _ _ Ht) in Hn. apply Forall_cons; [|apply IH; lia].
  destruct (Nat.le_gt_cases o 64) as [|Hgt]; [done|]. pose proof (leo_mono 65 o ltac:(lia)). lia.
Qed.

Section sort.
Context (cmp : bytes -> bytes -> Z) `{!Order cmp} (w : nat) (Hw : (0 < w)%nat).
#[local] Abbreviation off := (off w).
#[local] Abbreviation blocks := (blocks w).
#[local] Abbreviation W := (Z.of_nat w).

(** ** The table of Leonardo numbers *)

Lemma lp_loop_spec n fuel k (s : bytes) : (1 <= n)%nat -> off n < 2 ^ 62 -> Z.of_nat n < 55555780070575 ->
  (k = 0 \/ leo (S k) < n)%nat -> (k <= 63)%nat -> (63 - k < fuel)%nat ->
  exists lp, lp_loop W fuel (off n) (off (leo k)) (off (leo (S k))) (map (fun i => off (leo i)) (seq 0 (S (S k)))) s = (Ret lp, s) /\ table w n lp.
Proof.
  intros Hn Hsz Hlt. revert k. induction fuel as [|fuel IH]; intros k Hk H63 Hf; [lia|]. cbn [lp_loop].
  assert (Hc : off (leo k) + off (leo (S k)) + W = off (leo (S (S k)))) by (rewrite leo_SS, !off_add, off_1; lia).
  assert (Hrange : 0 <= off (leo (S (S k))) < 2 ^ 64).
  { rewrite leo_SS, !off_add, off_1. assert (W <= off n) by (rewrite <- (off_1 w); unfold QsortMem.off; nia).
    assert (Hnn : forall i, 0 <= off i) by (intros; unfold QsortMem.off; lia). pose proof (Hnn (leo k)). pose proof (Hnn (leo (S k))).
    destruct Hk as [->|Hk]; [rewrite leo_0, leo_1, off_1; lia|].
    assert (forall a b, (a <= b)%nat -> off a <= off b) as Hm by (intros; unfold QsortMem.off; nia).
    pose proof (Hm (leo k) (leo (S k)) (leo_S k)). pose proof (Hm (leo (S k)) n ltac:(lia)). lia. }
  rewrite Hc. unfold to_u64. rewrite Z.mod_small by done.
  replace (map (fun i => off (leo i)) (seq 0 (S (S k))) ++ [off (leo (S (S k)))]) with (map (fun i => off (leo i)) (seq 0 (S (S (S k)))))
    by (rewrite (seq_S (S (S k))), map_app; done).
  assert (Hlt' : off (leo (S (S k))) < off n <-> (leo (S (S k)) < n)%nat) by (unfold QsortMem.off; nia).
  destruct (Z.ltb_spec (off (leo (S (S k)))) (off n)) as [Hl|Hl].
  - apply Hlt' in Hl. destruct (Nat.eq_dec k 63%nat) as [->|]; [exfalso; pose proof leo_65; lia|]. apply IH; [by right|lia|lia].
  - eexists. split; [done|]. intros o Ho. rewrite list_lookup_fmap, lookup_seq_lt; [done|].
    destruct (Nat.lt_ge_cases o (S (S (S k)))) as [|Hge]; [done|]. pose proof (leo_lt (S (S k)) o ltac:(lia)). lia.
Qed.

(** ** The first loop *)

Lemma top_flats (t : @tree bytes) fs : top (length (flats fs)) t = (length (flats (t :: fs)) - 1)%nat.
Proof. unfold top. cbn [flats]. by rewrite length_app. Qed.

Lemma blocks_perm B B' : B ≡ₚ B' -> blocks B -> blocks B'.
Proof. intros Hp. unfold QsortMem.blocks. by rewrite Hp. Qed.

Lemma order_size (os : list nat) (fs : list (@tree bytes)) o t : Forall2 shape (o :: os) (t :: fs) -> (leo o <= length (flats (t :: fs)))%nat.
Proof. intros H. inv H as [|? ? ? ? Ht _]. cbn [flats]. rewrite length_app, (shape_length _ _ Ht). lia. Qed.

Lemma joined_or_not o os : (exists os', os = S o :: os') \/ (forall os', os <> S o :: os').
Proof.
  destruct os as [|o1 os]; [by right|]. destruct (Nat.eq_dec o1 (S o)) as [->|]; [left; by eexists|right; intros os' [= ? ?]; congruence].
Qed.

Lemma build_step_spec n lp rem o os t fs y post (Q : words * Z -> bytes -> Prop) :
  table w n lp -> growing cmp (S rem) (o :: os) (t :: fs) -> (length (flats (t :: fs)) + S rem = n)%nat -> length post = rem ->
  Z.of_nat n < 55555780070575 -> blocks (flats (t :: fs) ++ y :: post) ->
  (forall o' os' t' fs', growing cmp rem (o' :: os') (t' :: fs') -> flats (t' :: fs') ≡ₚ flats (t :: fs) ++ [y] ->
     Q (words_of (enc (o' :: os')), Z.of_nat o') (concat (flats (t' :: fs') ++ post))) ->
  wp (build_step cmp W (off (n - 1)) (off (top (length (flats fs)) t)) (words_of (enc (o :: os))) (Z.of_nat o) lp) Q
    (concat (flats (t :: fs) ++ y :: post)).
Proof.
  intros Hlp G Hn Hpost Hlt HB HQ. pose proof (g_shape _ _ _ _ G) as Hsh. pose proof (g_orders _ _ _ _ G) as Hord.
  pose proof (forest_small _ _ Hsh Hord ltac:(lia)) as Hsm. pose proof (proj2 Hsm) as [H64 _]%Forall_cons_iff.
  pose proof (order_size _ _ _ _ Hsh) as Hleo. assert (Ht : shape o t) by (by inv Hsh).
  pose proof (flat_pos t). assert (Hfl : (1 <= length (flats (t :: fs)))%nat) by (cbn [flats]; rewrite length_app; lia).
  unfold build_step. rewrite adjacent_words by done. apply wp_bind. destruct (joined_or_not o os) as [[os' ->]|Hno].
  - rewrite Nat.eqb_refl. destruct fs as [|t1 fs]; [inv Hsh as [|? ? ? ? ? Hx]; inv Hx|].
    pose proof (growing_join cmp rem o os' t t1 fs y G) as G'. pose proof (g_orders _ _ _ _ G') as Hord'.
    change (flats (t :: t1 :: fs)) with (flats (t1 :: fs) ++ flat t) in *. rewrite <- app_assoc in *.
    apply wp_bind, (sift_spec w cmp Hw n lp); try done; [lia|].
    destruct (join_words o os' (concat (flats (t1 :: fs) ++ flat (siftT cmp (root t) t) ++ y :: post)) Hord Hord') as (p & Hp & Ep).
    apply wp_bind, (wp_of_run _ _ _ _ _ Hp), wp_ret, wp_ret. cbv beta iota zeta. rewrite Ep.
    replace (Z.of_nat o + 2) with (Z.of_nat (S (S o))) by lia.
    assert (Efl : flats (t1 :: fs) ++ flat (siftT cmp (root t) t) ++ y :: post = flats (Node t1 (siftT cmp (root t) t) y :: fs) ++ post)
      by (cbn [flats flat]; by rewrite <- !app_assoc).
    rewrite Efl. apply HQ; [done|]. cbn [flats flat]. rewrite (sift_perm cmp), put_root, <- !app_assoc. done.
  - pose proof (growing_settle cmp rem o os t fs y G Hno) as G'. cbv zeta in G'.
    destruct (not_joined o os Hord (g_spaced _ _ _ _ G) Hno) as [Ho1 _].
    replace (match os with o1 :: _ => (o1 =? S o)%nat | [] => false end) with false
      by (destruct os as [|o1 os']; [done|]; symmetry; apply Nat.eqb_neq; intros ->; by apply (Hno os')).
    apply wp_bind, (wp_table w n lp (o - 1)); [done|pose proof (leo_mono (o - 1) o ltac:(lia)); lia|lia|].
    assert (Hge : (off (leo (o - 1)) >=? off (n - 1) - off (top (length (flats fs)) t)) = (S rem <=? leo (o - 1))%nat).
    { rewrite <- off_sub, top_flats by (rewrite top_flats; lia). replace (n - 1 - (length (flats (t :: fs)) - 1))%nat with (S rem) by lia.
      rewrite Z.geb_leb. apply eq_true_iff_eq. rewrite Z.leb_le, Nat.leb_le. unfold QsortMem.off. nia. }
    rewrite Hge. set (fs' := if (S rem <=? leo (o - 1))%nat then _ else _) in G'.
    assert (Hperm : flats fs' ≡ₚ flats (t :: fs)).
    { subst fs'. destruct (_ <=? _)%nat; [rewrite trinkle_perm by done|cbn [flats]; rewrite sift_perm]; by rewrite put_root. }
    assert (Hsm' : small (next_order o :: o :: os)).
    { eapply forest_small; [exact (g_shape _ _ _ _ G')|exact (g_orders _ _ _ _ G')|].
      cbn [flats flat]. rewrite length_app, Hperm. cbn [length]. lia. }
    apply wp_bind. apply (wp_mono _ (fun _ m => m = concat (flats fs' ++ y :: post))).
    { subst fs'. destruct (_ <=? _)%nat; [by apply (trinkle_spec w cmp Hw n lp); try done; lia|].
      
      assert (E : forall t, flats (t :: fs) ++ y :: post = flats fs ++ flat t ++ y :: post) by (intros; cbn [flats]; by rewrite <- app_assoc).
      rewrite !E in *. apply (sift_spec w cmp Hw n lp); try done; lia. }
    intros _ ? ->. assert (Hq : (o - next_order o <= 63)%nat) by (unfold next_order; destruct (Nat.eqb_spec o 1); lia).
    destruct (push_words (next_order o) o os (concat (flats fs' ++ y :: post)) Hsm' Hq) as (p & Hp & Ep).
    apply (wp_mono _ (fun r m => r = (p, Z.of_nat (next_order o)) /\ m = concat (flats fs' ++ y :: post))).
    { revert Hp. unfold next_order. destruct (Nat.eqb_spec o 1) as [->|]; intros Hp.
      - by apply wp_bind, (wp_of_run _ _ _ _ _ Hp), wp_ret.
      - rewrite (proj2 (Z.eqb_neq _ 1)) by lia. by apply wp_bind, (wp_of_run _ _ _ _ _ Hp), wp_ret. }
    intros ? ? [-> ->]. apply wp_ret. cbv beta iota zeta. rewrite Ep.
    replace (flats fs' ++ y :: post) with (flats (Leaf y :: fs') ++ post) by (cbn [flats flat]; by rewrite <- app_assoc).
    apply HQ; [done|]. cbn [flats flat]. by rewrite Hperm.
Qed.

Lemma off_lt a b : off a < off b <-> (a < b)%nat.
Proof. unfold QsortMem.off. nia. Qed.

Lemma build_spec n lp : table w n lp -> Z.of_nat n < 55555780070575 -> forall rem fuel o os t fs post (Q : Z * words * Z -> bytes -> Prop),
  growing cmp rem (o :: os) (t :: fs) -> (length (flats (t :: fs)) + rem = n)%nat -> length post = rem -> (rem < fuel)%nat ->
  blocks (flats (t :: fs) ++ post) ->
  (forall o' os' t' fs', growing cmp 0 (o' :: os') (t' :: fs') -> flats (t' :: fs') ≡ₚ flats (t :: fs) ++ post ->
     Q (off (top (length (flats fs')) t'), words_of (enc (o' :: os')), Z.of_nat o') (concat (flats (t' :: fs')))) ->
  wp (build cmp W fuel (off (n - 1)) (off (top (length (flats fs)) t)) (words_of (enc (o :: os))) (Z.of_nat o) lp) Q
    (concat (flats (t :: fs) ++ post)).
Proof.
  intros Hlp Hlt. induction rem as [|rem IH]; intros fuel o os t fs post Q G Hn Hpost Hf HB HQ; (destruct fuel as [|fuel]; [lia|]); cbn [build];
    pose proof (flat_pos t); (assert (Hfl : (1 <= length (flats (t :: fs)))%nat) by (cbn [flats]; rewrite length_app; lia)).
  - rewrite (proj2 (Z.ltb_ge _ _)) by (rewrite top_flats; apply Z.ge_le, Znot_lt_ge; rewrite off_lt; lia).
    destruct post; [|done]. rewrite app_nil_r in *. by apply wp_ret, HQ.
  - rewrite (proj2 (Z.ltb_lt _ _)) by (rewrite top_flats; apply off_lt; lia).
    destruct post as [|y post]; [done|]. cbn [length] in Hpost. apply wp_bind, (build_step_spec n lp rem); try done; [lia|].
    intros o' os' t' fs' G' Hperm. cbv beta iota.
    assert (Hlen : length (flats (t' :: fs')) = S (length (flats (t :: fs)))) by (rewrite Hperm, length_app; cbn; lia).
    replace (off (top (length (flats fs)) t) + W) with (off (top (length (flats fs')) t')).
    + apply IH; try done; [lia|lia|lia|eapply blocks_perm; [|exact HB]; by rewrite Hperm, <- app_assoc|].
      intros ? ? ? ? G2 Hp2. apply HQ; [done|]. by rewrite Hp2, Hperm, <- app_assoc.
    + rewrite !top_flats, Hlen, <- (off_1 w), <- off_add. f_equal. lia.
Qed.

(** ** The second loop *)

Lemma unbuild_step_spec n lp o os t fs done (Q : words * Z -> bytes -> Prop) :
  table w n lp -> Z.of_nat n < 55555780070575 -> grown cmp (o :: os) (t :: fs) -> (length (flats (t :: fs)) <= n)%nat -> o :: os <> [1%nat] ->
  blocks (flats (t :: fs) ++ done) ->
  (forall o' os' t' fs' x, grown cmp (o' :: os') (t' :: fs') -> flats (t :: fs) ≡ₚ flats (t' :: fs') ++ [x] ->
     Forall (fun z => cmp z x <= 0) (flats (t' :: fs')) ->
     Q (words_of (enc (o' :: os')), Z.of_nat o') (concat (flats (t' :: fs') ++ x :: done))) ->
  wp (unbuild_step cmp W (off (top (length (flats fs)) t)) (words_of (enc (o :: os))) (Z.of_nat o) lp) Q (concat (flats (t :: fs) ++ done)).
Proof.
  intros Hlp Hlt G Hn Hne HB HQ. pose proof (n_shape _ _ _ G) as Hsh. pose proof (n_orders _ _ _ G) as Hord.
  pose proof (forest_small _ _ Hsh Hord ltac:(lia)) as Hsm. unfold unbuild_step. inv Hsh as [|? ? ? ? Ht Hfs].
  assert (Hcase : (exists x, t = Leaf x /\ (o <= 1)%nat) \/ exists o' l r x, t = Node l r x /\ o = S (S o') /\ shape (S o') l /\ shape o' r)
    by (inv Ht; [left; eauto|left; eauto|right; eauto 9]).
  destruct Hcase as [(x & -> & Ho)|(o' & l & r & x & -> & -> & Hl & Hr)].
  - rewrite (proj2 (Z.leb_le _ 1)) by lia. inv Hfs as [|o1 t1 os' fs' Ht1 Hfs'].
    { exfalso. apply Hne. cbn in Hord. f_equal. lia. }
    set (s := concat _). destruct (small_next _ _ _ s Hsm) as [Hp1 Hp2].
    apply wp_bind, (wp_of_run _ _ _ _ _ Hp1), wp_bind, (wp_of_run _ _ _ _ _ Hp2), wp_ret.
    replace (Z.of_nat o + (Z.of_nat o1 - Z.of_nat o)) with (Z.of_nat o1) by lia. destruct (grown_leaf cmp _ _ _ _ _ _ G) as [G' Hmax].
    subst s. replace (flats (Leaf x :: t1 :: fs') ++ done) with (flats (t1 :: fs') ++ x :: done) by (cbn [flats flat]; by rewrite <- !app_assoc).
    by apply HQ.
  - rewrite (proj2 (Z.leb_gt _ 1)) by lia. set (s := concat _). destruct (split_words o' os s Hsm) as (p & Hp1 & Hp2).
    apply wp_bind, (wp_of_run _ _ _ _ _ Hp1), wp_bind. replace (Z.of_nat (S (S o')) - 2) with (Z.of_nat o') by lia.
    apply (wp_of_run _ _ _ _ _ Hp2). pose proof (shape_length _ _ Hl) as Hll. pose proof (shape_length _ _ Hr) as Hlr.
    pose proof (flat_pos l). pose proof (flat_pos r).
    assert (Hlen : length (flats (Node l r x :: fs)) = (length (flats fs) + length (flat l) + length (flat r) + 1)%nat)
      by (cbn [flats flat]; rewrite !length_app; cbn [length]; lia).
    apply wp_bind, (wp_table w n lp o'); [done|lia|done|].
    destruct (grown_split cmp _ _ _ _ _ _ G) as (G2 & Hsh1 & P1 & P2 & Hmax).
    set (fs1 := trinkleT cmp true (root l) l fs) in *. set (fs2 := trinkleT cmp true (root r) r fs1) in *.
    assert (Htop1 : off (top (length (flats fs)) (Node l r x)) - off (leo o') - W = off (top (length (flats fs)) l)).
    { rewrite <- (off_1 w), <- Hlr, <- !off_sub; rewrite !top_flats, ?Hlen; cbn [flats]; rewrite ?length_app; [f_equal|..]; lia. }
    assert (Hlen1 : length (flats fs1) = (length (flats fs) + length (flat l))%nat) by (rewrite P1; cbn [flats]; by rewrite length_app).
    assert (Htop2 : off (top (length (flats fs)) (Node l r x)) - W = off (top (length (flats fs1)) r)).
    { rewrite <- (off_1 w), <- !off_sub; rewrite !top_flats, ?Hlen; cbn [flats]; rewrite ?length_app, ?Hlen1; [f_equal|..]; lia. }
    rewrite Htop1, Htop2. replace (Z.of_nat o' + 1) with (Z.of_nat (S o')) by lia. pose proof (n_orders _ _ _ G2) as Hord2.
    assert (Hsm2 : small (o' :: S o' :: os)) by (eapply forest_small; [exact (n_shape _ _ _ G2)|done|]; rewrite P2; cbn [flats]; rewrite length_app; lia).
    subst s. replace (flats (Node l r x :: fs) ++ done) with (flats (l :: fs) ++ flat r ++ x :: done) in * by (cbn [flats flat]; by rewrite <- !app_assoc).
    apply wp_bind, (trinkle_spec w cmp Hw n lp (S o') os l fs true); [done|by constructor|by eapply small_tail|cbn [flats]; rewrite length_app; lia|done|].
    fold fs1. set (s := concat _). destruct (push_words o' (S o') os s Hsm2 ltac:(lia)) as (p2 & Hp3 & Ep).
    replace (Z.of_nat (S o') - Z.of_nat o') with 1 in Hp3 by lia. apply wp_bind, (wp_of_run _ _ _ _ _ Hp3). rewrite Ep.
    subst s. replace (flats fs1 ++ flat r ++ x :: done) with (flats (r :: fs1) ++ x :: done) by (cbn [flats]; by rewrite <- app_assoc).
    apply wp_bind, (trinkle_spec w cmp Hw n lp o' (S o' :: os) r fs1 true);
      [done|by constructor|done|cbn [flats]; rewrite length_app; lia| |].
    { eapply blocks_perm; [|exact HB]. cbn [flats]. rewrite P1. cbn [flats]. by rewrite <- !app_assoc. }
    fold fs2. apply wp_ret. clearbody fs2. pose proof (n_shape _ _ _ G2) as Hsh2. destruct fs2 as [|t2 fs2]; [inv Hsh2|].
    apply HQ; [done| |done]. rewrite P2. cbn [flats flat]. rewrite P1. cbn [flats]. by rewrite <- !app_assoc.
Qed.

Lemma unbuild_spec n lp : table w n lp -> Z.of_nat n < 55555780070575 -> forall fuel o os t fs done (Q : unit -> bytes -> Prop),
  grown cmp (o :: os) (t :: fs) -> (length (flats (t :: fs)) <= n)%nat -> (length (flats (t :: fs)) <= fuel)%nat -> blocks (flats (t :: fs) ++ done) ->
  StronglySorted (fun a b => cmp a b <= 0) done -> Forall (fun z => Forall (fun y => cmp z y <= 0) done) (flats (t :: fs)) ->
  (forall B, B ≡ₚ flats (t :: fs) ++ done -> StronglySorted (fun a b => cmp a b <= 0) B -> Q tt (concat B)) ->
  wp (unbuild cmp W fuel (off (top (length (flats fs)) t)) (words_of (enc (o :: os))) (Z.of_nat o) lp) Q (concat (flats (t :: fs) ++ done)).
Proof.
  intros Hlp Hlt. induction fuel as [|fuel IH]; intros o os t fs done Q G Hn Hf HB Hs Hle HQ;
    pose proof (flat_pos t); (assert (Hfl : (1 <= length (flats (t :: fs)))%nat) by (cbn [flats]; rewrite length_app; lia)); [lia|].
  pose proof (n_shape _ _ _ G) as Hsh. pose proof (n_orders _ _ _ G) as Hord. cbn [unbuild].
  pose proof (forest_small _ _ Hsh Hord ltac:(lia)) as Hsm.
  destruct ((Z.of_nat o =? 1) && is_one (words_of (enc (o :: os)))) eqn:E.
  - apply wp_ret. destruct os as [|o1 os]; [|rewrite small_more, andb_false_r in E by done; done].
    rewrite andb_true_iff, Z.eqb_eq in E. inv Hsh as [|? ? ? ? Ht Hfs]. inv Hfs. assert (o = 1%nat) as -> by lia. inv Ht.
    cbn [flats flat app] in *. apply HQ; [done|]. apply Forall_cons_iff in Hle as [Hle _]. by constructor.
  - apply wp_bind, (unbuild_step_spec n lp); try done.
    { intros Hx. injection Hx as -> ->. by rewrite small_one in E. }
    intros o' os' t' fs' x G' Hperm Hmax. cbv beta iota.
    assert (Hlen : length (flats (t :: fs)) = S (length (flats (t' :: fs')))) by (rewrite Hperm, length_app; cbn; lia).
    assert (Hfl' : (1 <= length (flats (t' :: fs')))%nat) by (cbn [flats]; rewrite length_app; pose proof (flat_pos t'); lia).
    replace (off (top (length (flats fs)) t) - W) with (off (top (length (flats fs')) t'))
      by (rewrite <- (off_1 w), <- off_sub, !top_flats by (rewrite !top_flats; lia); f_equal; lia).
    rewrite Hperm, Forall_app, Forall_singleton in Hle. destruct Hle as [Hle Hx].
    apply IH; try done; [lia|lia|eapply blocks_perm; [|exact HB]; by rewrite Hperm, <- app_assoc|by constructor| |].
    + rewrite list.Forall_forall in *. intros z Hz. apply Forall_cons; auto.
    + intros B HpB. apply HQ. by rewrite HpB, Hperm, <- app_assoc.
Qed.

Lemma qsort_run B (Q : unit -> bytes -> Prop) : blocks B -> W * Z.of_nat (length B) < 2 ^ 62 -> Z.of_nat (length B) < 55555780070575 ->
  (forall B', B' ≡ₚ B -> StronglySorted (fun a b => cmp a b <= 0) B' -> Q tt (concat B')) ->
  wp (qsort cmp W (Z.of_nat (length B))) Q (concat B).
Proof.
  intros HB Hsz Hlt HQ. unfold qsort, __qsort_r, to_u64. set (n := length B) in *. rewrite Z.mod_small by lia.
  destruct B as [|x B].
  { subst n. cbn [length]. rewrite Z.mul_0_r. apply wp_ret. apply HQ; [done|constructor]. }
  assert (Hn : (1 <= n)%nat) by (subst n; cbn; lia). rewrite (proj2 (Z.eqb_neq _ 0)) by nia.
  change (W * Z.of_nat n) with (off n) in *. rewrite Nat2Z.id.
  destruct (lp_loop_spec n 94 0 (concat (x :: B)) Hn Hsz Hlt ltac:(by left) ltac:(lia) ltac:(lia)) as (lp & Hlp & Ht).
  cbn [seq map] in Hlp. rewrite !leo_0, !leo_1, !off_1 in Hlp. apply wp_bind, (wp_of_run _ _ _ _ _ Hlp).
  replace (off n - W) with (off (n - 1)) by (rewrite off_sub, off_1 by lia; done).
  apply wp_bind. replace 0 with (off (top (length (flats (K := bytes) [])) (Leaf x))) at 1 by (unfold top, QsortMem.off; cbn; lia).
  replace (1, 0) with (words_of (enc [1%nat])) by done. change 1 with (Z.of_nat 1) at 1.
  apply (build_spec n lp Ht Hlt (length B) n 1 [] (Leaf x) [] B); try done; [apply growing_one|subst n; cbn; lia|].
  intros o os t fs G Hperm. cbv beta iota. change (flats [Leaf x] ++ B) with (x :: B) in Hperm.
  pose proof (g_shape _ _ _ _ G) as Hsh. pose proof (g_orders _ _ _ _ G) as Hord.
  assert (Hlen : length (flats (t :: fs)) = n) by (subst n; by rewrite Hperm).
  pose proof (forest_small _ _ Hsh Hord ltac:(lia)) as Hsm.
  pose proof (growing_end cmp o os t fs G) as G2. pose proof (trinkle_perm cmp false (root t) t fs ltac:(done)) as P2. rewrite put_root in P2.
  assert (HB1 : blocks (flats (t :: fs))) by (eapply blocks_perm; [|exact HB]; by rewrite Hperm).
  rewrite <- (app_nil_r (flats (t :: fs))). apply wp_bind, (trinkle_spec w cmp Hw n lp o os t fs false []); try done; [lia|by rewrite app_nil_r|].
  pose proof (n_shape _ _ _ G2) as Hsh2. destruct (trinkleT cmp false (root t) t fs) as [|t2 fs2]; [inv Hsh2|].
  assert (Hlen2 : length (flats (t2 :: fs2)) = n) by (by rewrite P2).
  replace (top (length (flats fs)) t) with (top (length (flats fs2)) t2) by (rewrite !top_flats; lia).
  apply (unbuild_spec n lp Ht Hlt); try done; [lia|lia| |constructor|by apply Forall_true|].
  - rewrite app_nil_r. eapply blocks_perm; [|exact HB1]. by rewrite P2.
  - intros B' Hp Hs. apply HQ; [|done]. by rewrite Hp, app_nil_r, P2, Hperm.
Qed.
End sort.

(** C5. [qsort] sorts.  For any comparison function that is an order, any width
    and any array of elements of that width, it returns, with the elements of the
    array in ascending order; it makes no access outside the array and its local
    arrays, copies no overlapping regions and shifts by no more than the width of
    a word.  The number of elements is below the 65th Leonardo number (about
    5.5 * 10^13), where the shifts would no longer be defined, and the array is
    smaller than 2^62 bytes. *)
Theorem qsort_sorts (cmp : bytes -> bytes -> Z) (width : nat) (B : list bytes) :
  Order cmp -> (0 < width)%nat -> Forall (fun b => length b = width) B ->
  Z.of_nat width * Z.of_nat (length B) < 2 ^ 62 -> Z.of_nat (length B) < 55555780070575 ->
  exists B', qsort cmp (Z.of_nat width) (Z.of_nat (length B)) (concat B) = (Ret tt, concat B') /\
    B' ≡ₚ B /\ StronglySorted (fun a b => cmp a b <= 0) B'.
Proof.
  intros Ho Hw HB H62 Hn.
  assert (H : wp (qsort cmp (Z.of_nat width) (Z.of_nat (length B))) (fun _ m => exists B', m = concat B' /\ B' ≡ₚ B /\
    StronglySorted (fun a b => cmp a b <= 0) B') (concat B)) by (apply qsort_run; eauto).
  apply wp_run in H as ([] & m & Hrun & B' & -> & ?). eauto.
Qed.

(** Elements of two bytes, compared by the first. *)
Definition first_byte (x y : bytes) : Z := hd 0 x - hd 0 y.
#[local] Instance first_byte_order : Order first_byte.
Proof. split; unfold first_byte; intros; lia. Qed.

Definition ex_elements : list bytes := [[5; 0]; [2; 1]; [9; 2]; [2; 3]; [7; 4]; [1; 5]].

Lemma qsort_sorts_witness :
  exists B', qsort first_byte 2 6 (concat ex_elements) = (Ret tt, concat B') /\
    B' ≡ₚ ex_elements /\ StronglySorted (fun a b => first_byte a b <= 0) B'.
Proof.
  apply (qsort_sorts first_byte 2 ex_elements first_byte_order); [lia| |by vm_compute|by vm_compute].
  unfold ex_elements. repeat (apply Forall_cons; [done|]). apply Forall_nil.
Defined.

(** With 64 the shift of the second word is by the width of the type, although the
    comment of the function only asks for a positive number. *)
Example shl_64 : (shl (S := unit) (1, 0) 64 tt).1 = Stop (Undefined "shift by the width of the type").
Proof. done. Qed.
End QsortThms.
