(* ===== verification/Random.v ===== *)
(** * Random numbers: musl's src/prng/random.c

    The additive generator behind [random], with the state arrays that
    [initstate] and [setstate] switch between.  An array is a list of 32-bit
    words at an address, its first word the place where [savestate] packs the
    indices; an access outside it is a [Crash], and taking the lock twice a
    [Hang]. *)

From S2P Require Import Prelude CLib.

Module Random.

(** ** The static variables *)

Record gen := Gen {
  n : Z; i : Z; j : Z;
  x : Z;                       (** the address of the current array; [x[k]] is its word [k + 1] *)
  lock : bool;
  mem : gmap Z (list Z) }.

Definition set_n v g := Gen v (i g) (j g) (x g) (lock g) (mem g).
Definition set_i v g := Gen (n g) v (j g) (x g) (lock g) (mem g).
Definition set_j v g := Gen (n g) (i g) v (x g) (lock g) (mem g).
Definition set_x v g := Gen (n g) (i g) (j g) v (lock g) (mem g).
Definition set_lock v g := Gen (n g) (i g) (j g) (x g) v (mem g).
Definition set_mem v g := Gen (n g) (i g) (j g) (x g) (lock g) v.

(** [static uint32_t init[]]. *)
Definition init : list Z :=
  [0; 1481765933; 3232861391; 3417699910; 3338875177; 812669700; 553475508; 2592833400;
   1344887256; 2877900904; 1812158119; 2295183359; 3027751999; 1889772843; 2833562353; 4253237756;
   2330030041; 1949118330; 220137366; 1979932169; 1089957932; 1873226917; 2863153495; 1486937972;
   3343516516; 2924690628; 68706223; 1843638549; 212567592; 4030971812; 964776169; 928126551].

(** The generator before any call, with [init] at address 0 and the arrays of the
    program at other addresses. *)
Definition static_gen (arrays : gmap Z (list Z)) : gen := Gen 31 3 0 0 false (<[0 := init]> arrays).

(** [x[k]]. *)
Definition rd (k : Z) : M gen Z := fun g =>
  match mem g !! x g with
  | Some a => if k + 1 <? 0 then (Stop Crash, g)
              else match a !! Z.to_nat (k + 1) with Some v => (Ret v, g) | None => (Stop Crash, g) end
  | None => (Stop Crash, g)
  end.

Definition wr (k v : Z) : M gen unit := fun g =>
  match mem g !! x g with
  | Some a => if (k + 1 <? 0) || (Z.of_nat (length a) <=? k + 1) then (Stop Crash, g)
              else (Ret tt, set_mem (<[x g := <[Z.to_nat (k + 1) := v]> a]> (mem g)) g)
  | None => (Stop Crash, g)
  end.

Definition LOCK : M gen unit := let* g := get in if lock g then stop Hang else modify (set_lock true).
Definition UNLOCK : M gen unit := modify (set_lock false).

(** ** The functions *)

Definition lcg31 (x : Z) : Z := Z.land (to_u32 (1103515245 * x + 12345)) 2147483647.
Definition lcg64 (x : Z) : Z := to_u64 (6364136223846793005 * x + 1).

Definition savestate : M gen Z :=
  let* g := get in
  wr (-1) (Z.lor (Z.lor (Z.shiftl (n g) 16) (Z.shiftl (i g) 8)) (j g)) ;;;
  ret (x g).

Definition loadstate (state : Z) : M gen unit :=
  modify (set_x state) ;;;
  let* v := rd (-1) in modify (set_n (Z.shiftr v 16)) ;;;
  let* v := rd (-1) in modify (set_i (Z.land (Z.shiftr v 8) 255)) ;;;
  let* v := rd (-1) in modify (set_j (Z.land v 255)).

(** The loop of [__srandom] over the words from [k] on. *)
Fixpoint seed_loop (count : nat) (k s : Z) : M gen unit :=
  match count with
  | O => ret tt
  | S count' => wr k (Z.shiftr (lcg64 s) 32) ;;; seed_loop count' (k + 1) (lcg64 s)
  end.

Definition __srandom (seed : Z) : M gen unit :=
  let* g := get in
  if n g =? 0 then wr 0 (to_u32 seed) else
  modify (set_i (if (n g =? 31) || (n g =? 7) then 3 else 1)) ;;;
  modify (set_j 0) ;;;
  seed_loop (Z.to_nat (n g)) 0 seed ;;;
  let* v := rd 0 in wr 0 (Z.lor v 1).

Definition srandom (seed : Z) : M gen unit := LOCK ;;; __srandom seed ;;; UNLOCK.

Definition initstate (seed state size : Z) : M gen (option Z) :=
  if size <? 8 then ret None else
  LOCK ;;;
  let* old := savestate in
  modify (set_n (if size <? 32 then 0 else if size <? 64 then 7 else if size <? 128 then 15 else if size <? 256 then 31 else 63)) ;;;
  modify (set_x state) ;;;
  __srandom seed ;;;
  savestate ;;;
  UNLOCK ;;; ret (Some old).

Definition setstate (state : Z) : M gen Z :=
  LOCK ;;;
  let* old := savestate in
  loadstate state ;;;
  UNLOCK ;;; ret old.

Definition random : M gen Z :=
  LOCK ;;;
  let* g := get in
  let* k :=
    if n g =? 0 then
      let* v := rd 0 in wr 0 (lcg31 v) ;;; ret (lcg31 v)
    else
      let* a := rd (i g) in
      let* b := rd (j g) in
      wr (i g) (to_u32 (a + b)) ;;;
      let* v := rd (i g) in
      modify (fun g => set_i (if i g + 1 =? n g then 0 else i g + 1) g) ;;;
      modify (fun g => set_j (if j g + 1 =? n g then 0 else j g + 1) g) ;;;
      ret (Z.shiftr v 1) in
  UNLOCK ;;; ret k.

(** Calls of [random] in a row. *)
Fixpoint draws (count : nat) : M gen (list Z) :=
  match count with
  | O => ret []
  | S count' => let* k := random in let* l := draws count' in ret (k :: l)
  end.


(** ** The reference: an additive generator

    The view of a generator is its last words, the oldest first; or the one word of
    the linear congruential generator if [n] is 0. *)
Definition sep (n : Z) : nat := if (n =? 31) || (n =? 7) then 3 else 1.

Definition next (n : Z) (v : list Z) : Z * list Z :=
  if n =? 0 then let r := lcg31 (nth 0 v 0) in (r, [r])
  else let r := to_u32 (nth 0 v 0 + nth (length v - sep n) v 0) in (Z.shiftr r 1, tail v ++ [r]).

Fixpoint stream (count : nat) (n : Z) (v : list Z) : list Z :=
  match count with
  | O => []
  | S count' => let '(k, v) := next n v in k :: stream count' n v
  end.

Fixpoint seeds (count : nat) (s : Z) : list Z :=
  match count with
  | O => []
  | S count' => Z.shiftr (lcg64 s) 32 :: seeds count' (lcg64 s)
  end.

Definition rotate (k : nat) (l : list Z) : list Z := drop k l ++ take k l.

(** The view after seeding. *)
Definition seeded (n seed : Z) : list Z :=
  if n =? 0 then [to_u32 seed]
  else rotate (sep n) (<[0%nat := Z.lor (nth 0 (seeds (Z.to_nat n) seed) 0) 1]> (seeds (Z.to_nat n) seed)).

Definition view (g : gen) (a : list Z) : list Z :=
  if n g =? 0 then [nth 1 a 0] else rotate (Z.to_nat (i g)) (take (Z.to_nat (n g)) (drop 1 a)).

(** ** The invariant *)

Definition word (v : Z) : Prop := 0 <= v < 2 ^ 32.

Record Good (g : gen) (a : list Z) : Prop := {
  o_mem : mem g !! x g = Some a;
  o_lock : lock g = false;
  o_words : Forall word a;
  o_n : n g ∈ [0; 7; 15; 31; 63];
  o_len : Z.max 2 (n g + 1) <= Z.of_nat (length a);
  o_i : 0 <= i g < 64;
  o_j : 0 <= j g < 64;
  o_sep : n g <> 0 -> 0 <= j g < n g /\ i g = (j g + Z.of_nat (sep (n g))) mod n g }.

(** The generator as it starts. *)
Lemma static_good arrays : Good (static_gen arrays) init.
Proof.
  split; cbn [static_gen n i j x lock mem]; [apply lookup_insert_eq|done| |set_solver|cbn; lia|lia|lia|by intros _].
  unfold init, word. repeat (apply Forall_cons; [lia|]). apply Forall_nil.
Qed.

(** ** Accesses *)

Lemma wp_rd g a k v (Q : Z -> gen -> Prop) : mem g !! x g = Some a -> 0 <= k + 1 -> a !! Z.to_nat (k + 1) = Some v -> Q v g -> wp (rd k) Q g.
Proof. intros H Hk Hv HQ. unfold wp, rd. rewrite H, (proj2 (Z.ltb_ge _ 0)), Hv by lia. done. Qed.

Lemma wp_wr g a k v (Q : unit -> gen -> Prop) : mem g !! x g = Some a -> 0 <= k + 1 < Z.of_nat (length a) ->
  Q tt (set_mem (<[x g := <[Z.to_nat (k + 1) := v]> a]> (mem g)) g) -> wp (wr k v) Q g.
Proof. intros H Hk HQ. unfold wp, wr. rewrite H, (proj2 (Z.ltb_ge _ 0)), (proj2 (Z.leb_gt _ _)) by lia. done. Qed.

Ltac gfields := cbn [n i j x lock mem set_n set_i set_j set_x set_lock set_mem] in *.

Lemma wp_LOCK g (Q : unit -> gen -> Prop) : lock g = false -> Q tt (set_lock true g) -> wp LOCK Q g.
Proof. intros H HQ. apply wp_bind, wp_get. rewrite H. by apply wp_modify. Qed.

Lemma u32_word z : word (to_u32 z).
Proof. unfold word, to_u32. apply Z.mod_pos_bound. lia. Qed.

Lemma lcg31_range z : 0 <= lcg31 z < 2 ^ 31.
Proof.
  unfold lcg31. change 2147483647 with (Z.ones 31). rewrite Z.land_ones by lia. apply Z.mod_pos_bound. lia.
Qed.

(** Everything but the current array and the indices stays as it is. *)
Definition same (g g' : gen) : Prop :=
  n g' = n g /\ x g' = x g /\ forall y, y <> x g -> mem g' !! y = mem g !! y.

Lemma rotate_lookup (l : list Z) k m : (k < length l)%nat -> (m < length l)%nat ->
  nth m (rotate k l) 0 = nth ((k + m) mod length l) l 0.
Proof.
  intros Hk Hm. unfold rotate. rewrite !nth_lookup. f_equal. destruct (Nat.lt_ge_cases (k + m) (length l)) as [H|H].
  - rewrite Nat.mod_small by done. rewrite lookup_app_l by (rewrite length_drop; lia). by rewrite lookup_drop.
  - replace ((k + m) mod length l)%nat with (k + m - length l)%nat by (apply (Nat.mod_unique _ _ 1); lia).
    rewrite lookup_app_r by (rewrite length_drop; lia). rewrite length_drop, lookup_take_lt by lia. f_equal. lia.
Qed.

(** One step of a circular buffer. *)
Lemma rotate_step (l : list Z) k v : (k < length l)%nat ->
  rotate (if (S k =? length l)%nat then 0 else S k) (<[k := v]> l) = tail (rotate k l) ++ [v].
Proof.
  intros Hk. destruct (lookup_lt_is_Some_2 l k Hk) as [y Hy]. unfold rotate. rewrite (drop_S l y k Hy). cbn [app tail].
  destruct (Nat.eqb_spec (S k) (length l)) as [E|E].
  - rewrite take_0, app_nil_r, drop_0. rewrite (drop_ge l) by lia. cbn [app].
    rewrite insert_take_drop, (drop_ge l) by lia. done.
  - rewrite drop_insert_lt, (take_S_r _ k v) by (lia || by apply list_lookup_insert_eq). rewrite take_insert_ge by lia.
    by rewrite app_assoc.
Qed.

Lemma wrap m s k : 0 < s < m -> 0 <= k < m -> (k + s) mod m = if k + s <? m then k + s else k + s - m.
Proof.
  intros Hs Hk. destruct (Z.ltb_spec (k + s) m); [apply Z.mod_small; lia|]. symmetry. apply (Z.mod_unique _ _ 1); lia.
Qed.

Lemma sep_range m : m ∈ [7; 15; 31; 63] -> 0 < Z.of_nat (sep m) < m.
Proof. intros H. repeat (apply elem_of_cons in H as [->|H]; [by cbn|]). by apply not_elem_of_nil in H. Qed.

Lemma words_insert (a : list Z) (k : nat) v : Forall word a -> word v -> Forall word (<[k := v]> a).
Proof. intros. by apply Forall_insert. Qed.

(** The words of the buffer. *)
Lemma buffer_lookup (a : list Z) (m k : Z) : 0 <= k < m -> m < Z.of_nat (length a) ->
  a !! Z.to_nat (k + 1) = Some (nth (Z.to_nat k) (take (Z.to_nat m) (drop 1 a)) 0).
Proof.
  intros Hk Hm. rewrite nth_lookup, lookup_take_lt, lookup_drop by lia. replace (1 + Z.to_nat k)%nat with (Z.to_nat (k + 1)) by lia.
  by destruct (lookup_lt_is_Some_2 a (Z.to_nat (k + 1)) ltac:(lia)) as [y ->].
Qed.

Lemma buffer_insert (a : list Z) (m k v : Z) : 0 <= k < m -> m < Z.of_nat (length a) ->
  take (Z.to_nat m) (drop 1 (<[Z.to_nat (k + 1) := v]> a)) = <[Z.to_nat k := v]> (take (Z.to_nat m) (drop 1 a)).
Proof.
  intros Hk Hm. destruct a as [|y a]; [cbn in Hm; lia|]. replace (Z.to_nat (k + 1)) with (S (Z.to_nat k)) by lia. cbn [insert list_insert drop].
  rewrite !drop_0. apply take_insert_lt. lia.
Qed.

(** A step in the buffer of [m] words [xs] with the indices [p] and [q]. *)
Lemma next_view m p q (xs : list Z) v : m ∈ [7; 15; 31; 63] -> Z.of_nat (length xs) = m -> 0 <= q < m -> p = (q + Z.of_nat (sep m)) mod m ->
  v = to_u32 (nth (Z.to_nat p) xs 0 + nth (Z.to_nat q) xs 0) -> let step k := if k + 1 =? m then 0 else k + 1 in
  0 <= p < m /\ 0 <= step q < m /\ step p = (step q + Z.of_nat (sep m)) mod m /\
  (Z.shiftr v 1, rotate (Z.to_nat (step p)) (<[Z.to_nat p := v]> xs)) = next m (rotate (Z.to_nat p) xs).
Proof.
  intros Hm Hlen Hq Hp Hv. cbv zeta. pose proof (sep_range m Hm) as Hs. set (s := Z.of_nat (sep m)) in *.
  rewrite wrap in Hp by done.
  assert (Hp0 : 0 <= p < m) by (destruct (Z.ltb_spec (q + s) m); lia). split; [done|]. split; [destruct (Z.eqb_spec (q + 1) m); lia|]. split.
  { destruct (Z.eqb_spec (q + 1) m); rewrite wrap by lia;
      (destruct (Z.eqb_spec (p + 1) m); destruct (Z.ltb_spec (q + s) m); match goal with |- context [?a <? m] => destruct (Z.ltb_spec a m) end; lia). }
  unfold next. replace (m =? 0) with false by (symmetry; apply Z.eqb_neq; lia).
  assert (Hl : length (rotate (Z.to_nat p) xs) = length xs) by (unfold rotate; rewrite length_app, length_drop, length_take; lia).
  rewrite Hl, !rotate_lookup by lia. rewrite Nat.add_0_r, Nat.mod_small by lia.
  replace ((Z.to_nat p + (length xs - sep m)) mod length xs)%nat with (Z.to_nat q).
  - rewrite <- Hv. f_equal. rewrite <- rotate_step by lia. f_equal.
    destruct (Z.eqb_spec (p + 1) m), (Nat.eqb_spec (S (Z.to_nat p)) (length xs)); lia.
  - destruct (Z.ltb_spec (q + s) m); [apply (Nat.mod_unique _ _ 1); lia|apply (Nat.mod_unique _ _ 0); lia].
Qed.

Lemma random_spec g a : Good g a ->
  wp random (fun k g' => exists a', Good g' a' /\ same g g' /\ length a' = length a /\ (k, view g' a') = next (n g) (view g a)) g.
Proof.
  intros G. pose proof G as [Hmem Hlock Hw Hn Hlen Hi Hj Hsep].
  apply wp_bind, wp_LOCK; [done|]. apply wp_bind, wp_get. gfields. apply wp_bind.
  destruct (Z.eqb_spec (n g) 0) as [E0|E0].
  - destruct (lookup_lt_is_Some_2 a 1 ltac:(lia)) as [v Hv].
    apply wp_bind, (wp_rd _ a _ v); [done|lia|done|]. apply wp_bind, (wp_wr _ a); [done|lia|]. gfields. apply wp_ret.
    apply wp_bind, wp_modify, wp_ret. gfields. change (Z.to_nat (0 + 1)) with 1%nat. pose proof (lcg31_range v).
    exists (<[1%nat := lcg31 v]> a). split; [|split; [|split]].
    + split; gfields; try done; [apply lookup_insert_eq|apply words_insert; [done|unfold word; lia]|by rewrite length_insert].
    + split_and!; [done|done|]. intros y Hy. by apply lookup_insert_ne.
    + apply length_insert.
    + unfold next, view. gfields. rewrite E0. cbn [Z.eqb]. rewrite !nth_lookup, list_lookup_insert_eq, Hv by lia. done.
  - assert (Hn' : n g ∈ [7; 15; 31; 63]) by set_solver. destruct (Hsep E0) as [Hj' Hi']. set (m := n g) in *.
    set (xs := take (Z.to_nat m) (drop 1 a)). assert (Hxs : Z.of_nat (length xs) = m) by (unfold xs; rewrite length_take, length_drop; lia).
    set (v := to_u32 (nth (Z.to_nat (i g)) xs 0 + nth (Z.to_nat (j g)) xs 0)).
    destruct (next_view m (i g) (j g) xs v Hn' Hxs Hj' Hi' eq_refl) as (Hir & S1 & S2 & S3).
    apply wp_bind, (wp_rd _ a _ (nth (Z.to_nat (i g)) xs 0)); [done|lia|by apply buffer_lookup; lia|].
    apply wp_bind, (wp_rd _ a _ (nth (Z.to_nat (j g)) xs 0)); [done|lia|by apply buffer_lookup; lia|]. fold v.
    apply wp_bind, (wp_wr _ a); [done|lia|]. gfields. set (a' := <[Z.to_nat (i g + 1) := v]> a).
    apply wp_bind, (wp_rd _ a' _ v); gfields; [apply lookup_insert_eq|lia|apply list_lookup_insert_eq; lia|].
    apply wp_bind, wp_modify, wp_bind, wp_modify, wp_ret, wp_bind, wp_modify, wp_ret. gfields. fold m.
    exists a'. assert (63 < 64) by lia. assert (Hm63 : m <= 63) by (clear -Hn'; set_solver by lia).
    split; [|split; [|split]].
    + split; gfields; fold m; [apply lookup_insert_eq|done|apply words_insert; [done|apply u32_word]|done|by unfold a'; rewrite length_insert| | |].
      * destruct (i g + 1 =? m) eqn:Ei; lia.
      * lia.
      * intros _. by split.
    + split_and!; [done|done|]. intros y Hy. by apply lookup_insert_ne.
    + apply length_insert.
    + unfold view. gfields. fold m. rewrite (proj2 (Z.eqb_neq m 0)) by done. unfold a'. rewrite buffer_insert by lia. exact S3.
Qed.

Lemma draws_spec count g a : Good g a ->
  wp (draws count) (fun rs g' => exists a', Good g' a' /\ same g g' /\ length a' = length a /\ rs = stream count (n g) (view g a)) g.
Proof.
  revert g a. induction count as [|count IH]; intros g a G; cbn [draws stream]; [apply wp_ret; by exists a|].
  eapply wp_seq; [by apply random_spec|]. cbv beta. intros k g1 (a1 & G1 & (E1 & E2 & E3) & L1 & <-).
  eapply wp_seq; [by apply IH|]. cbv beta. intros rs g2 (a2 & G2 & (F1 & F2 & F3) & L2 & ->). apply wp_ret.
  exists a2. split; [done|]. split; [|split; [lia|by rewrite E1]]. split_and!; [congruence|congruence|].
  intros y Hy. rewrite F3, E3 by congruence. done.
Qed.

(** ** Seeding *)

Lemma seeds_length count s : length (seeds count s) = count.
Proof. revert s. induction count as [|count IH]; intros s; [done|]. cbn. by rewrite IH. Qed.

Lemma seeds_words count s : Forall word (seeds count s).
Proof.
  revert s. induction count as [|count IH]; intros s; [apply Forall_nil|]. apply Forall_cons; [|apply IH].
  unfold word, lcg64, to_u64. rewrite Z.shiftr_div_pow2 by lia. pose proof (Z.mod_pos_bound (6364136223846793005 * s + 1) (2 ^ 64) ltac:(lia)).
  split; [apply Z.div_pos; lia|apply Z.div_lt_upper_bound; lia].
Qed.

Lemma lor_1_word v : word v -> word (Z.lor v 1).
Proof.
  unfold word. intros Hv. pose proof (Z.add_lor_land v 1) as H. change 1 with (Z.ones 1) in H at 2. rewrite Z.land_ones in H by lia.
  change (2 ^ 1) with 2 in H. pose proof (Z.mod_pos_bound v 2 ltac:(lia)). pose proof (Z.div_mod v 2 ltac:(lia)).
  change (2 ^ 32) with (2 * 2 ^ 31) in *. lia.
Qed.

Lemma seed_loop_spec count g a k s : mem g !! x g = Some a -> 0 <= k -> k + 1 + Z.of_nat count <= Z.of_nat (length a) ->
  wp (seed_loop count k s) (fun _ g' => g' = set_mem (<[x g := take (Z.to_nat (k + 1)) a ++ seeds count s ++ drop (Z.to_nat (k + 1) + count) a]> (mem g)) g) g.
Proof.
  revert g a k s. induction count as [|count IH]; intros g a k s Hm Hk Hl; cbn [seed_loop seeds].
  { apply wp_ret. rewrite Nat.add_0_r. cbn [app]. rewrite take_drop, insert_id by done. by destruct g. }
  apply wp_bind, (wp_wr _ a); [done|lia|].
  eapply wp_mono; [apply (IH _ (<[Z.to_nat (k + 1) := Z.shiftr (lcg64 s) 32]> a)); gfields; [apply lookup_insert_eq|lia|rewrite length_insert; lia]|].
  cbv beta. intros _ g' ->. gfields. unfold set_mem. gfields. f_equal. rewrite insert_insert_eq. f_equal.
  replace (Z.to_nat (k + 1 + 1)) with (S (Z.to_nat (k + 1))) by lia.
  rewrite (take_S_r _ _ (Z.shiftr (lcg64 s) 32)) by (apply list_lookup_insert_eq; lia).
  rewrite take_insert_ge, drop_insert_lt by lia. rewrite <- app_assoc. cbn [app]. f_equal. f_equal. f_equal. f_equal. lia.
Qed.

Lemma srandom_inner g a seed : mem g !! x g = Some a -> Forall word a -> n g ∈ [0; 7; 15; 31; 63] -> Z.max 2 (n g + 1) <= Z.of_nat (length a) ->
  0 <= i g < 64 -> 0 <= j g < 64 ->
  wp (__srandom seed) (fun _ g' => exists a', Good (set_lock false g') a' /\ same g g' /\ lock g' = lock g /\
    length a' = length a /\ view g' a' = seeded (n g) seed) g.
Proof.
  intros Hmem Hw Hn Hlen Hi Hj. unfold __srandom. apply wp_bind, wp_get. unfold seeded. destruct (Z.eqb_spec (n g) 0) as [E0|E0].
  - apply (wp_wr _ a); [done|lia|]. change (Z.to_nat (0 + 1)) with 1%nat. exists (<[1%nat := to_u32 seed]> a). split; [|split; [|split; [done|split]]].
    + split; gfields; [apply lookup_insert_eq|done|apply words_insert; [done|apply u32_word]|done|by rewrite length_insert|done|done|done].
    + split_and!; [done|done|]. intros y Hy. by apply lookup_insert_ne.
    + apply length_insert.
    + unfold view. gfields. rewrite E0. cbn [Z.eqb]. by rewrite nth_lookup, list_lookup_insert_eq by lia.
  - assert (Hn' : n g ∈ [7; 15; 31; 63]) by set_solver. pose proof (sep_range _ Hn') as Hs. set (m := n g) in *.
    apply wp_bind, wp_modify, wp_bind, wp_modify. set (ss := seeds (Z.to_nat m) seed).
    pose proof (seeds_length (Z.to_nat m) seed) as Hss. fold ss in Hss.
    eapply wp_seq; [apply (seed_loop_spec _ _ a); gfields; [done|lia|lia]|]. cbv beta. intros _ g' ->. gfields.
    change (Z.to_nat (0 + 1)) with 1%nat. fold ss. destruct a as [|hd a]; [cbn in Hlen; lia|]. cbn [take app drop Nat.add]. rewrite take_0. cbn [app].
    set (a1 := hd :: ss ++ drop (Z.to_nat m) a).
    assert (Hv : a1 !! Z.to_nat (0 + 1) = Some (nth 0 ss 0)).
    { change ((ss ++ drop (Z.to_nat m) a) !! 0%nat = Some (nth 0 ss 0)). rewrite lookup_app_l, nth_lookup by lia. by destruct (lookup_lt_is_Some_2 ss 0 ltac:(lia)) as [y ->]. }
    apply wp_bind, (wp_rd _ a1 _ (nth 0 ss 0)); gfields; [apply lookup_insert_eq|lia|done|].
    apply (wp_wr _ a1); gfields; [apply lookup_insert_eq|pose proof (lookup_lt_Some _ _ _ Hv); lia|]. gfields. rewrite insert_insert_eq.
    change (Z.to_nat (0 + 1)) with 1%nat. apply Forall_cons_iff in Hw as [Hw0 Hw]. pose proof (seeds_words (Z.to_nat m) seed) as Hsw. fold ss in Hsw.
    assert (Ha2 : <[1%nat := Z.lor (nth 0 ss 0) 1]> a1 = hd :: <[0%nat := Z.lor (nth 0 ss 0) 1]> ss ++ drop (Z.to_nat m) a).
    { change (hd :: <[0%nat := Z.lor (nth 0 ss 0) 1]> (ss ++ drop (Z.to_nat m) a) = hd :: <[0%nat := Z.lor (nth 0 ss 0) 1]> ss ++ drop (Z.to_nat m) a). by rewrite insert_app_l by lia. }
    rewrite Ha2. set (ss' := <[0%nat := _]> ss). assert (Hss' : length ss' = Z.to_nat m) by (unfold ss'; by rewrite length_insert).
    exists (hd :: ss' ++ drop (Z.to_nat m) a). cbn [length] in Hlen. split; [|split; [|split; [done|split]]].
    + split; gfields; fold m; [apply lookup_insert_eq|done| |done|cbn [length]; rewrite length_app, length_drop; lia| |lia|].
      * apply Forall_cons; [done|]. apply Forall_app. split; [|by apply Forall_drop]. apply words_insert; [done|]. apply lor_1_word.
        rewrite nth_lookup. destruct (lookup_lt_is_Some_2 ss 0 ltac:(lia)) as [y Hy]. rewrite Hy. exact (Forall_lookup_1 _ _ _ _ Hsw Hy).
      * destruct ((m =? 31) || (m =? 7)); lia.
      * intros _. split; [lia|]. rewrite Z.add_0_l, Z.mod_small by lia. unfold sep. by destruct ((m =? 31) || (m =? 7)).
    + split_and!; [done|done|]. intros y Hy. by apply lookup_insert_ne.
    + cbn [length]. rewrite length_app, length_drop. lia.
    + unfold view. gfields. fold m. rewrite (proj2 (Z.eqb_neq m 0)) by done. cbn [drop]. rewrite drop_0, take_app_le, firstn_all2 by lia.
      f_equal. unfold sep. by destruct ((m =? 31) || (m =? 7)).
Qed.

Lemma srandom_spec g a seed : Good g a ->
  wp (srandom seed) (fun _ g' => exists a', Good g' a' /\ same g g' /\ length a' = length a /\ view g' a' = seeded (n g) seed) g.
Proof.
  intros [Hmem Hlock Hw Hn Hlen Hi Hj _]. apply wp_bind, wp_LOCK; [done|].
  eapply wp_seq; [by apply (srandom_inner _ a)|]. cbv beta. intros _ g' (a' & G & Hs & _ & L & V). apply wp_modify. by exists a'.
Qed.

(** ** Saving and loading the indices *)

Definition header (n i j : Z) : Z := Z.lor (Z.lor (Z.shiftl n 16) (Z.shiftl i 8)) j.

Lemma header_fields n i j : 0 <= n < 64 -> 0 <= i < 64 -> 0 <= j < 64 ->
  word (header n i j) /\ Z.shiftr (header n i j) 16 = n /\ Z.land (Z.shiftr (header n i j) 8) 255 = i /\ Z.land (header n i j) 255 = j.
Proof.
  intros Hn Hi Hj. assert (E : header n i j = j + (i + n * 2 ^ 8) * 2 ^ 8).
  { unfold header. rewrite !Z.shiftl_mul_pow2 by lia. rewrite (Z.lor_comm (n * 2 ^ 16)).
    replace (n * 2 ^ 16) with (n * 2 ^ 8 * 2 ^ 8) by lia. rewrite <- !(Z.shiftl_mul_pow2 _ 8), <- Z.shiftl_lor, !Z.shiftl_mul_pow2 by lia.
    rewrite lor_add, Z.lor_comm, lor_add by lia. done. }
  rewrite E. change 255 with (Z.ones 8). rewrite !Z.land_ones, !Z.shiftr_div_pow2 by lia. unfold word.
  change (2 ^ 8) with 256. change (2 ^ 16) with 65536. split_and!; [lia|lia|symmetry; apply (Z.div_unique _ _ _ (j + i * 256)); lia| |].
  - rewrite Z.div_add, (Z.div_small j) by lia. symmetry. apply (Z.mod_unique _ _ n); lia.
  - symmetry. apply (Z.mod_unique _ _ (i + n * 256)); lia.
Qed.

Lemma wp_savestate g a (Q : Z -> gen -> Prop) : mem g !! x g = Some a -> 0 < Z.of_nat (length a) ->
  Q (x g) (set_mem (<[x g := <[0%nat := header (n g) (i g) (j g)]> a]> (mem g)) g) -> wp savestate Q g.
Proof. intros Hm Hl HQ. apply wp_bind, wp_get, wp_bind, (wp_wr _ a); [done|lia|]. by apply wp_ret. Qed.

Lemma wp_loadstate g a st n0 i0 j0 (Q : unit -> gen -> Prop) : mem g !! st = Some a -> a !! 0%nat = Some (header n0 i0 j0) ->
  0 <= n0 < 64 -> 0 <= i0 < 64 -> 0 <= j0 < 64 -> Q tt (Gen n0 i0 j0 st (lock g) (mem g)) -> wp (loadstate st) Q g.
Proof.
  intros Hm Ha Hn Hi Hj HQ. destruct (header_fields n0 i0 j0 Hn Hi Hj) as (_ & E1 & E2 & E3). apply wp_bind, wp_modify.
  do 2 (apply wp_bind, (wp_rd _ a _ (header n0 i0 j0)); [done|lia|done|]; apply wp_bind, wp_modify).
  apply wp_bind, (wp_rd _ a _ (header n0 i0 j0)); [done|lia|done|]. apply wp_modify. gfields. by rewrite E1, E2, E3.
Qed.

Lemma degrees m : m ∈ [0; 7; 15; 31; 63] -> 0 <= m < 64.
Proof. intros H. repeat (apply elem_of_cons in H as [->|H]; [lia|]). by apply not_elem_of_nil in H. Qed.

(** A generator whose array carries its header, and nothing else changed, is the same. *)
Lemma good_header g a g' : Good g a -> n g' = n g -> i g' = i g -> j g' = j g -> x g' = x g -> lock g' = false ->
  mem g' !! x g = Some (<[0%nat := header (n g) (i g) (j g)]> a) ->
  Good g' (<[0%nat := header (n g) (i g) (j g)]> a) /\ view g' (<[0%nat := header (n g) (i g) (j g)]> a) = view g a.
Proof.
  intros [Hmem Hlock Hw Hn Hlen Hi Hj Hsep] En Ei Ej Ex El Em.
  destruct (header_fields (n g) (i g) (j g) (degrees _ Hn) Hi Hj) as (Hh & _). split.
  - split; rewrite ?En, ?Ei, ?Ej, ?Ex, ?length_insert; try done. by apply words_insert.
  - unfold view. rewrite En, Ei. by destruct a.
Qed.

(** The largest degree whose words fit in [size] bytes. *)
Definition degree (size : Z) : Z := foldr Z.max 0 (filter (fun m => 4 * (m + 1) <= size) [0; 7; 15; 31; 63]).

Lemma degree_steps size : 8 <= size -> degree size = (if size <? 32 then 0 else if size <? 64 then 7 else if size <? 128 then 15 else if size <? 256 then 31 else 63).
Proof.
  intros H. unfold degree. cbn [filter list_filter].
  repeat match goal with |- context [decide ?P] => destruct (decide P) end;
  destruct (Z.ltb_spec size 32), (Z.ltb_spec size 64), (Z.ltb_spec size 128), (Z.ltb_spec size 256); try lia; done.
Qed.

Lemma degree_fits size : 8 <= size -> degree size ∈ [0; 7; 15; 31; 63] /\ 4 * Z.max 2 (degree size + 1) <= size.
Proof.
  intros H. rewrite degree_steps by done.
  destruct (Z.ltb_spec size 32), (Z.ltb_spec size 64), (Z.ltb_spec size 128), (Z.ltb_spec size 256); try lia; (split; [set_solver|lia]).
Qed.

Lemma initstate_spec g a b seed st size : Good g a -> mem g !! st = Some b -> st <> x g -> Forall word b -> 8 <= size <= 4 * Z.of_nat (length b) ->
  wp (initstate seed st size) (fun r g' => r = Some (x g) /\ n g' = degree size /\ x g' = st /\
    mem g' !! x g = Some (<[0%nat := header (n g) (i g) (j g)]> a) /\
    exists b', Good g' b' /\ view g' b' = seeded (degree size) seed) g.
Proof.
  intros G Hb Hst Hwb Hsize. destruct (degree_fits size ltac:(lia)) as [Hd Hfit]. pose proof G as [Hmem Hlock Hw Hn Hlen Hi Hj Hsep].
  unfold initstate. rewrite (proj2 (Z.ltb_ge size 8)) by lia. rewrite <- degree_steps by lia.
  apply wp_bind, wp_LOCK; [done|]. apply wp_bind, (wp_savestate _ a); gfields; [done|lia|]. gfields.
  apply wp_bind, wp_modify, wp_bind, wp_modify. gfields.
  eapply wp_seq; [apply (srandom_inner _ b); gfields; [by rewrite lookup_insert_ne|done|done|lia|done|done]|].
  cbv beta. gfields. intros _ g1 (b1 & G1 & (S1 & S2 & S3) & _ & L1 & V1). gfields. pose proof G1 as [Hm1 _ _ _ Hl1 _ _ _]. gfields.
  apply wp_bind, (wp_savestate _ b1); [done|lia|]. apply wp_bind, wp_modify, wp_ret. gfields.
  destruct (good_header (set_lock false g1) b1 (set_lock false (set_mem (<[x g1 := <[0%nat := header (n g1) (i g1) (j g1)]> b1]> (mem g1)) g1)) G1) as [G2 V2];
    gfields; [done|done|done|done|done|apply lookup_insert_eq|].
  split_and!; [done|done|done| |].
  - rewrite lookup_insert_ne, S3 by congruence. apply lookup_insert_eq.
  - eexists. split; [exact G2|]. by rewrite <- V1.
Qed.

Lemma setstate_spec g b a st n0 i0 j0 : Good g b -> st <> x g -> mem g !! st = Some (<[0%nat := header n0 i0 j0]> a) -> 0 < Z.of_nat (length a) ->
  0 <= n0 < 64 -> 0 <= i0 < 64 -> 0 <= j0 < 64 ->
  wp (setstate st) (fun p g' => p = x g /\ exists m, g' = Gen n0 i0 j0 st false m /\ m !! st = Some (<[0%nat := header n0 i0 j0]> a)) g.
Proof.
  intros [Hmem Hlock Hw Hn Hlen Hi Hj Hsep] Hst Ha Hl Hn0 Hi0 Hj0.
  apply wp_bind, wp_LOCK; [done|]. apply wp_bind, (wp_savestate _ b); gfields; [done|lia|]. gfields.
  apply wp_bind, (wp_loadstate _ (<[0%nat := header n0 i0 j0]> a) _ n0 i0 j0); gfields; [by rewrite lookup_insert_ne|apply list_lookup_insert_eq; lia|done|done|done|].
  apply wp_bind, wp_modify, wp_ret. split; [done|]. unfold set_lock. gfields. eexists. split; [done|]. by rewrite lookup_insert_ne.
Qed.

(** ** Theorems *)

Lemma word_shift z : word z -> 0 <= Z.shiftr z 1 < 2 ^ 31.
Proof. unfold word. intros. rewrite Z.shiftr_div_pow2 by lia. split; [apply Z.div_pos; lia|apply Z.div_lt_upper_bound; lia]. Qed.

Lemma stream_range count m v : Forall (fun k => 0 <= k < 2 ^ 31) (stream count m v).
Proof.
  revert v. induction count as [|count IH]; intros v; cbn [stream]; [apply Forall_nil|]. unfold next. destruct (m =? 0).
  - apply Forall_cons; [apply lcg31_range|apply IH].
  - apply Forall_cons; [apply word_shift, u32_word|apply IH].
Qed.

(** C28. After [srandom] the numbers that [random] returns are those of the additive
    generator x(t) = x(t-n) + x(t-s) (or of the 31-bit linear congruential generator for
    the smallest state) started from the words seeded by the 64-bit generator, whatever
    happened before; each is in the range of 31 bits, no access leaves the state array,
    the lock is released, and no other array changes. *)
Theorem random_sequence g a seed count : Good g a -> 0 <= seed < 2 ^ 32 ->
  exists g' a', (let* _ := srandom seed in draws count) g = (Ret (stream count (n g) (seeded (n g) seed)), g') /\
    Good g' a' /\ same g g' /\ Forall (fun k => 0 <= k < 2 ^ 31) (stream count (n g) (seeded (n g) seed)).
Proof.
  intros G _. destruct (wp_run _ _ _ (srandom_spec g a seed G)) as (u & g1 & E1 & a1 & G1 & (S1 & S2 & S3) & L1 & V1).
  destruct (wp_run _ _ _ (draws_spec count g1 a1 G1)) as (rs & g2 & E2 & a2 & G2 & (T1 & T2 & T3) & L2 & ->).
  exists g2, a2. unfold bind. rewrite E1, E2, V1, S1. split; [done|]. split; [done|]. split; [|apply stream_range].
  split_and!; [congruence|congruence|]. intros y Hy. rewrite T3, S3 by congruence. done.
Qed.

Lemma random_sequence_witness : exists g' a', (let* _ := srandom 1 in draws 4) (static_gen ∅) = (Ret (stream 4 31 (seeded 31 1)), g') /\
    Good g' a' /\ same (static_gen ∅) g' /\ Forall (fun k => 0 <= k < 2 ^ 31) (stream 4 31 (seeded 31 1)).
Proof. apply (random_sequence (static_gen ∅) init 1 4); [apply static_good|lia]. Defined.

(** A program that starts a second generator in the array at [st], draws [k] numbers,
    goes back to the first one and draws [count] from it. *)
Definition interrupted (seed st size : Z) (k count : nat) : M gen (option Z * list Z * Z * list Z) :=
  let* old := initstate seed st size in
  let* rs := draws k in
  let* p := setstate (default 0 old) in
  let* ts := draws count in
  ret (old, rs, p, ts).

(** [initstate] on another array and [setstate] back resume a generator where it
    was: [initstate] returns the old array, the numbers drawn in between are those of the
    largest degree that fits in the new array, freshly seeded, [setstate] returns the new
    array, and the numbers after it are those that would have come without the
    interruption. *)
Theorem setstate_resumes g a b seed st size k count :
  Good g a -> mem g !! st = Some b -> st <> x g -> Forall word b -> 8 <= size <= 4 * Z.of_nat (length b) -> 0 <= seed < 2 ^ 32 ->
  (interrupted seed st size k count g).1 =
    Ret (Some (x g), stream k (degree size) (seeded (degree size) seed), st, stream count (n g) (view g a)) /\
  (draws count g).1 = Ret (stream count (n g) (view g a)).
Proof.
  intros G Hb Hst Hwb Hsize _. split.
  - destruct (wp_run _ _ _ (initstate_spec g a b seed st size G Hb Hst Hwb Hsize)) as (r & g1 & E1 & -> & Hn1 & Hx1 & Hp1 & b1 & G1 & V1).
    destruct (wp_run _ _ _ (draws_spec k g1 b1 G1)) as (rs & g2 & E2 & b2 & G2 & (S1 & S2 & S3) & _ & ->).
    pose proof G as [_ _ _ Hn Hlen Hi Hj _].
    assert (Hp2 : mem g2 !! x g = Some (<[0%nat := header (n g) (i g) (j g)]> a)) by (rewrite S3 by congruence; exact Hp1).
    destruct (wp_run _ _ _ (setstate_spec g2 b2 a (x g) _ _ _ G2 ltac:(congruence) Hp2 ltac:(lia) (degrees _ Hn) Hi Hj)) as (p & g3 & E3 & -> & m & -> & Hm).
    destruct (good_header g a (Gen (n g) (i g) (j g) (x g) false m) G eq_refl eq_refl eq_refl eq_refl eq_refl Hm) as [G3 V3].
    destruct (wp_run _ _ _ (draws_spec count _ _ G3)) as (ts & g4 & E4 & b4 & _ & _ & _ & ->).
    unfold interrupted, bind. rewrite E1, E2. change (default 0 (Some (x g))) with (x g). rewrite E3, E4. cbn [fst ret]. rewrite V1, V3, Hn1, S2, Hx1. done.
  - destruct (wp_run _ _ _ (draws_spec count g a G)) as (rs & g1 & E1 & b1 & _ & _ & _ & ->). by rewrite E1.
Qed.

Lemma setstate_resumes_witness : let g := static_gen {[ 4096 := replicate 16 0 ]} in
  (interrupted 7 4096 64 3 4 g).1 = Ret (Some 0, stream 3 15 (seeded 15 7), 4096, stream 4 31 (view g init)) /\
  (draws 4 g).1 = Ret (stream 4 31 (view g init)).
Proof.
  apply (setstate_resumes (static_gen {[ 4096 := replicate 16 0 ]}) init (replicate 16 0) 7 4096 64 3 4);
    [apply static_good|by vm_compute|by vm_compute|by apply Forall_replicate|by vm_compute|lia].
Defined.

(** The first numbers of a program that never seeds are those of [srandom(1)]. *)
Example static_is_seed_1 : ((let* _ := srandom 1 in draws 5) (static_gen ∅)).1 = (draws 5 (static_gen ∅)).1.
Proof. by vm_compute. Qed.
End Random.
