(* ===== verification/Barrier.v ===== *)
(** * A sort by several threads: src/apue.3e/threads/barrier.c

    The main thread fills [nums] with random numbers, [NTHR] threads sort a part
    each, all meet at a barrier, and the main thread merges the parts into [snums]
    and prints them.  The numbers are longs in memory, eight bytes each; the sort is
    musl's [qsort] and the numbers come from its [random].  The threads take steps in
    any order; a call of [qsort] is one step, which is confined to the part of the
    array that the thread sorts.  A barrier counts the threads that arrived and opens
    when the last of them comes; a thread that waits goes on in the next round.  The
    times that the program measures are not modelled. *)

From S2P Require Import Prelude CLib Qsort QsortMem QsortThms Random.

Module Barrier.
Import Qsort QsortMem.

(** ** Longs in memory *)

Fixpoint le_bytes (count : nat) (v : Z) : bytes :=
  match count with
  | O => []
  | S count' => v mod 256 :: le_bytes count' (v / 256)
  end.

Fixpoint le_value (l : bytes) : Z :=
  match l with
  | [] => 0
  | b :: l' => b + 256 * le_value l'
  end.

Definition LONG_MAX : Z := 9223372036854775807.
Definition bytes_of_long (v : Z) : bytes := le_bytes 8 v.
Definition long_of (l : bytes) : Z := let v := le_value l in if v <=? LONG_MAX then v else v - 2 ^ 64.

Definition complong (arg1 arg2 : bytes) : Z :=
  let l1 := long_of arg1 in
  let l2 := long_of arg2 in
  if l1 =? l2 then 0 else if l1 <? l2 then -1 else 1.

(** ** The memory of the process *)

(** [out] holds the numbers printed, one to a line. *)
Record world := World { rng : Random.gen; nums : bytes; snums : bytes; out : list Z }.

Definition set_rng x w := World x (nums w) (snums w) (out w).
Definition set_nums x w := World (rng w) x (snums w) (out w).
Definition set_snums x w := World (rng w) (nums w) x (out w).
Definition set_out x w := World (rng w) (nums w) (snums w) x.

Definition get_num (i : Z) : M world Z :=
  let* l := zoom nums set_nums (load (8 * i) 8) in ret (long_of l).
Definition put_num (i v : Z) : M world unit := zoom nums set_nums (store (8 * i) (bytes_of_long v)).
Definition get_snum (i : Z) : M world Z :=
  let* l := zoom snums set_snums (load (8 * i) 8) in ret (long_of l).
Definition put_snum (i v : Z) : M world unit := zoom snums set_snums (store (8 * i) (bytes_of_long v)).

(** A computation on the [len] bytes from [off] on. *)
Definition region {A} (off len : Z) (m : M bytes A) : M bytes A := fun mem =>
  if (0 <=? off) && (0 <=? len) && (off + len <=? Z.of_nat (length mem)) then
    let '(r, part) := m (sub (Z.to_nat off) (Z.to_nat len) mem) in (r, overwrite (Z.to_nat off) part mem)
  else (Stop Crash, mem).

(** ** The program *)

(** [NTHR] threads sort [TNUM] numbers each. *)
Section program.
Variables NTHR TNUM : Z.

Definition NUMNUM : Z := NTHR * TNUM.

(** [heapsort(&nums[idx], TNUM, sizeof(long), complong)]. *)
Definition sort_part (idx : Z) : M world unit :=
  zoom nums set_nums (region (8 * idx) (8 * TNUM) (qsort complong 8 TNUM)).

(** The loop of [merge] over the parts, from part [i] on. *)
Fixpoint min_loop (count : nat) (i : Z) (idx : list Z) (num minidx : Z) : M world Z :=
  match count with
  | O => ret minidx
  | S count' =>
      let* k := nth_of idx i in
      let* less := if k <? (i + 1) * TNUM then let* v := get_num k in ret (v <? num) else ret false in
      if less then let* num := get_num k in min_loop count' (i + 1) idx num i
      else min_loop count' (i + 1) idx num minidx
  end.

Fixpoint merge_loop (count : nat) (sidx : Z) (idx : list Z) : M world unit :=
  match count with
  | O => ret tt
  | S count' =>
      let* minidx := min_loop (Z.to_nat NTHR) 0 idx LONG_MAX 0 in
      let* k := nth_of idx minidx in
      let* v := get_num k in
      put_snum sidx v ;;;
      merge_loop count' (sidx + 1) (<[Z.to_nat minidx := k + 1]> idx)
  end.

Definition merge : M world unit :=
  merge_loop (Z.to_nat NUMNUM) 0 (map (fun i => Z.of_nat i * TNUM) (seq 0 (Z.to_nat NTHR))).

(** The loops of [main]: the numbers to sort, and the numbers printed. *)
Fixpoint fill (count : nat) (i : Z) : M world unit :=
  match count with
  | O => ret tt
  | S count' =>
      let* v := zoom rng set_rng Random.random in
      put_num i v ;;; fill count' (i + 1)
  end.

Fixpoint print_loop (count : nat) (i : Z) : M world unit :=
  match count with
  | O => ret tt
  | S count' =>
      let* v := get_snum i in
      modify (fun w => set_out (out w ++ [v]) w) ;;;
      print_loop count' (i + 1)
  end.

(** ** The threads *)

(** A barrier for [limit] threads: how many arrived in this round, and which
    round it is. *)
Record barrier := Bar { limit : Z; arrived : Z; round : Z }.

Definition arrive (b : barrier) : barrier :=
  if arrived b + 1 =? limit b then Bar (limit b) 0 (round b + 1) else Bar (limit b) (arrived b + 1) (round b).

(** The round for which a thread waits is over. *)
Definition open (b : barrier) (r : Z) : bool := r <? round b.

Inductive wpc := W_sort | W_sorted | W_wait (r : Z) | W_end | W_stop (e : fatal).
Inductive mpc := M_init | M_create (i : Z) | M_wait (r : Z) | M_merge | M_exit (status : Z) | M_stop (e : fatal).

(** The workers in the order of their creation, each with its argument. *)
Record sys := Sys { mem : world; bar : barrier; main : mpc; workers : list (Z * wpc) }.

Definition halted (s : sys) : bool := match main s with M_exit _ | M_stop _ => true | _ => false end.

(** A step of worker [k], in [thr_fn]. *)
Definition worker_step (k : nat) (s : sys) : option sys :=
  if halted s then None else
  match workers s !! k with
  | Some (idx, W_sort) =>
      match sort_part idx (mem s) with
      | (Ret _, w) => Some (Sys w (bar s) (main s) (<[k := (idx, W_sorted)]> (workers s)))
      | (Stop e, w) => Some (Sys w (bar s) (main s) (<[k := (idx, W_stop e)]> (workers s)))
      end
  | Some (idx, W_sorted) =>
      Some (Sys (mem s) (arrive (bar s)) (main s) (<[k := (idx, W_wait (round (bar s)))]> (workers s)))
  | Some (idx, W_wait r) =>
      if open (bar s) r then Some (Sys (mem s) (bar s) (main s) (<[k := (idx, W_end)]> (workers s))) else None
  | _ => None
  end.

(** A step of the main thread; [err] is the result of [pthread_create]. *)
Definition main_step (err : Z) (s : sys) : option sys :=
  match main s with
  | M_init =>
      match (let* _ := zoom rng set_rng (Random.srandom 1) in fill (Z.to_nat NUMNUM) 0) (mem s) with
      | (Ret _, w) => Some (Sys w (Bar (NTHR + 1) 0 0) (M_create 0) (workers s))
      | (Stop e, w) => Some (Sys w (bar s) (M_stop e) (workers s))
      end
  | M_create i =>
      if i <? NTHR then
        if negb (err =? 0) then Some (Sys (mem s) (bar s) (M_exit 1) (workers s))
        else Some (Sys (mem s) (bar s) (M_create (i + 1)) (workers s ++ [(i * TNUM, W_sort)]))
      else Some (Sys (mem s) (arrive (bar s)) (M_wait (round (bar s))) (workers s))
  | M_wait r => if open (bar s) r then Some (Sys (mem s) (bar s) M_merge (workers s)) else None
  | M_merge =>
      match (let* _ := merge in print_loop (Z.to_nat NUMNUM) 0) (mem s) with
      | (Ret _, w) => Some (Sys w (bar s) (M_exit 0) (workers s))
      | (Stop e, w) => Some (Sys w (bar s) (M_stop e) (workers s))
      end
  | M_exit _ | M_stop _ => None
  end.

Inductive step (s s' : sys) : Prop :=
  | step_main err : main_step err s = Some s' -> step s s'
  | step_worker k : worker_step k s = Some s' -> step s s'.

(** The process at the start of [main]. *)
Definition start : sys :=
  Sys (World (Random.static_gen ∅) (replicate (Z.to_nat (8 * NUMNUM)) 0) (replicate (Z.to_nat (8 * NUMNUM)) 0) [])
      (Bar 0 0 0) M_init [].

(** A run by a schedule: [None] is the main thread, [Some k] worker [k]. *)
Fixpoint run (schedule : list (option nat)) (s : sys) : option sys :=
  match schedule with
  | [] => Some s
  | o :: l => match match o with None => main_step 0 s | Some k => worker_step k s end with
              | Some s' => run l s'
              | None => None
              end
  end.

Lemma run_steps schedule s s' : run schedule s = Some s' -> rtc step s s'.
Proof.
  revert s. induction schedule as [|o l IH]; intros s H; cbn in H; [inv H; done|].
  destruct o as [k|].
  - destruct (worker_step k s) as [s1|] eqn:E; [|done]. eapply rtc_l; [by eapply step_worker|by apply IH].
  - destruct (main_step 0 s) as [s1|] eqn:E; [|done]. eapply rtc_l; [by eapply step_main|by apply IH].
Qed.
End program.

(** ** Longs *)

Lemma le_bytes_length count v : length (le_bytes count v) = count.
Proof. revert v. induction count as [|count IH]; intros v; [done|]. cbn. by rewrite IH. Qed.

Lemma le_value_bytes count v : le_value (le_bytes count v) = v mod 256 ^ Z.of_nat count.
Proof.
  revert v. induction count as [|count IH]; intros v; cbn [le_bytes le_value]; [by rewrite Z.mod_1_r|].
  rewrite IH, Nat2Z.inj_succ, Z.pow_succ_r, Z.rem_mul_r by lia. done.
Qed.

Lemma long_of_bytes v : - 2 ^ 63 <= v < 2 ^ 63 -> long_of (bytes_of_long v) = v.
Proof.
  intros H. unfold long_of, bytes_of_long. rewrite le_value_bytes. change (256 ^ Z.of_nat 8) with (2 ^ 64). unfold LONG_MAX.
  destruct (Z.lt_ge_cases v 0).
  - replace (v mod 2 ^ 64) with (v + 2 ^ 64) by (apply (Z.mod_unique _ _ (-1)); lia). rewrite (proj2 (Z.leb_gt _ _)) by lia. lia.
  - rewrite Z.mod_small, (proj2 (Z.leb_le _ _)) by lia. done.
Qed.

(** The numbers of the program, which [random] makes. *)
Definition number (v : Z) : Prop := 0 <= v < 2 ^ 31.

Lemma number_long v : number v -> long_of (bytes_of_long v) = v.
Proof. unfold number. intros. apply long_of_bytes. lia. Qed.

#[export] Instance complong_order : Order complong.
Proof.
  split; unfold complong; intros;
  repeat match goal with |- context [?a =? ?b] => destruct (Z.eqb_spec a b) | |- context [?a <? ?b] => destruct (Z.ltb_spec a b)
  | H : context [?a =? ?b] |- _ => destruct (Z.eqb_spec a b) | H : context [?a <? ?b] |- _ => destruct (Z.ltb_spec a b) end; lia.
Qed.

Lemma complong_le x y : complong x y <= 0 <-> long_of x <= long_of y.
Proof. unfold complong. destruct (Z.eqb_spec (long_of x) (long_of y)), (Z.ltb_spec (long_of x) (long_of y)); lia. Qed.

(** ** Arrays of longs *)

Definition longs (l : list Z) : bytes := concat (map bytes_of_long l).

#[local] Lemma eight : (0 < 8)%nat.
Proof. lia. Qed.

Lemma longs_blocks l : blocks 8 (map bytes_of_long l).
Proof. apply Forall_map, Forall_true. intros v. apply le_bytes_length. Qed.

Lemma longs_length l : length (longs l) = (8 * length l)%nat.
Proof. unfold longs. by rewrite (blocks_length 8 eight), length_map by apply longs_blocks. Qed.

Lemma longs_zeros k : longs (replicate k 0) = replicate (8 * k) 0.
Proof.
  induction k as [|k IH]; [done|]. unfold longs in *. cbn [replicate map concat]. rewrite IH. by replace (8 * S k)%nat with (8 + 8 * k)%nat by lia.
Qed.

Lemma wp_load_long l i v (Q : bytes -> bytes -> Prop) : l !! i = Some v ->
  Q (bytes_of_long v) (longs l) -> wp (load (8 * Z.of_nat i) 8) Q (longs l).
Proof.
  intros Hv HQ. replace (8 * Z.of_nat i) with (off 8 i + 0) by (unfold off; lia).
  apply (wp_load_block 8 eight _ i (bytes_of_long v)); [apply longs_blocks|by rewrite list_lookup_fmap, Hv|lia|lia|lia|].
  exact HQ.
Qed.

Lemma wp_store_long l i v (Q : unit -> bytes -> Prop) : (i < length l)%nat ->
  Q tt (longs (<[i := v]> l)) -> wp (store (8 * Z.of_nat i) (bytes_of_long v)) Q (longs l).
Proof.
  intros Hi HQ. destruct (lookup_lt_is_Some_2 l i Hi) as [v0 Hv]. replace (8 * Z.of_nat i) with (off 8 i + 0) by (unfold off; lia).
  apply (wp_store_block 8 eight _ i (bytes_of_long v0)); [apply longs_blocks|by rewrite list_lookup_fmap, Hv|lia|done|].
  replace (overwrite _ _ _) with (bytes_of_long v); [by rewrite <- list_fmap_insert|].
  symmetry. rewrite <- (app_nil_r (bytes_of_long v0)) . by apply (overwrite_mid []).
Qed.

Lemma wp_get_num w l i v (Q : Z -> world -> Prop) : nums w = longs l -> l !! i = Some v -> number v -> Q v w -> wp (get_num (Z.of_nat i)) Q w.
Proof.
  intros E Hv Hn HQ. apply wp_bind, wp_zoom. rewrite E. apply (wp_load_long l i v); [done|]. apply wp_ret. rewrite number_long by done.
  rewrite <- E. by destruct w.
Qed.

Lemma wp_get_snum w l i v (Q : Z -> world -> Prop) : snums w = longs l -> l !! i = Some v -> number v -> Q v w -> wp (get_snum (Z.of_nat i)) Q w.
Proof.
  intros E Hv Hn HQ. apply wp_bind, wp_zoom. rewrite E. apply (wp_load_long l i v); [done|]. apply wp_ret. rewrite number_long by done.
  rewrite <- E. by destruct w.
Qed.
End Barrier.
