(* ===== verification/BarrierMerge.v ===== *)
(** * The sorts and the merge of barrier.c

    What the calls of the threads do to the arrays: [sort_part] sorts one part and
    leaves the others as they are, and [merge] makes one sorted array of sorted
    parts. *)

From Stdlib Require Import Sorted.
From S2P Require Import Prelude CLib Qsort QsortMem QsortThms Random Barrier.

Module BarrierMerge.
Import Qsort QsortMem QsortThms Barrier.

Abbreviation sorted := (StronglySorted Z.le).

Lemma longs_app p q : longs (p ++ q) = longs p ++ longs q.
Proof. unfold longs. by rewrite map_app, concat_app. Qed.

Lemma wp_region {A} (p b q : bytes) o n (m : M bytes A) (Q : A -> bytes -> Prop) :
  o = Z.of_nat (length p) -> n = Z.of_nat (length b) ->
  wp m (fun r b' => length b' = length b /\ Q r (p ++ b' ++ q)) b -> wp (region o n m) Q (p ++ b ++ q).
Proof.
  intros -> -> H. unfold wp, region in *. rewrite !length_app.
  rewrite !(proj2 (Z.leb_le 0 _)), (proj2 (Z.leb_le _ (Z.of_nat _))) by lia. cbn [andb]. rewrite !Nat2Z.id, sub_mid by done.
  destruct (m b) as [[r|e] b']; [|done]. destruct H as [Hl H]. by rewrite overwrite_mid.
Qed.

(** Lists of numbers and the elements that [qsort] sees. *)
Lemma sorted_longs l : Forall number l -> StronglySorted (fun a b => complong a b <= 0) (map bytes_of_long l) -> sorted l.
Proof.
  induction l as [|v l IH]; intros Hn Hs; [constructor|]. cbn [map] in Hs. apply StronglySorted_inv in Hs as [Hs Hf].
  apply Forall_cons_iff in Hn as [Hv Hn]. constructor; [by apply IH|]. rewrite Forall_map in Hf. rewrite list.Forall_forall in *.
  intros z Hz. specialize (Hf z Hz). specialize (Hn z Hz). change (complong (bytes_of_long v) (bytes_of_long z) <= 0) in Hf. by rewrite complong_le, !number_long in Hf.
Qed.

Lemma sorted_snoc l v : sorted l -> Forall (fun a => a <= v) l -> sorted (l ++ [v]).
Proof.
  induction l as [|a l IH]; intros Hs Hf; [repeat constructor|]. apply StronglySorted_inv in Hs as [Hs Ha].
  apply Forall_cons_iff in Hf as [Hav Hf]. cbn. constructor; [by apply IH|]. apply Forall_app. split; [done|by apply Forall_singleton].
Qed.

Section parts.
Context (T : nat) (HT0 : (0 < T)%nat) (HT : Z.of_nat T < 55555780070575).

Lemma sort_part_spec w Ps k P : nums w = longs (concat Ps) -> blocks T Ps -> Ps !! k = Some P -> Forall number P ->
  wp (sort_part (Z.of_nat T) (Z.of_nat k * Z.of_nat T))
    (fun _ w' => exists P', P' ≡ₚ P /\ sorted P' /\ w' = set_nums (longs (concat (<[k := P']> Ps))) w) w.
Proof.
  intros E HPs Hk HP. destruct (blocks_split T HT0 Ps k P HPs Hk) as (p & q & E1 & Lp & LP & E2).
  apply wp_zoom. rewrite E, E1, !longs_app. apply wp_region; [rewrite longs_length; lia|rewrite longs_length; lia|].
  unfold longs at 2. replace (Z.of_nat T) with (Z.of_nat (length (map bytes_of_long P))) by (rewrite length_map; lia).
  change 8 with (Z.of_nat 8). apply qsort_run; [apply complong_order|lia|apply longs_blocks|rewrite length_map; lia|rewrite length_map; lia|].
  intros B' Hp Hs. apply Permutation_map_inv in Hp as (P' & -> & HP').
  split; [change (length (longs P') = length (longs P)); rewrite !longs_length; by rewrite HP'|].
  exists P'. split; [by symmetry|]. split; [apply sorted_longs; [by rewrite <- HP'|done]|]. by rewrite E2, !longs_app.
Qed.

(** ** The merge *)

(** What is left of the parts [Ps]: the indices [idx] and the remaining numbers [Rs]. *)
Record Rest (Ps : list (list Z)) (idx : list Z) (Rs : list (list Z)) : Prop := {
  r_idx : length idx = length Ps;
  r_len : length Rs = length Ps;
  r_part : forall i P, Ps !! i = Some P ->
    exists c, (c <= T)%nat /\ idx !! i = Some (Z.of_nat i * Z.of_nat T + Z.of_nat c) /\ Rs !! i = Some (drop c P) }.

(** The least of the first numbers of the remaining parts before [i]. *)
Definition Least (Rs : list (list Z)) (i : nat) (num : Z) (m : nat) : Prop :=
  (num = LONG_MAX /\ m = 0%nat /\ forall j, (j < i)%nat -> Rs !! j = Some []) \/
  (exists l, Rs !! m = Some (num :: l)) /\ forall j v l, (j < i)%nat -> Rs !! j = Some (v :: l) -> num <= v.

Lemma part_lookup Ps i P c : blocks T Ps -> Ps !! i = Some P -> (c < T)%nat -> concat Ps !! (i * T + c)%nat = P !! c.
Proof.
  intros HPs Hi Hc. destruct (blocks_split T HT0 Ps i P HPs Hi) as (p & q & -> & Lp & LP & _).
  rewrite lookup_app_r by lia. rewrite lookup_app_l by lia. f_equal. lia.
Qed.

Lemma wp_nth_of {S} (l : list Z) i v (Q : Z -> S -> Prop) s : l !! i = Some v -> Q v s -> wp (nth_of l (Z.of_nat i)) Q s.
Proof. intros Hv HQ. unfold nth_of. rewrite (proj2 (Z.ltb_ge _ 0)), Nat2Z.id, Hv by lia. exact HQ. Qed.

Lemma min_loop_spec w Ps idx Rs count i num m : nums w = longs (concat Ps) -> blocks T Ps -> Forall number (concat Ps) -> Rest Ps idx Rs ->
  (i + count = length Ps)%nat -> Least Rs i num m ->
  wp (min_loop (Z.of_nat T) count (Z.of_nat i) idx num (Z.of_nat m))
    (fun r w' => w' = w /\ exists num' m', r = Z.of_nat m' /\ Least Rs (length Ps) num' m') w.
Proof.
  intros E HPs Hn R. revert i num m. induction count as [|count IH]; intros i num m Hi HL; cbn [min_loop].
  { apply wp_ret. split; [done|]. exists num, m. by replace (length Ps) with i by lia. }
  destruct (lookup_lt_is_Some_2 Ps i ltac:(lia)) as [P HP]. destruct (r_part _ _ _ R i P HP) as (c & Hc & Hidx & HR).
  pose proof (Forall_lookup_1 _ _ _ _ HPs HP) as LP. cbn beta in LP.
  apply wp_bind, (wp_nth_of _ _ _ _ _ Hidx), wp_bind. replace (Z.of_nat i + 1) with (Z.of_nat (S i)) by lia.
  destruct (Nat.lt_ge_cases c T) as [Hlt|Hge].
  - destruct (lookup_lt_is_Some_2 P c ltac:(lia)) as [v Hv]. rewrite (drop_S _ _ _ Hv) in HR.
    assert (Hcat : concat Ps !! (i * T + c)%nat = Some v) by (by rewrite (part_lookup Ps i P)).
    pose proof (Forall_lookup_1 _ _ _ _ Hn Hcat) as Hnum.
    rewrite (proj2 (Z.ltb_lt _ _)) by lia. replace (Z.of_nat i * Z.of_nat T + Z.of_nat c) with (Z.of_nat (i * T + c)) by lia.
    apply wp_bind, (wp_get_num w (concat Ps) _ v); [done|done|done|]. apply wp_ret. destruct (Z.ltb_spec v num) as [Hvn|Hvn].
    + apply wp_bind, (wp_get_num w (concat Ps) _ v); [done|done|done|]. apply IH; [lia|]. right. split; [by eexists|].
      intros j v' l Hj Hv'. destruct (decide (j = i)) as [->|]; [rewrite HR in Hv'; inv Hv'; lia|].
      destruct HL as [(_ & _ & HL)|(_ & HL)]; [rewrite HL in Hv' by lia; done|]. specialize (HL j v' l ltac:(lia) Hv'). lia.
    + apply IH; [lia|]. right. destruct HL as [(-> & _ & _)|(Hm & HL)]; [unfold number, LONG_MAX in *; lia|]. split; [done|].
      intros j v' l Hj Hv'. destruct (decide (j = i)) as [->|]; [rewrite HR in Hv'; inv Hv'; lia|]. apply (HL j v' l); [lia|done].
  - rewrite (drop_ge P) in HR by lia. rewrite (proj2 (Z.ltb_ge _ _)) by lia. apply wp_ret, IH; [lia|].
    destruct HL as [(-> & -> & HL)|(Hm & HL)]; [left|right]; (split; [done|]).
    + split; [done|]. intros j Hj. destruct (decide (j = i)) as [->|]; [done|]. apply HL. lia.
    + intros j v' l Hj Hv'. destruct (decide (j = i)) as [->|]; [by rewrite HR in Hv'|]. apply (HL j v' l); [lia|done].
Qed.

(** Taking the least number from the parts. *)
Lemma take_least (Rs : list (list Z)) m v l : Rs !! m = Some (v :: l) -> concat Rs ≡ₚ v :: concat (<[m := l]> Rs).
Proof.
  revert m. induction Rs as [|R Rs IH]; intros [|m] H; [done|done|by inv H|]. cbn. rewrite (IH m) by done. symmetry. apply Permutation_middle.
Qed.

Lemma least_all (Rs : list (list Z)) v : Forall sorted Rs -> (forall j a l, Rs !! j = Some (a :: l) -> v <= a) -> Forall (Z.le v) (concat Rs).
Proof.
  intros Hs Hv. apply list.Forall_forall. intros z Hz. apply list_elem_of_In, in_concat in Hz as (R & HR & Hz).
  apply list_elem_of_In in HR. apply list_elem_of_lookup in HR as [j Hj]. pose proof (Forall_lookup_1 _ _ _ _ Hs Hj) as HsR.
  destruct R as [|a R]; [done|]. specialize (Hv _ _ _ Hj). destruct Hz as [->|Hz]; [done|].
  apply StronglySorted_inv in HsR as [_ Hf]. rewrite list.Forall_forall in Hf. apply list_elem_of_In in Hz. specialize (Hf z Hz). lia.
Qed.

Lemma rest_next Ps idx Rs m v l k : Rest Ps idx Rs -> blocks T Ps -> Rs !! m = Some (v :: l) -> idx !! m = Some k ->
  Rest Ps (<[m := k + 1]> idx) (<[m := l]> Rs) /\ concat Ps !! Z.to_nat k = Some v /\ 0 <= k.
Proof.
  intros R HPs Hm Hk. pose proof (lookup_lt_Some _ _ _ Hm) as Hlt. rewrite (r_len _ _ _ R) in Hlt.
  destruct (lookup_lt_is_Some_2 Ps m Hlt) as [P HP]. destruct (r_part _ _ _ R m P HP) as (c & Hc & Hidx & HR).
  rewrite Hk in Hidx. injection Hidx as ->. rewrite HR in Hm. injection Hm as Hd. pose proof (Forall_lookup_1 _ _ _ _ HPs HP) as LP. cbn beta in LP.
  destruct (Nat.lt_ge_cases c T) as [Hlt'|Hge]; [|by rewrite drop_ge in Hd by lia].
  destruct (lookup_lt_is_Some_2 P c ltac:(lia)) as [v' Hv]. rewrite (drop_S _ _ _ Hv) in Hd. injection Hd as -> <-. split; [|split; [|lia]].
  - split; [by rewrite length_insert, (r_idx _ _ _ R)|by rewrite length_insert, (r_len _ _ _ R)|].
    intros i P' HP'. destruct (decide (i = m)) as [->|Hne].
    + rewrite HP in HP'. inv HP'. exists (S c). split; [lia|].
      rewrite !list_lookup_insert_eq by (rewrite ?(r_idx _ _ _ R), ?(r_len _ _ _ R); done). split; [f_equal; lia|done].
    + rewrite !list_lookup_insert_ne by done. by apply (r_part _ _ _ R).
  - rewrite <- Hv, <- (part_lookup Ps m P c) by done. f_equal. lia.
Qed.

Lemma merge_loop_spec Ps count w idx Rs R : nums w = longs (concat Ps) -> blocks T Ps -> Forall number (concat Ps) -> Rest Ps idx Rs ->
  Forall sorted Rs -> sorted R -> R ++ concat Rs ≡ₚ concat Ps -> Forall (fun a => Forall (Z.le a) (concat Rs)) R ->
  snums w = longs (R ++ replicate count 0) -> count = length (concat Rs) ->
  wp (merge_loop (Z.of_nat (length Ps)) (Z.of_nat T) count (Z.of_nat (length R)) idx)
    (fun _ w' => exists R', sorted R' /\ R' ≡ₚ concat Ps /\ w' = set_snums (longs R') w) w.
Proof.
  revert w idx Rs R. induction count as [|count IH]; intros w idx Rs R E HPs Hn HR HsRs HsR Hperm Hle Es Hcount; cbn [merge_loop].
  { apply wp_ret. destruct (concat Rs); [|done]. cbn [replicate] in Es. rewrite app_nil_r in *. exists R. split_and!; [done|done|].
    rewrite <- Es. by destruct w. }
  rewrite Nat2Z.id. change 0 with (Z.of_nat 0) at 1 2.
  eapply wp_seq; [apply (min_loop_spec w Ps idx Rs (length Ps) 0 LONG_MAX 0); try done; left; split_and!; [done|done|lia]|].
  cbv beta. intros r w' (-> & num & m & -> & HL). destruct HL as [(_ & _ & Hnil)|((l & Hm) & HL)].
  { replace (concat Rs) with (@nil Z) in Hcount; [done|]. symmetry. apply concat_nil_Forall, list.Forall_forall. intros R0 H0. apply list_elem_of_lookup in H0 as [j Hj].
    pose proof (lookup_lt_Some _ _ _ Hj). rewrite Hnil in Hj by (rewrite <- (r_len _ _ _ HR); done). by inv Hj. }
  pose proof (lookup_lt_Some _ _ _ Hm) as Hlt. destruct (lookup_lt_is_Some_2 idx m) as [k Hk]; [rewrite (r_idx _ _ _ HR), <- (r_len _ _ _ HR); done|].
  destruct (rest_next _ _ _ _ _ _ _ HR HPs Hm Hk) as (HR' & Hnum & Hk0).
  assert (Hall : Forall (Z.le num) (concat Rs)).
  { apply least_all; [done|]. intros j a l' Hj. apply (HL j a l'); [rewrite <- (r_len _ _ _ HR); by eapply lookup_lt_Some|done]. }
  pose proof (take_least _ _ _ _ Hm) as Htake. rewrite Htake in Hall. apply Forall_cons_iff in Hall as [_ Hall].
  apply wp_bind, (wp_nth_of _ _ _ _ _ Hk), wp_bind. replace k with (Z.of_nat (Z.to_nat k)) at 1 by lia.
  apply (wp_get_num w (concat Ps) _ num); [done|done|exact (Forall_lookup_1 _ _ _ _ Hn Hnum)|].
  apply wp_bind, wp_zoom. rewrite Es. apply wp_store_long; [rewrite length_app; cbn; lia|].
  replace (<[length R := num]> (R ++ replicate (S count) 0)) with ((R ++ [num]) ++ replicate count 0)
    by (rewrite insert_app_r_alt, Nat.sub_diag, <- app_assoc by lia; done).
  rewrite Nat2Z.id. replace (Z.of_nat (length R) + 1) with (Z.of_nat (length (R ++ [num]))) by (rewrite length_app; cbn; lia).
  eapply wp_mono; [apply (IH _ _ (<[m := l]> Rs)); try done|].
  - apply Forall_insert; [done|]. pose proof (Forall_lookup_1 _ _ _ _ HsRs Hm) as Hs. by apply StronglySorted_inv in Hs as [? _].
  - apply sorted_snoc; [done|]. eapply Forall_impl; [|exact Hle]. cbv beta. intros a. rewrite Htake. by intros [? _]%Forall_cons_iff.
  - by rewrite <- Hperm, Htake, <- app_assoc.
  - apply Forall_app. split; [|by apply Forall_singleton]. eapply Forall_impl; [|exact Hle]. cbv beta. intros a. rewrite Htake. by intros [_ ?]%Forall_cons_iff.
  - rewrite Htake in Hcount. cbn in Hcount. lia.
  - cbv beta. intros _ w' (R' & H1 & H2 & ->). exists R'. by split_and!.
Qed.

Lemma merge_spec Ps w : nums w = longs (concat Ps) -> blocks T Ps -> Forall number (concat Ps) -> Forall sorted Ps ->
  snums w = longs (replicate (length (concat Ps)) 0) ->
  wp (merge (Z.of_nat (length Ps)) (Z.of_nat T)) (fun _ w' => exists R, sorted R /\ R ≡ₚ concat Ps /\ w' = set_snums (longs R) w) w.
Proof.
  intros E HPs Hn Hs Es. unfold merge. pose proof (blocks_length T HT0 Ps HPs) as Hl.
  replace (Z.to_nat (NUMNUM _ _)) with (length (concat Ps)) by (unfold NUMNUM; lia). rewrite Nat2Z.id.
  change 0 with (Z.of_nat (length (@nil Z))) at 1. apply (merge_loop_spec Ps _ w _ Ps []); try done; [|apply SSorted_nil].
  split; [by rewrite length_map, length_seq|done|]. intros i P HP. exists 0%nat. split; [lia|]. split; [|done].
  pose proof (lookup_lt_Some _ _ _ HP). rewrite list_lookup_fmap, lookup_seq_lt by done. cbn. f_equal. lia.
Qed.
End parts.

(** ** The loops of [main] *)

Lemma fill_spec count w D a : Random.Good (rng w) a -> nums w = longs (D ++ replicate count 0) ->
  wp (fill count (Z.of_nat (length D)))
    (fun _ w' => exists g', w' = set_nums (longs (D ++ Random.stream count (Random.n (rng w)) (Random.view (rng w) a))) (set_rng g' w)) w.
Proof.
  revert w D a. induction count as [|count IH]; intros w D a G E; cbn [fill Random.stream].
  { apply wp_ret. exists (rng w). cbn [replicate] in E. rewrite <- E. by destruct w. }
  apply wp_bind, wp_zoom. eapply wp_mono; [by apply (Random.random_spec _ a)|]. cbv beta. intros v g' (a' & G' & (Hn & _) & _ & <-).
  apply wp_bind, wp_zoom. cbn [nums set_rng]. rewrite E. apply wp_store_long; [rewrite length_app; cbn; lia|].
  replace (<[length D := v]> (D ++ replicate (S count) 0)) with ((D ++ [v]) ++ replicate count 0)
    by (rewrite insert_app_r_alt, Nat.sub_diag, <- app_assoc by lia; done).
  replace (Z.of_nat (length D) + 1) with (Z.of_nat (length (D ++ [v]))) by (rewrite length_app; cbn; lia).
  eapply wp_mono; [by apply (IH _ _ a')|]. cbv beta. cbn [rng set_nums set_rng]. intros _ w' (g2 & ->). exists g2. rewrite Hn, <- app_assoc. done.
Qed.

Lemma print_spec count i l w : snums w = longs l -> Forall number l -> (i + count = length l)%nat ->
  wp (print_loop count (Z.of_nat i)) (fun _ w' => w' = set_out (out w ++ drop i l) w) w.
Proof.
  revert i w. induction count as [|count IH]; intros i w E Hn Hi; cbn [print_loop].
  { apply wp_ret. rewrite drop_ge, app_nil_r by lia. by destruct w. }
  destruct (lookup_lt_is_Some_2 l i ltac:(lia)) as [v Hv].
  apply wp_bind, (wp_get_snum w l i v); [done|done|exact (Forall_lookup_1 _ _ _ _ Hn Hv)|]. apply wp_bind, wp_modify.
  replace (Z.of_nat i + 1) with (Z.of_nat (S i)) by lia. eapply wp_mono; [by apply IH; [| |lia]|].
  cbv beta. intros _ w' ->. rewrite (drop_S _ _ _ Hv). unfold set_out. cbn [rng nums snums out]. by rewrite <- app_assoc.
Qed.
End BarrierMerge.
