(* ===== verification/BarrierThms.v ===== *)
(** * The threads of barrier.c

    An invariant of the states that the threads reach in any order of their steps,
    and the two theorems: what the program prints, and that it comes to an end. *)

From Stdlib Require Import Sorted.
From S2P Require Import Prelude CLib Qsort QsortMem Random Barrier BarrierMerge.

Module BarrierThms.
Import QsortMem Barrier BarrierMerge.

(** ** Counting the threads that wait *)

Definition waiting (p : Z * wpc) : Z := match p.2 with W_wait _ => 1 | _ => 0 end.

Lemma waiting_le ws : 0 <= total waiting ws <= Z.of_nat (length ws).
Proof. induction ws as [|[i p] ws IH]; [done|]. cbn [total length]. unfold waiting at 1 3. destruct p; cbn [snd]; lia. Qed.

(** All wait if as many wait as there are. *)
Lemma waiting_all ws k p : total waiting ws = Z.of_nat (length ws) -> ws !! k = Some p -> waiting p = 1.
Proof.
  revert k. induction ws as [|[i q] ws IH]; intros k H Hk; [done|]. cbn [total length] in H. pose proof (waiting_le ws).
  assert (Hq : waiting (i, q) = 1) by (unfold waiting in *; destruct q; cbn [snd] in *; lia).
  destruct k as [|k]; [by injection Hk as <-|]. apply (IH k); [lia|done].
Qed.

(** One does not, if fewer do. *)
Lemma waiting_some ws : total waiting ws < Z.of_nat (length ws) -> exists k p, ws !! k = Some p /\ waiting p = 0.
Proof.
  induction ws as [|[i q] ws IH]; [done|]. cbn [total length]. intros H. destruct (Z.eq_dec (waiting (i, q)) 0) as [E|E]; [by exists 0%nat, (i, q)|].
  destruct IH as (k & p & Hk & Hp); [unfold waiting in *; destruct q; cbn [snd] in *; lia|]. by exists (S k), p.
Qed.

Section program.
Context (N T : nat) (HN : (0 < N)%nat) (HT0 : (0 < T)%nat) (HT : Z.of_nat T < 55555780070575).
Abbreviation NTHR := (Z.of_nat N).
Abbreviation TNUM := (Z.of_nat T).

(** The numbers to sort, and the part of them that a worker sorts. *)
Definition numbers : list Z := Random.stream (N * T) 31 (Random.seeded 31 1).
Definition part (k : nat) : list Z := take T (drop (k * T) numbers).

Lemma stream_length count n v : length (Random.stream count n v) = count.
Proof. revert v. induction count as [|count IH]; intros v; [done|]. cbn [Random.stream]. destruct (Random.next n v) as [x v']. cbn. by rewrite IH. Qed.

Lemma chunks (l : list Z) m : concat (map (fun k => take T (drop (k * T) l)) (seq 0 m)) = take (m * T) l.
Proof.
  induction m as [|m IH]; [done|]. rewrite seq_S, map_app, concat_app, IH. cbn. rewrite app_nil_r, take_take_drop. f_equal. lia.
Qed.

Lemma parts_numbers : concat (map part (seq 0 N)) = numbers.
Proof. unfold part. rewrite chunks. apply firstn_all2. unfold numbers. by rewrite stream_length. Qed.

(** ** The invariant *)

(** A worker in round [r] of the barrier. *)
Definition worker_ok (r : Z) (pc : wpc) : Prop :=
  match pc with
  | W_sort | W_sorted => r = 0
  | W_wait q => q = 0
  | W_end => r = 1
  | W_stop _ => False
  end.

Definition main_ok (r created : Z) (pc : mpc) : Prop :=
  match pc with
  | M_init | M_stop _ => False
  | M_create i => r = 0 /\ i = created
  | M_wait q => q = 0 /\ created = NTHR
  | M_merge => r = 1 /\ created = NTHR
  | M_exit st => st = 0 \/ st = 1
  end.

Definition main_waiting (pc : mpc) : Z := match pc with M_wait _ => 1 | _ => 0 end.

Definition Parts (w : world) (ws : list (Z * wpc)) (Ps : list (list Z)) : Prop :=
  nums w = longs (concat Ps) /\ length Ps = N /\ (forall k P, Ps !! k = Some P -> P ≡ₚ part k) /\
  forall k idx pc P, ws !! k = Some (idx, pc) -> pc <> W_sort -> Ps !! k = Some P -> sorted P.

Definition Output (w : world) (pc : mpc) : Prop :=
  match pc with
  | M_exit 0 => sorted (out w) /\ out w ≡ₚ numbers /\ snums w = longs (out w)
  | _ => snums w = longs (replicate (N * T) 0) /\ out w = []
  end.

Record Inv (s : sys) : Prop := {
  i_parts : exists Ps, Parts (mem s) (workers s) Ps;
  i_output : Output (mem s) (main s);
  i_workers : forall k idx pc, workers s !! k = Some (idx, pc) -> idx = Z.of_nat k * TNUM /\ worker_ok (round (bar s)) pc;
  i_created : (length (workers s) <= N)%nat;
  i_main : main_ok (round (bar s)) (Z.of_nat (length (workers s))) (main s);
  i_limit : limit (bar s) = NTHR + 1;
  i_bar : (round (bar s) = 0 /\ arrived (bar s) = total waiting (workers s) + main_waiting (main s) /\ arrived (bar s) <= NTHR) \/
          (round (bar s) = 1 /\ arrived (bar s) = 0) }.

Lemma numbers_ok : Forall number numbers.
Proof. apply Random.stream_range. Qed.

Lemma part_ok k : Forall number (part k).
Proof. apply Forall_take, Forall_drop, numbers_ok. Qed.

Lemma part_length k : (k < N)%nat -> length (part k) = T.
Proof. intros. unfold part. rewrite length_take, length_drop. unfold numbers. rewrite stream_length. nia. Qed.

Lemma parts_blocks w ws Ps : Parts w ws Ps -> blocks T Ps /\ concat Ps ≡ₚ numbers /\ Forall number (concat Ps).
Proof.
  intros (_ & HL & Hp & _). assert (Hperm : concat Ps ≡ₚ numbers).
  { rewrite <- parts_numbers, <- HL. clear HL. revert Hp.
    induction Ps as [|P Ps IH] using rev_ind; intros Hp; [done|]. rewrite length_app, Nat.add_1_r, seq_S, map_app, !concat_app. cbn.
    rewrite (Hp (length Ps) P) by (by rewrite lookup_app_r, Nat.sub_diag by lia). apply Permutation_app; [|reflexivity]. apply IH.
    intros k P' Hk. apply Hp. by apply lookup_app_l_Some. }
  split; [|split; [done|by rewrite Hperm; apply numbers_ok]].
  apply Forall_lookup_2. intros k P Hk. rewrite (Hp k P Hk). apply part_length. rewrite <- HL. by eapply lookup_lt_Some.
Qed.

(** ** The steps of the workers *)

(** One more thread arrives. *)
Lemma arrive_inv s k idx pc : Inv s -> workers s !! k = Some (idx, pc) -> pc = W_sorted -> halted s = false ->
  Inv (Sys (mem s) (arrive (bar s)) (main s) (<[k := (idx, W_wait (round (bar s)))]> (workers s))).
Proof.
  intros I Hk -> Hh. destruct (i_workers _ I k idx W_sorted Hk) as [Hidx Hr]. cbn in Hr.
  destruct I as [(Ps & HPs) Iout Iw Ic Im Il Ib]. destruct Ib as [(_ & Ea & Hle)|(E & _)]; [|lia].
  pose proof (total_insert waiting _ k (idx, W_sorted) (idx, W_wait 0) Hk) as Ht. cbn [waiting snd] in Ht. change (waiting (idx, W_sorted)) with 0 in Ht. change (waiting (idx, W_wait 0)) with 1 in Ht.
  pose proof (waiting_le (<[k := (idx, W_wait 0)]> (workers s))) as Hw. rewrite length_insert in Hw.
  assert (Hlook : forall j i p, <[k := (idx, W_wait 0)]> (workers s) !! j = Some (i, p) -> p = W_wait 0 /\ i = Z.of_nat j * TNUM \/ workers s !! j = Some (i, p)).
  { intros j i p Hj. destruct (decide (j = k)) as [->|]; [|right; by rewrite list_lookup_insert_ne in Hj].
    rewrite list_lookup_insert_eq in Hj by (by eapply lookup_lt_Some). injection Hj as <- <-. by left. }
  rewrite Hr. split; cbn [mem bar main workers]; rewrite ?length_insert; try done.
  - exists Ps. destruct HPs as (H1 & H2 & H3 & H4). split_and!; try done. intros j i p P Hj Hp HP.
    destruct (Hlook j i p Hj) as [[-> ->]|Hj']; [|by apply (H4 j i p)]. destruct (decide (j = k)) as [->|]; [by apply (H4 k idx W_sorted)|].
    rewrite list_lookup_insert_ne in Hj by done. by apply (H4 j _ _ _ Hj).
  - intros j i p Hj. unfold arrive. destruct (Z.eqb_spec (arrived (bar s) + 1) (limit (bar s))) as [E|E]; cbn [round].
    + assert (Hall : total waiting (<[k := (idx, W_wait 0)]> (workers s)) = Z.of_nat (length (<[k := (idx, W_wait 0)]> (workers s))))
        by (rewrite length_insert; unfold main_waiting in *; destruct (main s); lia).
      pose proof (waiting_all _ j _ Hall Hj) as Hwait. destruct p; try done.
      destruct (Hlook j i _ Hj) as [[[= ->] ->]|Hj']; [done|]. apply (Iw j i _ Hj').
    + destruct (Hlook j i p Hj) as [[-> ->]|Hj']; [done|]. apply (Iw j i p Hj').
  - unfold arrive. destruct (Z.eqb_spec (arrived (bar s) + 1) (limit (bar s))) as [E|E]; cbn [round]; [|done].
    destruct (main s); cbn [main_ok main_waiting] in *; try done; lia.
  - unfold arrive. by destruct (arrived (bar s) + 1 =? limit (bar s)).
  - unfold arrive. destruct (Z.eqb_spec (arrived (bar s) + 1) (limit (bar s))) as [E|E]; cbn [round arrived]; [right; lia|left; lia].
Qed.

(** A worker whose program counter changes, outside the barrier. *)
Lemma worker_inv s k idx pc pc' w Ps : Inv s -> workers s !! k = Some (idx, pc) -> waiting (idx, pc') = waiting (idx, pc) \/ round (bar s) = 1 ->
  worker_ok (round (bar s)) pc' -> snums w = snums (mem s) -> out w = out (mem s) -> Parts w (<[k := (idx, pc')]> (workers s)) Ps ->
  Inv (Sys w (bar s) (main s) (<[k := (idx, pc')]> (workers s))).
Proof.
  intros [_ Iout Iw Ic Im Il Ib] Hk Hwait Hok Hs Ho HPs. pose proof (total_insert waiting _ k _ (idx, pc') Hk) as Ht.
  split; cbn [mem bar main workers]; rewrite ?length_insert; try done; [by exists Ps| | |].
  - unfold Output in *. by rewrite Hs, Ho.
  - intros j i p Hj. destruct (decide (j = k)) as [->|]; [|rewrite list_lookup_insert_ne in Hj by done; by apply Iw].
    rewrite list_lookup_insert_eq in Hj by (by eapply lookup_lt_Some). injection Hj as <- <-. split; [|done]. by apply (Iw k idx pc).
  - lia.
Qed.

Lemma worker_step_inv s k s' : Inv s -> worker_step TNUM k s = Some s' -> Inv s'.
Proof.
  intros I H. unfold worker_step in H. destruct (halted s) eqn:Hh; [done|]. destruct (workers s !! k) as [[idx pc]|] eqn:Hk; [|done].
  destruct (i_workers _ I k idx pc Hk) as [Hidx Hok]. destruct (i_parts _ I) as (Ps & HPs). pose proof HPs as (H1 & H2 & H3 & H4).
  destruct pc as [| |q| |e]; cbn [worker_ok] in Hok; try done.
  - destruct (parts_blocks _ _ _ HPs) as (Hb & _ & Hn). pose proof (i_created _ I) as Hc. pose proof (lookup_lt_Some _ _ _ Hk) as Hkl.
    destruct (lookup_lt_is_Some_2 Ps k ltac:(lia)) as [P HP]. pose proof (part_ok k) as Hpk. rewrite <- (H3 k P HP) in Hpk.
    destruct (wp_run _ _ _ (sort_part_spec T HT0 HT (mem s) Ps k P H1 Hb HP Hpk)) as ([] & w & Hrun & P' & Hperm & Hsort & ->).
    rewrite Hidx in *. rewrite Hrun in H. injection H as <-.
    apply (worker_inv s k _ W_sort _ _ (<[k := P']> Ps)); try done; [by left|].
    split_and!; [done|by rewrite length_insert| |].
    + intros j Q HQ. destruct (decide (j = k)) as [->|]; [|rewrite list_lookup_insert_ne in HQ by done; by apply H3].
      rewrite list_lookup_insert_eq in HQ by lia. injection HQ as <-. by rewrite Hperm, (H3 k P).
    + intros j i p Q Hj Hp HQ. destruct (decide (j = k)) as [->|].
      * rewrite list_lookup_insert_eq in HQ by lia. by injection HQ as <-.
      * rewrite list_lookup_insert_ne in Hj by done. rewrite list_lookup_insert_ne in HQ by done. by apply (H4 j i p).
  - injection H as <-. by apply (arrive_inv s k idx W_sorted).
  - subst q. unfold open in H. destruct (Z.ltb_spec 0 (round (bar s))); [|done]. injection H as <-.
    assert (Hr : round (bar s) = 1) by (destruct (i_bar _ I) as [[? _]|[? _]]; lia).
    apply (worker_inv s k idx (W_wait 0) _ _ Ps); try done; [by right|]. split_and!; try done.
    intros j i p Q Hj Hp HQ. destruct (decide (j = k)) as [->|]; [by apply (H4 k idx (W_wait 0))|].
    rewrite list_lookup_insert_ne in Hj by done. by apply (H4 j i p).
Qed.

(** ** The steps of the main thread *)

Lemma init_inv err s' : main_step NTHR TNUM err (start NTHR TNUM) = Some s' -> Inv s'.
Proof.
  intros H. unfold main_step in H. cbn [main start mem] in H.
  assert (Hw : wp (let* _ := zoom rng set_rng (Random.srandom 1) in fill (Z.to_nat (NUMNUM NTHR TNUM)) 0)
    (fun _ w => nums w = longs numbers /\ snums w = longs (replicate (N * T) 0) /\ out w = []) (mem (start NTHR TNUM))).
  { replace (Z.to_nat (NUMNUM NTHR TNUM)) with (N * T)%nat by (unfold NUMNUM; lia).
    apply wp_bind, wp_zoom. eapply wp_mono; [apply (Random.srandom_spec _ Random.init), Random.static_good|].
    cbv beta. intros _ g (a & G & (Hn & _) & _ & Hv). change 0 with (Z.of_nat (length (@nil Z))).
    assert (Hz : replicate (Z.to_nat (8 * NUMNUM NTHR TNUM)) 0 = longs (replicate (N * T) 0)) by (rewrite longs_zeros; f_equal; unfold NUMNUM; lia).
    eapply wp_mono; [apply (fill_spec (N * T) _ [] a); [done|exact Hz]|]. cbv beta. intros _ w (g' & ->).
    cbn [nums snums out set_nums set_rng rng mem start] in *. rewrite Hn, Hv. split_and!; [done|exact Hz|done]. }
  destruct (wp_run _ _ _ Hw) as (u & w & E & Hnums & Hs & Ho). cbn [mem start] in E. rewrite E in H. clear E Hw. injection H as <-.
  split; cbn [mem bar main workers start length main_ok limit round arrived]; try done; [|lia|left; cbn; lia].
  exists (map part (seq 0 N)). split_and!; [by rewrite parts_numbers|by rewrite length_map, length_seq| |done].
  intros k P HP. apply list_lookup_fmap_Some in HP as (j & -> & [-> _]%lookup_seq). done.
Qed.

(** [pthread_create] fails, or starts one more worker. *)
Lemma create_inv s : Inv s -> main s = M_create (Z.of_nat (length (workers s))) -> round (bar s) = 0 -> Z.of_nat (length (workers s)) < NTHR ->
  Inv (Sys (mem s) (bar s) (M_exit 1) (workers s)) /\
  Inv (Sys (mem s) (bar s) (M_create (Z.of_nat (length (workers s)) + 1)) (workers s ++ [(Z.of_nat (length (workers s)) * TNUM, W_sort)])).
Proof.
  intros [(Ps & HPs) Iout Iw Ic Im Il Ib] Em Hr Hlt. rewrite Em in *. cbn [main_waiting] in Ib. split.
  - split; cbn [mem bar main workers main_ok main_waiting]; try done; [by exists Ps|by right].
  - split; cbn [mem bar main workers main_ok main_waiting]; try done.
    + exists Ps. destruct HPs as (H1 & H2 & H3 & H4). split_and!; try done. intros k i p P Hk Hp HP.
      apply lookup_app_Some in Hk as [Hk|[_ Hk]]; [by apply (H4 k i p)|]. apply list_lookup_singleton_Some in Hk as [_ [= <- <-]]. done.
    + intros k i p Hk. apply lookup_app_Some in Hk as [Hk|[Hk1 Hk]]; [by apply Iw|].
      apply list_lookup_singleton_Some in Hk as [Hk2 [= <- <-]]. split; [|done]. f_equal. lia.
    + rewrite length_app. cbn. lia.
    + rewrite length_app. cbn. lia.
    + rewrite total_snoc. change (waiting (_, W_sort)) with 0. lia.
Qed.

(** The main thread arrives when all workers are created. *)
Lemma main_arrive_inv s : Inv s -> main s = M_create NTHR -> Z.of_nat (length (workers s)) = NTHR -> round (bar s) = 0 ->
  Inv (Sys (mem s) (arrive (bar s)) (M_wait (round (bar s))) (workers s)).
Proof.
  intros [(Ps & HPs) Iout Iw Ic Im Il Ib] Em Hl Hr. rewrite Em in *. cbn [main_waiting] in Ib. destruct Ib as [(_ & Ea & Hle)|(E & _)]; [|lia].
  pose proof (waiting_le (workers s)) as Hwl. unfold arrive. destruct (Z.eqb_spec (arrived (bar s) + 1) (limit (bar s))) as [E|E];
    (split; cbn [mem bar main workers main_ok main_waiting round limit arrived]; try done; [by exists Ps|..]); try lia.
  intros k i p Hk. destruct (Iw k i p Hk) as [Hi Hok]. split; [done|].
  assert (Hall : total waiting (workers s) = Z.of_nat (length (workers s))) by lia.
  pose proof (waiting_all _ _ _ Hall Hk) as Hwait. by destruct p.
Qed.

(** The merge, when every worker is past its sort. *)
Lemma merge_run s Ps : Inv s -> Parts (mem s) (workers s) Ps -> main s = M_merge ->
  wp (let* _ := merge NTHR TNUM in print_loop (Z.to_nat (NUMNUM NTHR TNUM)) 0)
    (fun _ w => sorted (out w) /\ out w ≡ₚ numbers /\ snums w = longs (out w) /\ nums w = nums (mem s)) (mem s).
Proof.
  intros [_ Iout Iw Ic Im Il Ib] HPs Em. rewrite Em in *. destruct Im as [Hr Hcr]. destruct Iout as [Hs Ho].
  destruct (parts_blocks _ _ _ HPs) as (Hb & Hperm & Hn). destruct HPs as (H1 & H2 & H3 & H4).
  eapply wp_seq; [rewrite <- H2; apply (merge_spec T HT0 Ps); try done|].
  - apply Forall_lookup_2. intros k P HP. pose proof (lookup_lt_Some _ _ _ HP).
    destruct (lookup_lt_is_Some_2 (workers s) k ltac:(lia)) as [[i p] Hk]. apply (H4 k i p P Hk); [|done].
    destruct (Iw k i p Hk) as [_ Hok]. intros ->. cbn in Hok. lia.
  - rewrite Hs. f_equal. f_equal. rewrite Hperm. unfold numbers. by rewrite stream_length.
  - cbv beta. intros _ w (R & HsR & HpR & ->). change 0 with (Z.of_nat 0).
    assert (HR : R ≡ₚ numbers) by (by rewrite HpR).
    eapply wp_mono; [apply (print_spec _ 0 R); [done|by rewrite HR; apply numbers_ok|rewrite HR; unfold numbers; rewrite stream_length; unfold NUMNUM; lia]|].
    cbv beta. intros _ w ->. cbn [out set_out set_snums snums nums]. rewrite Ho, drop_0. by split_and!.
Qed.

Lemma main_step_inv err s s' : Inv s -> main_step NTHR TNUM err s = Some s' -> Inv s'.
Proof.
  intros I H. pose proof I as [(Ps & HPs) Iout Iw Ic Im Il Ib]. unfold main_step in H.
  destruct (main s) as [|i|q| |st|e] eqn:Em; cbn [main_ok main_waiting] in *; try done.
  - destruct Im as [Hr ->]. destruct (Z.ltb_spec (Z.of_nat (length (workers s))) NTHR) as [Hcl|Hcl].
    + destruct (create_inv s I Em Hr Hcl). destruct (negb (err =? 0)); by injection H as <-.
    + injection H as <-. apply main_arrive_inv; [done|rewrite Em; f_equal; lia|lia|done].
  - destruct Im as [-> Hcr]. unfold open in H. destruct (Z.ltb_spec 0 (round (bar s))) as [Hr0|]; [|done]. injection H as <-.
    assert (Hr : round (bar s) = 1) by (destruct Ib as [[? _]|[? _]]; lia).
    split; cbn [mem bar main workers main_ok main_waiting]; try done; [by exists Ps|right; lia].
  - destruct (wp_run _ _ _ (merge_run s Ps I HPs Em)) as (u & w & E & HsR & HpR & HsnR & Hnw). rewrite E in H. injection H as <-.
    split; cbn [mem bar main workers main_ok main_waiting]; try done; [|by left].
    exists Ps. destruct HPs as (H1 & H2 & H3 & H4). split_and!; try done. by rewrite Hnw.
Qed.

Lemma reach_inv s : rtc (step NTHR TNUM) (start NTHR TNUM) s -> s = start NTHR TNUM \/ Inv s.
Proof.
  revert s. apply rtc_ind_r; [by left|]. intros s1 s2 _ Hs IH. right. destruct IH as [->|I].
  - destruct Hs as [err Hs|k Hs]; [by eapply init_inv|]. unfold worker_step in Hs. by cbn in Hs.
  - destruct Hs as [err Hs|k Hs]; [by eapply main_step_inv|by eapply worker_step_inv].
Qed.

(** ** Progress *)

Lemma main_enabled s : match main s with M_init | M_create _ | M_merge => True | _ => False end -> exists s', main_step NTHR TNUM 0 s = Some s'.
Proof.
  unfold main_step. intros H. destruct (main s); try done.
  - destruct ((let* _ := zoom rng set_rng (Random.srandom 1) in fill (Z.to_nat (NUMNUM NTHR TNUM)) 0) (mem s)) as [[u|e] w]; eauto.
  - destruct (_ <? _); eauto.
  - destruct ((let* _ := merge NTHR TNUM in print_loop (Z.to_nat (NUMNUM NTHR TNUM)) 0) (mem s)) as [[u|e] w]; eauto.
Qed.

(** Until the process exits some thread has a step. *)
Lemma progress s : Inv s -> halted s = false -> exists s', step NTHR TNUM s s'.
Proof.
  intros I Hh. unfold halted in Hh. destruct (main s) as [|i|q| |st|e] eqn:Em; try done.
  - destruct (main_enabled s) as [s' H]; [by rewrite Em|]. eexists. by eapply step_main.
  - destruct (main_enabled s) as [s' H]; [by rewrite Em|]. eexists. by eapply step_main.
  - destruct I as [_ _ Iw Ic Im Il Ib]. rewrite Em in *. destruct Im as [-> Hcr]. destruct Ib as [(Hr & Ea & Hle)|[Hr _]].
    + cbn [main_waiting] in Ea. destruct (waiting_some (workers s) ltac:(lia)) as (k & [idx pc] & Hk & Hp).
      destruct (Iw k idx pc Hk) as [_ Hok]. assert (Hs : exists s', worker_step TNUM k s = Some s').
      { unfold worker_step, halted. rewrite Em, Hk. destruct pc; cbn in Hok, Hp; try lia; try done; [|eauto].
        destruct (sort_part TNUM idx (mem s)) as [[u|e] w]; eauto. }
      destruct Hs as [s' Hs]. exists s'. by eapply step_worker.
    + exists (Sys (mem s) (bar s) M_merge (workers s)). apply (step_main _ _ _ _ 0). unfold main_step, open. by rewrite Em, Hr.
  - destruct (main_enabled s) as [s' H]; [by rewrite Em|]. eexists. by eapply step_main.
Qed.

(** ** Termination *)

Definition worker_rank (p : Z * wpc) : Z := match p.2 with W_sort => 3 | W_sorted => 2 | W_wait _ => 1 | _ => 0 end.
Definition main_rank (pc : mpc) : Z :=
  match pc with
  | M_init => 4 * NTHR + 4
  | M_create i => 4 * Z.max 0 (NTHR - i) + 3
  | M_wait _ => 2
  | M_merge => 1
  | M_exit _ | M_stop _ => 0
  end.
Definition rank (s : sys) : Z := main_rank (main s) + total worker_rank (workers s).

Lemma rank_least s : 0 <= rank s.
Proof.
  unfold rank. assert (0 <= total worker_rank (workers s)).
  { induction (workers s) as [|[i p] ws IH]; [done|]. cbn [total]. unfold worker_rank at 1. destruct p; cbn [snd]; lia. }
  unfold main_rank. destruct (main s); lia.
Qed.

Lemma step_rank s s' : step NTHR TNUM s s' -> rank s' < rank s.
Proof.
  intros [err H|k H]; unfold rank.
  - unfold main_step in H. destruct (main s) as [|i|q| |st|e] eqn:Em; try done.
    + destruct ((let* _ := zoom rng set_rng (Random.srandom 1) in fill (Z.to_nat (NUMNUM NTHR TNUM)) 0) (mem s)) as [[u|e] w];
        injection H as <-; cbn [main workers main_rank]; lia.
    + destruct (Z.ltb_spec i NTHR); [destruct (negb _)|]; injection H as <-; cbn [main workers main_rank]; [lia| |lia].
      rewrite total_snoc. change (worker_rank (_, W_sort)) with 3. lia.
    + destruct (open _ _); [|done]. injection H as <-. cbn [main workers main_rank]. lia.
    + destruct ((let* _ := merge NTHR TNUM in print_loop (Z.to_nat (NUMNUM NTHR TNUM)) 0) (mem s)) as [[u|e] w];
        injection H as <-; cbn [main workers main_rank]; lia.
  - unfold worker_step in H. destruct (halted s); [done|]. destruct (workers s !! k) as [[idx pc]|] eqn:Hk; [|done].
    destruct pc as [| |q| |e]; try done; [destruct (sort_part TNUM idx (mem s)) as [[u|e] w]| |destruct (open _ _); [|done]]; injection H as <-;
      cbn [main workers]; rewrite (total_insert _ _ _ _ _ Hk); unfold worker_rank; cbn [snd]; lia.
Qed.

Lemma steps_rank n s s' : nsteps (step NTHR TNUM) n s s' -> Z.of_nat n <= rank s - rank s'.
Proof. induction 1 as [|n s1 s2 s3 H _ IH]; [lia|]. apply step_rank in H. lia. Qed.
End program.

(** C9. In whatever order the threads run, no access leaves an array and no call
    stops a thread; and when the program exits with status 0 it has printed the numbers
    that [random] made after [srandom(1)], all of them and in ascending order.  The
    number of threads and the numbers per thread are any (8 and 1000000 in the source),
    as long as a part is one that [qsort] can sort. *)
Theorem barrier_sorts (NTHR TNUM : Z) s :
  0 < NTHR -> 0 < TNUM < 55555780070575 -> rtc (step NTHR TNUM) (start NTHR TNUM) s ->
  (forall e, main s <> M_stop e) /\ (forall k idx e, workers s !! k <> Some (idx, W_stop e)) /\
  (main s = M_exit 0 -> StronglySorted Z.le (out (mem s)) /\
    out (mem s) ≡ₚ Random.stream (Z.to_nat (NUMNUM NTHR TNUM)) 31 (Random.seeded 31 1)).
Proof.
  intros HN HT Hs. rewrite <- (Z2Nat.id NTHR), <- (Z2Nat.id TNUM) in Hs by lia.
  replace (Z.to_nat (NUMNUM NTHR TNUM)) with (Z.to_nat NTHR * Z.to_nat TNUM)%nat by (unfold NUMNUM; lia).
  destruct (reach_inv (Z.to_nat NTHR) (Z.to_nat TNUM) ltac:(lia) ltac:(lia) ltac:(lia) s Hs) as [->|[_ Iout Iw _ Im _ _]].
  { split_and!; [done|by intros k idx e|done]. }
  split_and!.
  - intros e Em. by rewrite Em in Im.
  - intros k idx e Hk. by destruct (Iw k idx _ Hk).
  - intros Em. rewrite Em in Iout. by destruct Iout as (? & ? & _).
Qed.

(** Two workers with three numbers each; the second arrives first. *)
Definition ex_schedule : list (option nat) :=
  [None; None; Some 0%nat; None; Some 1%nat; Some 1%nat; None; Some 0%nat; Some 1%nat; None; None].
Definition ex_end : sys := default (start 2 3) (run 2 3 ex_schedule (start 2 3)).

Lemma barrier_sorts_witness : main ex_end = M_exit 0 /\ StronglySorted Z.le (out (mem ex_end)) /\
  out (mem ex_end) ≡ₚ Random.stream 6 31 (Random.seeded 31 1).
Proof.
  assert (E : run 2 3 ex_schedule (start 2 3) = Some ex_end) by (vm_compute; reflexivity).
  assert (Em : main ex_end = M_exit 0) by (vm_compute; reflexivity). split; [exact Em|].
  apply (barrier_sorts 2 3 ex_end ltac:(lia) ltac:(lia) (run_steps 2 3 ex_schedule _ _ E)). exact Em.
Defined.

(** C27. Every run of the program ends: it has at most 4 [NTHR] + 4 steps, and as long
    as the main thread has not exited, some thread can go on.  No thread waits for ever
    at the barrier. *)
Theorem barrier_terminates (NTHR TNUM : Z) count s :
  0 < NTHR -> 0 < TNUM < 55555780070575 -> nsteps (step NTHR TNUM) count (start NTHR TNUM) s ->
  Z.of_nat count <= 4 * NTHR + 4 /\
  ((exists status, main s = M_exit status) \/ exists s', step NTHR TNUM s s').
Proof.
  intros HN HT Hs. rewrite <- (Z2Nat.id NTHR), <- (Z2Nat.id TNUM) in * by lia.
  set (N := Z.to_nat NTHR) in *. set (T := Z.to_nat TNUM) in *. split.
  - pose proof (steps_rank N T ltac:(lia) ltac:(lia) _ _ _ Hs) as H. pose proof (rank_least N T ltac:(lia) ltac:(lia) s). unfold rank at 1 in H. cbn [main workers start main_rank total] in H. lia.
  - destruct (reach_inv N T ltac:(lia) ltac:(lia) ltac:(lia) s (rtc_nsteps_2 _ _ _ Hs)) as [->|I].
    + right. destruct (main_enabled N T (start (Z.of_nat N) (Z.of_nat T)) I) as [s' H]. exists s'. by eapply step_main.
    + destruct (halted s) eqn:Hh; [|right; apply progress; lia || done]. left. pose proof (i_main _ _ _ I) as Hm. unfold halted in Hh.
      destruct (main s); try done. by eexists.
Qed.

Lemma barrier_terminates_witness : exists s', step 2 3 (start 2 3) s'.
Proof.
  destruct (barrier_terminates 2 3 0 (start 2 3) ltac:(lia) ltac:(lia) (nsteps_O _ _)) as [_ [[st H]|H]]; [discriminate H|exact H].
Defined.

(** The merge takes [LONG_MAX] for greater than every number; if it is among the
    numbers, the merge looks past the end of the first part and prints 7 twice. *)
Example merge_long_max :
  let w := World (Random.static_gen ∅) (longs [5; 6; 7; LONG_MAX]) (longs [0; 0; 0; 0]) [] in
  out ((let* _ := merge 2 2 in print_loop 4 0) w).2 = [5; 6; 7; 7].
Proof. vm_compute. reflexivity. Qed.
End BarrierThms.
