(* ===== verification/Ftw.v ===== *)
(** * Walking a file hierarchy: src/apue.3e/filedir/ftw8.c and lib/pathalloc.c

    [myftw] walks a hierarchy in one buffer for the pathname, which grows and shrinks
    with the recursion and is reallocated on the way, and calls a function for every
    file.  What [lstat] and [opendir] find under a name, [sysconf] and [pathconf] are
    parameters; a directory stream delivers its names in order.  An access outside
    the buffer is a [Crash].  The percentages that [main] prints are not modelled. *)

From S2P Require Import Prelude CLib.

Module Ftw.

(** ** Constants *)

Definition FTW_F : Z := 1.
Definition FTW_D : Z := 2.
Definition FTW_DNR : Z := 3.
Definition FTW_NS : Z := 4.

Definition S_IFMT : Z := 61440.
Definition S_IFSOCK : Z := 49152.
Definition S_IFLNK : Z := 40960.
Definition S_IFREG : Z := 32768.
Definition S_IFBLK : Z := 24576.
Definition S_IFDIR : Z := 16384.
Definition S_IFCHR : Z := 8192.
Definition S_IFIFO : Z := 4096.
Definition S_ISDIR (mode : Z) : bool := Z.land mode S_IFMT =? S_IFDIR.

Definition NAME_MAX : Z := 255.
Definition PATH_MAX_GUESS : Z := 1024.
Definition slash : Z := 47.

Section ftw.

(** ** The system *)

(** The mode of the file under a name, or none if [lstat] fails; the names in a
    directory, or none if it cannot be opened. *)
Variable lstat : bytes -> option Z.
Variable opendir : bytes -> option (list bytes).

(** [_SC_VERSION] and [_SC_XOPEN_VERSION], and the result of [pathconf] with
    [errno]. *)
Variables sc_version sc_xopen : Z.
Variable pathconf : Z * Z.

(** The function called for every file, with its state: it gets the name, the
    mode (none if [lstat] failed) and the type. *)
Context {U : Type}.
Variable func : bytes -> option Z -> Z -> M U Z.

(** The allocated buffer and its size as the program knows it, the statics of
    [path_alloc], the open directories, which of the coming allocations and calls of
    [closedir] fail, and the messages of [err_ret]. *)
Record st := St {
  fullpath : bytes; pathlen : Z;
  pathmax : Z; posix_version : Z; xsi_version : Z;
  opened : Z; allocs : list bool; closes : list bool; errs : list bytes;
  user : U }.

Definition set_fullpath x s := St x (pathlen s) (pathmax s) (posix_version s) (xsi_version s) (opened s) (allocs s) (closes s) (errs s) (user s).
Definition set_pathlen x s := St (fullpath s) x (pathmax s) (posix_version s) (xsi_version s) (opened s) (allocs s) (closes s) (errs s) (user s).
Definition set_pathmax x s := St (fullpath s) (pathlen s) x (posix_version s) (xsi_version s) (opened s) (allocs s) (closes s) (errs s) (user s).
Definition set_posix x s := St (fullpath s) (pathlen s) (pathmax s) x (xsi_version s) (opened s) (allocs s) (closes s) (errs s) (user s).
Definition set_xsi x s := St (fullpath s) (pathlen s) (pathmax s) (posix_version s) x (opened s) (allocs s) (closes s) (errs s) (user s).
Definition set_opened x s := St (fullpath s) (pathlen s) (pathmax s) (posix_version s) (xsi_version s) x (allocs s) (closes s) (errs s) (user s).
Definition set_allocs x s := St (fullpath s) (pathlen s) (pathmax s) (posix_version s) (xsi_version s) (opened s) x (closes s) (errs s) (user s).
Definition set_closes x s := St (fullpath s) (pathlen s) (pathmax s) (posix_version s) (xsi_version s) (opened s) (allocs s) x (errs s) (user s).
Definition set_errs x s := St (fullpath s) (pathlen s) (pathmax s) (posix_version s) (xsi_version s) (opened s) (allocs s) (closes s) x (user s).
Definition set_user x s := St (fullpath s) (pathlen s) (pathmax s) (posix_version s) (xsi_version s) (opened s) (allocs s) (closes s) (errs s) x.

(** [realloc] and [malloc] of the buffer: the old bytes stay, the new ones are
    anything. *)
Definition realloc (size : Z) : M st bool := fun s =>
  match allocs s with
  | true :: l => (Ret false, set_allocs l s)
  | l => (Ret true, set_allocs (tail l) (set_fullpath (take (Z.to_nat size) (fullpath s ++ replicate (Z.to_nat size) 165)) s))
  end.
Definition malloc (size : Z) : M st bool := modify (set_fullpath []) ;;; realloc size.

(** Bytes stored in the buffer, and the string in it. *)
Definition store (off : Z) (d : bytes) : M st unit := fun s =>
  if (0 <=? off) && (off + Z.of_nat (length d) <=? Z.of_nat (length (fullpath s)))
  then (Ret tt, set_fullpath (overwrite (Z.to_nat off) d (fullpath s)) s) else (Stop Crash, s).
Definition path : M st bytes := fun s =>
  if bool_decide (0 ∈ fullpath s) then (Ret (cstr (fullpath s)), s) else (Stop Crash, s).

Definition call (mode : option Z) (type : Z) : M st Z :=
  let* p := path in zoom user set_user (func p mode type).

Definition closedir : M st Z := fun s =>
  let s := set_opened (opened s - 1) s in
  match closes s with
  | true :: l => (Ret (-1), set_closes l s)
  | l => (Ret 0, set_closes (tail l) s)
  end.

(** ** The program *)

Definition path_alloc : M st unit :=
  let* s := get in
  (if posix_version s =? 0 then modify (set_posix sc_version) else ret tt) ;;;
  (if xsi_version s =? 0 then modify (set_xsi sc_xopen) else ret tt) ;;;
  (if pathmax s =? 0 then
     modify (set_pathmax pathconf.1) ;;;
     if pathconf.1 <? 0 then
       if pathconf.2 =? 0 then modify (set_pathmax PATH_MAX_GUESS) else stop (Err_sys "pathconf error for _PC_PATH_MAX")
     else modify (set_pathmax (pathconf.1 + 1))
   else ret tt) ;;;
  let* s := get in
  let size := if (posix_version s <? 200112) && (xsi_version s <? 4) then pathmax s + 1 else pathmax s in
  let* ok := malloc size in
  if negb ok then stop (Err_sys "malloc error for pathname") else
  modify (set_pathlen size).

(** The loop over the names of a directory; [self] is the recursive call. *)
Fixpoint read_loop (self : M st Z) (n : Z) (names : list bytes) (r : Z) : M st Z :=
  match names with
  | [] => ret r
  | name :: names' =>
      if (strcmp name (str ".") =? 0) || (strcmp name (str "..") =? 0) then read_loop self n names' r else
      let* s := get in
      store n (snprintf (Z.to_nat (pathlen s - n)) name) ;;;
      let* r := self in
      if negb (r =? 0) then ret r else read_loop self n names' r
  end.

Fixpoint dopath (fuel : nat) : M st Z :=
  match fuel with
  | O => stop Hang
  | S fuel' =>
      let* p := path in
      match lstat p with
      | None => call None FTW_NS
      | Some mode =>
          if negb (S_ISDIR mode) then call (Some mode) FTW_F else
          let* r := call (Some mode) FTW_D in
          if negb (r =? 0) then ret r else
          let* p := path in
          let n := Z.of_nat (length p) in
          let* s := get in
          (if n + NAME_MAX + 2 >? pathlen s then
             modify (fun s => set_pathlen (to_u64 (pathlen s * 2)) s) ;;;
             let* s := get in
             let* ok := realloc (pathlen s) in
             if negb ok then stop (Err_sys "realloc failed") else ret tt
           else ret tt) ;;;
          store n [slash] ;;;
          store (n + 1) [0] ;;;
          let n := n + 1 in
          let* p := path in
          match opendir p with
          | None => call (Some mode) FTW_DNR
          | Some names =>
              modify (fun s => set_opened (opened s + 1) s) ;;;
              let* r := read_loop (dopath fuel') n names r in
              store (n - 1) [0] ;;;
              let* c := closedir in
              (if c <? 0 then let* p := path in modify (fun s => set_errs (errs s ++ [str "can't close directory " ++ p]) s) else ret tt) ;;;
              ret r
          end
      end
  end.

Definition myftw (fuel : nat) (pathname : bytes) : M st Z :=
  path_alloc ;;;
  let* s := get in
  (if pathlen s <=? strlen pathname then
     modify (set_pathlen (to_u64 (strlen pathname * 2))) ;;;
     let* s := get in
     let* ok := realloc (pathlen s) in
     if negb ok then stop (Err_sys "realloc failed") else ret tt
   else ret tt) ;;;
  let* s := get in
  store 0 (snprintf (Z.to_nat (pathlen s)) pathname) ;;;
  dopath fuel.
End ftw.

Arguments St {U} _ _ _ _ _ _ _ _ _ _.

(** ** Counting the files *)

Record counts := Counts { nreg : Z; ndir : Z; nblk : Z; nchr : Z; nfifo : Z; nslink : Z; nsock : Z; notes : list bytes }.

Definition add_count (mode : Z) (c : counts) : counts :=
  let t := Z.land mode S_IFMT in
  let one k := if t =? k then 1 else 0 in
  Counts (nreg c + one S_IFREG) (ndir c) (nblk c + one S_IFBLK) (nchr c + one S_IFCHR) (nfifo c + one S_IFIFO)
    (nslink c + one S_IFLNK) (nsock c + one S_IFSOCK) (notes c).
Definition add_dir (c : counts) : counts :=
  Counts (nreg c) (ndir c + 1) (nblk c) (nchr c) (nfifo c) (nslink c) (nsock c) (notes c).
Definition note (msg : bytes) (c : counts) : counts :=
  Counts (nreg c) (ndir c) (nblk c) (nchr c) (nfifo c) (nslink c) (nsock c) (notes c ++ [msg]).

Definition myfunc (pathname : bytes) (mode : option Z) (type : Z) : M counts Z :=
  (if type =? FTW_F then
     let m := default 0 mode in
     if Z.land m S_IFMT =? S_IFDIR then stop (Err_dump "for S_IFDIR") else modify (add_count m)
   else if type =? FTW_D then modify add_dir
   else if type =? FTW_DNR then modify (note (str "can't read directory " ++ pathname))
   else if type =? FTW_NS then modify (note (str "stat error for " ++ pathname))
   else stop (Err_dump "unknown type")) ;;;
  ret 0.

(** [main]: the counts are in the final state. *)
Definition main lstat opendir sc_version sc_xopen pathconf (fuel : nat) (argv : list bytes) : M (st (U := counts)) unit :=
  match argv with
  | [_; p] => let* r := myftw lstat opendir sc_version sc_xopen pathconf myfunc fuel p in stop (Exit r)
  | _ => stop (Err_quit "usage:  ftw  <starting-pathname>")
  end.

(** ** The reference: a walk over a tree

    A file that cannot be examined, a file that is not a directory, a directory that
    cannot be read, and a directory with its entries. *)
Inductive node :=
  | Missing
  | Plain (mode : Z)
  | Closed (mode : Z)
  | Dir (mode : Z) (entries : list (bytes * node)).

Definition max_of (f : node -> nat) : list (bytes * node) -> nat :=
  fix go es := match es with [] => 0%nat | (_, t) :: es' => Nat.max (f t) (go es') end.
Fixpoint height (t : node) : nat :=
  match t with
  | Dir _ es => S (max_of height es)
  | _ => 1%nat
  end.

Definition dot (name : bytes) : bool := bool_decide (name = str ".") || bool_decide (name = str "..").
Definition name_ok (name : bytes) : Prop := nonul name /\ Z.of_nat (length name) <= NAME_MAX /\ dot name = false.

(** The names under which the system shows the tree. *)
Section tree.
Variable lstat : bytes -> option Z.
Variable opendir : bytes -> option (list bytes).

Definition each (f : bytes -> node -> Prop) (p : bytes) : list (bytes * node) -> Prop :=
  fix go es := match es with [] => True | (name, t) :: es' => name_ok name /\ f (p ++ [slash] ++ name) t /\ go es' end.
Fixpoint shown (p : bytes) (t : node) : Prop :=
  match t with
  | Missing => lstat p = None
  | Plain m => lstat p = Some m /\ S_ISDIR m = false
  | Closed m => lstat p = Some m /\ S_ISDIR m = true /\ opendir (p ++ [slash]) = None
  | Dir m es => lstat p = Some m /\ S_ISDIR m = true /\
      (exists names, opendir (p ++ [slash]) = Some names /\ Forall nonul names /\ filter (fun name => dot name = false) names = map fst es) /\
      each shown p es
  end.
End tree.

Section walk.
Context {U : Type} (func : bytes -> option Z -> Z -> M U Z).

Definition in_turn (f : bytes -> node -> M U Z) (p : bytes) : list (bytes * node) -> M U Z :=
  fix go es :=
    match es with
    | [] => ret 0
    | (name, t) :: es' => let* r := f (p ++ [slash] ++ name) t in if negb (r =? 0) then ret r else go es'
    end.

(** Every file once, a directory before its entries, until the function returns
    something else than 0. *)
Fixpoint walk (p : bytes) (t : node) : M U Z :=
  match t with
  | Missing => func p None FTW_NS
  | Plain m => func p (Some m) FTW_F
  | Closed m => let* r := func p (Some m) FTW_D in if negb (r =? 0) then ret r else func (p ++ [slash]) (Some m) FTW_DNR
  | Dir m es => let* r := func p (Some m) FTW_D in if negb (r =? 0) then ret r else
      in_turn walk p es
  end.
End walk.

(** ** The walk in the buffer *)

Lemma dot_strcmp name : nonul name -> (strcmp name (str ".") =? 0) || (strcmp name (str "..") =? 0) = dot name.
Proof.
  intros H. unfold dot. f_equal; apply eq_true_iff_eq; rewrite Z.eqb_eq, bool_decide_eq_true, strcmp_0, (cstr_id name), cstr_id by (done || (cbn; repeat constructor; lia)); done.
Qed.

Section proof.
Context {U : Type} (func : bytes -> option Z -> Z -> M U Z).
Variable lstat : bytes -> option Z.
Variable opendir : bytes -> option (list bytes).
Abbreviation state := (st (U := U)).
Abbreviation dopath := (dopath lstat opendir func).
Abbreviation read_loop := (read_loop (U := U)).

(** [m] does to the state of the function what [w] does, with the same outcome, and
    [Q] holds when it returns. *)
Definition follows (m : M state Z) (w : M U Z) (Q : state -> Prop) (s : state) : Prop :=
  match w (user s), m s with
  | (Ret r, u), (Ret r', s') => r' = r /\ user s' = u /\ Q s'
  | (Stop e, u), (Stop e', s') => e' = e /\ user s' = u
  | _, _ => False
  end.

Lemma follows_bind m w f g (Q R : state -> Prop) s : follows m w Q s -> (forall r s', Q s' -> follows (f r) (g r) R s') -> follows (bind m f) (bind w g) R s.
Proof.
  unfold follows, bind. intros H Hf. destruct (w (user s)) as [[r|e] u], (m s) as [[r'|e'] s']; try done.
  destruct H as (-> & <- & HQ). exact (Hf r s' HQ).
Qed.

Lemma follows_wp {A} (m : M state A) f w (Q : state -> Prop) s : wp m (fun a s' => user s' = user s /\ follows (f a) w Q s') s -> follows (bind m f) w Q s.
Proof.
  unfold follows, bind, wp. destruct (m s) as [[a|e] s']; [|done]. intros [E H]. rewrite E in H. exact H.
Qed.

Lemma follows_mono m w (Q R : state -> Prop) s : follows m w Q s -> (forall s', Q s' -> R s') -> follows m w R s.
Proof. unfold follows. intros H HR. destruct (w (user s)) as [[r|e] u], (m s) as [[r'|e'] s']; try done. destruct H as (-> & <- & HQ). auto. Qed.

Lemma follows_ret r (Q : state -> Prop) s : Q s -> follows (ret r) (ret r) Q s.
Proof. by intros. Qed.

(** The buffer: its size is known, and it begins with [p]. *)
Definition sized (s : state) : Prop := pathlen s = Z.of_nat (length (fullpath s)) /\ 256 <= pathlen s < 2 ^ 62 /\ allocs s = [].
Definition begins (p : bytes) (s : state) : Prop := sized s /\ exists q, fullpath s = p ++ q.
Definition holds (p : bytes) (s : state) : Prop := sized s /\ nonul p /\ exists q, fullpath s = p ++ 0 :: q.

Ltac fields := cbn [fullpath pathlen pathmax posix_version xsi_version opened allocs closes errs user
  set_fullpath set_pathlen set_pathmax set_posix set_xsi set_opened set_allocs set_closes set_errs set_user] in *.

Lemma wp_path p s (Q : bytes -> state -> Prop) : holds p s -> Q p s -> wp path Q s.
Proof.
  intros (_ & Hp & q & E) HQ. unfold wp, path. rewrite bool_decide_eq_true_2 by (rewrite E; set_solver). by rewrite E, cstr_end.
Qed.

Lemma follows_call p m type s (Q : state -> Prop) : holds p s -> (forall u, Q (set_user u s)) -> follows (call func m type) (func p m type) Q s.
Proof.
  intros H HQ. apply follows_wp, (wp_path p); [done|]. split; [done|]. unfold follows, zoom. destruct (func p m type (user s)) as [[r|e] u]; by fields.
Qed.

(** Storing [d] after a prefix. *)
Lemma wp_store_at p q0 q d s (Q : unit -> state -> Prop) : fullpath s = p ++ q0 ++ q -> length q0 = length d -> Q tt (set_fullpath (p ++ d ++ q) s) ->
  wp (store (Z.of_nat (length p)) d) Q s.
Proof.
  intros E L HQ. unfold wp, store. rewrite E, !length_app, L. rewrite (proj2 (Z.leb_le 0 _)), (proj2 (Z.leb_le _ (Z.of_nat _))) by lia. cbn [andb].
  by rewrite Nat2Z.id, overwrite_mid.
Qed.

(** What a call of [dopath] leaves of the buffer. *)
Definition kept (p : bytes) (s s' : state) : Prop := begins p s' /\ pathlen s <= pathlen s' /\ opened s' = opened s.

Lemma grow_spec p s (Q : unit -> state -> Prop) : holds p s -> Z.of_nat (length p) < 2 ^ 60 ->
  (forall s', holds p s' -> Z.of_nat (length p) + 257 <= pathlen s' -> pathlen s <= pathlen s' -> opened s' = opened s -> user s' = user s -> Q tt s') ->
  wp (if Z.of_nat (length p) + NAME_MAX + 2 >? pathlen s then
        modify (fun s => set_pathlen (to_u64 (pathlen s * 2)) s) ;;;
        let* s := get in
        let* ok := realloc (pathlen s) in
        if negb ok then stop (Err_sys "realloc failed") else ret tt
      else ret tt) Q s.
Proof.
  intros H Hp HQ. unfold NAME_MAX. destruct (Z.gtb_spec (Z.of_nat (length p) + 255 + 2) (pathlen s)) as [Hlt|Hge]; [|apply wp_ret, HQ; lia || done].
  destruct H as ((Hl & Hr & Ha) & Hn & q & E). apply wp_bind, wp_modify, wp_bind, wp_get, wp_bind. unfold to_u64. rewrite Z.mod_small by lia.
  assert (Z.of_nat (length p) < pathlen s) by (rewrite Hl, E, length_app; cbn; lia).
  unfold wp, realloc. fields. rewrite Ha. cbn [negb tail].
  rewrite take_app_ge by lia. apply HQ; fields; try done; try lia. split; [|split; [done|]].
  - split_and!; fields; try lia; [|done]. rewrite length_app, length_take, length_replicate. lia.
  - fields. rewrite E. rewrite <- app_assoc. cbn [app]. by eexists.
Qed.

Lemma read_loop_spec self p es s names : filter (fun name => dot name = false) names = map fst es -> Forall nonul names -> nonul p ->
  each (shown lstat opendir) p es -> begins (p ++ [slash]) s -> Z.of_nat (length p) + 257 <= pathlen s ->
  (forall name t s, (name, t) ∈ es -> name_ok name -> shown lstat opendir (p ++ [slash] ++ name) t -> holds (p ++ [slash] ++ name) s ->
     follows self (walk func (p ++ [slash] ++ name) t) (kept (p ++ [slash] ++ name) s) s) ->
  follows (read_loop self (Z.of_nat (length p) + 1) names 0) (in_turn (walk func) p es) (kept (p ++ [slash]) s) s.
Proof.
  intros Hf Hnn Hp. revert es s Hf. induction Hnn as [|name names Hn Hnn IH]; intros es s Hf Heach Hb Hlen Hself; cbn [Ftw.read_loop].
  { destruct es; [|done]. apply follows_ret. by split_and!. }
  rewrite dot_strcmp by done. rewrite filter_cons in Hf. destruct (dot name) eqn:Hd; [by apply IH|].
  destruct (decide (false = false)) as [_|]; [|done]. destruct es as [|[name' t] es]; [done|]. injection Hf as <- Hf.
  destruct Heach as (Hok & Hsh & Heach). cbn [in_turn]. destruct Hok as (_ & Hl255 & _). unfold NAME_MAX in Hl255.
  destruct Hb as ((Hsz & Hr & Ha) & q & E). assert (Lq : length q = (length (fullpath s) - length p - 1)%nat) by (rewrite E, !length_app; cbn; lia).
  apply follows_wp, wp_get. split; [done|]. apply follows_wp.
  assert (Hsn : snprintf (Z.to_nat (pathlen s - (Z.of_nat (length p) + 1))) name = name ++ [0]).
  { destruct (Z.to_nat _) as [|k] eqn:Ek; [lia|]. cbn. by rewrite firstn_all2 by lia. }
  rewrite Hsn. replace (Z.of_nat (length p) + 1) with (Z.of_nat (length (p ++ [slash]))) by (rewrite length_app; cbn; lia).
  apply (wp_store_at _ (take (length name + 1) q) (drop (length name + 1) q)); [by rewrite take_drop|rewrite length_take, length_app; cbn; lia|]. split; [done|].
  assert (Hh : holds (p ++ [slash] ++ name) (set_fullpath ((p ++ [slash]) ++ (name ++ [0]) ++ drop (length name + 1) q) s)).
  { split; [|split].
    - split; fields; [|by split]. rewrite !length_app, length_drop, Hsz. rewrite E, !length_app in *. cbn in *. lia.
    - by apply nonul_app_2, nonul_app_2; [|repeat constructor|].
    - fields. eexists. by rewrite <- !app_assoc. }
  eapply follows_bind; [apply Hself; [set_solver| |done|done]; split_and!; [done|unfold NAME_MAX; lia|done]|].
  intros r s' ((Hsz' & q' & E') & Hl' & Ho'). fields. destruct (Z.eqb_spec r 0) as [->|]; cbn [negb].
  - rewrite length_app. cbn [length]. replace (Z.of_nat (length p + 1)) with (Z.of_nat (length p) + 1) by lia.
    assert (Hk : follows (read_loop self (Z.of_nat (length p) + 1) names 0) (in_turn (walk func) p es) (kept (p ++ [slash]) s') s').
    { apply IH; [done|done| |lia|]; [split; [done|]; exists (name ++ q'); by rewrite E', <- !app_assoc|].
      intros name' t' s2 Hin. apply Hself. set_solver. }
    eapply follows_mono; [exact Hk|]. intros s2 (Hb2 & Hl2 & Ho2). split; [done|]. split; [lia|congruence].
  - apply follows_ret. split; [|split; [lia|done]]. split; [done|]. exists (name ++ q'). by rewrite E', <- !app_assoc.
Qed.

Lemma each_in p es name t : each (shown lstat opendir) p es -> (name, t) ∈ es -> (height t <= max_of height es)%nat.
Proof.
  induction es as [|[name' t'] es IH]; intros H Hin; [by apply not_elem_of_nil in Hin|]. destruct H as (_ & _ & H). cbn.
  apply elem_of_cons in Hin as [[= -> ->]|Hin]; [lia|]. specialize (IH H Hin). lia.
Qed.

Lemma kept_user p s : holds p s -> forall u, kept p s (set_user u s).
Proof. intros (Hsz & _ & q & E) u. split; [|done]. split; [done|]. by exists (0 :: q). Qed.

(** The rest of [dopath] for a directory: the slash, and then the entries. *)
Lemma slash_spec p s (k : bytes -> M state Z) w (Q : state -> Prop) : holds p s -> Z.of_nat (length p) + 257 <= pathlen s ->
  (forall s', holds (p ++ [slash]) s' -> pathlen s' = pathlen s -> opened s' = opened s -> user s' = user s -> follows (k (p ++ [slash])) w Q s') ->
  follows (let* _ := store (Z.of_nat (length p)) [slash] in let* _ := store (Z.of_nat (length p) + 1) [0] in let* p := path in k p) w Q s.
Proof.
  intros ((Hl & Hr & Ha) & Hp & q & E) Hlen HQ. apply follows_wp, (wp_store_at p [0] q); [done|done|]. split; [done|].
  destruct q as [|c q]; [rewrite Hl, E, length_app in Hlen; cbn in Hlen; lia|].
  replace (Z.of_nat (length p) + 1) with (Z.of_nat (length (p ++ [slash]))) by (rewrite length_app; cbn; lia).
  apply follows_wp, (wp_store_at (p ++ [slash]) [c] q); [fields; by rewrite <- app_assoc|done|]. split; [done|]. fields.
  assert (Hh : holds (p ++ [slash]) (set_fullpath ((p ++ [slash]) ++ [0] ++ q) (set_fullpath (p ++ [slash] ++ c :: q) s))).
  { split; [|split; [by apply nonul_app_2; [|repeat constructor]|by eexists]]. split; fields; [|by split].
    rewrite Hl, E, !length_app. cbn. lia. }
  apply follows_wp, (wp_path (p ++ [slash])); [done|]. split; [done|]. by apply HQ.
Qed.

(** Leaving a directory. *)
Lemma leave_spec p s r (Q : state -> Prop) : begins (p ++ [slash]) s -> nonul p ->
  (forall s', sized s' -> (exists q, fullpath s' = p ++ q) -> pathlen s' = pathlen s -> opened s' = opened s - 1 -> Q s') ->
  follows (let* _ := store (Z.of_nat (length p)) [0] in let* c := closedir in
    (if c <? 0 then let* p := path in modify (fun s => set_errs (errs s ++ [str "can't close directory " ++ p]) s) else ret tt) ;;; ret r) (ret r) Q s.
Proof.
  intros ((Hl & Hr & Ha) & q & E) Hp HQ. apply follows_wp, (wp_store_at p [slash] q); [by rewrite E, <- app_assoc|done|]. split; [done|].
  set (s1 := set_fullpath _ s). assert (Hh : forall s2, fullpath s2 = fullpath s1 -> pathlen s2 = pathlen s1 -> allocs s2 = allocs s1 -> holds p s2).
  { intros s2 E1 E2 E3. subst s1. fields. split; [|split; [done|exists q; by rewrite E1]]. split; [|by rewrite E2, E3].
    rewrite E1, E2, Hl, E, !length_app. cbn. lia. }
  apply follows_wp. unfold wp, closedir. fields. destruct (closes s1) as [|[] l] eqn:Ec; fields; (split; [done|]); cbn [Z.ltb Z.compare].
  - destruct (Hh (set_closes [] (set_opened (opened s - 1) s1)) eq_refl eq_refl eq_refl) as (Hs2 & _ & q2 & E2).
    apply follows_wp, wp_ret. split; [done|]. apply follows_ret, HQ; [done|by eexists|done|done].
  - destruct (Hh (set_closes l (set_opened (opened s - 1) s1)) eq_refl eq_refl eq_refl) as (Hs2 & Hn2 & q2 & E2).
    apply follows_wp, wp_bind, (wp_path p); [by split; [|split; [|eexists]]|]. apply wp_modify. split; [done|]. apply follows_ret, HQ; [done|by eexists|done|done].
  - destruct (Hh (set_closes l (set_opened (opened s - 1) s1)) eq_refl eq_refl eq_refl) as (Hs2 & _ & q2 & E2).
    apply follows_wp, wp_ret. split; [done|]. apply follows_ret, HQ; [done|by eexists|done|done].
Qed.

(** Entering a directory: [func] is called for it, the buffer grows if it has to, and the
    slash is appended. *)
Lemma enter_spec p s m w (k : Z -> bytes -> bytes -> M state Z) : holds p s -> Z.of_nat (length p) < 2 ^ 60 ->
  (forall s', holds (p ++ [slash]) s' -> Z.of_nat (length p) + 257 <= pathlen s' -> pathlen s <= pathlen s' -> opened s' = opened s ->
    follows (k 0 p (p ++ [slash])) w (kept p s) s') ->
  follows (let* r := call func (Some m) FTW_D in if negb (r =? 0) then ret r else
    let* p := path in let* s := get in
    (if Z.of_nat (length p) + NAME_MAX + 2 >? pathlen s then
      modify (fun s => set_pathlen (to_u64 (pathlen s * 2)) s) ;;;
      let* s := get in
      let* ok := realloc (pathlen s) in
      if negb ok then stop (Err_sys "realloc failed") else ret tt
     else ret tt) ;;;
    let* _ := store (Z.of_nat (length p)) [slash] in let* _ := store (Z.of_nat (length p) + 1) [0] in let* p' := path in k r p p')
   (let* r := func p (Some m) FTW_D in if negb (r =? 0) then ret r else w) (kept p s) s.
Proof.
  intros Hh Hlen Hk. eapply follows_bind; [apply (follows_call p _ _ _ (fun s' => exists u, s' = set_user u s)); [done|eauto]|].
  intros r s' [u ->]. destruct (Z.eqb_spec r 0) as [->|]; cbn [negb]; [|by apply follows_ret, kept_user]. assert (Hh' : holds p (set_user u s)) by done.
  apply follows_wp, (wp_path p); [done|]. split; [done|]. apply follows_wp, wp_get. split; [done|].
  apply follows_wp, grow_spec; [done|done|]. fields. intros s2 Hh2 Hl2 Hl2' Ho2 Hu2. split; [done|].
  apply (slash_spec p s2 (k 0 p)); [done|done|]. intros s3 Hh3 Hl3 Ho3 Hu3. apply Hk; [done|lia|lia|congruence].
Qed.

Lemma dopath_spec fuel t p s : (height t <= fuel)%nat -> shown lstat opendir p t -> holds p s -> Z.of_nat (length p) + 256 * Z.of_nat (height t) < 2 ^ 60 ->
  follows (dopath fuel) (walk func p t) (kept p s) s.
Proof.
  revert t p s. induction fuel as [|fuel IH]; intros t p s Hf Hsh Hh Hlen; [destruct t; cbn in Hf; lia|].
  pose proof (kept_user p s Hh) as Hkept.
  cbn [Ftw.dopath]. apply follows_wp, (wp_path p); [done|]. split; [done|].
  destruct t as [|m|m|m es]; cbn [shown walk] in *.
  - rewrite Hsh. by apply follows_call.
  - destruct Hsh as [-> ->]. cbn [negb]. by apply follows_call.
  - destruct Hsh as (-> & Hm & Ho). rewrite Hm. cbn [negb]. apply (enter_spec p s m); [done|cbn in Hlen; lia|]. intros s' Hh' Hl1 Hl2 Hop. rewrite Ho.
    apply follows_call; [done|]. intros u. destruct Hh' as (Hsz & _ & q & E). split; [|by fields]. split; [done|]. exists ([slash] ++ 0 :: q). fields. by rewrite E, <- app_assoc.
  - destruct Hsh as (-> & Hm & (names & Ho & Hnn & Hnames) & Heach). rewrite Hm. cbn [negb].
    assert (Hn : nonul p) by apply Hh. apply (enter_spec p s m); [done|cbn in Hlen; lia|]. intros s' Hh' Hl1 Hl2 Hop. rewrite Ho. apply follows_wp, wp_modify. split; [done|].
    assert (Hret : forall m0 : M U Z, forall u, bind m0 ret u = m0 u) by (intros m0 u; unfold bind; by destruct (m0 u) as [[]]).
    enough (H : follows (let* r := read_loop (dopath fuel) (Z.of_nat (length p) + 1) names 0 in
      let* _ := store (Z.of_nat (length p) + 1 - 1) [0] in let* c := closedir in
      (if c <? 0 then let* p := path in modify (fun s => set_errs (errs s ++ [str "can't close directory " ++ p]) s) else ret tt) ;;; ret r)
      (bind (in_turn (walk func) p es) ret) (kept p s) (set_opened (opened s' + 1) s')) by (unfold follows in *; by rewrite Hret in H).
    eapply follows_bind; [apply read_loop_spec; try done|].
    + destruct Hh' as (Hsz & _ & q & E). split; [done|]. by eexists.
    + intros name t s2 Hin (Hn1 & Hn2 & _) Hsh2 Hh2. pose proof (each_in p es name t Heach Hin) as Hmax. cbn [height] in *. unfold NAME_MAX in Hn2.
      apply IH; [lia|done|done|]. rewrite !length_app. cbn. lia.
    + intros r s2 ((Hsz2 & q2 & E2) & Hl3 & Ho3). fields. replace (Z.of_nat (length p) + 1 - 1) with (Z.of_nat (length p)) by lia.
      apply leave_spec; [split; [done|by eexists]|done|]. intros s3 Hsz3 Hq3 Hl4 Ho4. split; [by split|]. split; [lia|]. lia.
Qed.

(** ** [path_alloc] and [myftw] *)

Variables sc_version sc_xopen : Z.
Variable pathconf : Z * Z.

(** The limit on pathnames, known before or from [pathconf]; at least 256 by POSIX. *)
Definition limits (s : state) : Prop :=
  256 <= pathmax s < 2 ^ 60 \/ pathmax s = 0 /\ (256 <= pathconf.1 < 2 ^ 60 \/ pathconf.1 < 0 /\ pathconf.2 = 0).

Lemma path_alloc_spec s (Q : unit -> state -> Prop) : limits s -> allocs s = [] ->
  (forall s', sized s' -> pathlen s' < 2 ^ 61 -> opened s' = opened s -> user s' = user s -> Q tt s') -> wp (path_alloc sc_version sc_xopen pathconf) Q s.
Proof.
  intros Hlim Ha HQ. unfold path_alloc. apply wp_bind, wp_get.
  apply wp_bind, (wp_mono _ (fun (_ : unit) (s' : state) => pathmax s' = pathmax s /\ allocs s' = [] /\ opened s' = opened s /\ user s' = user s));
    [destruct (_ =? _); [apply wp_modify|apply wp_ret]; done|]. intros [] s1 (P1 & A1 & O1 & U1).
  apply wp_bind, (wp_mono _ (fun (_ : unit) (s' : state) => pathmax s' = pathmax s /\ allocs s' = [] /\ opened s' = opened s /\ user s' = user s));
    [destruct (_ =? _); [apply wp_modify|apply wp_ret]; done|]. intros [] s2 (P2 & A2 & O2 & U2).
  apply wp_bind, (wp_mono _ (fun (_ : unit) (s' : state) => 256 <= pathmax s' <= 2 ^ 60 /\ allocs s' = [] /\ opened s' = opened s /\ user s' = user s)).
  - unfold PATH_MAX_GUESS. destruct Hlim as [Hlim|[E Hlim]].
    + rewrite (proj2 (Z.eqb_neq _ 0)) by lia. apply wp_ret. rewrite P2. split; [lia|done].
    + rewrite E. cbn [Z.eqb]. apply wp_bind, wp_modify. destruct (Z.ltb_spec pathconf.1 0).
      * destruct Hlim as [|[_ ->]]; [lia|]. cbn [Z.eqb]. apply wp_modify. fields. split; [lia|done].
      * apply wp_modify. fields. destruct Hlim; [|lia]. split; [lia|done].
  - intros [] s3 (P3 & A3 & O3 & U3). apply wp_bind, wp_get. set (size := if (posix_version s3 <? 200112) && (xsi_version s3 <? 4) then pathmax s3 + 1 else pathmax s3).
    assert (Hsize : 256 <= size < 2 ^ 61) by (subst size; destruct (_ && _); lia).
    apply wp_bind. unfold malloc. apply wp_bind, wp_modify. unfold wp at 1, realloc. fields. rewrite A3. cbn [negb tail app].
    apply wp_modify, HQ; fields; [|lia|done|done]. split; fields; [|split; [lia|done]]. rewrite length_take, length_replicate. lia.
Qed.

Lemma myftw_spec fuel t p s : limits s -> allocs s = [] -> nonul p -> (height t <= fuel)%nat -> shown lstat opendir p t ->
  Z.of_nat (length p) + 256 * Z.of_nat (height t) < 2 ^ 60 ->
  follows (myftw lstat opendir sc_version sc_xopen pathconf func fuel p) (walk func p t) (fun s' => opened s' = opened s) s.
Proof.
  intros Hlim Ha Hp Hf Hsh Hlen. apply follows_wp, path_alloc_spec; [done|done|]. intros s1 Hsz Hl1 Ho1 Hu1. split; [done|].
  apply follows_wp, wp_get. split; [done|]. unfold strlen. rewrite cstr_id by done.
  apply follows_wp, (wp_mono _ (fun (_ : unit) (s' : state) => sized s' /\ Z.of_nat (length p) < pathlen s' /\ opened s' = opened s /\ user s' = user s1)).
  - destruct (Z.leb_spec (pathlen s1) (Z.of_nat (length p))) as [Hle|]; [|by apply wp_ret]. destruct Hsz as (Hs1 & Hs2 & Hs3).
    apply wp_bind, wp_modify, wp_bind, wp_get, wp_bind. unfold to_u64. rewrite Z.mod_small by lia. unfold wp, realloc. fields. rewrite Hs3. cbn [negb tail].
    split; [|split; [fields; lia|done]]. split; fields; [|split; [lia|done]]. rewrite length_take, length_app, length_replicate. lia.
  - intros [] s2 (Hsz2 & Hl2 & Ho2 & Hu2). split; [done|]. apply follows_wp, wp_get. split; [done|]. destruct Hsz2 as (Hs1 & Hs2 & Hs3).
    assert (Hsn : snprintf (Z.to_nat (pathlen s2)) p = p ++ [0]) by (destruct (Z.to_nat _) as [|k] eqn:Ek; [lia|]; cbn; by rewrite firstn_all2 by lia).
    rewrite Hsn. apply follows_wp, (wp_store_at [] (take (length p + 1) (fullpath s2)) (drop (length p + 1) (fullpath s2)));
      [by rewrite take_drop|rewrite length_take, length_app; cbn; lia|]. split; [done|]. cbn [app].
    eapply follows_mono; [apply dopath_spec; [done|done| |done]|].
    + split; [|split; [done|fields; rewrite <- app_assoc; by eexists]]. split; fields; [|done].
      rewrite !length_app, length_drop. cbn [length]. lia.
    + intros s3 (_ & _ & Ho3). fields. congruence.
Qed.
End proof.

(** ** Theorems *)

(** C29. [myftw] walks the hierarchy: when the system shows a tree under a name, it calls
    the function for every file of it exactly as the walk over the tree does, with the
    same names, modes and types, in the same order and until the function returns
    something else than 0 or ends the process; it returns what the function returned
    last, never leaves the buffer, however deep the tree, and closes every directory it
    opened.  (The name of a directory that cannot be read comes with a slash at its end.) *)
Theorem ftw_walks {U} (func : bytes -> option Z -> Z -> M U Z) lstat opendir sc_version sc_xopen pathconf fuel t p s :
  limits pathconf s -> allocs s = [] -> nonul p -> (height t <= fuel)%nat -> shown lstat opendir p t ->
  Z.of_nat (length p) + 256 * Z.of_nat (height t) < 2 ^ 60 ->
  let '(r, s') := myftw lstat opendir sc_version sc_xopen pathconf func fuel p s in
  (r, user s') = walk func p t (user s) /\ (forall v, r = Ret v -> opened s' = opened s).
Proof.
  intros Hlim Ha Hp Hf Hsh Hlen. pose proof (myftw_spec func lstat opendir sc_version sc_xopen pathconf fuel t p s Hlim Ha Hp Hf Hsh Hlen) as H.
  unfold follows in H. destruct (walk func p t (user s)) as [[v|e] u], (myftw _ _ _ _ _ _ _ _ _) as [[v'|e'] s']; try done.
  - destruct H as (-> & <- & Ho). done.
  - destruct H as (-> & <-). done.
Qed.

(** A hierarchy with a file, a directory that cannot be read, a directory with a link,
    and a name that is gone when it is looked at. *)
Definition ex_tree : node := Dir 16877 [(str "f", Plain 33188); (str "x", Closed 16384); (str "d", Dir 16877 [(str "l", Plain 41471)]); (str "g", Missing)].
Definition ex_lstat (p : bytes) : option Z :=
  if bool_decide (p = str "t") then Some 16877 else if bool_decide (p = str "t/f") then Some 33188 else
  if bool_decide (p = str "t/x") then Some 16384 else if bool_decide (p = str "t/d") then Some 16877 else
  if bool_decide (p = str "t/d/l") then Some 41471 else None.
Definition ex_opendir (p : bytes) : option (list bytes) :=
  if bool_decide (p = str "t/") then Some [str "."; str ".."; str "f"; str "x"; str "d"; str "g"] else
  if bool_decide (p = str "t/d/") then Some [str "."; str "l"; str ".."] else None.
Definition ex_state {U} (u : U) : st := St [] 0 4096 0 0 0 [] [] [] u.
(** A function that records its calls. *)
Definition ex_func (p : bytes) (mode : option Z) (type : Z) : M (list (bytes * Z)) Z :=
  modify (fun l => l ++ [(p, type)]) ;;; ret 0.

Lemma ex_shown : shown ex_lstat ex_opendir (str "t") ex_tree.
Proof.
  split; [done|]. split; [done|]. split.
  - exists [str "."; str ".."; str "f"; str "x"; str "d"; str "g"]. split; [done|]. split; [|done]. repeat (apply Forall_cons; [repeat constructor; done|]). apply Forall_nil_2.
  - cbn [each]. assert (Hok : forall c, c <> 0 -> c <> 46 -> name_ok [c]).
    { intros c H0 H46. split; [by repeat constructor|]. split; [done|]. unfold dot. rewrite !bool_decide_eq_false_2; [done|intros E; vm_compute in E; congruence..]. }
    split; [by apply Hok|]. split; [by split|]. split; [by apply Hok|]. split; [by split_and!|]. split; [by apply Hok|]. split; [|split; [by apply Hok|by split]].
    split; [done|]. split; [done|]. split; [|split; [by apply Hok|by split_and!]].
    exists [str "."; str "l"; str ".."]. split; [done|]. split; [|done]. repeat (apply Forall_cons; [repeat constructor; done|]). apply Forall_nil_2.
Qed.

Lemma ftw_walks_witness :
  let '(r, s') := myftw ex_lstat ex_opendir 200809 700 (4096, 0) ex_func 5 (str "t") (ex_state []) in
  (r, user s') = walk ex_func (str "t") ex_tree [] /\ (forall v, r = Ret v -> opened s' = 0).
Proof.
  apply (ftw_walks ex_func ex_lstat ex_opendir 200809 700 (4096, 0) 5 ex_tree (str "t") (ex_state []));
    [left; cbn; lia|done|by repeat constructor|cbn; lia|apply ex_shown|cbn; lia].
Defined.

(** The names it is called with. *)
Example ex_calls : user (myftw ex_lstat ex_opendir 200809 700 (4096, 0) ex_func 5 (str "t") (ex_state [])).2 =
  [(str "t", FTW_D); (str "t/f", FTW_F); (str "t/x", FTW_D); (str "t/x/", FTW_DNR); (str "t/d", FTW_D); (str "t/d/l", FTW_F); (str "t/g", FTW_NS)].
Proof. vm_compute. reflexivity. Qed.

(** ** The counts *)

Section induction.
Variable P : node -> Prop.
Hypothesis H1 : P Missing.
Hypothesis H2 : forall m, P (Plain m).
Hypothesis H3 : forall m, P (Closed m).
Hypothesis H4 : forall m es, Forall (fun e => P e.2) es -> P (Dir m es).
Lemma node_nested t : P t.
Proof.
  revert t. fix IH 1. intros [|m|m|m es]; [exact H1|apply H2|apply H3|apply H4].
  induction es as [|[name t] es IHes]; constructor; [apply IH|exact IHes].
Qed.
End induction.

(** The modes of the files that are not directories, the number of directories, and
    the messages. *)
Fixpoint plains (t : node) : list Z :=
  match t with Plain m => [m] | Dir _ es => flat_map (fun e => plains e.2) es | _ => [] end.
Fixpoint dirs (t : node) : Z :=
  match t with Closed _ => 1 | Dir _ es => 1 + foldr (fun e n => dirs e.2 + n) 0 es | _ => 0 end.
Fixpoint troubles (p : bytes) (t : node) : list bytes :=
  match t with
  | Missing => [str "stat error for " ++ p]
  | Closed _ => [str "can't read directory " ++ p ++ [slash]]
  | Dir _ es => flat_map (fun e => troubles (p ++ [slash] ++ e.1) e.2) es
  | Plain _ => []
  end.
Definition number (kind : Z) (modes : list Z) : Z := Z.of_nat (length (filter (fun m => Z.land m S_IFMT = kind) modes)).

Definition census (p : bytes) (t : node) (c : counts) : counts :=
  Counts (nreg c + number S_IFREG (plains t)) (ndir c + dirs t) (nblk c + number S_IFBLK (plains t)) (nchr c + number S_IFCHR (plains t))
    (nfifo c + number S_IFIFO (plains t)) (nslink c + number S_IFLNK (plains t)) (nsock c + number S_IFSOCK (plains t)) (notes c ++ troubles p t).

Lemma number_app k a b : number k (a ++ b) = number k a + number k b.
Proof. unfold number. rewrite list.filter_app, length_app. lia. Qed.

Lemma number_one k m : number k [m] = if Z.land m S_IFMT =? k then 1 else 0.
Proof. unfold number. rewrite filter_cons, filter_nil. destruct (Z.eqb_spec (Z.land m S_IFMT) k), (decide (Z.land m S_IFMT = k)); done. Qed.

Lemma walk_counts lstat opendir t : forall p c, shown lstat opendir p t -> walk myfunc p t c = (Ret 0, census p t c).
Proof.
  induction t as [|m|m|m es IH] using node_nested; intros p c Hsh.
  - unfold census, note, number. cbn. by rewrite !Z.add_0_r.
  - destruct Hsh as [_ Hm]. cbn [walk]. unfold myfunc, FTW_F. cbn [Z.eqb Pos.eqb default]. unfold S_ISDIR in Hm. cbn [from_option id]. rewrite Hm.
    unfold census. cbn [plains dirs troubles]. rewrite !number_one, Z.add_0_r, app_nil_r. done.
  - unfold census, note, add_dir, number. cbn. by rewrite !Z.add_0_r.
  - destruct Hsh as (_ & _ & _ & Heach). cbn [walk]. transitivity (in_turn (walk myfunc) p es (add_dir c)); [done|].
    enough (H : forall c0, each (shown lstat opendir) p es -> in_turn (walk myfunc) p es c0 =
      (Ret 0, Counts (nreg c0 + number S_IFREG (plains (Dir m es))) (ndir c0 + (dirs (Dir m es) - 1)) (nblk c0 + number S_IFBLK (plains (Dir m es)))
        (nchr c0 + number S_IFCHR (plains (Dir m es))) (nfifo c0 + number S_IFIFO (plains (Dir m es))) (nslink c0 + number S_IFLNK (plains (Dir m es)))
        (nsock c0 + number S_IFSOCK (plains (Dir m es))) (notes c0 ++ troubles p (Dir m es))))
      by (rewrite H by done; unfold census, add_dir; cbn [nreg ndir nblk nchr nfifo nslink nsock notes]; by replace (ndir c + 1 + (dirs (Dir m es) - 1)) with (ndir c + dirs (Dir m es)) by lia).
    clear Heach. induction IH as [|[name t] es Ht _ IHes]; intros c0 Heach.
    + destruct c0. unfold number. cbn. by rewrite !Z.add_0_r, app_nil_r.
    + destruct Heach as (_ & Hsh & Heach). cbn [in_turn]. unfold bind. cbn [snd] in Ht. rewrite (Ht _ c0 Hsh). cbn [Z.eqb negb]. rewrite IHes by done.
      unfold census. cbn [nreg ndir nblk nchr nfifo nslink nsock notes plains dirs troubles flat_map foldr fst snd]. rewrite !number_app, <- app_assoc.
      f_equal. f_equal; lia.
Qed.

(** The program counts right: started with the name of a hierarchy it exits with
    status 0, having counted every file of the tree under its kind and every directory
    once, and written a message for each file that could not be examined and each
    directory that could not be read. *)
Theorem ftw_counts lstat opendir sc_version sc_xopen pathconf fuel t prog p s :
  limits pathconf s -> allocs s = [] -> nonul p -> (height t <= fuel)%nat -> shown lstat opendir p t ->
  Z.of_nat (length p) + 256 * Z.of_nat (height t) < 2 ^ 60 ->
  let '(r, s') := main lstat opendir sc_version sc_xopen pathconf fuel [prog; p] s in
  r = Stop (Exit 0) /\ user s' = census p t (user s).
Proof.
  intros Hlim Ha Hp Hf Hsh Hlen. pose proof (myftw_spec myfunc lstat opendir sc_version sc_xopen pathconf fuel t p s Hlim Ha Hp Hf Hsh Hlen) as H.
  unfold follows in H. rewrite (walk_counts lstat opendir t p (user s) Hsh) in H. unfold main, bind.
  destruct (myftw _ _ _ _ _ _ _ _ _) as [[v'|e'] s']; [|done]. destruct H as (-> & Hu & _). done.
Qed.

Lemma ftw_counts_witness :
  let '(r, s') := main ex_lstat ex_opendir 200809 700 (4096, 0) 5 [str "ftw8"; str "t"] (ex_state (Counts 0 0 0 0 0 0 0 [])) in
  r = Stop (Exit 0) /\ user s' = Counts 1 3 0 0 0 1 0 [str "can't read directory t/x/"; str "stat error for t/g"].
Proof.
  apply (ftw_counts ex_lstat ex_opendir 200809 700 (4096, 0) 5 ex_tree (str "ftw8") (str "t") (ex_state (Counts 0 0 0 0 0 0 0 [])));
    [left; cbn; lia|done|by repeat constructor|cbn; lia|apply ex_shown|cbn; lia].
Defined.
End Ftw.
