(* ===== verification/Pbarrier.v ===== *)
(** * Barriers of the C library: musl's src/thread/pthread_barrier_wait.c

    The code for barriers that are private to a process, one step per access to
    shared memory, for any number of threads that call it any number of times, with
    [__wait] of src/thread/__wait.c and the futexes of the kernel: a thread sleeps
    only if the word still has the value it read, and is woken by a wake on that
    word, or for no reason.  An instance lives on the stack of the thread that made
    it, its owner, and is gone when the owner returns; an access to it after that is
    [Crashed].  Barriers shared between processes are not modelled. *)

From S2P Require Import Prelude CLib.

Module Pbarrier.

(** ** State *)

(** [struct instance]. *)
Record instance := Inst { count : Z; last : Z; waiters : Z; finished : Z }.

(** What a thread does after it released the lock: it is the owner of the instance,
    the last thread to enter it, or another one. *)
Inductive role := Owner | Last | Other.

(** Where a thread is. *)
Inductive pc :=
  | Idle
  (** [while (a_swap(&b->_b_lock, 1)) __wait(&b->_b_lock, &b->_b_waiters, 1, 1)] *)
  | A_swap | A_spin | A_inc | A_chk | A_fut | A_sleep | A_dec
  (** with the lock *)
  | B_inst                             (** [inst = b->_b_inst; if (!inst)] *)
  | B_new                              (** [b->_b_inst = inst = &new_inst] *)
  | B_count (i : nat)                  (** reads [inst->count] *)
  | B_store (i : nat) (v : Z)          (** and stores it, incremented *)
  | B_clear (i : nat)                  (** [b->_b_inst = 0] *)
  | U_store (r : role) (i : nat)       (** [a_store(&b->_b_lock, 0)] *)
  | U_chk (r : role) (i : nat)         (** [if (b->_b_waiters)] *)
  | U_wake (r : role) (i : nat)        (** [__wake(&b->_b_lock, 1, 1)] *)
  (** the owner *)
  | O_spin (i : nat) | O_inc (i : nat) | O_chk (i : nat) | O_fut (i : nat) | O_sleep (i : nat)
  (** the last thread *)
  | L_last (i : nat) | L_chk (i : nat) | L_wake (i : nat)
  (** the others: [__wait(&inst->last, &inst->waiters, 0, 1)] *)
  | W_spin (i : nat) | W_inc (i : nat) | W_chk (i : nat) | W_fut (i : nat) | W_sleep (i : nat) | W_dec (i : nat)
  (** leaving *)
  | D_count (i : nat) | D_fin (i : nat) | D_wake (i : nat)
  | Crashed.
#[export] Instance pc_eq_dec : EqDecision pc.
Proof. unfold EqDecision, Decision. repeat decide equality. Defined.

(** The barrier, the instances (the living ones, under a number each), the number of
    the next one, and the threads. *)
Record st := St { b_lock : Z; b_waiters : Z; b_inst : option nat; insts : gmap nat instance; next : nat; thr : list pc }.

Definition set_lock x s := St x (b_waiters s) (b_inst s) (insts s) (next s) (thr s).
Definition set_waiters x s := St (b_lock s) x (b_inst s) (insts s) (next s) (thr s).
Definition set_inst x s := St (b_lock s) (b_waiters s) x (insts s) (next s) (thr s).
Definition set_insts x s := St (b_lock s) (b_waiters s) (b_inst s) x (next s) (thr s).
Definition set_next x s := St (b_lock s) (b_waiters s) (b_inst s) (insts s) x (thr s).
Definition set_thr x s := St (b_lock s) (b_waiters s) (b_inst s) (insts s) (next s) x.

Definition goto (k : nat) (p : pc) (s : st) : st := set_thr (<[k := p]> (thr s)) s.

(** An access to an instance by thread [k]. *)
Definition deref (k i : nat) (s : st) (f : instance -> st) : st :=
  match insts s !! i with Some x => f x | None => goto k Crashed s end.
Definition put (i : nat) (x : instance) (s : st) : st := set_insts (<[i := x]> (insts s)) s.

(** A wake on a word of an instance. *)
Definition wake_all (from to : pc) (s : st) : st := set_thr (map (fun p => if decide (p = from) then to else p) (thr s)) s.

(** ** [pthread_barrier_init] and [pthread_barrier_wait] *)

Definition INT_MAX : Z := 2147483647.

(** The limit of a barrier for [count] threads, or [EINVAL]. *)
Definition pthread_barrier_init (count : Z) : option Z :=
  if to_u32 (count - 1) >? INT_MAX - 1 then None else Some (to_u32 (count - 1)).

Section wait.
Variable limit : Z.

Definition after (r : role) (i : nat) : pc :=
  match r with Owner => O_spin i | Last => L_last i | Other => W_spin i end.

(** [__wait] on the lock.  [go] is true if the thread stops spinning, or wakes up for
    no reason. *)
Definition exec_lock (go : bool) (k : nat) (s : st) (p : pc) : option st :=
  match p with
  | A_swap => Some (if b_lock s =? 0 then goto k B_inst (set_lock 1 s) else goto k A_spin (set_lock 1 s))
  | A_spin => Some (if go then goto k A_inc s else if b_lock s =? 1 then s else goto k A_swap s)
  | A_inc => Some (goto k A_chk (set_waiters (b_waiters s + 1) s))
  | A_chk => Some (if b_lock s =? 1 then goto k A_fut s else goto k A_dec s)
  | A_fut => Some (if b_lock s =? 1 then goto k A_sleep s else goto k A_chk s)
  | A_sleep => if go then Some (goto k A_chk s) else None
  | A_dec => Some (goto k A_swap (set_waiters (b_waiters s - 1) s))
  | _ => None
  end.

(** With the lock, and releasing it; thread [j] is the one that a wake finds. *)
Definition exec_enter (j k : nat) (s : st) (p : pc) : option st :=
  match p with
  | B_inst =>
      match b_inst s with
      | None => Some (goto k B_new s)
      | Some i => Some (goto k (B_count i) s)
      end
  | B_new => Some (goto k (U_store Owner (next s)) (set_next (S (next s)) (set_inst (Some (next s)) (put (next s) (Inst 0 0 0 0) s))))
  | B_count i => Some (deref k i s (fun x => goto k (B_store i (count x)) s))
  | B_store i v => Some (deref k i s (fun x =>
      goto k (if v + 1 =? limit then B_clear i else U_store Other i) (put i (Inst (v + 1) (last x) (waiters x) (finished x)) s)))
  | B_clear i => Some (goto k (U_store Last i) (set_inst None s))
  | U_store r i => Some (goto k (U_chk r i) (set_lock 0 s))
  | U_chk r i => Some (if negb (b_waiters s =? 0) then goto k (U_wake r i) s else goto k (after r i) s)
  | U_wake r i =>
      if decide (A_sleep ∈ thr s) then
        if decide (thr s !! j = Some A_sleep) then Some (goto k (after r i) (goto j A_chk s)) else None
      else Some (goto k (after r i) s)
  | _ => None
  end.

(** The owner waits for all others to leave. *)
Definition exec_owner (go : bool) (k : nat) (s : st) (p : pc) : option st :=
  match p with
  | O_spin i => Some (deref k i s (fun x => if negb (finished x =? 0) || go then goto k (O_inc i) s else s))
  | O_inc i => Some (deref k i s (fun x => goto k (O_chk i) (put i (Inst (count x) (last x) (waiters x) (finished x + 1)) s)))
  | O_chk i => Some (deref k i s (fun x => if finished x =? 1 then goto k (O_fut i) s
                                            else goto k Idle (set_insts (delete i (insts s)) s)))
  | O_fut i => Some (deref k i s (fun x => if finished x =? 1 then goto k (O_sleep i) s else goto k (O_chk i) s))
  | O_sleep i => if go then Some (goto k (O_chk i) s) else None
  | _ => None
  end.

(** The others wait for the last one to enter. *)
Definition exec_wait (go : bool) (k : nat) (s : st) (p : pc) : option st :=
  match p with
  | L_last i => Some (deref k i s (fun x => goto k (L_chk i) (put i (Inst (count x) 1 (waiters x) (finished x)) s)))
  | L_chk i => Some (deref k i s (fun x => if negb (waiters x =? 0) then goto k (L_wake i) s else goto k (D_count i) s))
  | L_wake i => Some (goto k (D_count i) (wake_all (W_sleep i) (W_chk i) s))
  | W_spin i => Some (deref k i s (fun x => if go then goto k (W_inc i) s else if last x =? 0 then s else goto k (D_count i) s))
  | W_inc i => Some (deref k i s (fun x => goto k (W_chk i) (put i (Inst (count x) (last x) (waiters x + 1) (finished x)) s)))
  | W_chk i => Some (deref k i s (fun x => if last x =? 0 then goto k (W_fut i) s else goto k (W_dec i) s))
  | W_fut i => Some (deref k i s (fun x => if last x =? 0 then goto k (W_sleep i) s else goto k (W_chk i) s))
  | W_sleep i => if go then Some (goto k (W_chk i) s) else None
  | W_dec i => Some (deref k i s (fun x => goto k (D_count i) (put i (Inst (count x) (last x) (waiters x - 1) (finished x)) s)))
  | D_count i => Some (deref k i s (fun x =>
      goto k (if count x =? 1 then D_fin i else Idle) (put i (Inst (count x - 1) (last x) (waiters x) (finished x)) s)))
  | D_fin i => Some (deref k i s (fun x =>
      goto k (if negb (finished x =? 0) then D_wake i else Idle) (put i (Inst (count x) (last x) (waiters x) (finished x + 1)) s)))
  | D_wake i => Some (goto k Idle (wake_all (O_sleep i) (O_chk i) s))
  | _ => None
  end.

(** A step of thread [k]; an idle thread calls [pthread_barrier_wait]. *)
Definition exec (go : bool) (j k : nat) (s : st) : option st :=
  match thr s !! k with
  | None | Some Crashed => None
  | Some Idle => Some (if limit =? 0 then s else goto k A_swap s)
  | Some ((A_swap | A_spin | A_inc | A_chk | A_fut | A_sleep | A_dec) as p) => exec_lock go k s p
  | Some ((B_inst | B_new | B_count _ | B_store _ _ | B_clear _ | U_store _ _ | U_chk _ _ | U_wake _ _) as p) => exec_enter j k s p
  | Some ((O_spin _ | O_inc _ | O_chk _ | O_fut _ | O_sleep _) as p) => exec_owner go k s p
  | Some p => exec_wait go k s p
  end.

Inductive step (s s' : st) : Prop := Step go j k : exec go j k s = Some s' -> step s s'.

(** A new barrier and [n] threads. *)
Definition start (n : nat) : st := St 0 0 None ∅ 0 (replicate n Idle).
End wait.
End Pbarrier.
