(* ===== verification/PbarrierInv.v ===== *)
(** * The invariant of musl's barriers

    Everything is counted: for each kind of place in the code, how many threads are
    there.  The invariant says what the words of the barrier and of its instances have
    to do with these numbers, so that a step is a matter of linear arithmetic. *)

From S2P Require Import Prelude CLib Pbarrier.

Module PbarrierInv.
Import Pbarrier.

(** ** Places in the code *)

Definition one (i j : nat) : Z := if decide (i = j) then 1 else 0.

(** With the lock; counted as a waiter for it; asleep for it; awake and about to take
    it, or about to wake one that sleeps. *)
Definition hl (p : pc) : Z := match p with B_inst | B_new | B_count _ | B_store _ _ | B_clear _ | U_store _ _ => 1 | _ => 0 end.
Definition lw (p : pc) : Z := match p with A_chk | A_fut | A_sleep | A_dec => 1 | _ => 0 end.
Definition slp (p : pc) : Z := match p with A_sleep => 1 | _ => 0 end.
Definition act (p : pc) : Z :=
  match p with A_swap | A_spin | A_inc | A_chk | A_fut | A_dec | U_chk _ _ | U_wake _ _ => 1 | _ => 0 end.
Definition bnew (p : pc) : Z := match p with B_new => 1 | _ => 0 end.
Definition crash (p : pc) : Z := match p with Crashed => 1 | _ => 0 end.

(** The owner of instance [i], and the owner once it added to [finished]. *)
Definition own (i : nat) (p : pc) : Z :=
  match p with
  | U_store Owner j | U_chk Owner j | U_wake Owner j | O_spin j | O_inc j | O_chk j | O_fut j | O_sleep j => one i j
  | _ => 0
  end.
Definition ownpast (i : nat) (p : pc) : Z := match p with O_chk j | O_fut j | O_sleep j => one i j | _ => 0 end.
(** Entering it; having entered it and not left. *)
Definition bref (i : nat) (p : pc) : Z := match p with B_count j | B_store j _ => one i j | _ => 0 end.
Definition counted (i : nat) (p : pc) : Z :=
  match p with
  | B_clear j | U_store Last j | U_chk Last j | U_wake Last j | U_store Other j | U_chk Other j | U_wake Other j
  | L_last j | L_chk j | L_wake j | W_spin j | W_inc j | W_chk j | W_fut j | W_sleep j | W_dec j | D_count j => one i j
  | _ => 0
  end.
(** The last thread before it clears the pointer, and before it stores [last]. *)
Definition lclr (i : nat) (p : pc) : Z := match p with B_clear j => one i j | _ => 0 end.
Definition prelast (i : nat) (p : pc) : Z := match p with U_store Last j | U_chk Last j | U_wake Last j | L_last j => one i j | _ => 0 end.
(** Past the point where [last] is stored or seen; about to wake the others. *)
Definition past (i : nat) (p : pc) : Z := match p with L_chk j | L_wake j | W_dec j | D_count j => one i j | _ => 0 end.
Definition lwk (i : nat) (p : pc) : Z := match p with L_chk j | L_wake j => one i j | _ => 0 end.
Definition wwait (i : nat) (p : pc) : Z := match p with W_chk j | W_fut j | W_sleep j | W_dec j => one i j | _ => 0 end.
Definition wslp (i : nat) (p : pc) : Z := match p with W_sleep j => one i j | _ => 0 end.
Definition oslp (i : nat) (p : pc) : Z := match p with O_sleep j => one i j | _ => 0 end.
Definition dfin (i : nat) (p : pc) : Z := match p with D_fin j => one i j | _ => 0 end.
Definition dwake (i : nat) (p : pc) : Z := match p with D_wake j => one i j | _ => 0 end.

Lemma one_same i : one i i = 1.
Proof. unfold one. by rewrite decide_True. Qed.
Lemma one_other i j : i <> j -> one i j = 0.
Proof. intros. unfold one. by rewrite decide_False. Qed.

(** What holds of these numbers in every list of threads. *)
Lemma total_mono (f g : pc -> Z) l : (forall p, f p <= g p) -> total f l <= total g l.
Proof. intros H. induction l as [|p l IH]; cbn; [lia|]. specialize (H p). lia. Qed.

Lemma total_plus (f g : pc -> Z) l : total (fun p => f p + g p) l = total f l + total g l.
Proof. induction l as [|p l IH]; cbn; lia. Qed.

Lemma total_zero (l : list pc) : total (fun _ => 0) l = 0.
Proof. induction l as [|p l IH]; cbn; lia. Qed.

Lemma total_at (f : pc -> Z) l k p : (forall q, 0 <= f q) -> l !! k = Some p -> f p <= total f l.
Proof.
  intros Hf. revert k. induction l as [|q l IH]; intros [|k] H; [done|done| |]; cbn.
  - injection H as ->. pose proof (total_mono (fun _ => 0) f l Hf) as Hm. rewrite total_zero in Hm. lia.
  - specialize (IH k H). specialize (Hf q). lia.
Qed.

(** Two threads. *)
Lemma total_two (f : pc -> Z) l k p k' p' : (forall q, 0 <= f q) -> k <> k' -> l !! k = Some p -> l !! k' = Some p' -> f p + f p' <= total f l.
Proof.
  intros Hf. revert k k'. induction l as [|q l IH]; intros [|k] [|k'] Hne Hp Hp'; try done; cbn.
  - injection Hp as ->. pose proof (total_at f l k' p' Hf Hp'). lia.
  - injection Hp' as ->. pose proof (total_at f l k p Hf Hp). lia.
  - specialize (IH k k' ltac:(lia) Hp Hp'). specialize (Hf q). lia.
Qed.

Ltac places := intros []; cbn; repeat match goal with r : role |- _ => destruct r; cbn end; unfold one; repeat case_decide; lia.

Lemma counts_nonneg (f : pc -> Z) l : (forall p, 0 <= f p) -> 0 <= total f l.
Proof. intros H. rewrite <- (total_zero l). by apply total_mono. Qed.

Record facts (i : nat) (l : list pc) : Prop := {
  f_slp : 0 <= total slp l;
  f_lw : total slp l <= total lw l;
  f_act : 0 <= total act l;
  f_crash : 0 <= total crash l;
  f_new : 0 <= total bnew l;
  f_bref : 0 <= total (bref i) l;
  f_lclr : 0 <= total (lclr i) l;
  f_hl : total bnew l + total (bref i) l + total (lclr i) l <= total hl l;
  f_oslp : 0 <= total (oslp i) l;
  f_ownpast : total (oslp i) l <= total (ownpast i) l;
  f_own : total (ownpast i) l <= total (own i) l;
  f_prelast : 0 <= total (prelast i) l;
  f_lwk : 0 <= total (lwk i) l;
  f_past : total (lwk i) l <= total (past i) l;
  f_counted : total (lclr i) l + total (prelast i) l + total (past i) l <= total (counted i) l;
  f_wslp : 0 <= total (wslp i) l;
  f_wwait : total (wslp i) l <= total (wwait i) l;
  f_wcount : total (wwait i) l <= total (counted i) l;
  f_dfin : 0 <= total (dfin i) l;
  f_dwake : 0 <= total (dwake i) l }.

Lemma all_facts i l : facts i l.
Proof.
  split; rewrite <- ?total_plus; (apply counts_nonneg || apply total_mono); places.
Qed.

(** ** The invariant *)

Definition cur (i : nat) (s : st) : Z := if decide (b_inst s = Some i) then 1 else 0.

(** The phases of an instance, by whether it is the current one ([c]), its words [cnt]
    and [lst], what was added to [finished] by the threads that left ([fl]), and the
    number of threads at some places.  Threads enter it; the last one has entered; it
    has cleared the pointer; it has set [last], and all leave; the last to leave is
    there; and it has added to [finished]. *)
Inductive phase (limit c cnt lst fl lclr prelast past bref dfin : Z) : Prop :=
  | Entering : c = 1 -> lst = 0 -> cnt < limit -> lclr = 0 -> prelast = 0 -> past = 0 -> dfin = 0 -> fl = 0 -> phase limit c cnt lst fl lclr prelast past bref dfin
  | Full : c = 1 -> lst = 0 -> cnt = limit -> lclr = 1 -> prelast = 0 -> past = 0 -> dfin = 0 -> fl = 0 -> phase limit c cnt lst fl lclr prelast past bref dfin
  | Closed : c = 0 -> lst = 0 -> cnt = limit -> lclr = 0 -> prelast = 1 -> past = 0 -> bref = 0 -> dfin = 0 -> fl = 0 -> phase limit c cnt lst fl lclr prelast past bref dfin
  | Leaving : c = 0 -> lst = 1 -> 0 < cnt -> lclr = 0 -> prelast = 0 -> bref = 0 -> dfin = 0 -> fl = 0 -> phase limit c cnt lst fl lclr prelast past bref dfin
  | Drained : c = 0 -> lst = 1 -> cnt = 0 -> lclr = 0 -> prelast = 0 -> bref = 0 -> dfin = 1 -> fl = 0 -> phase limit c cnt lst fl lclr prelast past bref dfin
  | Finished : c = 0 -> lst = 1 -> cnt = 0 -> lclr = 0 -> prelast = 0 -> bref = 0 -> dfin = 0 -> fl = 1 -> phase limit c cnt lst fl lclr prelast past bref dfin.

(** Instance [i] with the words [x], and the threads [l]: the counts are right, there is
    one owner, and a thread that sleeps has a reason to, or will be woken. *)
Record ok (limit c : Z) (i : nat) (x : instance) (l : list pc) : Prop := {
  k_count : count x = total (counted i) l;
  k_waiters : waiters x = total (wwait i) l;
  k_own : total (own i) l = 1;
  k_wslp : 0 < total (wslp i) l -> last x = 0 \/ 0 < total (lwk i) l;
  k_oslp : 0 < total (oslp i) l -> finished x = 1 \/ 0 < total (dwake i) l;
  k_phase : phase limit c (count x) (last x) (finished x - total (ownpast i) l) (total (lclr i) l) (total (prelast i) l)
              (total (past i) l) (total (bref i) l) (total (dfin i) l) }.

Record Inv (limit : Z) (s : st) : Prop := {
  g_lock : b_lock s = total hl (thr s);
  g_lock1 : b_lock s <= 1;
  g_wait : b_waiters s = total lw (thr s);
  g_sleep : 0 < total slp (thr s) -> 0 < b_lock s + total act (thr s);
  g_crash : total crash (thr s) = 0;
  g_cur : forall i, b_inst s = Some i -> S i = next s /\ is_Some (insts s !! i);
  g_new : 0 < total bnew (thr s) -> b_inst s = None;
  g_live : forall i x, insts s !! i = Some x -> (i < next s)%nat /\ ok limit (cur i s) i x (thr s);
  g_dead : forall i, insts s !! i = None ->
    total (own i) (thr s) = 0 /\ total (counted i) (thr s) = 0 /\ total (dfin i) (thr s) = 0 /\ total (bref i) (thr s) = 0;
  g_dwake : forall i, 0 < total (dwake i) (thr s) -> (i < next s)%nat /\ cur i s = 0;
  g_store : forall k i v, thr s !! k = Some (B_store i v) -> exists x, insts s !! i = Some x /\ v = count x }.

(** The instance that a place is about. *)
Definition mention (p : pc) : option nat :=
  match p with
  | B_count i | B_store i _ | B_clear i | U_store _ i | U_chk _ i | U_wake _ i
  | O_spin i | O_inc i | O_chk i | O_fut i | O_sleep i | L_last i | L_chk i | L_wake i
  | W_spin i | W_inc i | W_chk i | W_fut i | W_sleep i | W_dec i | D_count i | D_fin i | D_wake i => Some i
  | _ => None
  end.

Record quiet (i : nat) (p : pc) : Prop := {
  q_own : own i p = 0; q_ownpast : ownpast i p = 0; q_bref : bref i p = 0; q_counted : counted i p = 0; q_lclr : lclr i p = 0;
  q_prelast : prelast i p = 0; q_past : past i p = 0; q_lwk : lwk i p = 0; q_wwait : wwait i p = 0; q_wslp : wslp i p = 0;
  q_oslp : oslp i p = 0; q_dfin : dfin i p = 0; q_dwake : dwake i p = 0 }.

Lemma mention_quiet i p : mention p <> Some i -> quiet i p.
Proof.
  intros H. split; destruct p; cbn in *; repeat match goal with r : role |- _ => destruct r; cbn end; try done; apply one_other; congruence.
Qed.

Lemma ok_frame limit c i x l k p p' : l !! k = Some p -> quiet i p -> quiet i p' -> ok limit c i x l -> ok limit c i x (<[k := p']> l).
Proof.
  intros Hk [] [] []. split; rewrite !(total_insert _ _ _ _ _ Hk);
  repeat match goal with E : _ = 0 |- _ => rewrite E; clear E end; rewrite !Z.sub_0_r, !Z.add_0_r; assumption.
Qed.

Lemma places_nonneg i p : 0 <= own i p /\ 0 <= counted i p /\ 0 <= dfin i p /\ 0 <= bref i p /\ 0 <= dwake i p.
Proof. split_and!; revert p; places. Qed.

(** A thread goes on from [p] to [p'], both about instance [i] or about none. *)
Lemma inv_move limit s s' k p p' i :
  Inv limit s -> thr s !! k = Some p -> thr s' = <[k := p']> (thr s) -> next s' = next s -> b_inst s' = b_inst s ->
  (forall j, j <> i -> quiet j p /\ quiet j p') ->
  b_lock s' = b_lock s - hl p + hl p' -> b_lock s' <= 1 -> b_waiters s' = b_waiters s - lw p + lw p' ->
  (0 < total slp (thr s) - slp p + slp p' -> 0 < b_lock s' + (total act (thr s) - act p + act p')) ->
  crash p' = 0 -> (bnew p' = 0 \/ b_inst s = None) ->
  (forall j, j <> i -> insts s' !! j = insts s !! j) ->
  (forall x, insts s !! i = Some x -> exists x', insts s' !! i = Some x' /\ ok limit (cur i s) i x' (<[k := p']> (thr s)) /\
     (count x' = count x \/ total (bref i) (thr s) = bref i p) /\ (forall v, p' = B_store i v -> v = count x')) ->
  (insts s !! i = None -> insts s' !! i = None /\ quiet i p' ) ->
  (dwake i p' = 0 \/ dwake i p = 1 \/ cur i s = 0 /\ (i < next s)%nat) ->
  Inv limit s'.
Proof.
  intros [Gl Gl1 Gw Gs Gc Gcur Gn Glive Gdead Gdw Gst] Hk Et En Eb Hq El El1 Ew Es Ec Enew Eo Ei Enone Edw.
  assert (Hcur : forall j, cur j s' = cur j s) by (intros j; unfold cur; by rewrite Eb).
  pose proof (total_insert crash _ _ _ p' Hk) as Tc. pose proof (total_insert bnew _ _ _ p' Hk) as Tn.
  assert (Hcp : 0 <= crash p) by (destruct p; cbn; lia). pose proof (all_facts i (<[k := p']> (thr s))) as [].
  split; rewrite ?Et, ?En, ?Eb; rewrite ?(total_insert hl _ _ _ p' Hk), ?(total_insert lw _ _ _ p' Hk), ?(total_insert slp _ _ _ p' Hk), ?(total_insert act _ _ _ p' Hk).
  - lia.
  - done.
  - lia.
  - done.
  - lia.
  - intros j Hj. destruct (Gcur j Hj) as [? [x Hx]]. split; [done|]. destruct (decide (j = i)) as [->|Hne]; [|rewrite Eo by done; by eexists].
    destruct (Ei x Hx) as (x' & Hx' & _). by eexists.
  - intros Hb. destruct Enew as [E|E]; [|done]. apply Gn. assert (0 <= bnew p) by (destruct p; cbn; lia). lia.
  - intros j x' Hx'. rewrite Hcur. destruct (decide (j = i)) as [->|Hne].
    + destruct (insts s !! i) as [x|] eqn:Hx; [|destruct (Enone eq_refl); congruence]. destruct (Ei x eq_refl) as (x2 & Hx2 & Hok & _).
      split; [by apply (Glive i x)|congruence].
    + rewrite Eo in Hx' by done. destruct (Glive j x' Hx') as [? Hok]. split; [done|]. destruct (Hq j Hne). by eapply ok_frame.
  - intros j Hj. rewrite !(total_insert _ _ _ _ _ Hk). destruct (decide (j = i)) as [->|Hne].
    + destruct (insts s !! i) as [x|] eqn:Hx; [destruct (Ei x eq_refl) as (x2 & Hx2 & _); congruence|].
      destruct (Enone eq_refl) as [_ []]. destruct (Gdead i Hx) as (D1 & D2 & D3 & D4).
      pose proof (total_at (own i) _ _ _ ltac:(places) Hk). pose proof (total_at (counted i) _ _ _ ltac:(places) Hk).
      pose proof (total_at (dfin i) _ _ _ ltac:(places) Hk). pose proof (total_at (bref i) _ _ _ ltac:(places) Hk).
      pose proof (places_nonneg i p). lia.
    + rewrite Eo in Hj by done. destruct (Gdead j Hj) as (D1 & D2 & D3 & D4). destruct (Hq j Hne) as [[] []]. lia.
  - intros j. rewrite Hcur, (total_insert _ _ _ _ _ Hk). intros Hj. destruct (decide (j = i)) as [->|Hne].
    + destruct Edw as [E|[E|E]]; [|apply Gdw|by destruct E].
      * apply Gdw. pose proof (places_nonneg i p). lia.
      * pose proof (total_at (dwake i) _ _ _ ltac:(places) Hk). lia.
    + apply Gdw. destruct (Hq j Hne) as [[] []]. lia.
  - intros k2 j v Hk2. destruct (decide (k2 = k)) as [->|Hne].
    + rewrite list_lookup_insert_eq in Hk2 by (by eapply lookup_lt_Some). injection Hk2 as ->. destruct (decide (j = i)) as [->|Hji].
      * destruct (insts s !! i) as [x|] eqn:Hx; [|destruct (Enone eq_refl) as [_ []]; cbn in *; by rewrite one_same in *].
        destruct (Ei x eq_refl) as (x' & Hx' & _ & _ & Hv). exists x'. split; [done|by apply Hv].
      * destruct (Hq j Hji) as [_ []]. cbn in *. by rewrite one_same in *.
    + rewrite list_lookup_insert_ne in Hk2 by done. destruct (Gst k2 j v Hk2) as (x & Hx & ->). destruct (decide (j = i)) as [->|Hji]; [|exists x; by rewrite Eo].
      destruct (Ei x Hx) as (x' & Hx' & _ & [Hcnt|Hone] & _); [by exists x'|]. pose proof (total_two (bref i) _ _ _ _ _ ltac:(places) Hne Hk2 Hk) as Htwo.
      cbn in Htwo. rewrite one_same in Htwo. lia.
Qed.

(** ** The steps *)

Ltac fields := unfold goto, put in *; cbn [b_lock b_waiters b_inst insts next thr set_lock set_waiters set_inst set_insts set_next set_thr] in *.

Lemma lock_nonneg limit s : Inv limit s -> 0 <= b_lock s.
Proof. intros I. rewrite (g_lock _ _ I). apply counts_nonneg. places. Qed.

Lemma next_dead limit s : Inv limit s -> insts s !! next s = None.
Proof. intros I. destruct (insts s !! next s) as [x|] eqn:E; [|done]. apply (g_live _ _ I) in E as [? _]. lia. Qed.

(** A move that has nothing to do with an instance. *)
Lemma inv_away limit s s' k p p' : Inv limit s -> thr s !! k = Some p -> thr s' = <[k := p']> (thr s) ->
  insts s' = insts s -> next s' = next s -> b_inst s' = b_inst s -> mention p = None -> mention p' = None -> crash p' = 0 -> bnew p' = 0 \/ b_inst s = None ->
  b_lock s' = b_lock s - hl p + hl p' -> b_lock s' <= 1 -> b_waiters s' = b_waiters s - lw p + lw p' ->
  (0 < total slp (thr s) - slp p + slp p' -> 0 < b_lock s' + (total act (thr s) - act p + act p')) -> Inv limit s'.
Proof.
  intros I Hk Et Ei En Eb Hm Hm' Hc Hn Hl Hl1 Hw Hs.
  eapply (inv_move limit s _ k p p' (next s)); try done.
  - intros j _. split; apply mention_quiet; congruence.
  - intros j _. by rewrite Ei.
  - intros x Hx. rewrite (next_dead _ _ I) in Hx. done.
  - intros _. rewrite Ei. split; [by apply (next_dead limit)|]. apply mention_quiet. congruence.
  - left. apply (mention_quiet (next s) p'). congruence.
Qed.

Ltac away p p' := eapply (inv_away _ _ _ _ p p'); fields; cbn [mention crash bnew hl lw slp act]; try done; try lia; auto.

Lemma exec_lock_inv limit go k s p s' : Inv limit s -> thr s !! k = Some p -> exec_lock go k s p = Some s' -> Inv limit s'.
Proof.
  intros I Hk H. pose proof (lock_nonneg _ _ I) as L0. pose proof (g_lock1 _ _ I) as L1. pose proof (g_sleep _ _ I) as Ls.
  destruct (all_facts 0 (thr s)). pose proof (total_at act _ _ _ ltac:(places) Hk) as La.
  destruct p; cbn in H, La; try done; [..|destruct go; [|done]|]; injection H as <-.
  - destruct (Z.eqb_spec (b_lock s) 0); [away A_swap B_inst|away A_swap A_spin].
  - destruct go; [away A_spin A_inc|]. destruct (Z.eqb_spec (b_lock s) 1); [done|away A_spin A_swap].
  - away A_inc A_chk.
  - destruct (Z.eqb_spec (b_lock s) 1); [away A_chk A_fut|away A_chk A_dec].
  - destruct (Z.eqb_spec (b_lock s) 1); [away A_fut A_sleep|away A_fut A_chk].
  - away A_sleep A_chk.
  - away A_dec A_swap.
Qed.

(** A move about the living instance [i]. *)
Lemma inv_at limit s s' k p p' i x x' : Inv limit s -> thr s !! k = Some p -> insts s !! i = Some x -> thr s' = <[k := p']> (thr s) ->
  insts s' = <[i := x']> (insts s) -> next s' = next s -> b_inst s' = b_inst s ->
  mention p = Some i \/ mention p = None -> mention p' = Some i \/ mention p' = None -> crash p' = 0 -> bnew p' = 0 ->
  b_lock s' = b_lock s - hl p + hl p' -> b_lock s' <= 1 -> b_waiters s' = b_waiters s - lw p + lw p' ->
  (0 < total slp (thr s) - slp p + slp p' -> 0 < b_lock s' + (total act (thr s) - act p + act p')) ->
  ok limit (cur i s) i x' (<[k := p']> (thr s)) -> (count x' = count x \/ total (bref i) (thr s) = bref i p) ->
  (forall v, p' = B_store i v -> v = count x') -> (dwake i p' = 0 \/ cur i s = 0) -> Inv limit s'.
Proof.
  intros I Hk Hx Et Ei En Eb Hm Hm' Hc Hn Hl Hl1 Hw Hs Hok Hcnt Hst Hdw.
  eapply (inv_move limit s _ k p p' i); try done.
  - intros j Hj. split; apply mention_quiet; destruct Hm, Hm'; congruence.
  - by left.
  - intros j Hj. rewrite Ei. by apply lookup_insert_ne.
  - intros x0 Hx0. rewrite Hx in Hx0. injection Hx0 as <-. exists x'. rewrite Ei, lookup_insert_eq. by split_and!.
  - intros Hx0. by rewrite Hx in Hx0.
  - destruct Hdw; [by left|]. right. right. split; [done|]. by apply (g_live _ _ I i x).
Qed.

(** A thread at work on an instance finds it alive. *)
Lemma alive limit s k p i : Inv limit s -> thr s !! k = Some p -> 0 < own i p + counted i p + dfin i p + bref i p ->
  exists x, insts s !! i = Some x /\ ok limit (cur i s) i x (thr s).
Proof.
  intros I Hk Hp. destruct (insts s !! i) as [x|] eqn:E; [exists x; split; [done|by apply (g_live _ _ I)]|].
  destruct (g_dead _ _ I i E) as (D1 & D2 & D3 & D4). pose proof (total_at (own i) _ _ _ ltac:(places) Hk). pose proof (total_at (counted i) _ _ _ ltac:(places) Hk).
  pose proof (total_at (dfin i) _ _ _ ltac:(places) Hk). pose proof (total_at (bref i) _ _ _ ltac:(places) Hk). lia.
Qed.

Ltac indicators := cbn [own ownpast bref counted lclr prelast past lwk wwait wslp oslp dfin dwake hl lw slp act bnew crash] in *; rewrite ?one_same in *.

(** The instance after the move, by arithmetic. *)
Ltac in_phase := first [apply Entering; lia|apply Full; lia|apply Closed; lia|apply Leaving; lia|apply Drained; lia|apply Finished; lia].
Ltac numbers Hk i p' :=
  match type of Hk with thr ?s !! ?k = _ =>
    let F := fresh in pose proof (all_facts i (thr s)) as F; destruct F;
    let F := fresh in pose proof (all_facts i (<[k := p']> (thr s))) as F; destruct F end;
  repeat match goal with H : ok _ _ _ _ _ |- _ => destruct H as [? ? ? ? ? []] end;
  rewrite ?(total_insert _ _ _ _ _ Hk) in *; indicators; cbn [count last waiters finished] in *.
Ltac words Hk i p' := numbers Hk i p'; try lia; split; rewrite ?(total_insert _ _ _ _ _ Hk); indicators; cbn [count last waiters finished]; first [lia|in_phase].

Ltac move_at Hk p p' i x x' :=
  eapply (inv_at _ _ _ _ p p' i x x'); fields;
  [done|done|done|done|done || by rewrite insert_id|done|done|first [by left|by right]|first [by left|by right]|done|done|indicators; lia|indicators; lia|indicators; lia|
   indicators; lia|words Hk i p'|first [by left|right; numbers Hk i p'; lia]|try done; intros ? [=]; try (subst; done)|first [by left|right; numbers Hk i p'; lia]].

(** The owner returns, and its instance is gone. *)
Lemma owner_returns limit s k i x : Inv limit s -> thr s !! k = Some (O_chk i) -> insts s !! i = Some x -> finished x <> 1 ->
  Inv limit (goto k Idle (set_insts (delete i (insts s)) s)).
Proof.
  intros I Hk Hx Hf. destruct (g_live _ _ I i x Hx) as [Hlt Hok].
  assert (Hend : total (counted i) (thr s) = 0 /\ total (dfin i) (thr s) = 0 /\ total (bref i) (thr s) = 0 /\ cur i s = 0 /\ total (own i) (thr s) = 1)
    by (numbers Hk i Idle; lia).
  destruct I as [Gl Gl1 Gw Gs Gc Gcur Gn Glive Gdead Gdw Gst].
  split; fields; rewrite ?(total_insert _ _ _ _ _ Hk); indicators; try lia.
  - intros j Hj. destruct (Gcur j Hj) as [? ?]. split; [done|]. rewrite lookup_delete_ne; [done|]. intros ->.
    destruct Hend as (_ & _ & _ & Hc & _). unfold cur in Hc. by rewrite decide_True in Hc.
  - intros Hb. apply Gn. lia.
  - intros j y Hy. apply lookup_delete_Some in Hy as [Hne Hy]. destruct (Glive j y Hy) as [? Hj]. split; [done|].
    eapply ok_frame; [done|apply mention_quiet; cbn; congruence|by apply mention_quiet|done].
  - intros j Hj. rewrite !(total_insert _ _ _ _ _ Hk). indicators. apply lookup_delete_None in Hj as [->|Hj]; [rewrite one_same; lia|].
    destruct (decide (i = j)) as [->|Hne]; [congruence|]. rewrite (one_other j i) by done. destruct (Gdead j Hj). lia.
  - intros j Hj. rewrite (total_insert _ _ _ _ _ Hk) in Hj. indicators. apply Gdw. lia.
  - intros k2 j v Hk2. destruct (decide (k2 = k)) as [->|Hne]; [rewrite list_lookup_insert_eq in Hk2 by (eapply lookup_lt_Some; exact Hk); discriminate|].
    rewrite list_lookup_insert_ne in Hk2 by done. destruct (Gst k2 j v Hk2) as (y & Hy & ->). exists y. split; [|done].
    rewrite lookup_delete_ne; [done|]. intros ->. pose proof (total_at (bref j) _ _ _ ltac:(places) Hk2) as Hb. indicators. lia.
Qed.

Lemma exec_owner_inv limit go k s p s' : 1 <= limit -> Inv limit s -> thr s !! k = Some p -> exec_owner go k s p = Some s' -> Inv limit s'.
Proof.
  intros HL I Hk H. pose proof (lock_nonneg _ _ I) as L0. pose proof (g_lock1 _ _ I) as L1. pose proof (g_sleep _ _ I) as Ls.
  assert (Hal : forall i, 0 < own i p + counted i p + dfin i p + bref i p -> exists x, insts s !! i = Some x /\ ok limit (cur i s) i x (thr s)) by (intros; by eapply alive).
  destruct p as [| | | | | | | | | | | | | | | |i|i|i|i|i| | | | | | | | | | | | |]; cbn in H; try done.
  all: destruct (Hal i ltac:(indicators; lia)) as (x & Hx & Hok); unfold deref in H; rewrite ?Hx in H.
  - injection H as <-. destruct (negb _ || go); [|done]. move_at Hk (O_spin i) (O_inc i) i x x.
  - injection H as <-. move_at Hk (O_inc i) (O_chk i) i x (Inst (count x) (last x) (waiters x) (finished x + 1)).
  - injection H as <-. destruct (Z.eqb_spec (finished x) 1); [|by eapply owner_returns]. move_at Hk (O_chk i) (O_fut i) i x x.
  - injection H as <-. destruct (Z.eqb_spec (finished x) 1); [move_at Hk (O_fut i) (O_sleep i) i x x|move_at Hk (O_fut i) (O_chk i) i x x].
  - destruct go; [|done]. injection H as <-. move_at Hk (O_sleep i) (O_chk i) i x x.
Qed.

(** ** Entering *)

(** A new instance. *)
Lemma new_instance limit s k : 1 <= limit -> Inv limit s -> thr s !! k = Some B_new ->
  Inv limit (goto k (U_store Owner (next s)) (set_next (S (next s)) (set_inst (Some (next s)) (put (next s) (Inst 0 0 0 0) s)))).
Proof.
  intros HL I Hk. pose proof (next_dead _ _ I) as Hdead. destruct I as [Gl Gl1 Gw Gs Gc Gcur Gn Glive Gdead Gdw Gst].
  pose proof (total_at bnew _ _ _ ltac:(places) Hk) as Hb. indicators. specialize (Gn ltac:(lia)). set (i := next s) in *.
  destruct (Gdead i Hdead) as (D1 & D2 & D3 & D4).
  assert (Hcur : forall j, (if decide (Some i = Some j) then 1 else 0) = one j i) by (intros j; unfold one; repeat case_decide; congruence).
  split; fields; rewrite ?(total_insert _ _ _ _ _ Hk); indicators; try lia.
  - intros j [= <-]. split; [done|]. rewrite lookup_insert_eq. by eexists.
  - pose proof (all_facts i (thr s)) as []. lia.
  - intros j y Hy. destruct (decide (j = i)) as [->|Hne].
    + rewrite lookup_insert_eq in Hy. injection Hy as <-. split; [lia|]. unfold cur. fields. rewrite Hcur, one_same.
      numbers Hk i (U_store Owner i). split; rewrite ?(total_insert _ _ _ _ _ Hk); indicators; cbn [count last waiters finished]; first [lia|in_phase].
    + rewrite lookup_insert_ne in Hy by done. destruct (Glive j y Hy) as [? Hj]. split; [lia|]. unfold cur in *. fields. rewrite Hcur, one_other by done.
      rewrite decide_False in Hj by congruence. eapply ok_frame; [done|by apply mention_quiet|apply mention_quiet; cbn; congruence|done].
  - intros j Hj. apply lookup_insert_None in Hj as [Hj Hne]. rewrite !(total_insert _ _ _ _ _ Hk). indicators. rewrite (one_other j i) by done.
    destruct (Gdead j Hj). lia.
  - intros j Hj. rewrite (total_insert _ _ _ _ _ Hk) in Hj. indicators. destruct (Gdw j ltac:(lia)). split; [lia|]. unfold cur. fields. rewrite Hcur. apply one_other. lia.
  - intros k2 j v Hk2. destruct (decide (k2 = k)) as [->|Hne]; [rewrite list_lookup_insert_eq in Hk2 by (eapply lookup_lt_Some; exact Hk); discriminate|].
    rewrite list_lookup_insert_ne in Hk2 by done. destruct (Gst k2 j v Hk2) as (y & Hy & ->). exists y. split; [|done].
    rewrite lookup_insert_ne; [done|]. intros <-. congruence.
Qed.

(** The last thread clears the pointer. *)
Lemma clear_instance limit s k i : Inv limit s -> thr s !! k = Some (B_clear i) -> Inv limit (goto k (U_store Last i) (set_inst None s)).
Proof.
  intros I Hk. destruct (alive _ _ _ _ i I Hk ltac:(indicators; lia)) as (x & Hx & Hok).
  destruct I as [Gl Gl1 Gw Gs Gc Gcur Gn Glive Gdead Gdw Gst].
  assert (Hcur : cur i s = 1) by (numbers Hk i (U_store Last i); lia).
  assert (Hb : b_inst s = Some i) by (unfold cur in Hcur; by case_decide).
  split; fields; rewrite ?(total_insert _ _ _ _ _ Hk); indicators; try lia; try done.
  - intros j y Hy. destruct (decide (j = i)) as [->|Hne].
    + rewrite Hx in Hy. injection Hy as <-. split; [by apply (Glive i x)|]. change (cur i _) with 0. rewrite Hcur in Hok. words Hk i (U_store Last i).
    + destruct (Glive j y Hy) as [? Hj]. split; [done|]. change (cur j _) with 0. unfold cur in Hj. rewrite decide_False in Hj by congruence.
      eapply ok_frame; [done|apply mention_quiet; cbn; congruence|apply mention_quiet; cbn; congruence|done].
  - intros j Hj. rewrite !(total_insert _ _ _ _ _ Hk). indicators. destruct (Gdead j Hj). lia.
  - intros j Hj. rewrite (total_insert _ _ _ _ _ Hk) in Hj. indicators. destruct (Gdw j ltac:(lia)). done.
  - intros k2 j v Hk2. destruct (decide (k2 = k)) as [->|Hne]; [rewrite list_lookup_insert_eq in Hk2 by (eapply lookup_lt_Some; exact Hk); discriminate|].
    rewrite list_lookup_insert_ne in Hk2 by done. by apply Gst in Hk2.
Qed.

Lemma no_sleeper (l : list pc) : A_sleep ∉ l -> total slp l = 0.
Proof.
  induction l as [|p l IH]; intros H; [done|]. apply not_elem_of_cons in H as [Hp H]. cbn. rewrite IH by done. by destruct p.
Qed.

(** Releasing the lock: a thread is woken if one may sleep. *)
Lemma release_inv limit j k s r i p s' : Inv limit s -> thr s !! k = Some p -> p = U_store r i \/ p = U_chk r i \/ p = U_wake r i ->
  exec_enter limit j k s p = Some s' -> Inv limit s'.
Proof.
  intros I Hk Hp H. pose proof (lock_nonneg _ _ I) as L0. pose proof (g_lock1 _ _ I) as L1. pose proof (g_sleep _ _ I) as Ls. pose proof (g_wait _ _ I) as Lw.
  pose proof (g_lock _ _ I) as Ll.
  destruct (alive _ _ _ _ i I Hk) as (x & Hx & Hok); [destruct r, Hp as [->|[->| ->]]; indicators; lia|].
  assert (Hmove : forall s0 p', Inv limit s0 -> thr s0 !! k = Some (U_wake r i) -> insts s0 !! i = Some x -> ok limit (cur i s0) i x (thr s0) -> p' = after r i ->
    (0 < total slp (thr s0) -> 0 < b_lock s0 + (total act (thr s0) - 1)) -> Inv limit (goto k p' s0)).
  { clear. intros s0 p' I Hk Hx Hok -> Hs. pose proof (lock_nonneg _ _ I) as L0. pose proof (g_lock1 _ _ I) as L1.
    destruct r; [move_at Hk (U_wake Owner i) (O_spin i) i x x|move_at Hk (U_wake Last i) (L_last i) i x x|move_at Hk (U_wake Other i) (W_spin i) i x x]. }
  destruct Hp as [->|[->| ->]]; cbn in H.
  - injection H as <-. pose proof (total_at hl _ _ _ ltac:(places) Hk) as Hh. pose proof (all_facts i (thr s)) as []. indicators.
    destruct r; [move_at Hk (U_store Owner i) (U_chk Owner i) i x x|move_at Hk (U_store Last i) (U_chk Last i) i x x|move_at Hk (U_store Other i) (U_chk Other i) i x x].
  - injection H as <-. pose proof (all_facts i (thr s)) as []. destruct (Z.eqb_spec (b_waiters s) 0) as [E|E]; cbn [negb].
    + destruct r; [move_at Hk (U_chk Owner i) (O_spin i) i x x|move_at Hk (U_chk Last i) (L_last i) i x x|move_at Hk (U_chk Other i) (W_spin i) i x x].
    + destruct r; [move_at Hk (U_chk Owner i) (U_wake Owner i) i x x|move_at Hk (U_chk Last i) (U_wake Last i) i x x|move_at Hk (U_chk Other i) (U_wake Other i) i x x].
  - destruct (decide (A_sleep ∈ thr s)) as [Hin|Hout].
    + destruct (decide (thr s !! j = Some A_sleep)) as [Hj|]; [|done]. injection H as <-.
      assert (Hne : j <> k) by congruence. assert (I1 : Inv limit (goto j A_chk s)) by (eapply (exec_lock_inv limit true j s A_sleep); done).
      assert (Hk1 : thr (goto j A_chk s) !! k = Some (U_wake r i)) by (fields; by rewrite list_lookup_insert_ne).
      apply Hmove; try done; [by apply (g_live _ _ I1)|]. pose proof (lock_nonneg _ _ I1).
      assert (Hj1 : thr (goto j A_chk s) !! j = Some A_chk) by (fields; apply list_lookup_insert_eq; by eapply lookup_lt_Some).
      pose proof (total_two act _ _ _ _ _ ltac:(places) Hne Hj1 Hk1) as Ha. indicators. lia.
    + injection H as <-. apply Hmove; try done. rewrite (no_sleeper _ Hout). lia.
Qed.

Lemma exec_enter_inv limit j k s p s' : 1 <= limit -> Inv limit s -> thr s !! k = Some p -> exec_enter limit j k s p = Some s' -> Inv limit s'.
Proof.
  intros HL I Hk H. pose proof (lock_nonneg _ _ I) as L0. pose proof (g_lock1 _ _ I) as L1. pose proof (g_sleep _ _ I) as Ls. pose proof (g_lock _ _ I) as Ll.
  destruct p as [| | | | | | | | | |i|i v|i|r i|r i|r i| | | | | | | | | | | | | | | | | |]; try done;
    try (eapply (release_inv limit j k s r i); [done|done|auto|done]).
  - cbn in H. destruct (b_inst s) as [i|] eqn:Eb; injection H as <-; [|away B_inst B_new].
    destruct (g_cur _ _ I i Eb) as [_ [x Hx]]. destruct (g_live _ _ I i x Hx) as [_ Hok].
    assert (Hc : cur i s = 1) by (unfold cur; by rewrite decide_True). move_at Hk B_inst (B_count i) i x x.
  - cbn in H. injection H as <-. by apply new_instance.
  - cbn in H. injection H as <-. destruct (alive _ _ _ _ i I Hk ltac:(indicators; lia)) as (x & Hx & Hok). unfold deref. rewrite Hx.
    move_at Hk (B_count i) (B_store i (count x)) i x x.
  - cbn in H. injection H as <-. destruct (alive _ _ _ _ i I Hk ltac:(indicators; lia)) as (x & Hx & Hok). unfold deref. rewrite Hx.
    destruct (g_store _ _ I k i v Hk) as (x2 & Hx2 & ->). rewrite Hx in Hx2. injection Hx2 as <-.
    destruct (Z.eqb_spec (count x + 1) limit) as [E|E];
      [move_at Hk (B_store i (count x)) (B_clear i) i x (Inst (count x + 1) (last x) (waiters x) (finished x))
      |move_at Hk (B_store i (count x)) (U_store Other i) i x (Inst (count x + 1) (last x) (waiters x) (finished x))].
  - cbn in H. injection H as <-. by apply clear_instance.
Qed.
End PbarrierInv.
