(* ===== verification/PbarrierThms.v ===== *)
(** * What musl's barriers guarantee

    The steps of the threads that wait and leave, and the theorems: the code refines a
    barrier that counts the threads that arrive, no instance is used after its owner
    returned, and no thread sleeps for ever. *)

From S2P Require Import Prelude CLib Barrier Pbarrier PbarrierInv.

Module PbarrierThms.
Import Pbarrier PbarrierInv.

(** ** Waiting and leaving *)

Ltac begin I Hk :=
  pose proof (lock_nonneg _ _ I) as L0; pose proof (g_lock1 _ _ I) as L1; pose proof (g_sleep _ _ I) as Ls.

(** The steps of a thread that waits for the last one. *)
Lemma wait_inv limit go k s p s' i : 1 <= limit -> Inv limit s -> thr s !! k = Some p ->
  p = W_spin i \/ p = W_inc i \/ p = W_chk i \/ p = W_fut i \/ p = W_sleep i \/ p = W_dec i -> exec_wait go k s p = Some s' -> Inv limit s'.
Proof.
  intros HL I Hk Hp H. begin I Hk.
  destruct (alive _ _ _ _ i I Hk) as (x & Hx & Hok); [destruct Hp as [->|[->|[->|[->|[->| ->]]]]]; indicators; lia|].
  destruct Hp as [->|[->|[->|[->|[->| ->]]]]]; cbn in H; unfold deref in H; rewrite ?Hx in H.
  - injection H as <-. destruct go; [move_at Hk (W_spin i) (W_inc i) i x x|]. destruct (Z.eqb_spec (last x) 0); [done|]. move_at Hk (W_spin i) (D_count i) i x x.
  - injection H as <-. move_at Hk (W_inc i) (W_chk i) i x (Inst (count x) (last x) (waiters x + 1) (finished x)).
  - injection H as <-. destruct (Z.eqb_spec (last x) 0); [move_at Hk (W_chk i) (W_fut i) i x x|move_at Hk (W_chk i) (W_dec i) i x x].
  - injection H as <-. destruct (Z.eqb_spec (last x) 0); [move_at Hk (W_fut i) (W_sleep i) i x x|move_at Hk (W_fut i) (W_chk i) i x x].
  - destruct go; [|done]. injection H as <-. move_at Hk (W_sleep i) (W_chk i) i x x.
  - injection H as <-. move_at Hk (W_dec i) (D_count i) i x (Inst (count x) (last x) (waiters x - 1) (finished x)).
Qed.

(** Waking all that sleep somewhere. *)
Lemma wake_all_inv limit from to s : (forall s k, Inv limit s -> thr s !! k = Some from -> Inv limit (goto k to s)) -> Inv limit s -> Inv limit (wake_all from to s).
Proof.
  intros Hmove I. unfold wake_all. set (g := fun p => if decide (p = from) then to else p).
  assert (H : forall m, Inv limit (set_thr (map g (take m (thr s)) ++ drop m (thr s)) s)).
  { induction m as [|m IH]; [rewrite take_0, drop_0; by destruct s|]. destruct (thr s !! m) as [p|] eqn:Hp.
    - rewrite (drop_S _ _ _ Hp) in IH. rewrite (take_S_r _ _ _ Hp), map_app, <- app_assoc. cbn [map app].
      assert (Lm : length (map g (take m (thr s))) = m) by (rewrite length_map, length_take; apply lookup_lt_Some in Hp; lia).
      unfold g at 2. destruct (decide (p = from)) as [->|]; [|done].
      assert (Hk : (map g (take m (thr s)) ++ from :: drop (S m) (thr s)) !! m = Some from) by (rewrite lookup_app_r by lia; by rewrite Lm, Nat.sub_diag).
      specialize (Hmove _ m IH Hk). unfold goto in Hmove. cbn [set_thr thr b_lock b_waiters b_inst insts next] in Hmove.
      rewrite insert_app_r_alt, Lm, Nat.sub_diag in Hmove by lia. exact Hmove.
    - apply lookup_ge_None in Hp. rewrite take_ge, drop_ge in * by lia. done. }
  specialize (H (length (thr s))). rewrite firstn_all, drop_ge, app_nil_r in H by lia. exact H.
Qed.

Lemma wake_none (f : pc -> Z) from to s : (forall p, p <> from -> f p = 0) -> f to = 0 -> total f (thr (wake_all from to s)) = 0.
Proof.
  intros Hf Ht. unfold wake_all. cbn [thr set_thr]. induction (thr s) as [|p l IH]; [done|]. cbn [map total]. rewrite IH.
  destruct (decide (p = from)); [lia|]. rewrite Hf by done. lia.
Qed.

Lemma wake_lookup from to s k p : thr s !! k = Some p -> p <> from -> thr (wake_all from to s) !! k = Some p.
Proof. intros Hk Hp. unfold wake_all. cbn [thr set_thr]. rewrite list_lookup_fmap, Hk. cbn. by rewrite decide_False. Qed.

(** The last thread to enter. *)
Lemma last_inv limit go k s p s' i : 1 <= limit -> Inv limit s -> thr s !! k = Some p ->
  p = L_last i \/ p = L_chk i \/ p = L_wake i -> exec_wait go k s p = Some s' -> Inv limit s'.
Proof.
  intros HL I Hk Hp H. begin I Hk. destruct (alive _ _ _ _ i I Hk) as (x & Hx & Hok); [destruct Hp as [->|[->| ->]]; indicators; lia|].
  destruct Hp as [->|[->| ->]]; cbn in H; unfold deref in H; rewrite ?Hx in H; injection H as <-.
  - move_at Hk (L_last i) (L_chk i) i x (Inst (count x) 1 (waiters x) (finished x)).
  - destruct (Z.eqb_spec (waiters x) 0); cbn [negb]; [move_at Hk (L_chk i) (D_count i) i x x|move_at Hk (L_chk i) (L_wake i) i x x].
  - assert (I1 : Inv limit (wake_all (W_sleep i) (W_chk i) s)).
    { apply wake_all_inv; [|done]. intros s0 k0 I0 Hk0. eapply (wait_inv limit true k0 s0 (W_sleep i) _ i); [done|done|done|tauto|done]. }
    set (s1 := wake_all _ _ s) in *. assert (Hk1 : thr s1 !! k = Some (L_wake i)) by (by apply wake_lookup).
    assert (Hz : total (wslp i) (thr s1) = 0).
    { apply wake_none; [|done]. intros [] Hp; cbn; try done. apply one_other. congruence. }
    clear Hok Ls L0 L1. begin I1 Hk1. assert (Hx1 : insts s1 !! i = Some x) by done. destruct (g_live _ _ I1 i x Hx1) as [_ Hok].
    move_at Hk1 (L_wake i) (D_count i) i x x.
Qed.

(** A thread that leaves. *)
Lemma leave_inv limit go k s p s' i : 1 <= limit -> Inv limit s -> thr s !! k = Some p ->
  p = D_count i \/ p = D_fin i -> exec_wait go k s p = Some s' -> Inv limit s'.
Proof.
  intros HL I Hk Hp H. begin I Hk. destruct (alive _ _ _ _ i I Hk) as (x & Hx & Hok); [destruct Hp as [->| ->]; indicators; lia|].
  destruct Hp as [->| ->]; cbn in H; unfold deref in H; rewrite ?Hx in H; injection H as <-.
  - destruct (Z.eqb_spec (count x) 1) as [E|E];
      [move_at Hk (D_count i) (D_fin i) i x (Inst (count x - 1) (last x) (waiters x) (finished x))
      |move_at Hk (D_count i) Idle i x (Inst (count x - 1) (last x) (waiters x) (finished x))].
  - destruct (Z.eqb_spec (finished x) 0) as [E|E]; cbn [negb];
      [move_at Hk (D_fin i) Idle i x (Inst (count x) (last x) (waiters x) (finished x + 1))
      |move_at Hk (D_fin i) (D_wake i) i x (Inst (count x) (last x) (waiters x) (finished x + 1))].
Qed.

(** Waking the owner, which may be gone already. *)
Lemma wake_owner_inv limit k s i : 1 <= limit -> Inv limit s -> thr s !! k = Some (D_wake i) -> Inv limit (goto k Idle (wake_all (O_sleep i) (O_chk i) s)).
Proof.
  intros HL I Hk. assert (I1 : Inv limit (wake_all (O_sleep i) (O_chk i) s)).
  { apply wake_all_inv; [|done]. intros s0 k0 I0 Hk0. by eapply (exec_owner_inv limit true k0 s0 (O_sleep i)). }
  set (s1 := wake_all _ _ s) in *. assert (Hk1 : thr s1 !! k = Some (D_wake i)) by (by apply wake_lookup).
  assert (Hz : total (oslp i) (thr s1) = 0).
  { apply wake_none; [|done]. intros [] Hp; cbn; try done. apply one_other. congruence. }
  begin I1 Hk1. destruct (insts s1 !! i) as [x|] eqn:Hx.
  - destruct (g_live _ _ I1 i x Hx) as [_ Hok]. move_at Hk1 (D_wake i) Idle i x x.
  - eapply (inv_move limit s1 _ k (D_wake i) Idle i); fields; try done; try (indicators; lia).
    + intros j Hj. split; apply mention_quiet; cbn; congruence.
    + intros x Hx'. congruence.
Qed.

(** Every step keeps the invariant. *)
Lemma exec_inv limit go j k s s' : 1 <= limit -> Inv limit s -> exec limit go j k s = Some s' -> Inv limit s'.
Proof.
  intros HL I H. unfold exec in H. destruct (thr s !! k) as [p|] eqn:Hk; [|done].
  destruct p; try done; try (by eapply exec_lock_inv); try (by eapply exec_enter_inv); try (by eapply exec_owner_inv);
    try (by eapply last_inv; [..|exact H]; [| |exact Hk|tauto]); try (eapply wait_inv; [done|done|exact Hk|tauto|exact H]);
    try (eapply leave_inv; [done|done|exact Hk|tauto|exact H]).
  - injection H as <-. destruct (Z.eqb_spec limit 0); [lia|]. begin I Hk. pose proof (counts_nonneg act (thr s) ltac:(places)). away Idle A_swap.
  - injection H as <-. by apply wake_owner_inv.
Qed.

Lemma first_inv limit n : Inv limit (start n).
Proof.
  assert (Hz : forall f, f Idle = 0 -> total f (replicate n Idle) = 0) by (intros f Hf; induction n as [|n IH]; cbn; lia).
  split; cbn [start b_lock b_waiters b_inst insts next thr]; rewrite ?Hz by done; try done; try lia.
  - intros i _. by rewrite !Hz.
  - intros i. rewrite Hz by done. lia.
  - intros k i v Hk. by apply lookup_replicate_1 in Hk as [? _].
Qed.

Lemma reached_inv limit n s : 1 <= limit -> rtc (step limit) (start n) s -> Inv limit s.
Proof. intros HL. revert s. apply rtc_ind_r; [apply first_inv|]. intros s1 s2 _ [go j k H] I. by eapply exec_inv. Qed.

(** ** Refinement

    The barrier that the code implements: how many threads arrived in the current round,
    and the number of the round, which is that of the instance. *)

Definition abs (limit : Z) (s : st) : Barrier.barrier :=
  match b_inst s with
  | Some i =>
      if count (default (Inst 0 0 0 0) (insts s !! i)) <? limit
      then Barrier.Bar (limit + 1) (count (default (Inst 0 0 0 0) (insts s !! i)) + 1) (Z.of_nat i)
      else Barrier.Bar (limit + 1) 0 (Z.of_nat i + 1)
  | None => Barrier.Bar (limit + 1) 0 (Z.of_nat (next s))
  end.

(** The round in which a thread has arrived. *)
Definition entered (p : pc) : option nat :=
  match p with B_count _ | B_store _ _ => None | _ => mention p end.

Lemma abs_same limit s s' : b_inst s' = b_inst s -> next s' = next s ->
  (forall i, b_inst s = Some i -> count <$> insts s' !! i = count <$> insts s !! i) -> abs limit s' = abs limit s.
Proof.
  intros Eb En Hc. unfold abs. rewrite Eb, En. destruct (b_inst s) as [i|]; [|done]. specialize (Hc i eq_refl).
  destruct (insts s' !! i) as [x'|], (insts s !! i) as [x|]; cbn in *; try done. by injection Hc as ->.
Qed.

Lemma abs_put limit s k p' i x x' : insts s !! i = Some x -> count x' = count x \/ b_inst s <> Some i -> abs limit (goto k p' (put i x' s)) = abs limit s.
Proof.
  intros Hx Hc. apply abs_same; [done|done|]. intros c Hb. cbn. destruct (decide (c = i)) as [->|Hne]; [|by rewrite lookup_insert_ne].
  rewrite lookup_insert_eq, Hx. cbn. f_equal. by destruct Hc.
Qed.

(** A round that is over. *)
Lemma open_past limit s i : Inv limit s -> (i < next s)%nat -> cur i s = 0 -> Barrier.open (abs limit s) (Z.of_nat i) = true.
Proof.
  intros I Hi Hc. unfold Barrier.open, abs. apply Z.ltb_lt. destruct (b_inst s) as [c|] eqn:Eb; cbn [Barrier.round]; [|lia].
  destruct (g_cur _ _ I c Eb) as [Hn _]. assert (c <> i) by (intros ->; unfold cur in Hc; by rewrite decide_True in Hc).
  destruct (_ <? _); cbn [Barrier.round]; lia.
Qed.

(** What a step of thread [k] at [p] does to the abstract barrier. *)
Definition refines (limit : Z) (s s' : st) (k : nat) (p : pc) : Prop :=
  exists p', thr s' !! k = Some p' /\
  match entered p, entered p' with
  | None, None => abs limit s' = abs limit s
  | None, Some i => abs limit s' = Barrier.arrive (abs limit s) /\ Z.of_nat i = Barrier.round (abs limit s)
  | Some i, Some i' => i' = i /\ abs limit s' = abs limit s
  | Some i, None => p' = Idle /\ Barrier.open (abs limit s) (Z.of_nat i) = true /\ abs limit s' = abs limit s
  end.

Lemma goto_lookup k p' s p : thr s !! k = Some p -> thr (goto k p' s) !! k = Some p'.
Proof. intros H. cbn. apply list_lookup_insert_eq. by eapply lookup_lt_Some. Qed.

Lemma lock_refines limit go k s p s' : thr s !! k = Some p -> exec_lock go k s p = Some s' -> refines limit s s' k p.
Proof.
  intros Hk H. assert (Hg : forall p' s0, thr s0 = thr s -> b_inst s0 = b_inst s -> insts s0 = insts s -> next s0 = next s ->
    mention p = None -> mention p' = None -> entered p' = None -> entered p = None -> refines limit s (goto k p' s0) k p).
  { intros p' s0 E1 E2 E3 E4 _ _ E5 E6. exists p'. split; [apply (goto_lookup k p' s0 p); by rewrite E1|]. rewrite E5, E6.
    apply abs_same; [done|done|]. intros i _. cbn. by rewrite E3. }
  assert (Hs : entered p = None -> refines limit s s k p) by (intros E; exists p; by rewrite E).
  destruct p; cbn in H; try done; [..|destruct go; [|done]|]; injection H as <-; repeat case_match; by apply Hg || by apply Hs.
Qed.

Lemma current limit s k p i x : Inv limit s -> thr s !! k = Some p -> 0 < bref i p -> insts s !! i = Some x -> b_inst s = Some i /\ count x < limit.
Proof.
  intros I Hk Hp Hx. destruct (g_live _ _ I i x Hx) as [_ [_ _ _ _ _ Hph]]. pose proof (total_at (bref i) _ _ _ ltac:(places) Hk) as Hb.
  pose proof (all_facts i (thr s)) as []. pose proof (g_lock _ _ I). pose proof (g_lock1 _ _ I).
  unfold cur in *. destruct (decide (b_inst s = Some i)) as [E|E]; destruct Hph; try lia. done.
Qed.

(** A move inside an instance, and one that leaves it. *)
Lemma stays limit s s' k p p' i : thr s' !! k = Some p' -> entered p = Some i -> entered p' = Some i -> abs limit s' = abs limit s -> refines limit s s' k p.
Proof. intros Hk Hp Hp' Ha. exists p'. by rewrite Hp, Hp'. Qed.

Lemma leaves limit s s' k p i : Inv limit s -> thr s' !! k = Some Idle -> entered p = Some i -> (i < next s)%nat -> cur i s = 0 ->
  abs limit s' = abs limit s -> refines limit s s' k p.
Proof. intros I Hk Hp Hi Hc Ha. exists Idle. rewrite Hp. cbn. split_and!; [done|done|by eapply open_past|done]. Qed.

Lemma abs_thr limit s l : abs limit (set_thr l s) = abs limit s.
Proof. done. Qed.

Lemma enter_refines limit j k s p s' : 1 <= limit -> Inv limit s -> thr s !! k = Some p -> exec_enter limit j k s p = Some s' -> refines limit s s' k p.
Proof.
  intros HL I Hk H. destruct p as [| | | | | | | | | |i|i v|i|r i|r i|r i| | | | | | | | | | | | | | | | | |]; cbn in H; try done.
  - destruct (b_inst s) as [i|] eqn:Eb; injection H as <-; eexists; (split; [by eapply goto_lookup|]); done.
  - injection H as <-. eexists. split; [by eapply (goto_lookup k _ (set_next _ _))|]. cbn [entered mention]. pose proof (total_at bnew _ _ _ ltac:(places) Hk) as Hb. cbn in Hb.
    unfold abs. rewrite (g_new _ _ I) by lia. cbn [b_inst goto set_next set_inst put set_insts set_thr insts Barrier.round]. rewrite lookup_insert_eq. cbn [default from_option id count].
    rewrite (proj2 (Z.ltb_lt 0 limit)) by lia. split; [|done]. unfold Barrier.arrive. cbn [Barrier.arrived Barrier.limit Barrier.round].
    by rewrite (proj2 (Z.eqb_neq (0 + 1) (limit + 1))) by lia.
  - injection H as <-. destruct (alive _ _ _ _ i I Hk ltac:(indicators; lia)) as (x & Hx & _). unfold deref. rewrite Hx.
    eexists. split; [by eapply goto_lookup|]. done.
  - injection H as <-. destruct (alive _ _ _ _ i I Hk ltac:(indicators; lia)) as (x & Hx & _). unfold deref. rewrite Hx.
    destruct (g_store _ _ I k i v Hk) as (x2 & Hx2 & ->). rewrite Hx in Hx2. injection Hx2 as <-.
    destruct (current _ _ _ _ i x I Hk ltac:(indicators; lia) Hx) as [Hb Hc].
    exists (if count x + 1 =? limit then B_clear i else U_store Other i). split; [by eapply (goto_lookup k _ (put _ _ _))|].
    unfold abs, goto, put. cbn [b_inst set_insts set_thr insts]. rewrite Hb, lookup_insert_eq, Hx. cbn [default from_option id count].
    rewrite (proj2 (Z.ltb_lt (count x) limit)) by lia. unfold Barrier.arrive. cbn [Barrier.arrived Barrier.limit Barrier.round].
    destruct (Z.eqb_spec (count x + 1) limit); [rewrite (proj2 (Z.ltb_ge _ _)), (proj2 (Z.eqb_eq _ _)) by lia|rewrite (proj2 (Z.ltb_lt _ _)), (proj2 (Z.eqb_neq _ _)) by lia]; done.
  - injection H as <-. destruct (alive _ _ _ _ i I Hk ltac:(indicators; lia)) as (x & Hx & Hok).
    assert (Hc : cur i s = 1 /\ count x = limit) by (numbers Hk i (U_store Last i); lia). destruct Hc as [Hc Hcl].
    assert (Hb : b_inst s = Some i) by (unfold cur in Hc; by case_decide). destruct (g_cur _ _ I i Hb) as [Hn _].
    eapply (stays _ _ _ _ _ _ i); [by eapply (goto_lookup k _ (set_inst _ _))|done|done|]. unfold abs. cbn [b_inst goto set_inst set_thr next]. rewrite Hb, Hx. cbn [default from_option id].
    rewrite (proj2 (Z.ltb_ge _ _)) by lia. f_equal. lia.
  - injection H as <-. by eapply (stays _ _ _ _ _ _ i); [by eapply (goto_lookup k _ (set_lock _ _))|..].
  - injection H as <-. destruct (negb _); eapply (stays _ _ _ _ _ _ i); try (by eapply goto_lookup); by destruct r.
  - destruct (decide (A_sleep ∈ thr s)) as [Hin|Hout].
    + destruct (decide (thr s !! j = Some A_sleep)) as [Hj|]; [|done]. injection H as <-.
      eapply (stays _ _ _ _ _ _ i); [eapply (goto_lookup k _ (goto j A_chk s)); cbn; rewrite list_lookup_insert_ne by congruence; exact Hk|by destruct r..].
    + injection H as <-. eapply (stays _ _ _ _ _ _ i); try (by eapply goto_lookup); by destruct r.
Qed.

Lemma owner_refines limit go k s p s' : 1 <= limit -> Inv limit s -> thr s !! k = Some p -> exec_owner go k s p = Some s' -> refines limit s s' k p.
Proof.
  intros HL I Hk H.
  destruct p as [| | | | | | | | | | | | | | | |i|i|i|i|i| | | | | | | | | | | | |]; cbn in H; try done.
  all: destruct (alive _ _ _ _ i I Hk ltac:(indicators; lia)) as (x & Hx & Hok); unfold deref in H; rewrite ?Hx in H.
  - injection H as <-. destruct (negb _ || go); eapply (stays _ _ _ _ _ _ i); try exact Hk; try (by eapply goto_lookup); done.
  - injection H as <-. eapply (stays _ _ _ _ _ _ i); [by eapply (goto_lookup k _ (put _ _ _))|done|done|]. eapply abs_put; [done|by left].
  - injection H as <-. destruct (Z.eqb_spec (finished x) 1) as [E|E]; [by eapply (stays _ _ _ _ _ _ i); [by eapply goto_lookup|..]|].
    assert (Hc : cur i s = 0) by (numbers Hk i Idle; lia).
    eapply (leaves _ _ _ _ _ i); [done|by eapply (goto_lookup k _ (set_insts _ _))|done|by apply (g_live _ _ I i x)|done|].
    apply abs_same; [done|done|]. intros c Hb. cbn. rewrite lookup_delete_ne; [done|]. intros ->. unfold cur in Hc. by rewrite decide_True in Hc.
  - injection H as <-. destruct (finished x =? 1); by eapply (stays _ _ _ _ _ _ i); [by eapply goto_lookup|..].
  - destruct go; [|done]. injection H as <-. by eapply (stays _ _ _ _ _ _ i); [by eapply goto_lookup|..].
Qed.

Lemma wait_refines limit go k s p s' : 1 <= limit -> Inv limit s -> thr s !! k = Some p -> exec_wait go k s p = Some s' -> refines limit s s' k p.
Proof.
  intros HL I Hk H.
  destruct p as [| | | | | | | | | | | | | | | | | | | | |i|i|i|i|i|i|i|i|i|i|i|i|]; cbn in H; try done.
  all: try (destruct (alive _ _ _ _ i I Hk ltac:(indicators; lia)) as (x & Hx & Hok); unfold deref in H; rewrite ?Hx in H).
  - injection H as <-. eapply (stays _ _ _ _ _ _ i); [by eapply (goto_lookup k _ (put _ _ _))|done|done|]. eapply abs_put; [done|by left].
  - injection H as <-. destruct (negb _); by eapply (stays _ _ _ _ _ _ i); [by eapply goto_lookup|..].
  - injection H as <-. by eapply (stays _ _ _ _ _ _ i); [by eapply (goto_lookup k _ (wake_all _ _ _)), wake_lookup|..].
  - injection H as <-. destruct go; [|destruct (last x =? 0)]; eapply (stays _ _ _ _ _ _ i); try exact Hk; try (by eapply goto_lookup); done.
  - injection H as <-. eapply (stays _ _ _ _ _ _ i); [by eapply (goto_lookup k _ (put _ _ _))|done|done|]. eapply abs_put; [done|by left].
  - injection H as <-. destruct (last x =? 0); by eapply (stays _ _ _ _ _ _ i); [by eapply goto_lookup|..].
  - injection H as <-. destruct (last x =? 0); by eapply (stays _ _ _ _ _ _ i); [by eapply goto_lookup|..].
  - destruct go; [|done]. injection H as <-. by eapply (stays _ _ _ _ _ _ i); [by eapply goto_lookup|..].
  - injection H as <-. eapply (stays _ _ _ _ _ _ i); [by eapply (goto_lookup k _ (put _ _ _))|done|done|]. eapply abs_put; [done|by left].
  - injection H as <-. assert (Hc : cur i s = 0) by (numbers Hk i Idle; lia).
    assert (Ha : forall p' x', abs limit (goto k p' (put i x' s)) = abs limit s).
    { intros p' x'. eapply abs_put; [done|]. right. intros Hb. unfold cur in Hc. by rewrite decide_True in Hc. }
    destruct (count x =? 1); [by eapply (stays _ _ _ _ _ _ i); [by eapply (goto_lookup k _ (put _ _ _))|..]|].
    eapply (leaves _ _ _ _ _ i); [done|by eapply (goto_lookup k _ (put _ _ _))|done|by apply (g_live _ _ I i x)|done|done].
  - injection H as <-. assert (Hc : cur i s = 0) by (numbers Hk i Idle; lia).
    assert (Ha : forall p' x', abs limit (goto k p' (put i x' s)) = abs limit s).
    { intros p' x'. eapply abs_put; [done|]. right. intros Hb. unfold cur in Hc. by rewrite decide_True in Hc. }
    destruct (negb _); [by eapply (stays _ _ _ _ _ _ i); [by eapply (goto_lookup k _ (put _ _ _))|..]|].
    eapply (leaves _ _ _ _ _ i); [done|by eapply (goto_lookup k _ (put _ _ _))|done|by apply (g_live _ _ I i x)|done|done].
  - injection H as <-. pose proof (total_at (dwake i) _ _ _ ltac:(places) Hk) as Hd. indicators. destruct (g_dwake _ _ I i ltac:(lia)).
    eapply (leaves _ _ _ _ _ i); [done|by eapply (goto_lookup k _ (wake_all _ _ _)), wake_lookup|done|done|done|done].
Qed.

Lemma exec_refines limit go j k s s' p : 1 <= limit -> Inv limit s -> thr s !! k = Some p -> exec limit go j k s = Some s' -> refines limit s s' k p.
Proof.
  intros HL I Hk H. unfold exec in H. rewrite Hk in H.
  destruct p; try done; try (by eapply lock_refines); try (by eapply enter_refines); try (by eapply owner_refines); try (by eapply wait_refines).
  injection H as <-. destruct (Z.eqb_spec limit 0); [lia|]. exists A_swap. split; [by eapply goto_lookup|]. done.
Qed.

(** The other threads stay where they are, or wake up. *)
Lemma exec_others limit go j k s s' m : exec limit go j k s = Some s' -> m <> k -> entered <$> thr s' !! m = entered <$> thr s !! m.
Proof.
  intros H Hm. assert (Hg : forall p' s0, thr s0 = thr s -> entered <$> thr (goto k p' s0) !! m = entered <$> thr s !! m).
  { intros p' s0 E. cbn. by rewrite E, list_lookup_insert_ne. }
  assert (Hw : forall from to p', entered to = entered from -> entered <$> thr (goto k p' (wake_all from to s)) !! m = entered <$> thr s !! m).
  { intros from to p' E. cbn. rewrite list_lookup_insert_ne by done. rewrite list_lookup_fmap. destruct (thr s !! m) as [p|]; [|done]. cbn.
    by destruct (decide (p = from)) as [->|]; [rewrite E|]. }
  unfold exec in H. destruct (thr s !! k) as [p|] eqn:Hk; [|done].
  destruct p; cbn in H; unfold deref in H; repeat case_match; try done; injection H as <-; try (by apply Hg); try (by apply Hw); try done.
  cbn. rewrite list_lookup_insert_ne by done. destruct (decide (m = j)) as [->|]; [|by rewrite list_lookup_insert_ne].
  match goal with E : thr s !! j = Some A_sleep |- _ => rewrite E; by rewrite list_lookup_insert_eq by (by eapply lookup_lt_Some) end.
Qed.

Lemma not_crashed limit s k : Inv limit s -> thr s !! k <> Some Crashed.
Proof. intros I Hk. pose proof (total_at crash _ _ _ ltac:(places) Hk) as H. rewrite (g_crash _ _ I) in H. cbn in H. lia. Qed.

(** ** No thread sleeps for ever *)

Definition asleep (p : pc) : bool := match p with A_sleep | W_sleep _ | O_sleep _ => true | _ => false end.
Definition busy (p : pc) : Z := match p with Idle => 0 | _ => 1 end.

(** Every thread in a call that does not sleep can go on. *)
Lemma enabled limit s k p : thr s !! k = Some p -> p <> Idle -> p <> Crashed -> asleep p = false -> exists j s', exec limit false j k s = Some s'.
Proof.
  intros Hk Hi Hc Hs. unfold exec. rewrite Hk. destruct p; try done; try (exists 0%nat; eexists; cbn; reflexivity).
  - exists 0%nat. cbn. by destruct (b_inst s); eexists.
  - cbn. destruct (decide (A_sleep ∈ thr s)) as [Hin|Hout]; [|exists 0%nat; by eexists].
    apply list_elem_of_lookup in Hin as [j Hj]. exists j. rewrite decide_True by done. by eexists.
Qed.

Lemma total_none (f : pc -> Z) l : (forall k p, l !! k = Some p -> f p = 0) -> total f l = 0.
Proof.
  induction l as [|p l IH]; intros H; [done|]. cbn. rewrite (H 0%nat p eq_refl), IH; [done|]. intros k q Hq. by apply (H (S k)).
Qed.

Lemma total_same (f g : pc -> Z) l : (forall k p, l !! k = Some p -> f p = g p) -> total f l = total g l.
Proof.
  induction l as [|p l IH]; intros H; [done|]. cbn. rewrite (H 0%nat p eq_refl), IH; [done|]. intros k q Hq. by apply (H (S k)).
Qed.

(** When all threads sleep or are idle, the instance they sleep in is the current one. *)
Lemma asleep_current limit s i x : Inv limit s -> (forall k p, thr s !! k = Some p -> p = Idle \/ asleep p = true) -> insts s !! i = Some x ->
  cur i s = 1 /\ count x < limit.
Proof.
  intros I Hall Hx. destruct (g_live _ _ I i x Hx) as [_ [Hcount _ Hown Hws Hos Hph]].
  assert (Hz : forall f : pc -> Z, f Idle = 0 -> (forall p, asleep p = true -> f p = 0) -> total f (thr s) = 0).
  { intros f H0 H1. apply total_none. intros k p Hk. by destruct (Hall k p Hk) as [->|?]; auto. }
  rewrite (Hz (lclr i)), (Hz (prelast i)), (Hz (past i)), (Hz (bref i)), (Hz (dfin i)) in Hph by (done || by intros []).
  rewrite (Hz (lwk i)) in Hws by (done || by intros []). rewrite (Hz (dwake i)) in Hos by (done || by intros []).
  assert (Ew : total (wslp i) (thr s) = total (counted i) (thr s)) by (apply total_same; intros k p Hk; by destruct (Hall k p Hk) as [->|?]; [|destruct p]).
  assert (Eo : total (oslp i) (thr s) = total (own i) (thr s)) by (apply total_same; intros k p Hk; by destruct (Hall k p Hk) as [->|?]; [|destruct p]).
  assert (Ep : total (ownpast i) (thr s) = total (own i) (thr s)) by (apply total_same; intros k p Hk; by destruct (Hall k p Hk) as [->|?]; [|destruct p]).
  destruct Hph; lia.
Qed.

(** ** Theorems *)

Lemma init_limit threads limit : pthread_barrier_init threads = Some limit -> limit <> 0 -> 1 <= limit.
Proof.
  unfold pthread_barrier_init, to_u32. intros H H0. destruct (_ >? _); [done|]. injection H as <-. pose proof (Z.mod_pos_bound (threads - 1) (2 ^ 32) ltac:(lia)). lia.
Qed.

(** C10. musl's barrier refines the barrier that threads/barrier.c relies on.  For any
    number of threads that call [pthread_barrier_wait] in any order and as often as they
    like, every step of a thread either leaves the abstract barrier as it is, or is the
    arrival of that thread in the current round; a thread returns only from a round that
    is over; no thread is moved from one round to another by others; and no thread uses
    an instance whose owner has returned. *)
Theorem pbarrier_refines threads limit n s go j k s' p :
  pthread_barrier_init threads = Some limit -> limit <> 0 -> rtc (step limit) (start n) s -> thr s !! k = Some p -> exec limit go j k s = Some s' ->
  refines limit s s' k p /\ (forall m, m <> k -> entered <$> thr s' !! m = entered <$> thr s !! m) /\ (forall m, thr s' !! m <> Some Crashed).
Proof.
  intros Hi H0 Hs Hk H. pose proof (init_limit _ _ Hi H0) as HL. pose proof (reached_inv limit n s HL Hs) as I. split; [by eapply exec_refines|].
  split; [intros m Hm; by eapply exec_others|]. intros m. apply (not_crashed limit). by eapply exec_inv.
Qed.

(** Runs by a schedule: whether the thread stops spinning, the thread woken, and the
    thread that goes on. *)
Fixpoint run (limit : Z) (schedule : list (bool * nat * nat)) (s : st) : option st :=
  match schedule with
  | [] => Some s
  | (go, j, k) :: l => match exec limit go j k s with Some s' => run limit l s' | None => None end
  end.

Lemma schedule_steps limit schedule s s' : run limit schedule s = Some s' -> rtc (step limit) s s'.
Proof.
  revert s. induction schedule as [|[[go j] k] l IH]; intros s H; cbn in H; [injection H as <-; done|].
  destruct (exec limit go j k s) as [s1|] eqn:E; [|done]. eapply rtc_l; [by eapply Step|by apply IH].
Qed.

(** Two threads: the first is the owner and falls asleep; the second enters, leaves and is
    about to wake it. *)
Definition ex_schedule : list (bool * nat * nat) :=
  map (fun k => (true, 0%nat, k)) (replicate 10 0%nat ++ replicate 12 1%nat).
Definition ex_state : st := default (start 2) (run 1 ex_schedule (start 2)).

Lemma pbarrier_refines_witness :
  thr ex_state = [O_sleep 0; D_wake 0] /\ refines 1 ex_state (goto 1 Idle (wake_all (O_sleep 0) (O_chk 0) ex_state)) 1 (D_wake 0).
Proof.
  assert (E : run 1 ex_schedule (start 2) = Some ex_state) by (vm_compute; reflexivity).
  assert (Et : thr ex_state = [O_sleep 0; D_wake 0]) by (vm_compute; reflexivity). split; [exact Et|].
  apply (pbarrier_refines 2 1 2 ex_state false 0 1 _ (D_wake 0) eq_refl ltac:(lia) (schedule_steps 1 ex_schedule _ _ E)); [by rewrite Et|].
  unfold exec. by rewrite Et.
Defined.

(** C16. No thread sleeps for ever in [pthread_barrier_wait] while it could go on: when no
    thread in a call has a step left (waking up for no reason does not count), the threads
    in calls are exactly those that arrived in the current round, and they are fewer than
    the barrier is for.  No wake is lost, neither for the lock nor for an instance. *)
Theorem pbarrier_no_deadlock threads limit n s :
  pthread_barrier_init threads = Some limit -> limit <> 0 -> rtc (step limit) (start n) s ->
  (forall k p, thr s !! k = Some p -> p <> Idle -> forall j, exec limit false j k s = None) ->
  total busy (thr s) = Barrier.arrived (abs limit s) /\ total busy (thr s) <= limit.
Proof.
  intros Hinit Hne Hs Hstuck. pose proof (init_limit _ _ Hinit Hne) as HL. pose proof (reached_inv limit n s HL Hs) as I.
  assert (Hall : forall k p, thr s !! k = Some p -> p = Idle \/ asleep p = true).
  { intros k p Hk. destruct (decide (p = Idle)) as [|Hi]; [by left|right]. destruct (asleep p) eqn:Ea; [done|].
    destruct (enabled limit s k p Hk Hi) as (j & s' & H); [intros ->; by eapply (not_crashed limit s k)|done|]. by rewrite (Hstuck k p Hk Hi j) in H. }
  assert (Hz : forall f : pc -> Z, f Idle = 0 -> (forall p, asleep p = true -> f p = 0) -> total f (thr s) = 0).
  { intros f H0 H1. apply total_none. intros k p Hk. by destruct (Hall k p Hk) as [->|?]; auto. }
  pose proof (g_sleep _ _ I) as Hsl. rewrite (g_lock _ _ I), (Hz hl), (Hz act) in Hsl by (done || by intros []).
  assert (Hone : forall k p, thr s !! k = Some p -> p <> Idle -> exists i, mention p = Some i /\ b_inst s = Some i).
  { intros k p Hk Hp. destruct (Hall k p Hk) as [->|Ha]; [done|]. assert (Hp' : p <> A_sleep).
    { intros ->. pose proof (total_at slp _ _ _ ltac:(places) Hk). cbn in *. lia. }
    destruct (mention p) as [i|] eqn:Em; [|by destruct p]. exists i. split; [done|].
    destruct (alive limit s k p i I Hk) as (x & Hx & _); [destruct p; try done; injection Em as <-; indicators; lia|].
    destruct (asleep_current _ _ _ _ I Hall Hx) as [Hc _]. unfold cur in Hc. by case_decide. }
  unfold abs. destruct (b_inst s) as [i|] eqn:Eb.
  - destruct (g_cur _ _ I i Eb) as [_ [x Hx]]. destruct (asleep_current _ _ _ _ I Hall Hx) as [_ Hc]. destruct (g_live _ _ I i x Hx) as [_ [Hcount _ Hown _ _ _]].
    rewrite Hx. cbn [default from_option id]. rewrite (proj2 (Z.ltb_lt _ _)) by lia. cbn [Barrier.arrived].
    assert (E : total busy (thr s) = total (fun p => own i p + counted i p) (thr s)); [|rewrite E, total_plus; lia].
    apply total_same. intros k p Hk. destruct (Hall k p Hk) as [->|Ha]; [done|]. destruct (Hone k p Hk) as (i' & Hm & [= <-]); [by intros ->|].
    destruct p; try done; injection Hm as <-; cbn [busy]; indicators; lia.
  - cbn [Barrier.arrived]. rewrite (total_none busy); [lia|]. intros k p Hk. destruct (decide (p = Idle)) as [->|Hp]; [done|].
    by destruct (Hone k p Hk Hp) as (i & _ & ?).
Qed.

(** One thread alone sleeps in a barrier for two. *)
Definition ex_alone : st := default (start 1) (run 1 (replicate 10 (true, 0%nat, 0%nat)) (start 1)).

Lemma pbarrier_no_deadlock_witness : total busy (thr ex_alone) = Barrier.arrived (abs 1 ex_alone) /\ total busy (thr ex_alone) <= 1.
Proof.
  assert (E : run 1 (replicate 10 (true, 0%nat, 0%nat)) (start 1) = Some ex_alone) by (vm_compute; reflexivity).
  assert (Et : thr ex_alone = [O_sleep 0]) by (vm_compute; reflexivity).
  apply (pbarrier_no_deadlock 2 1 1 ex_alone eq_refl ltac:(lia) (schedule_steps 1 _ _ _ E)).
  intros [|k] p Hk Hp j; rewrite Et in Hk; [|discriminate]. unfold exec. by rewrite Et.
Defined.
End PbarrierThms.
